(** * The hybrid MLFQ / Stride scheduler of xv6 (proc.c)

    A shallow embedding of the scheduler core of [proc.c]: the process
    table, the intrusive doubly-linked lists that make up the ready sets,
    the stride min-heap, and the functions that move processes between
    them.  The kernel state [ptable] is threaded explicitly; pointers to
    [struct proc] are indices into [ptable.proc], pointers to
    [struct list_head] are values of type [node]. *)

From Stdlib Require Import ZArith List Lia Bool Arith Permutation FinFun.
Import ListNotations.
Open Scope Z_scope.

(** [lia] is to see through divisions by constants. *)
Ltac Zify.zify_post_hook ::= Z.to_euclidean_division_equations.

(* ================================================================= *)
(** ** C integers *)

(** [int] is a 32-bit two's complement integer; arithmetic wraps. *)
Definition wrap (z : Z) : Z := (z + 2 ^ 31) mod 2 ^ 32 - 2 ^ 31.
Definition add32 (a b : Z) : Z := wrap (a + b).
Definition sub32 (a b : Z) : Z := wrap (a - b).
Definition mul32 (a b : Z) : Z := wrap (a * b).
Definition in_int (z : Z) : Prop := - 2 ^ 31 <= z < 2 ^ 31.

(* ================================================================= *)
(** ** Tunables

    [param.h] and [scheduler.h] are not part of the sources at hand; the
    compile-time constants and macros they define are parameters of the
    development. *)

Class Tunables := {
  NPROC : nat;            (* number of slots of ptable.proc *)
  QSIZE : Z;              (* number of MLFQ levels *)
  TQ : Z -> Z;            (* time quantum of a level *)
  TA : Z -> Z;            (* time allotment of a level *)
  BOOSTINTERVAL : Z;      (* ticks between two priority boosts *)
  RESERVE : Z;            (* tickets kept for the MLFQ side *)
  STRD : Z -> Z;          (* stride of a ticket count *)
  BARRIER : Z;            (* pass value that triggers the rebase *)
  MAXINT : Z              (* pass reported for an empty heap *)
}.

(* ================================================================= *)
(** ** Processes *)

Inductive procstate := UNUSED | EMBRYO | SLEEPING | RUNNABLE | RUNNING | ZOMBIE.
Inductive schedtype := MLFQ | STRIDE.

(** A sleep channel is an address: null, the address of a process slot
    (as used by [wait] and [exit]), or some other kernel address. *)
Inductive chanid := NoChan | ProcChan (i : nat) | AddrChan (a : Z).

Record proc := mkProc {
  state : procstate;
  type : schedtype;
  privlevel : Z;
  ticks : Z;
  tickets : Z;
  pass : Z;
  chan : chanid;
  killed : Z;
  pid : Z;
  parent : option nat
}.

Definition procstate_eqb (a b : procstate) : bool :=
  match a, b with
  | UNUSED, UNUSED | EMBRYO, EMBRYO | SLEEPING, SLEEPING
  | RUNNABLE, RUNNABLE | RUNNING, RUNNING | ZOMBIE, ZOMBIE => true
  | _, _ => false
  end.

Definition schedtype_eqb (a b : schedtype) : bool :=
  match a, b with
  | MLFQ, MLFQ | STRIDE, STRIDE => true
  | _, _ => false
  end.

Definition chanid_eqb (a b : chanid) : bool :=
  match a, b with
  | NoChan, NoChan => true
  | ProcChan i, ProcChan j => Nat.eqb i j
  | AddrChan x, AddrChan y => Z.eqb x y
  | _, _ => false
  end.

Definition set_state (v : procstate) (p : proc) : proc :=
  mkProc v (type p) (privlevel p) (ticks p) (tickets p) (pass p) (chan p)
         (killed p) (pid p) (parent p).
Definition set_type (v : schedtype) (p : proc) : proc :=
  mkProc (state p) v (privlevel p) (ticks p) (tickets p) (pass p) (chan p)
         (killed p) (pid p) (parent p).
Definition set_privlevel (v : Z) (p : proc) : proc :=
  mkProc (state p) (type p) v (ticks p) (tickets p) (pass p) (chan p)
         (killed p) (pid p) (parent p).
Definition set_ticks (v : Z) (p : proc) : proc :=
  mkProc (state p) (type p) (privlevel p) v (tickets p) (pass p) (chan p)
         (killed p) (pid p) (parent p).
Definition set_tickets (v : Z) (p : proc) : proc :=
  mkProc (state p) (type p) (privlevel p) (ticks p) v (pass p) (chan p)
         (killed p) (pid p) (parent p).
Definition set_pass (v : Z) (p : proc) : proc :=
  mkProc (state p) (type p) (privlevel p) (ticks p) (tickets p) v (chan p)
         (killed p) (pid p) (parent p).
Definition set_chan (v : chanid) (p : proc) : proc :=
  mkProc (state p) (type p) (privlevel p) (ticks p) (tickets p) (pass p) v
         (killed p) (pid p) (parent p).
Definition set_killed (v : Z) (p : proc) : proc :=
  mkProc (state p) (type p) (privlevel p) (ticks p) (tickets p) (pass p)
         (chan p) v (pid p) (parent p).
Definition set_pid (v : Z) (p : proc) : proc :=
  mkProc (state p) (type p) (privlevel p) (ticks p) (tickets p) (pass p)
         (chan p) (killed p) v (parent p).
Definition set_parent (v : option nat) (p : proc) : proc :=
  mkProc (state p) (type p) (privlevel p) (ticks p) (tickets p) (pass p)
         (chan p) (killed p) (pid p) v.

(* ================================================================= *)
(** ** List nodes

    Every [struct list_head] of the kernel image that the scheduler
    touches: the sentinel heads inside [ptable] and the three nodes
    embedded in each process slot.  The fields of a list_head that was
    never initialised hold the null pointer; a read through the null
    pointer is not modelled as a trap. *)

Inductive node :=
| NullNode               (* the null pointer *)
| QueueHead (l : Z)      (* &ptable.mlfq.queue[l] *)
| RunHead                (* &ptable.stride.run *)
| SleepHead              (* &ptable.sleep *)
| FreeHead               (* &ptable.free *)
| PQueue (i : nat)       (* &ptable.proc[i].queue *)
| PChildren (i : nat)    (* &ptable.proc[i].children *)
| PSibling (i : nat).    (* &ptable.proc[i].sibling *)

Definition node_eqb (a b : node) : bool :=
  match a, b with
  | QueueHead l, QueueHead m => Z.eqb l m
  | NullNode, NullNode
  | RunHead, RunHead | SleepHead, SleepHead | FreeHead, FreeHead => true
  | PQueue i, PQueue j | PChildren i, PChildren j | PSibling i, PSibling j =>
      Nat.eqb i j
  | _, _ => false
  end.

(* ================================================================= *)
(** ** The kernel state guarded by ptable.lock *)

Record ptable := mkPtable {
  procs : nat -> proc;          (* ptable.proc[] *)
  nxt : node -> node;           (* the next field of every list_head *)
  prv : node -> node;           (* the prev field of every list_head *)
  pin : Z -> node;              (* ptable.mlfq.pin[] *)
  mlfq_ticks : Z;               (* ptable.mlfq.ticks *)
  mlfq_pass : Z;                (* ptable.mlfq.pass *)
  mlfq_tickets : Z;             (* ptable.mlfq.tickets *)
  minheap : Z -> nat;           (* ptable.stride.minheap[] *)
  stride_size : Z;              (* ptable.stride.size *)
  initproc : option nat;        (* static struct proc *initproc *)
  nextpid : Z                   (* int nextpid *)
}.

Definition with_procs (v : nat -> proc) (s : ptable) : ptable :=
  mkPtable v (nxt s) (prv s) (pin s) (mlfq_ticks s) (mlfq_pass s)
           (mlfq_tickets s) (minheap s) (stride_size s) (initproc s)
           (nextpid s).
Definition with_nxt (v : node -> node) (s : ptable) : ptable :=
  mkPtable (procs s) v (prv s) (pin s) (mlfq_ticks s) (mlfq_pass s)
           (mlfq_tickets s) (minheap s) (stride_size s) (initproc s)
           (nextpid s).
Definition with_prv (v : node -> node) (s : ptable) : ptable :=
  mkPtable (procs s) (nxt s) v (pin s) (mlfq_ticks s) (mlfq_pass s)
           (mlfq_tickets s) (minheap s) (stride_size s) (initproc s)
           (nextpid s).
Definition with_pin (v : Z -> node) (s : ptable) : ptable :=
  mkPtable (procs s) (nxt s) (prv s) v (mlfq_ticks s) (mlfq_pass s)
           (mlfq_tickets s) (minheap s) (stride_size s) (initproc s)
           (nextpid s).
Definition with_mlfq_ticks (v : Z) (s : ptable) : ptable :=
  mkPtable (procs s) (nxt s) (prv s) (pin s) v (mlfq_pass s)
           (mlfq_tickets s) (minheap s) (stride_size s) (initproc s)
           (nextpid s).
Definition with_mlfq_pass (v : Z) (s : ptable) : ptable :=
  mkPtable (procs s) (nxt s) (prv s) (pin s) (mlfq_ticks s) v
           (mlfq_tickets s) (minheap s) (stride_size s) (initproc s)
           (nextpid s).
Definition with_mlfq_tickets (v : Z) (s : ptable) : ptable :=
  mkPtable (procs s) (nxt s) (prv s) (pin s) (mlfq_ticks s) (mlfq_pass s)
           v (minheap s) (stride_size s) (initproc s)
           (nextpid s).
Definition with_minheap (v : Z -> nat) (s : ptable) : ptable :=
  mkPtable (procs s) (nxt s) (prv s) (pin s) (mlfq_ticks s) (mlfq_pass s)
           (mlfq_tickets s) v (stride_size s) (initproc s)
           (nextpid s).
Definition with_initproc (v : option nat) (s : ptable) : ptable :=
  mkPtable (procs s) (nxt s) (prv s) (pin s) (mlfq_ticks s) (mlfq_pass s)
           (mlfq_tickets s) (minheap s) (stride_size s) v (nextpid s).
Definition with_nextpid (v : Z) (s : ptable) : ptable :=
  mkPtable (procs s) (nxt s) (prv s) (pin s) (mlfq_ticks s) (mlfq_pass s)
           (mlfq_tickets s) (minheap s) (stride_size s) (initproc s) v.
Definition with_stride_size (v : Z) (s : ptable) : ptable :=
  mkPtable (procs s) (nxt s) (prv s) (pin s) (mlfq_ticks s) (mlfq_pass s)
           (mlfq_tickets s) (minheap s) v (initproc s) (nextpid s).

(** Writes through a pointer or into an array cell. *)
Definition updn {A} (f : node -> A) (k : node) (v : A) : node -> A :=
  fun x => if node_eqb x k then v else f x.
Definition updz {A} (f : Z -> A) (k : Z) (v : A) : Z -> A :=
  fun x => if Z.eqb x k then v else f x.
Definition updp {A} (f : nat -> A) (k : nat) (v : A) : nat -> A :=
  fun x => if Nat.eqb x k then v else f x.

(** [p->field = ...] for the slot [i]. *)
Definition upd_proc (i : nat) (f : proc -> proc) (s : ptable) : ptable :=
  with_procs (updp (procs s) i (f (procs s i))) s.

Definition set_next (n v : node) (s : ptable) : ptable :=
  with_nxt (updn (nxt s) n v) s.
Definition set_prev (n v : node) (s : ptable) : ptable :=
  with_prv (updn (prv s) n v) s.
Definition set_pin (l : Z) (v : node) (s : ptable) : ptable :=
  with_pin (updz (pin s) l v) s.

(* ================================================================= *)
(** ** Outcomes of kernel code *)

(** A kernel path either returns, panics, follows a pointer that is not
    what the code takes it for, or does not come back within the number
    of loop iterations it was given. *)
Inductive error := EPanic | EWild | EFuel.
Inductive result (A : Type) := Done (a : A) | Fail (e : error).
Arguments Done {A} a.
Arguments Fail {A} e.

Definition bind {A B} (r : result A) (k : A -> result B) : result B :=
  match r with
  | Done a => k a
  | Fail e => Fail e
  end.

Notation "x <- r ;; k" := (bind r (fun x => k))
  (at level 61, r at next level, right associativity).

(** [for(z = lo; z < hi; z++)] *)
Definition zrange (lo hi : Z) : list Z :=
  map (fun k => lo + Z.of_nat k) (seq 0 (Z.to_nat (hi - lo))).

(* ================================================================= *)
(** ** list.h *)

(** Modelled from the spec: [list.h] is not part of the sources at hand.
    The spec describes a cyclic doubly-linked list with a sentinel header
    and the operations init, add (insert after head), add_tail (insert
    before head), del (updates only the neighbours of the removed node),
    empty, and bulk_move_tail (splice the entire source into the tail of
    the destination, leaving the source empty). *)
Definition list_head_init (h : node) (s : ptable) : ptable :=
  set_prev h h (set_next h h s).

Definition list_insert_between (new prev next : node) (s : ptable) : ptable :=
  set_next prev new (set_prev new prev (set_next new next (set_prev next new s))).

Definition list_add (new head : node) (s : ptable) : ptable :=
  list_insert_between new head (nxt s head) s.

Definition list_add_tail (new head : node) (s : ptable) : ptable :=
  list_insert_between new (prv s head) head s.

Definition list_del (entry : node) (s : ptable) : ptable :=
  let p := prv s entry in
  let n := nxt s entry in
  set_prev n p (set_next p n s).

Definition list_empty (head : node) (s : ptable) : bool :=
  node_eqb (nxt s head) head.

Definition list_is_head (itr head : node) : bool := node_eqb itr head.

Definition list_bulk_move_tail (src dst : node) (s : ptable) : ptable :=
  if list_empty src s then s else
  let first := nxt s src in
  let last := prv s src in
  let tail := prv s dst in
  list_head_init src
    (set_prev dst last (set_next last dst
       (set_next tail first (set_prev first tail s)))).

(** [list_entry(itr, struct proc, queue)]: only a queue node lies inside
    a process slot. *)
Definition queue_entry (n : node) : result nat :=
  match n with
  | PQueue i => Done i
  | _ => Fail EWild
  end.

(** [list_entry(itr, struct proc, sibling)] *)
Definition sibling_entry (n : node) : result nat :=
  match n with
  | PSibling i => Done i
  | _ => Fail EWild
  end.

(** [for(itr = q->next; itr != q; itr = itr->next) body(itr)], entered
    with [itr] already loaded. *)
Fixpoint list_for_each (fuel : nat) (q itr : node)
         (body : node -> ptable -> result ptable) (s : ptable) : result ptable :=
  match fuel with
  | O => Fail EFuel
  | S f =>
      if node_eqb itr q then Done s else
      s' <- body itr s ;;
      list_for_each f q (nxt s' itr) body s'
  end.

(* ================================================================= *)
(** ** proc.c *)

Section Proc.
Context {T : Tunables}.

(** The part of [struct proc] a process pointer is dereferenced for. *)
Definition pstate (s : ptable) (i : nat) : procstate := state (procs s i).
Definition ptype (s : ptable) (i : nat) : schedtype := type (procs s i).
Definition ppass (s : ptable) (i : nat) : Z := pass (procs s i).

(** [getminpass] *)
Definition getminpass (s : ptable) : Z :=
  if 0 <? stride_size s then ppass s (minheap s 1) else MAXINT.

(** The [while] loop of [pushheap]: returns the array and the final [i]. *)
Fixpoint pushheap_loop (fuel : nat) (s : ptable) (p : nat) (i : Z)
         (h : Z -> nat) : result ((Z -> nat) * Z) :=
  match fuel with
  | O => Fail EFuel
  | S f =>
      if negb (i =? 1) && (ppass s p <? ppass s (h (Z.quot i 2))) then
        pushheap_loop f s p (Z.quot i 2) (updz h i (h (Z.quot i 2)))
      else Done (h, i)
  end.

(** [pushheap]: the loop halves [i], so [i] rounds are enough when the
    new size is positive. *)
Definition pushheap (p : nat) (s : ptable) : result ptable :=
  let i := add32 (stride_size s) 1 in
  let s1 := with_stride_size i s in
  r <- pushheap_loop (Z.to_nat i) s1 p i (minheap s1) ;;
  Done (with_minheap (updz (fst r) (snd r) p) s1).

(** The [for] loop of [popheap]: returns the array and the final [parent]. *)
Fixpoint popheap_loop (fuel : nat) (s : ptable) (last : nat) (parent child : Z)
         (h : Z -> nat) : result ((Z -> nat) * Z) :=
  match fuel with
  | O => Fail EFuel
  | S f =>
      if child <=? stride_size s then
        let child1 :=
          if (child <? stride_size s) &&
             (ppass s (h child) >? ppass s (h (add32 child 1)))
          then add32 child 1 else child in
        if ppass s last <=? ppass s (h child1) then Done (h, parent)
        else popheap_loop f s last child1 (mul32 child1 2)
                          (updz h parent (h child1))
      else Done (h, parent)
  end.

(** [popheap]: [parent] grows in every round and stays below the size. *)
Definition popheap (s : ptable) : result (nat * ptable) :=
  let min := minheap s 1 in
  let last := minheap s (stride_size s) in
  let s1 := with_stride_size (sub32 (stride_size s) 1) s in
  r <- popheap_loop (Z.to_nat (stride_size s)) s1 last 1 2 (minheap s1) ;;
  Done (min, with_minheap (updz (fst r) (snd r) last) s1).

(** [enqueue] *)
Definition enqueue (level : Z) (p : nat) (s : ptable) : ptable :=
  list_add_tail (PQueue p) (QueueHead level) s.

(** [concatqueue] *)
Definition concatqueue (src dst : Z) (s : ptable) : ptable :=
  let srcq := QueueHead src in
  let dstq := QueueHead dst in
  let s1 := if list_empty dstq s && negb (node_eqb (pin s src) srcq)
            then set_pin dst (pin s src) s else s in
  let s2 := set_pin src srcq s1 in
  list_bulk_move_tail srcq dstq s2.

(** [dequeue] *)
Definition dequeue (p : nat) (s : ptable) : ptable :=
  let l := privlevel (procs s p) in
  let itr := PQueue p in
  let s1 := if node_eqb (pin s l) itr then set_pin l (nxt s itr) s else s in
  list_del itr s1.

(** [pinit] (the lock itself is not part of the state). *)
Definition pinit (s : ptable) : ptable :=
  let s1 := fold_left
              (fun s i => set_pin i (QueueHead i) (list_head_init (QueueHead i) s))
              (zrange 0 QSIZE) s in
  let s2 := list_head_init RunHead s1 in
  let s3 := list_head_init SleepHead s2 in
  let s4 := list_head_init FreeHead s3 in
  let s5 := fold_left (fun s i => list_add_tail (PQueue i) FreeHead s)
                      (seq 0 NPROC) s4 in
  with_mlfq_tickets 100 s5.

(** [allocproc].  [kalloc_ok] tells whether [kalloc] hands out a kernel
    stack; the stack, the trap frame and the context are not part of
    [ptable].  No slot is returned when the free list is empty, and none
    when [kalloc] fails: the slot, which has its pid by then, goes back
    to the front of the free list as UNUSED. *)
Definition allocproc (kalloc_ok : bool) (s : ptable)
  : result (option nat * ptable) :=
  if negb (list_empty FreeHead s) then
    p <- queue_entry (nxt s FreeHead) ;;
    let s1 := list_del (PQueue p) s in
    let s2 := upd_proc p (set_state EMBRYO) s1 in
    let s3 := upd_proc p (set_pid (nextpid s2)) s2 in
    let s4 := with_nextpid (add32 (nextpid s3) 1) s3 in
    let s5 := list_head_init (PChildren p) s4 in
    if kalloc_ok then Done (Some p, s5)
    else
      let s6 := upd_proc p (set_state UNUSED) s5 in
      Done (None, list_add (PQueue p) FreeHead s6)
  else Done (None, s).

(** [userinit], as far as [ptable] is concerned.  [setupkvm_ok] tells
    whether [setupkvm] hands out a page table.  The slot that
    [allocproc] returns is not checked: without a slot the store to
    [p->pgdir] goes through the null pointer. *)
Definition userinit (kalloc_ok setupkvm_ok : bool) (s : ptable)
  : result ptable :=
  r <- allocproc kalloc_ok s ;;
  match fst r with
  | Some p =>
      let s1 := with_initproc (Some p) (snd r) in
      if setupkvm_ok then
        let s2 := upd_proc p (set_state RUNNABLE) s1 in
        Done (enqueue (privlevel (procs s2 p)) p s2)
      else Fail EPanic
  | None => Fail EWild
  end.

(** [fork] by the current process [cur]; returns the pid of the child,
    or -1.  [copyuvm_ok] tells whether [copyuvm] hands out the copy of
    the address space; when it does not, the slot goes back to the front
    of the free list as UNUSED. *)
Definition fork (kalloc_ok copyuvm_ok : bool) (cur : nat) (s : ptable)
  : result (Z * ptable) :=
  r <- allocproc kalloc_ok s ;;
  match fst r with
  | Some np =>
      if copyuvm_ok then
        let s1 := upd_proc np (set_parent (Some cur)) (snd r) in
        let s2 := list_add_tail (PSibling np) (PChildren cur) s1 in
        let s3 := upd_proc np (set_type MLFQ) s2 in
        let s4 := upd_proc np (set_state RUNNABLE) s3 in
        Done (pid (procs s4 np), enqueue (privlevel (procs s4 np)) np s4)
      else
        let s1 := upd_proc np (set_state UNUSED) (snd r) in
        Done (-1, list_add (PQueue np) FreeHead s1)
  | None => Done (-1, snd r)
  end.

(** [inctick], for the current process [cur]. *)
Definition inctick (cur : nat) (s : ptable) : ptable :=
  upd_proc cur (fun p => set_ticks (add32 (ticks p) 1) p) s.

(** [set_cpu_share], called by the current process [cur]. *)
Definition set_cpu_share (cur : nat) (share : Z) (s : ptable) : ptable * Z :=
  if (share <? 1) || (share >? sub32 100 RESERVE) then (s, -1) else
  let remain := mlfq_tickets s in
  let remain := match ptype s cur with
                | STRIDE => add32 remain (tickets (procs s cur))
                | MLFQ => remain
                end in
  if sub32 remain share >=? RESERVE then
    let s1 := match ptype s cur with
              | MLFQ =>
                  let a := dequeue cur s in
                  let minpass := getminpass a in
                  let mlfqpass := mlfq_pass a in
                  let b := upd_proc cur
                             (set_pass (if minpass <? mlfqpass
                                        then minpass else mlfqpass)) a in
                  let c := upd_proc cur (set_type STRIDE) b in
                  list_add (PQueue cur) RunHead c
              | STRIDE => s
              end in
    let s2 := with_mlfq_tickets (sub32 remain share) s1 in
    let s3 := upd_proc cur (set_tickets share) s2 in
    (s3, 0)
  else (s, -1).

(** The body of the loop of [wakeup1], entered with [itr] loaded. *)
Fixpoint wakeup1_loop (fuel : nat) (c : chanid) (itr : node) (s : ptable)
  : result ptable :=
  match fuel with
  | O => Fail EFuel
  | S f =>
      if node_eqb itr SleepHead then Done s else
      p <- queue_entry itr ;;
      if chanid_eqb (chan (procs s p)) c then
        let prev := prv s itr in
        let s1 := list_del itr s in
        let s2 := upd_proc p (set_state RUNNABLE) s1 in
        let s3 := match ptype s2 p with
                  | MLFQ => enqueue (privlevel (procs s2 p)) p s2
                  | STRIDE => s2
                  end in
        wakeup1_loop f c (nxt s3 prev) s3
      else wakeup1_loop f c (nxt s itr) s
  end.

(** [wakeup1] *)
Definition wakeup1 (fuel : nat) (c : chanid) (s : ptable) : result ptable :=
  wakeup1_loop fuel c (nxt s SleepHead) s.

(** [wakeup] *)
Definition wakeup (fuel : nat) (c : chanid) (s : ptable) : result ptable :=
  wakeup1 fuel c s.

(** A process pointer used as a sleep channel. *)
Definition chan_of_ptr (p : option nat) : chanid :=
  match p with
  | Some i => ProcChan i
  | None => NoChan
  end.

(** [exit], from [acquire(&ptable.lock)] up to the call of [sched]; the
    file-system calls before it do not touch [ptable]. *)
Definition exit (fuel : nat) (cur : nat) (s : ptable) : result ptable :=
  match initproc s with
  | Some i0 =>
      if Nat.eqb cur i0 then Fail EPanic else
      s1 <- wakeup1 fuel (chan_of_ptr (parent (procs s cur))) s ;;
      let children := PChildren cur in
      s2 <- list_for_each fuel children (nxt s1 children)
              (fun itr a =>
                 p <- sibling_entry itr ;;
                 let b := upd_proc p (set_parent (initproc a)) a in
                 match pstate b p with
                 | ZOMBIE => wakeup1 fuel (chan_of_ptr (initproc b)) b
                 | _ => Done b
                 end) s1 ;;
      let s3 := list_bulk_move_tail children (PChildren i0) s2 in
      let s4 := match ptype s3 cur with
                | MLFQ => dequeue cur s3
                | STRIDE =>
                    list_del (PQueue cur)
                      (with_mlfq_tickets
                         (add32 (mlfq_tickets s3) (tickets (procs s3 cur))) s3)
                end in
      Done (upd_proc cur (set_state ZOMBIE) s4)
  | None => Fail EWild
  end.

(** One level of [mlfqselect]: the [do ... while] walk from the pin. *)
Fixpoint mlfqselect_walk (fuel : nat) (q start itr : node) (s : ptable)
  : result (option nat) :=
  match fuel with
  | O => Fail EFuel
  | S f =>
      hit <- (if list_is_head itr q then Done None else
              p <- queue_entry itr ;;
              match pstate s p with
              | RUNNABLE => Done (Some p)
              | _ => Done None
              end) ;;
      match hit with
      | Some p => Done (Some p)
      | None =>
          let itr' := nxt s itr in
          if node_eqb itr' start then Done None
          else mlfqselect_walk f q start itr' s
      end
  end.

(** The [for] over the levels in [mlfqselect]. *)
Fixpoint mlfqselect_levels (fuel : nat) (ls : list Z) (s : ptable)
  : result (option nat * ptable) :=
  match ls with
  | [] => Done (None, s)
  | l :: ls' =>
      r <- mlfqselect_walk fuel (QueueHead l) (pin s l) (pin s l) s ;;
      match r with
      | Some p => Done (Some p, set_pin l (PQueue p) s)
      | None => mlfqselect_levels fuel ls' s
      end
  end.

(** [mlfqselect] *)
Definition mlfqselect (fuel : nat) (s : ptable) : result (option nat * ptable) :=
  mlfqselect_levels fuel (zrange 0 QSIZE) s.

(** The [switch] of [mlfqlogic]. *)
Definition mlfqlogic_account (p : nat) (s : ptable) : result ptable :=
  let l0 := privlevel (procs s p) in
  let baselevel := sub32 QSIZE 1 in
  match pstate s p with
  | RUNNABLE =>
      let s1 := upd_proc p (fun x => set_ticks (add32 (ticks x) 1) x) s in
      let x := procs s1 p in
      if (privlevel x <? baselevel) && (Z.rem (ticks x) (TA (privlevel x)) =? 0)
      then
        let s2 := dequeue p s1 in
        let s3 := upd_proc p (fun x => set_privlevel (add32 (privlevel x) 1) x) s2 in
        let s4 := enqueue (privlevel (procs s3 p)) p s3 in
        Done (upd_proc p (set_ticks 0) s4)
      else if Z.rem (ticks x) (TQ (privlevel x)) =? 0 then
        Done (set_pin l0 (nxt s1 (PQueue p)) s1)
      else Done s1
  | SLEEPING =>
      let x := procs s p in
      if (privlevel x <? baselevel) && (ticks x >=? TA (privlevel x)) then
        let s1 := upd_proc p (fun x => set_privlevel (add32 (privlevel x) 1) x) s in
        Done (upd_proc p (set_ticks 0) s1)
      else
        Done (upd_proc p
                (fun x => set_ticks
                            (mul32 (Z.quot (ticks x) (TQ (privlevel x)))
                                   (TQ (privlevel x))) x) s)
  | ZOMBIE => Done s
  | _ => Fail EPanic
  end.

(** The reset applied to each process met during a priority boost. *)
Definition boost_reset (itr : node) (s : ptable) : result ptable :=
  p <- queue_entry itr ;;
  Done (upd_proc p (set_ticks 0) (upd_proc p (set_privlevel 0) s)).

(** The [for] over the levels [1 .. baselevel] of the priority boost. *)
Fixpoint boost_levels (fuel : nat) (ls : list Z) (s : ptable) : result ptable :=
  match ls with
  | [] => Done s
  | l :: ls' =>
      let q := QueueHead l in
      s1 <- list_for_each fuel q (nxt s q) boost_reset s ;;
      boost_levels fuel ls' (concatqueue l 0 s1)
  end.

(** The priority boost of [mlfqlogic]. *)
Definition mlfqlogic_boost (fuel : nat) (s : ptable) : result ptable :=
  let baselevel := sub32 QSIZE 1 in
  s1 <- boost_levels fuel (zrange 1 (baselevel + 1)) s ;;
  list_for_each fuel SleepHead (nxt s1 SleepHead) boost_reset s1.

(** [mlfqlogic] *)
Definition mlfqlogic (fuel : nat) (p : nat) (s : ptable) : result ptable :=
  (* ppin is taken inside [mlfqlogic_account], before any update of p *)
  let s0 := with_mlfq_ticks (add32 (mlfq_ticks s) 1) s in
  s1 <- mlfqlogic_account p s0 ;;
  if Z.rem (mlfq_ticks s1) BOOSTINTERVAL =? 0
  then mlfqlogic_boost fuel s1 else Done s1.

(** [minpass] of [stridelogic]. *)
Definition stride_minpass (p : option nat) (s : ptable) : Z :=
  match p with
  | None => mlfq_pass s
  | Some i => match ptype s i with
              | MLFQ => mlfq_pass s
              | STRIDE => ppass s i
              end
  end.

(** [pitr->pass -= minpass] *)
Definition rebase_proc (minpass : Z) (i : nat) (s : ptable) : ptable :=
  upd_proc i (fun x => set_pass (sub32 (pass x) minpass) x) s.

(** The pass overflow handling of [stridelogic]. *)
Definition stridelogic_rebase (fuel : nat) (p : option nat) (s : ptable)
  : result ptable :=
  let minpass := stride_minpass p s in
  if minpass >? BARRIER then
    let s1 := fold_left (fun a i => rebase_proc minpass (minheap a i) a)
                        (zrange 1 (stride_size s + 1)) s in
    s2 <- list_for_each fuel RunHead (nxt s1 RunHead)
            (fun itr a => i <- queue_entry itr ;; Done (rebase_proc minpass i a))
            s1 ;;
    Done (with_mlfq_pass (sub32 (mlfq_pass s2) minpass) s2)
  else Done s.

(** The pass increase of [stridelogic]. *)
Definition stridelogic_advance (p : option nat) (s : ptable) : result ptable :=
  let mlfq_ran :=
    Done (with_mlfq_pass (add32 (mlfq_pass s) (STRD (mlfq_tickets s))) s) in
  match p with
  | None => mlfq_ran
  | Some i =>
      match ptype s i with
      | MLFQ => mlfq_ran
      | STRIDE =>
          match pstate s i with
          | RUNNABLE | SLEEPING =>
              pushheap i
                (upd_proc i
                   (fun x => set_pass (add32 (pass x) (STRD (tickets x))) x) s)
          | _ => Done s
          end
      end
  end.

(** [stridelogic] *)
Definition stridelogic (fuel : nat) (p : option nat) (s : ptable)
  : result ptable :=
  s1 <- stridelogic_rebase fuel p s ;;
  stridelogic_advance p s1.

(** The choice of the next process in [scheduler]. *)
Definition sched_pick (fuel : nat) (s : ptable) : result (option nat * ptable) :=
  if getminpass s <? mlfq_pass s then
    r <- popheap s ;; Done (Some (fst r), snd r)
  else mlfqselect fuel s.

(** The switch to the chosen process in [scheduler]: a STRIDE process
    goes onto the run list, and the process becomes RUNNING. *)
Definition sched_dispatch (i : nat) (s : ptable) : ptable :=
  let a := match ptype s i with
           | STRIDE => list_add (PQueue i) RunHead s
           | MLFQ => s
           end in
  upd_proc i (set_state RUNNING) a.

(** The loop body of [scheduler] once the process is chosen.  [swtch i]
    stands for what happens between the switch to process [i] and the
    switch back to the scheduler. *)
Definition sched_run (fuel : nat) (swtch : nat -> ptable -> result ptable)
           (p : option nat) (s1 : ptable) : result ptable :=
  s2 <- match p with
        | Some i =>
            match pstate s1 i with
            | RUNNABLE =>
                c <- swtch i (sched_dispatch i s1) ;;
                match ptype c i with
                | MLFQ => mlfqlogic fuel i c
                | STRIDE => Done c
                end
            | _ => Done s1
            end
        | None => Done s1
        end ;;
  stridelogic fuel p s2.

(** One round of the loop of [scheduler], from [acquire] to [release]. *)
Definition scheduler_round (fuel : nat)
           (swtch : nat -> ptable -> result ptable) (s : ptable)
  : result ptable :=
  r <- sched_pick fuel s ;;
  sched_run fuel swtch (fst r) (snd r).

(** [yield], up to the call of [sched]. *)
Definition yield (cur : nat) (s : ptable) : ptable :=
  let s1 := match ptype s cur with
            | STRIDE => list_del (PQueue cur) s
            | MLFQ => s
            end in
  upd_proc cur (set_state RUNNABLE) s1.

(** [sleep], from the point where ptable.lock is held up to [sched]. *)
Definition sleep (cur : nat) (c : chanid) (s : ptable) : ptable :=
  let s1 := upd_proc cur (set_chan c) s in
  let s2 := match ptype s1 cur with
            | MLFQ => dequeue cur s1
            | STRIDE => list_del (PQueue cur) s1
            end in
  let s3 := upd_proc cur (set_state SLEEPING) s2 in
  list_add (PQueue cur) SleepHead s3.

(** What [kill] does to the slot whose pid matches. *)
Definition kill_found (i : nat) (s : ptable) : ptable :=
  let s1 := upd_proc i (set_killed 1) s in
  match pstate s1 i with
  | SLEEPING =>
      let a := list_del (PQueue i) s1 in
      let b := upd_proc i (set_state RUNNABLE) a in
      match ptype b i with
      | MLFQ => enqueue (privlevel (procs b i)) i b
      | STRIDE => b
      end
  | _ => s1
  end.

(** The scan of the process table in [kill]. *)
Fixpoint kill_scan (slots : list nat) (target : Z) (s : ptable) : ptable * Z :=
  match slots with
  | [] => (s, -1)
  | i :: rest =>
      if pid (procs s i) =? target then (kill_found i s, 0)
      else kill_scan rest target s
  end.

(** [kill] *)
Definition kill (target : Z) (s : ptable) : ptable * Z :=
  kill_scan (seq 0 NPROC) target s.

End Proc.

(* ================================================================= *)
(** ** Properties of the stride heap *)

Section HeapDefs.
Context {T : Tunables}.

(** The processes stored in [minheap[1..size]], in array order. *)
Definition heap_elems (s : ptable) : list nat :=
  map (minheap s) (zrange 1 (stride_size s + 1)).

(** The min-heap property on [minheap[1..size]]: every index is at most
    its children, where they exist. *)
Definition heap_property (s : ptable) : Prop :=
  forall i, 1 <= i ->
    (2 * i <= stride_size s ->
       ppass s (minheap s i) <= ppass s (minheap s (2 * i))) /\
    (2 * i + 1 <= stride_size s ->
       ppass s (minheap s i) <= ppass s (minheap s (2 * i + 1))).

(** The same, read from the child: every non-root index is at least its
    parent. *)
Definition heap_upto (key : nat -> Z) (h : Z -> nat) (n : Z) : Prop :=
  forall j, 2 <= j <= n -> key (h (j / 2)) <= key (h j).

(** The array [h] is a heap on [1..n] except at the hole [i], whose cell
    is about to be overwritten. *)
Definition hole_heap (key : nat -> Z) (n : Z) (h : Z -> nat) (i : Z) : Prop :=
  (forall j, 2 <= j <= n -> j <> i -> j / 2 <> i -> key (h (j / 2)) <= key (h j)) /\
  (forall j, 2 <= j <= n -> j / 2 = i -> 2 <= i -> key (h (i / 2)) <= key (h j)).

End HeapDefs.

(* ================================================================= *)
(** ** Well-formed lists *)

(** Consecutive elements of [l] are linked by the pointer field [f]. *)
Fixpoint linked (f : node -> node) (l : list node) : Prop :=
  match l with
  | [] => True
  | a :: t => match t with
              | [] => True
              | b :: _ => f a = b /\ linked f t
              end
  end.

(** The list headed by the sentinel [h] holds exactly the nodes [xs],
    in this order: following next from [h] runs through [xs] and back
    to [h], following prev runs through [xs] backwards. *)
Definition is_list (s : ptable) (h : node) (xs : list node) : Prop :=
  NoDup (h :: xs) /\
  linked (nxt s) (h :: xs ++ [h]) /\
  linked (prv s) (h :: rev xs ++ [h]).

(** The contents of every list, by head. *)
Definition layout := node -> list node.

Definition updl (L : layout) (h : node) (xs : list node) : layout :=
  fun k => if node_eqb k h then xs else L k.

(** The heads [hs] carry well-formed lists with the contents [L]; no
    element is a head, and no node is on two lists. *)
Definition lists_ok (s : ptable) (hs : list node) (L : layout) : Prop :=
  (forall h, In h hs -> is_list s h (L h)) /\
  (forall h x, In h hs -> In x (L h) -> ~ In x hs) /\
  (forall h h' x, In h hs -> In h' hs -> h <> h' -> In x (L h) -> ~ In x (L h')).

(** [x] is on none of the lists. *)
Definition off_lists (hs : list node) (L : layout) (x : node) : Prop :=
  ~ In x hs /\ forall h, In h hs -> ~ In x (L h).

(** The node that follows [x] on the list of [h] with contents [xs]. *)
Fixpoint successor (h : node) (xs : list node) (x : node) : node :=
  match xs with
  | [] => h
  | y :: t => if node_eqb y x then hd h t else successor h t x
  end.

(* ================================================================= *)
(** ** Properties of the MLFQ side *)

Section MlfqDefs.
Context {T : Tunables}.

(** A node embedded in a process slot as its [queue] field. *)
Definition is_pqueue (n : node) : Prop := exists i, n = PQueue i.

(** Pin validity at level [l]: the pin is the sentinel of the level or
    a node linked into its queue. *)
Definition pin_valid (s : ptable) (L : layout) (l : Z) : Prop :=
  pin s l = QueueHead l \/ In (pin s l) (L (QueueHead l)).

Definition pins_valid (s : ptable) (L : layout) : Prop :=
  forall l, 0 <= l < QSIZE -> pin_valid s L l.

(** The MLFQ queues are well-formed lists of process nodes. *)
Definition mlfq_ok (s : ptable) (hs : list node) (L : layout) : Prop :=
  lists_ok s hs L /\
  (forall l, 0 <= l < QSIZE -> In (QueueHead l) hs) /\
  (forall l n, 0 <= l < QSIZE -> In n (L (QueueHead l)) -> is_pqueue n).

(** [c] cut in front of the first occurrence of [x]. *)
Fixpoint split_at (c : list node) (x : node) : list node * list node :=
  match c with
  | [] => ([], [])
  | y :: t => if node_eqb y x then ([], c)
              else (y :: fst (split_at t x), snd (split_at t x))
  end.

(** The cycle [c] read once around, starting from [x]. *)
Definition rotate_from (c : list node) (x : node) : list node :=
  snd (split_at c x) ++ fst (split_at c x).

(** The first process node of [ns] whose process is RUNNABLE; the
    sentinel is skipped. *)
Fixpoint first_runnable (s : ptable) (ns : list node) : option nat :=
  match ns with
  | [] => None
  | PQueue p :: t =>
      match pstate s p with
      | RUNNABLE => Some p
      | _ => first_runnable s t
      end
  | _ :: t => first_runnable s t
  end.

(** The selection as the spec words it: at one level, walk the circular
    list once from the pin and take the first RUNNABLE process. *)
Definition select_level (s : ptable) (L : layout) (l : Z) : option nat :=
  first_runnable s (rotate_from (QueueHead l :: L (QueueHead l)) (pin s l)).

(** The levels are scanned upward; the first match wins and the pin of
    its level is set to it. *)
Fixpoint select_levels (s : ptable) (L : layout) (ls : list Z)
  : option nat * ptable :=
  match ls with
  | [] => (None, s)
  | l :: ls' =>
      match select_level s L l with
      | Some p => (Some p, set_pin l (PQueue p) s)
      | None => select_levels s L ls'
      end
  end.

Definition mlfqselect_spec (s : ptable) (L : layout) : option nat * ptable :=
  select_levels s L (zrange 0 QSIZE).

(** No process on the queue of level [l] is RUNNABLE. *)
Definition no_runnable (s : ptable) (L : layout) (l : Z) : Prop :=
  forall p, In (PQueue p) (L (QueueHead l)) -> pstate s p <> RUNNABLE.

(** The queues after the demotion of [p] from level [l], where it sat
    between [a] and [b]. *)
Definition demoted_layout (L : layout) (l : Z) (p : nat) (a b : list node)
  : layout :=
  updl (updl L (QueueHead l) (a ++ b)) (QueueHead (l + 1))
       (L (QueueHead (l + 1)) ++ [PQueue p]).

(** The spec's wording of the state after a boost tick: every MLFQ
    process on a queue or on the sleep list has privlevel 0 and ticks 0,
    and the queues of the levels from 1 on are empty. *)
Definition boosted (s : ptable) (L : layout) : Prop :=
  (forall l i, 0 <= l < QSIZE -> In (PQueue i) (L (QueueHead l)) ->
               ptype s i = MLFQ ->
               privlevel (procs s i) = 0 /\ ticks (procs s i) = 0) /\
  (forall i, In (PQueue i) (L SleepHead) -> ptype s i = MLFQ ->
             privlevel (procs s i) = 0 /\ ticks (procs s i) = 0) /\
  (forall l, 1 <= l < QSIZE -> L (QueueHead l) = []).

(** What the priority boost does to a process it visits. *)
Definition boost_proc (x : proc) : proc := set_ticks 0 (set_privlevel 0 x).

(** The queues once the levels [ls] have been spliced onto the tail of
    level 0, one after the other. *)
Fixpoint boost_layout (L : layout) (ls : list Z) : layout :=
  match ls with
  | [] => L
  | l :: ls' =>
      boost_layout
        (updl (updl L (QueueHead 0) (L (QueueHead 0) ++ L (QueueHead l)))
              (QueueHead l) [])
        ls'
  end.

End MlfqDefs.

(* ================================================================= *)
(** ** Properties of sleep and wakeup *)

(** The sleeper at node [n] waits on the channel [c]. *)
Definition wakes (s : ptable) (c : chanid) (n : node) : bool :=
  match n with
  | PQueue i => chanid_eqb (chan (procs s i)) c
  | _ => false
  end.

(** ... and is an MLFQ process of level [l]. *)
Definition wakes_mlfq_at (s : ptable) (c : chanid) (l : Z) (n : node) : bool :=
  match n with
  | PQueue i => chanid_eqb (chan (procs s i)) c &&
                schedtype_eqb (ptype s i) MLFQ &&
                (privlevel (procs s i) =? l)
  | _ => false
  end.

(** The lists after a wakeup on [c]: the sleepers on [c] leave the sleep
    list; those of type MLFQ join the tail of their level, in the order
    of the sleep list; all other lists stay as they are. *)
Definition woken_layout (s : ptable) (c : chanid) (L : layout) : layout :=
  fun h =>
    match h with
    | SleepHead => filter (fun n => negb (wakes s c n)) (L SleepHead)
    | QueueHead l => L (QueueHead l) ++ filter (wakes_mlfq_at s c l) (L SleepHead)
    | _ => L h
    end.

(** The process table after a wakeup on [c]. *)
Definition woken_procs (s : ptable) (c : chanid) (L : layout) : nat -> proc :=
  fun i =>
    if existsb (node_eqb (PQueue i)) (L SleepHead) &&
       chanid_eqb (chan (procs s i)) c
    then set_state RUNNABLE (procs s i) else procs s i.

(** The sleep list holds process nodes, and the level of every MLFQ
    process on it has a queue. *)
Definition sleepers_ok (s : ptable) (hs : list node) (L : layout) : Prop :=
  forall n, In n (L SleepHead) ->
    exists i, n = PQueue i /\
              (ptype s i = MLFQ -> In (QueueHead (privlevel (procs s i))) hs).

(** The chan, type and privlevel fields agree in both tables. *)
Definition same_keys (s s' : ptable) : Prop :=
  forall i, chan (procs s' i) = chan (procs s i) /\
            type (procs s' i) = type (procs s i) /\
            privlevel (procs s' i) = privlevel (procs s i).

(** The lists after [kill] has found the sleeper [i] between [a] and
    [b] on the sleep list: it leaves the sleep list and, if of type
    MLFQ, joins the tail of its level. *)
Definition killed_layout (s : ptable) (L : layout) (i : nat)
           (a b : list node) : layout :=
  match type (procs s i) with
  | MLFQ =>
      updl (updl L SleepHead (a ++ b)) (QueueHead (privlevel (procs s i)))
           (updl L SleepHead (a ++ b) (QueueHead (privlevel (procs s i)))
            ++ [PQueue i])
  | STRIDE => updl L SleepHead (a ++ b)
  end.

(** Everything outside the process table and the list links. *)
Definition same_sched (s s' : ptable) : Prop :=
  pin s' = pin s /\ mlfq_ticks s' = mlfq_ticks s /\ mlfq_pass s' = mlfq_pass s /\
  mlfq_tickets s' = mlfq_tickets s /\ minheap s' = minheap s /\
  stride_size s' = stride_size s /\ initproc s' = initproc s /\
  nextpid s' = nextpid s.

(** The same, the pins apart. *)
Definition same_sched_but_pin (s s' : ptable) : Prop :=
  mlfq_ticks s' = mlfq_ticks s /\ mlfq_pass s' = mlfq_pass s /\
  mlfq_tickets s' = mlfq_tickets s /\ minheap s' = minheap s /\
  stride_size s' = stride_size s /\ initproc s' = initproc s /\
  nextpid s' = nextpid s.

(* ================================================================= *)
(** ** Ticket accounting *)

Section TicketDefs.
Context {T : Tunables}.

(** The states in which a process takes part in scheduling. *)
Definition live (st : procstate) : bool :=
  match st with
  | RUNNABLE | SLEEPING | RUNNING => true
  | _ => false
  end.

(** The tickets a slot holds as a STRIDE process, ready, sleeping or
    running. *)
Definition stride_tickets (x : proc) : Z :=
  match type x with
  | STRIDE => if live (state x) then tickets x else 0
  | MLFQ => 0
  end.

Definition ticket_sum (s : ptable) : Z :=
  fold_right Z.add 0 (map (fun i => stride_tickets (procs s i)) (seq 0 NPROC)).

(** Conservation of tickets. *)
Definition tickets_conserved (s : ptable) : Prop :=
  mlfq_tickets s + ticket_sum s = 100.

(** Conservation, with no share negative. *)
Definition tickets_inv (s : ptable) : Prop :=
  tickets_conserved s /\ 0 <= mlfq_tickets s /\
  forall i, (i < NPROC)%nat -> 0 <= stride_tickets (procs s i).

(** Type, tickets and liveness of every slot agree in both tables. *)
Definition same_shares (s s' : ptable) : Prop :=
  forall i, type (procs s' i) = type (procs s i) /\
            tickets (procs s' i) = tickets (procs s i) /\
            live (state (procs s' i)) = live (state (procs s i)).

(** Every process on the sleep list is SLEEPING. *)
Definition sleepers_sleeping (s : ptable) (L : layout) : Prop :=
  forall i, In (PQueue i) (L SleepHead) -> pstate s i = SLEEPING.

(** The child list of [cur] holds sibling nodes. *)
Definition children_ok (L : layout) (cur : nat) : Prop :=
  forall n, In n (L (PChildren cur)) -> exists i, n = PSibling i.

(** The admission test of [set_cpu_share] on unbounded integers: the
    tickets left to the MLFQ side once [share] is granted. *)
Definition held (s : ptable) (cur : nat) : Z :=
  match ptype s cur with
  | STRIDE => tickets (procs s cur)
  | MLFQ => 0
  end.

Definition grantable (s : ptable) (cur : nat) (share : Z) : Prop :=
  1 <= share /\ share <= 100 - RESERVE /\
  RESERVE <= mlfq_tickets s + held s cur - share.

End TicketDefs.

(* ================================================================= *)
(** ** Properties of the stride side *)

Section StrideDefs.
Context {T : Tunables}.

(** The processes whose queue nodes are in [ns]. *)
Definition queue_procs (ns : list node) : list nat :=
  flat_map (fun n => match n with PQueue i => [i] | _ => [] end) ns.

(** The processes the overflow handling reaches: those in the heap and
    those on the run list. *)
Definition rebase_set (s : ptable) (L : layout) : list nat :=
  heap_elems s ++ queue_procs (L RunHead).

(** Everything but the process table and [mlfq.pass] agrees. *)
Definition same_frame (s s' : ptable) : Prop :=
  nxt s' = nxt s /\ prv s' = prv s /\ pin s' = pin s /\
  mlfq_ticks s' = mlfq_ticks s /\ mlfq_tickets s' = mlfq_tickets s /\
  minheap s' = minheap s /\ stride_size s' = stride_size s /\
  initproc s' = initproc s /\ nextpid s' = nextpid s.

(** The states in which [stridelogic] puts a stride process back. *)
Definition requeued (st : procstate) : bool :=
  match st with
  | RUNNABLE | SLEEPING => true
  | _ => false
  end.

(** Two slots agree up to their pass. *)
Definition same_but_pass (x y : proc) : Prop := set_pass 0 x = set_pass 0 y.

(** Every SLEEPING stride process is on the sleep list and in the heap. *)
Definition sleeping_stride_in_heap (s : ptable) (L : layout) : Prop :=
  forall i, (i < NPROC)%nat -> ptype s i = STRIDE -> pstate s i = SLEEPING ->
            In (PQueue i) (L SleepHead) /\ In i (heap_elems s).

(** The bounds the spec states for the passes right after a rebase. *)
Definition passes_in_range (s : ptable) (L : layout) : Prop :=
  0 <= mlfq_pass s <= BARRIER /\
  forall i, In i (rebase_set s L) -> 0 <= ppass s i <= BARRIER.

(** The spec's wording of the overflow handling: once [minpass] has been
    subtracted, all passes are in range. *)
Definition rebase_keeps_range (fuel : nat) (p : option nat) (s : ptable)
           (L : layout) : Prop :=
  stride_minpass p s > BARRIER ->
  forall s', stridelogic_rebase fuel p s = Done s' -> passes_in_range s' L.

(** The spec's wording of a wakeup: every stride sleeper on the channel
    is pushed onto the heap. *)
Definition wakeup_pushes_stride (fuel : nat) (c : chanid) (s : ptable)
           (L : layout) : Prop :=
  forall s', wakeup1 fuel c s = Done s' ->
  forall i, In (PQueue i) (L SleepHead) -> chan (procs s i) = c ->
            ptype s i = STRIDE ->
            Permutation (heap_elems s') (i :: heap_elems s).

(** The spec's wording of the success of [set_cpu_share]: [mlfq.tickets]
    goes down by [share]. *)
Definition decremented_by_share (cur : nat) (share : Z) (s : ptable) : Prop :=
  snd (set_cpu_share cur share s) = 0 ->
  mlfq_tickets (fst (set_cpu_share cur share s)) = mlfq_tickets s - share.

End StrideDefs.

(* ================================================================= *)
(** ** Checking a concrete kernel state *)

Fixpoint linkedb (f : node -> node) (l : list node) : bool :=
  match l with
  | [] => true
  | a :: t => match t with
              | [] => true
              | b :: _ => node_eqb (f a) b && linkedb f t
              end
  end.

Fixpoint nodupb (l : list node) : bool :=
  match l with
  | [] => true
  | a :: t => negb (existsb (node_eqb a) t) && nodupb t
  end.

Definition is_listb (s : ptable) (h : node) (xs : list node) : bool :=
  nodupb (h :: xs) && linkedb (nxt s) (h :: xs ++ [h]) &&
  linkedb (prv s) (h :: rev xs ++ [h]).

Definition lists_okb (s : ptable) (hs : list node) (L : layout) : bool :=
  forallb (fun h => is_listb s h (L h)) hs &&
  forallb (fun h => forallb (fun x => negb (existsb (node_eqb x) hs)) (L h)) hs &&
  forallb (fun h =>
             forallb (fun h' =>
                        node_eqb h h' ||
                        forallb (fun x => negb (existsb (node_eqb x) (L h'))) (L h))
                     hs) hs.

(** The contents of the list of [h], read off the next pointers. *)
Fixpoint read_list (fuel : nat) (s : ptable) (h n : node) : list node :=
  match fuel with
  | O => []
  | S f => if node_eqb n h then [] else n :: read_list f s h (nxt s n)
  end.

Definition layout_of (fuel : nat) (s : ptable) : layout :=
  fun h => read_list fuel s h (nxt s h).

Definition is_pqueueb (n : node) : bool :=
  match n with
  | PQueue _ => true
  | _ => false
  end.

Definition is_psiblingb (n : node) : bool :=
  match n with
  | PSibling _ => true
  | _ => false
  end.

Fixpoint nodupb_nat (l : list nat) : bool :=
  match l with
  | [] => true
  | a :: t => negb (existsb (Nat.eqb a) t) && nodupb_nat t
  end.

(** The value of a result that is known to be [Done]. *)
Definition value {A} (d : A) (r : result A) : A :=
  match r with
  | Done a => a
  | Fail _ => d
  end.

(** A result is [Done]. *)
Definition is_done {A} (r : result A) : bool :=
  match r with
  | Done _ => true
  | Fail _ => false
  end.

Section Checkers.
Context {T : Tunables}.

Definition mlfq_okb (s : ptable) (hs : list node) (L : layout) : bool :=
  lists_okb s hs L &&
  forallb (fun l => existsb (node_eqb (QueueHead l)) hs &&
                    forallb is_pqueueb (L (QueueHead l)))
          (zrange 0 QSIZE).

Definition pins_validb (s : ptable) (L : layout) : bool :=
  forallb (fun l => node_eqb (pin s l) (QueueHead l) ||
                    existsb (node_eqb (pin s l)) (L (QueueHead l)))
          (zrange 0 QSIZE).

Definition sleepers_okb (s : ptable) (hs : list node) (L : layout) : bool :=
  forallb (fun n => match n with
                    | PQueue i =>
                        match ptype s i with
                        | MLFQ => existsb (node_eqb (QueueHead (privlevel (procs s i)))) hs
                        | STRIDE => true
                        end
                    | _ => false
                    end) (L SleepHead).

Definition sleepers_sleepingb (s : ptable) (L : layout) : bool :=
  forallb (fun n => match n with
                    | PQueue i => procstate_eqb (pstate s i) SLEEPING
                    | _ => true
                    end) (L SleepHead).

Definition tickets_invb (s : ptable) : bool :=
  (mlfq_tickets s + ticket_sum s =? 100) && (0 <=? mlfq_tickets s) &&
  forallb (fun i => 0 <=? stride_tickets (procs s i)) (seq 0 NPROC).

Definition heap_propertyb (s : ptable) : bool :=
  forallb (fun j => ppass s (minheap s (j / 2)) <=? ppass s (minheap s j))
          (zrange 2 (stride_size s + 1)).

Definition off_listsb (hs : list node) (L : layout) (x : node) : bool :=
  negb (existsb (node_eqb x) hs) &&
  forallb (fun h => negb (existsb (node_eqb x) (L h))) hs.

Definition sleeping_strideb (s : ptable) (L : layout) : bool :=
  forallb (fun i => match ptype s i, pstate s i with
                    | STRIDE, SLEEPING =>
                        existsb (node_eqb (PQueue i)) (L SleepHead) &&
                        existsb (Nat.eqb i) (heap_elems s)
                    | _, _ => true
                    end) (seq 0 NPROC).

End Checkers.

(* ================================================================= *)
(** ** A small machine

    Concrete tunables and a few kernel states reached from boot, used
    to run the definitions above. *)

Module Demo.

#[export] Instance tunables : Tunables := {|
  NPROC := 8;
  QSIZE := 3;
  TQ := fun l => 5 * 2 ^ l;
  TA := fun l => 20 * 2 ^ l;
  BOOSTINTERVAL := 50;
  RESERVE := 20;
  STRD := fun t => Z.quot (2 ^ 20) t;
  BARRIER := 2 ^ 30;
  MAXINT := 2 ^ 31 - 1
|}.

(** The zeroed kernel image at boot. *)
Definition zero_proc : proc := mkProc UNUSED MLFQ 0 0 0 0 NoChan 0 0 None.

Definition boot : ptable :=
  mkPtable (fun _ => zero_proc) (fun _ => NullNode) (fun _ => NullNode)
           (fun _ => NullNode) 0 0 0 (fun _ => 0%nat) 0 None 1.

Definition heads : list node :=
  [QueueHead 0; QueueHead 1; QueueHead 2; RunHead; SleepHead; FreeHead;
   PChildren 0; PChildren 1; PChildren 2].

Definition mlfq_heads : list node := [QueueHead 0; QueueHead 1; QueueHead 2].

(** init (slot 0) and its two children (slots 1 and 2), all RUNNABLE
    at level 0. *)
Definition st_init : ptable := pinit boot.
Definition st_user : ptable := value st_init (userinit true true st_init).
Definition st_fork1 : ptable := snd (value (0, st_user) (fork true true 0 st_user)).
Definition st_three : ptable := snd (value (0, st_fork1) (fork true true 0 st_fork1)).

(** A process that gives up the CPU at the next tick. *)
Definition swtch_yield (i : nat) (s : ptable) : result ptable := Done (yield i s).

(** A process that blocks on the channel [c]. *)
Definition swtch_sleep (c : chanid) (i : nat) (s : ptable) : result ptable :=
  Done (sleep i c s).

Fixpoint rounds (n : nat) (s : ptable) : ptable :=
  match n with
  | O => s
  | S k => value s (scheduler_round 16 swtch_yield (rounds k s))
  end.

(** Slot 1 is off its queue, as in the middle of a demotion. *)
Definition st_detached : ptable := dequeue 1 st_three.

(** Slot 0 has run for four ticks. *)
Definition st_tick4 : ptable := rounds 4 st_three.

(** init sleeps in [wait], on its own slot as the channel. *)
Definition st_waiting : ptable :=
  value st_three (scheduler_round 16 (swtch_sleep (ProcChan 0)) st_three).

(** Slot 1 is chosen and switched to. *)
Definition st_running : ptable :=
  sched_dispatch 1 (snd (value (None, st_waiting) (sched_pick 16 st_waiting))).

(** The running slot 1 has asked for a share of 30. *)
Definition st_share : ptable := fst (set_cpu_share 1 30 st_running).

(** Slot 1, now a stride process, blocks on channel 7. *)
Definition st_sleeping : ptable := sleep 1 (AddrChan 7) st_share.
Definition st_blocked : ptable :=
  value st_share (stridelogic 16 (Some 1%nat) st_sleeping).

(** Slot 2 runs until the pass of the MLFQ side has overtaken slot 1. *)
Definition st_overtaken : ptable := rounds 3 st_blocked.

(** Slot 1 is woken and then taken off the heap by the scheduler. *)
Definition st_woken : ptable :=
  value st_overtaken (wakeup 16 (AddrChan 7) st_overtaken).
Definition st_popped : ptable :=
  snd (value (0%nat, st_woken) (popheap st_woken)).

(** The 49th tick has passed; the next one is a boost tick.  Slot 0 is
    switched to and gives up the CPU at that tick. *)
Definition st_tick49 : ptable := rounds 49 st_three.
Definition st_tick50_in : ptable :=
  yield 0 (sched_dispatch 0
             (snd (value (None, st_tick49) (sched_pick 16 st_tick49)))).

(** ... and the accounting of that tick is done: the boost is due. *)
Definition st_tick50_acc : ptable :=
  value st_tick50_in
    (mlfqlogic_account 0
       (with_mlfq_ticks (add32 (mlfq_ticks st_tick50_in) 1) st_tick50_in)).

(** Two CPUs: slot 1 takes its share while the pass of the MLFQ side
    stands at the barrier, and keeps running on its CPU; on the other
    CPU slot 2 runs for two ticks.  The state is the one that the second
    of these rounds hands to [stridelogic]. *)
Definition st_barrier : ptable :=
  fst (set_cpu_share 1 30 (with_mlfq_pass (2 ^ 30) st_running)).
Definition st_barrier1 : ptable :=
  value st_barrier (scheduler_round 16 swtch_yield st_barrier).
Definition st_barrier2_in : ptable :=
  value st_barrier1
    (mlfqlogic 16 2
       (yield 2 (sched_dispatch 2
          (snd (value (None, st_barrier1) (sched_pick 16 st_barrier1)))))).

(** Slot 0, on which the pin of level 0 stands, is taken off its queue,
    as [mlfqlogic] does when it demotes it at the 50th tick. *)
Definition st_demoting : ptable := dequeue 0 st_tick50_in.

(** init alone has run for 25 ticks: it was demoted at the 20th and has
    been selected at level 1 since, so the pin of level 1 stands on it
    and level 0 is empty. *)
Definition st_level1 : ptable := rounds 25 st_user.

(** One CPU.  The pass of the MLFQ side has grown to 102407 strides of
    100 tickets, 4429 below the barrier, when the running slot 1 asks
    for a share of 80; it yields and is pushed on the heap, and slot 2
    runs for a tick, which takes [mlfq.pass] over the barrier and over
    the pass of slot 1.  Slot 1 is due. *)
Definition st_late : ptable := with_mlfq_pass (10485 * 102407) st_running.
Definition st_late_share : ptable := fst (set_cpu_share 1 80 st_late).
Definition st_late_heap : ptable :=
  value st_late_share (stridelogic 16 (Some 1%nat) (yield 1 st_late_share)).
Definition st_due : ptable :=
  value st_late_heap (scheduler_round 16 swtch_yield st_late_heap).

(** ... and is popped, runs and yields: the state handed to
    [stridelogic]. *)
Definition st_due_in : ptable :=
  yield 1 (sched_dispatch 1 (snd (value (None, st_due) (sched_pick 16 st_due)))).

(** A heap of three stride processes. *)
Definition st_heap : ptable :=
  with_stride_size 3
    (with_minheap (fun i => Z.to_nat i)
       (with_procs (fun i => set_pass (10 * Z.of_nat i) (set_type STRIDE zero_proc))
                   boot)).

End Demo.

(* ================================================================= *)
(** ** The rest of the process life cycle *)

Section ProcMore.
Context {T : Tunables}.

(** [freeproc], as far as [ptable] is concerned. *)
Definition freeproc (p : nat) (s : ptable) : ptable :=
  let s1 := upd_proc p (set_pid 0) s in
  let s2 := upd_proc p (set_parent None) s1 in
  let s3 := upd_proc p (set_killed 0) s2 in
  let s4 := upd_proc p (set_tickets 0) s3 in
  let s5 := upd_proc p (set_pass 0) s4 in
  let s6 := upd_proc p (set_ticks 0) s5 in
  let s7 := upd_proc p (set_privlevel 0) s6 in
  let s8 := upd_proc p (set_state UNUSED) s7 in
  list_add (PQueue p) FreeHead s8.

(** The scan of the child list in [wait]: the first child that is a
    ZOMBIE, if there is one. *)
Fixpoint wait_scan (fuel : nat) (children itr : node) (s : ptable)
  : result (option nat) :=
  match fuel with
  | O => Fail EFuel
  | S f =>
      if node_eqb itr children then Done None else
      p <- sibling_entry itr ;;
      match pstate s p with
      | ZOMBIE => Done (Some p)
      | _ => wait_scan f children (nxt s itr) s
      end
  end.

(** One turn of the [for(;;)] of [wait], called by the current process
    [cur] with ptable.lock held: a value is returned, or the process
    goes to sleep on its own slot and the loop goes on after the next
    wakeup. *)
Definition wait_round (fuel : nat) (cur : nat) (s : ptable)
  : result (option Z * ptable) :=
  let children := PChildren cur in
  r <- wait_scan fuel children (nxt s children) s ;;
  match r with
  | Some p =>
      let pid := pid (procs s p) in
      let s1 := list_del (PSibling p) s in
      Done (Some pid, freeproc p s1)
  | None =>
      if list_empty children s || negb (killed (procs s cur) =? 0)
      then Done (Some (-1), s)
      else Done (None, sleep cur (ProcChan cur) s)
  end.

(** The check of [sched] that concerns [ptable]: the caller must have
    left the RUNNING state. *)
Definition sched (cur : nat) (s : ptable) : result ptable :=
  match pstate s cur with
  | RUNNING => Fail EPanic
  | _ => Done s
  end.

(** The list heads that [pinit] sets up, and what the lists hold when
    it returns. *)
Definition pinit_heads : list node :=
  map QueueHead (zrange 0 QSIZE) ++ [RunHead; SleepHead; FreeHead].

Definition pinit_layout : layout :=
  fun h => match h with
           | FreeHead => map PQueue (seq 0 NPROC)
           | _ => []
           end.

(** The fields of a slot that [freeproc] clears. *)
Definition cleared (x : proc) : Prop :=
  state x = UNUSED /\ pid x = 0 /\ parent x = None /\ killed x = 0 /\
  tickets x = 0 /\ pass x = 0 /\ ticks x = 0 /\ privlevel x = 0.

(** The first child on the list that is a ZOMBIE. *)
Fixpoint first_zombie (s : ptable) (ns : list node) : option nat :=
  match ns with
  | [] => None
  | PSibling p :: t =>
      match pstate s p with
      | ZOMBIE => Some p
      | _ => first_zombie s t
      end
  | _ :: t => first_zombie s t
  end.

(** What the accounting of [mlfqlogic] does to the slot of a process
    that went to sleep during its turn. *)
Definition sleeper_account (x : proc) : proc :=
  if (privlevel x <? QSIZE - 1) && (ticks x >=? TA (privlevel x))
  then set_ticks 0 (set_privlevel (privlevel x + 1) x)
  else set_ticks (TQ (privlevel x) * (ticks x / TQ (privlevel x))) x.

(** The tick that [mlfqlogic] is about to count is a boost tick. *)
Definition boost_tick (s : ptable) : bool :=
  Z.rem (mlfq_ticks s + 1) BOOSTINTERVAL =? 0.

(** The queues after [mlfqlogic] has run on a sleeper. *)
Definition tick_layout (s : ptable) (L : layout) : layout :=
  if boost_tick s then boost_layout L (zrange 1 QSIZE) else L.

(** The slot of a sleeper after [mlfqlogic]. *)
Definition sleeper_tick (s : ptable) (x : proc) : proc :=
  if boost_tick s then boost_proc (sleeper_account x) else sleeper_account x.

End ProcMore.

(** A list head that is not in use yet, or carries an empty list. *)
Definition fresh_or_empty (hs : list node) (L : layout) (h : node) : Prop :=
  off_lists hs L h \/ (In h hs /\ L h = []).

(** Everything outside the process table, the list links, the pins and
    the pid counter. *)
Definition same_counters (s s' : ptable) : Prop :=
  mlfq_ticks s' = mlfq_ticks s /\ mlfq_pass s' = mlfq_pass s /\
  mlfq_tickets s' = mlfq_tickets s /\ minheap s' = minheap s /\
  stride_size s' = stride_size s /\ initproc s' = initproc s.

Definition empty_layout : layout := fun _ => [].

(** More states of the small machine. *)
Module DemoMore.
Import Demo.

(** Slot 1 has exited as a stride process; init has not reaped it yet. *)
Definition st_exited : ptable := value st_share (exit 16 1 st_share).

(** Slot 1 has a child of its own in slot 3, and runs. *)
Definition st_parent : ptable :=
  sched_dispatch 1 (snd (value (0, st_three) (fork true true 1 st_three))).

(** The scheduler has chosen slot 0, which has 4 ticks, at the fifth
    tick, and slot 0, which has 19 ticks, at the 50th, a boost tick. *)
Definition st_tick4_picked : ptable :=
  snd (value (None, st_tick4) (sched_pick 16 st_tick4)).
Definition st_tick49_picked : ptable :=
  snd (value (None, st_tick49) (sched_pick 16 st_tick49)).

(** ... and slot 0 is switched to and blocks on channel 7: the states
    handed to [mlfqlogic]. *)
Definition st_nap_in : ptable :=
  sleep 0 (AddrChan 7) (sched_dispatch 0 st_tick4_picked).
Definition st_nap50_in : ptable :=
  sleep 0 (AddrChan 7) (sched_dispatch 0 st_tick49_picked).

(** init alone has 19 ticks; it is switched to and calls [sys_sleep],
    which counts a tick with [inctick] before it blocks. *)
Definition st_tick19 : ptable := rounds 19 st_user.
Definition st_nap20_in : ptable :=
  sleep 0 (AddrChan 7)
    (inctick 0
       (sched_dispatch 0 (snd (value (None, st_tick19) (sched_pick 16 st_tick19))))).

(** Slot 2 blocks as well: init, slot 1 (in the heap) and slot 2 are
    all asleep. *)
Definition st_asleep : ptable :=
  value st_blocked (scheduler_round 16 (swtch_sleep (AddrChan 9)) st_blocked).

(** Late in the run slot 1 takes a share of 30, yields and is pushed on
    the heap; slot 2 runs and blocks, which takes [mlfq.pass] over the
    barrier but not over the pass of slot 1: nothing is RUNNABLE on the
    MLFQ side and the stride side is not due. *)
Definition st_late30 : ptable := fst (set_cpu_share 1 30 st_late).
Definition st_late30_heap : ptable :=
  value st_late30 (stridelogic 16 (Some 1%nat) (yield 1 st_late30)).
Definition st_idle_over : ptable :=
  value st_late30_heap
    (scheduler_round 16 (swtch_sleep (AddrChan 9)) st_late30_heap).

End DemoMore.

(* ================================================================= *)
(** * Proofs *)

(** ** Facts on C integers and array cells *)

Lemma wrap_small z : in_int z -> wrap z = z.
Proof.
  unfold in_int, wrap.
  change (2 ^ 31) with 2147483648; change (2 ^ 32) with 4294967296.
  intros Hz. rewrite Z.mod_small; lia.
Qed.

Lemma wrap_in_int z : in_int (wrap z).
Proof.
  unfold in_int, wrap.
  change (2 ^ 31) with 2147483648; change (2 ^ 32) with 4294967296.
  pose proof (Z.mod_pos_bound (z + 2147483648) 4294967296). lia.
Qed.

Lemma updz_eq {A} (f : Z -> A) k v : updz f k v k = v.
Proof. unfold updz. now rewrite Z.eqb_refl. Qed.

Lemma updz_neq {A} (f : Z -> A) k v x : x <> k -> updz f k v x = f x.
Proof. unfold updz. intros Hx. apply Z.eqb_neq in Hx. now rewrite Hx. Qed.

Lemma updp_eq {A} (f : nat -> A) k v : updp f k v k = v.
Proof. unfold updp. now rewrite Nat.eqb_refl. Qed.

Lemma updp_neq {A} (f : nat -> A) k v x : x <> k -> updp f k v x = f x.
Proof. unfold updp. intros Hx. apply Nat.eqb_neq in Hx. now rewrite Hx. Qed.

Lemma In_zrange x lo hi : In x (zrange lo hi) <-> lo <= x < hi.
Proof.
  unfold zrange. rewrite in_map_iff. split.
  - intros [k [<- Hk]]. apply in_seq in Hk. lia.
  - intros Hx. exists (Z.to_nat (x - lo)). split; [lia|].
    apply in_seq. lia.
Qed.

Lemma NoDup_zrange lo hi : NoDup (zrange lo hi).
Proof.
  unfold zrange. apply Injective_map_NoDup.
  - intros a b. lia.
  - apply seq_NoDup.
Qed.

Lemma zrange_nil lo hi : hi <= lo -> zrange lo hi = [].
Proof.
  intros H. unfold zrange. replace (Z.to_nat (hi - lo)) with O by lia.
  reflexivity.
Qed.

Lemma zrange_cons lo hi : lo < hi -> zrange lo hi = lo :: zrange (lo + 1) hi.
Proof.
  intros H. unfold zrange.
  replace (Z.to_nat (hi - lo)) with (S (Z.to_nat (hi - (lo + 1)))) by lia.
  simpl. f_equal; [lia|].
  rewrite <- seq_shift, map_map. apply map_ext. intros a. lia.
Qed.

Lemma zrange_snoc lo hi : lo <= hi -> zrange lo (hi + 1) = zrange lo hi ++ [hi].
Proof.
  intros H. unfold zrange.
  replace (Z.to_nat (hi + 1 - lo)) with (Z.to_nat (hi - lo) + 1)%nat by lia.
  rewrite seq_app, map_app. simpl. do 2 f_equal. lia.
Qed.

(** Exchanging two cells of an array permutes any duplicate-free range
    that covers both. *)
Lemma map_swap_perm {A} (h : Z -> A) a b l :
  NoDup l -> In a l -> In b l ->
  Permutation (map (updz (updz h a (h b)) b (h a)) l) (map h l).
Proof.
  intros Hnd Ha Hb.
  set (sw := fun x => if x =? a then b else if x =? b then a else x).
  assert (Hinv : forall x, sw (sw x) = x).
  { intros x. unfold sw.
    destruct (x =? a) eqn:E1; destruct (x =? b) eqn:E2;
      repeat match goal with
             | H : (_ =? _) = true |- _ => apply Z.eqb_eq in H
             | H : (_ =? _) = false |- _ => apply Z.eqb_neq in H
             end; subst;
      repeat match goal with
             | |- context [?u =? ?v] => destruct (Z.eqb_spec u v)
             end; congruence. }
  assert (Hmap : map (updz (updz h a (h b)) b (h a)) l = map h (map sw l)).
  { rewrite map_map. apply map_ext. intros x. unfold updz, sw.
    destruct (Z.eqb_spec x b); destruct (Z.eqb_spec x a); subst; auto. }
  rewrite Hmap. apply Permutation_map.
  apply NoDup_Permutation; auto.
  - apply Injective_map_NoDup; auto.
    intros x y Hxy. rewrite <- (Hinv x), <- (Hinv y). now rewrite Hxy.
  - intros x. rewrite in_map_iff. split.
    + intros [y [<- Hy]]. unfold sw.
      destruct (Z.eqb_spec y a); auto. destruct (Z.eqb_spec y b); auto.
    + intros Hx. exists (sw x). split; auto. unfold sw.
      destruct (Z.eqb_spec x a); auto. destruct (Z.eqb_spec x b); auto.
Qed.

Section HeapProofs.
Context {T : Tunables}.

Lemma heap_property_upto s :
  heap_property s <-> heap_upto (ppass s) (minheap s) (stride_size s).
Proof.
  unfold heap_property, heap_upto. split.
  - intros H j Hj.
    destruct (H (j / 2)) as [H1 H2]; [lia|].
    destruct (Z.eq_dec j (2 * (j / 2))) as [E|E].
    + rewrite E at 2. apply H1. lia.
    + assert (E' : j = 2 * (j / 2) + 1) by lia.
      rewrite E' at 2. apply H2. lia.
  - intros H i Hi. split; intros Hc.
    + specialize (H (2 * i)). replace (2 * i / 2) with i in H by lia.
      apply H. lia.
    + specialize (H (2 * i + 1)). replace ((2 * i + 1) / 2) with i in H by lia.
      apply H. lia.
Qed.

(** In a heap the root carries the least key. *)
Lemma heap_root_min key h n :
  heap_upto key h n -> forall i, 1 <= i <= n -> key (h 1) <= key (h i).
Proof.
  intros Hh i Hi.
  assert (G : forall k : nat, forall i, 1 <= i <= n -> (Z.to_nat i <= k)%nat ->
                                   key (h 1) <= key (h i)).
  { induction k as [|k IH]; intros j Hj Hk; [lia|].
    destruct (Z.eq_dec j 1) as [->|Hne]; [lia|].
    specialize (Hh j ltac:(lia)).
    specialize (IH (j / 2) ltac:(lia) ltac:(lia)). lia. }
  apply (G (Z.to_nat i)); auto.
Qed.

Lemma hole_heap_fill key n h i p :
  1 <= i -> hole_heap key n h i ->
  (2 <= i -> key (h (i / 2)) <= key p) ->
  (forall j, 2 <= j <= n -> j / 2 = i -> key p <= key (h j)) ->
  heap_upto key (updz h i p) n.
Proof.
  intros Hi [H2 H3] Hup Hdown j Hj.
  destruct (Z.eq_dec j i) as [->|Hji].
  - rewrite updz_eq, updz_neq by lia. apply Hup. lia.
  - rewrite (updz_neq _ _ _ j) by auto.
    destruct (Z.eq_dec (j / 2) i) as [E|E].
    + rewrite E, updz_eq. apply Hdown; auto.
    + rewrite updz_neq by auto. apply H2; auto.
Qed.

(** The sift-up loop of [pushheap] ends and only moves cells around;
    started on a heap with a hole, it fills a heap once [p] is written
    into the final hole. *)
Lemma pushheap_loop_ok s p nn : forall fuel i h,
  (Z.to_nat i <= fuel)%nat -> 1 <= i <= nn ->
  exists h' i',
    pushheap_loop fuel s p i h = Done (h', i') /\
    Permutation (map (updz h' i' p) (zrange 1 (nn + 1)))
                (map (updz h i p) (zrange 1 (nn + 1))) /\
    (hole_heap (ppass s) nn h i ->
     (forall j, 2 <= j <= nn -> j / 2 = i -> ppass s p <= ppass s (h j)) ->
     heap_upto (ppass s) (updz h' i' p) nn).
Proof.
  induction fuel as [|fuel IH]; intros i h Hfuel Hi; [lia|].
  simpl. rewrite Z.quot_div_nonneg by lia.
  destruct (Z.eqb_spec i 1) as [Hi1|Hi1]; simpl.
  - exists h, i. split; [reflexivity|]. split; [apply Permutation_refl|].
    intros Hhole Hdown. apply hole_heap_fill; auto; lia.
  - destruct (Z.ltb_spec (ppass s p) (ppass s (h (i / 2)))) as [Hlt|Hge].
    + destruct (IH (i / 2) (updz h i (h (i / 2)))) as (h' & i' & Hrun & Hperm & Hheap);
        [lia|lia|].
      exists h', i'. split; [exact Hrun|]. split.
      * eapply Permutation_trans; [exact Hperm|].
        pose proof (map_swap_perm (updz h i p) i (i / 2) (zrange 1 (nn + 1))
                      (NoDup_zrange _ _)) as Hsw.
        rewrite updz_eq, (updz_neq _ _ _ (i / 2)) in Hsw by lia.
        eapply Permutation_trans; [|apply Hsw; apply In_zrange; lia].
        apply Permutation_refl'.
        apply map_ext. intros x. unfold updz.
        destruct (Z.eqb_spec x (i / 2)); auto.
        destruct (Z.eqb_spec x i); auto.
      * intros [H2 H3] Hdown. apply Hheap.
        -- split.
           ++ intros j Hj Hne1 Hne2.
              assert (j <> i) by (intros ->; congruence).
              rewrite (updz_neq _ _ _ j) by auto.
              destruct (Z.eq_dec (j / 2) i) as [E|E].
              ** rewrite E, updz_eq. apply H3; auto; lia.
              ** rewrite updz_neq by auto. apply H2; auto.
           ++ intros j Hj Hpar Hge2.
              rewrite (updz_neq _ _ _ (i / 2 / 2)) by lia.
              assert (Hpp : ppass s (h (i / 2 / 2)) <= ppass s (h (i / 2))).
              { apply H2; lia. }
              destruct (Z.eq_dec j i) as [->|Hji].
              ** now rewrite updz_eq.
              ** rewrite updz_neq by auto.
                 specialize (H2 j Hj Hji ltac:(lia)). rewrite Hpar in H2. lia.
        -- intros j Hj Hpar.
           destruct (Z.eq_dec j i) as [->|Hji].
           ++ rewrite updz_eq. lia.
           ++ rewrite updz_neq by auto.
              specialize (H2 j Hj Hji ltac:(lia)). rewrite Hpar in H2. lia.
    + exists h, i. split; [reflexivity|]. split; [apply Permutation_refl|].
      intros Hhole Hdown. apply hole_heap_fill; auto; lia.
Qed.

(** [pushheap] with room left: it returns, and the elements of the heap
    are the old ones and [p]. *)
Lemma pushheap_perm s p :
  0 <= stride_size s < 2 ^ 30 ->
  exists s',
    pushheap p s = Done s' /\
    stride_size s' = stride_size s + 1 /\
    procs s' = procs s /\
    Permutation (heap_elems s') (p :: heap_elems s) /\
    (heap_property s -> heap_property s') /\
    nxt s' = nxt s /\ prv s' = prv s /\ pin s' = pin s /\
    mlfq_ticks s' = mlfq_ticks s /\ mlfq_pass s' = mlfq_pass s /\
    mlfq_tickets s' = mlfq_tickets s /\ initproc s' = initproc s /\
    nextpid s' = nextpid s.
Proof.
  intros Hsize.
  change (2 ^ 30) with 1073741824 in Hsize.
  assert (Hw : add32 (stride_size s) 1 = stride_size s + 1).
  { apply wrap_small. unfold in_int. change (2 ^ 31) with 2147483648. lia. }
  unfold pushheap. rewrite Hw.
  set (nn := stride_size s + 1).
  set (s1 := with_stride_size nn s).
  destruct (pushheap_loop_ok s1 p nn (Z.to_nat nn) nn (minheap s1))
    as (h' & i' & Hrun & Hperm & Hh); [lia|lia|].
  rewrite Hrun. simpl.
  eexists. split; [reflexivity|].
  split; [reflexivity|]. split; [reflexivity|]. split; [|split].
  - unfold heap_elems. simpl. fold nn.
    eapply Permutation_trans; [exact Hperm|].
    subst nn. rewrite zrange_snoc by lia. rewrite map_app. simpl.
    rewrite updz_eq.
    eapply Permutation_trans; [apply Permutation_app_comm|]. simpl.
    apply perm_skip. apply Permutation_refl'.
    apply map_ext_in. intros x Hx. apply In_zrange in Hx.
    apply updz_neq. lia.
  - intros Hheap. apply heap_property_upto in Hheap.
    apply heap_property_upto. apply Hh.
    + split.
      * intros j Hj Hne1 Hne2. apply Hheap. subst nn. lia.
      * intros j Hj Hpar _. subst nn. lia.
    + intros j Hj Hpar. subst nn. lia.
  - repeat split; reflexivity.
Qed.

(** The sift-down loop of [popheap] ends and only moves cells around;
    started on a heap with a hole, it fills a heap once [last] is
    written into the final hole. *)
Lemma popheap_loop_ok s last : forall fuel parent h,
  stride_size s < 2 ^ 30 ->
  (Z.to_nat (stride_size s - parent) < fuel)%nat ->
  1 <= parent -> (parent <= stride_size s \/ parent = 1) ->
  exists h' p',
    popheap_loop fuel s last parent (2 * parent) h = Done (h', p') /\
    Permutation (map (updz h' p' last) (zrange 1 (stride_size s + 1)))
                (map (updz h parent last) (zrange 1 (stride_size s + 1))) /\
    (hole_heap (ppass s) (stride_size s) h parent ->
     (2 <= parent -> ppass s (h (parent / 2)) <= ppass s last) ->
     heap_upto (ppass s) (updz h' p' last) (stride_size s)).
Proof.
  set (n := stride_size s).
  induction fuel as [|fuel IH]; intros parent h Hn Hfuel Hp1 Hpn; [lia|].
  change (2 ^ 30) with 1073741824 in Hn.
  cbn [popheap_loop]. fold n.
  destruct (Z.leb_spec (2 * parent) n) as [Hc|Hc].
  - assert (Hw1 : add32 (2 * parent) 1 = 2 * parent + 1).
    { apply wrap_small. unfold in_int. change (2 ^ 31) with 2147483648. lia. }
    rewrite Hw1.
    set (child1 := if (2 * parent <? n) &&
                      (ppass s (h (2 * parent)) >? ppass s (h (2 * parent + 1)))
                   then 2 * parent + 1 else 2 * parent).
    assert (Hc1 : (child1 = 2 * parent \/ child1 = 2 * parent + 1) /\
                  child1 <= n /\
                  forall j, 2 <= j <= n -> j / 2 = parent ->
                            ppass s (h child1) <= ppass s (h j)).
    { subst child1.
      destruct (Z.ltb_spec (2 * parent) n) as [Hlt|Hlt]; cbn [andb].
      - destruct (Z.gtb_spec (ppass s (h (2 * parent)))
                             (ppass s (h (2 * parent + 1)))) as [Hgt|Hgt].
        + split; [auto|]. split; [lia|]. intros j Hj Hpar.
          assert (j = 2 * parent \/ j = 2 * parent + 1) as [->| ->] by lia; lia.
        + split; [auto|]. split; [lia|]. intros j Hj Hpar.
          assert (j = 2 * parent \/ j = 2 * parent + 1) as [->| ->] by lia; lia.
      - split; [auto|]. split; [lia|]. intros j Hj Hpar.
        assert (j = 2 * parent) as -> by lia. lia. }
    destruct Hc1 as (Hc1 & Hc1n & Hmin).
    assert (Hc1p : child1 / 2 = parent) by lia.
    assert (Hw2 : mul32 child1 2 = 2 * child1).
    { unfold mul32. rewrite wrap_small; [lia|].
      unfold in_int. change (2 ^ 31) with 2147483648. lia. }
    rewrite Hw2.
    destruct (Z.leb_spec (ppass s last) (ppass s (h child1))) as [Hle|Hgt].
    + exists h, parent. split; [reflexivity|]. split; [apply Permutation_refl|].
      intros Hhole Hup. apply hole_heap_fill; auto.
      intros j Hj Hpar. specialize (Hmin j Hj Hpar). lia.
    + destruct (IH child1 (updz h parent (h child1)))
        as (h' & p' & Hrun & Hperm & Hheap); [lia|lia|lia|lia|].
      exists h', p'. split; [exact Hrun|]. split.
      * eapply Permutation_trans; [exact Hperm|].
        pose proof (map_swap_perm (updz h parent last) parent child1
                      (zrange 1 (n + 1)) (NoDup_zrange _ _)) as Hsw.
        rewrite updz_eq, (updz_neq _ _ _ child1) in Hsw by lia.
        eapply Permutation_trans; [|apply Hsw; apply In_zrange; lia].
        apply Permutation_refl'.
        apply map_ext. intros x. unfold updz.
        destruct (Z.eqb_spec x child1); auto.
        destruct (Z.eqb_spec x parent); auto.
      * intros [H2 H3] Hup. apply Hheap.
        -- split.
           ++ intros j Hj Hne1 Hne2.
              destruct (Z.eq_dec j parent) as [->|Hjp].
              ** rewrite updz_eq, updz_neq by lia.
                 apply H3; lia.
              ** rewrite (updz_neq _ _ _ j) by auto.
                 destruct (Z.eq_dec (j / 2) parent) as [E|E].
                 --- rewrite E, updz_eq. apply Hmin; auto.
                 --- rewrite updz_neq by auto. apply H2; auto.
           ++ intros j Hj Hpar Hge2.
              rewrite Hc1p, updz_eq, updz_neq by lia.
              specialize (H2 j Hj ltac:(lia) ltac:(lia)).
              rewrite Hpar in H2. exact H2.
        -- intros _. rewrite Hc1p, updz_eq. lia.
  - exists h, parent. split; [reflexivity|]. split; [apply Permutation_refl|].
    intros Hhole Hup. apply hole_heap_fill; auto.
    intros j Hj Hpar. lia.
Qed.

(** [popheap] on a non-empty array: it returns the root and leaves the
    remaining elements; on a heap, the root carries the least pass and
    what is left is a heap. *)
Lemma popheap_perm s :
  1 <= stride_size s < 2 ^ 30 ->
  exists s',
    popheap s = Done (minheap s 1, s') /\
    stride_size s' = stride_size s - 1 /\
    procs s' = procs s /\
    Permutation (minheap s 1 :: heap_elems s') (heap_elems s) /\
    (heap_property s ->
     heap_property s' /\
     forall i, 1 <= i <= stride_size s ->
               ppass s (minheap s 1) <= ppass s (minheap s i)) /\
    nxt s' = nxt s /\ prv s' = prv s /\ pin s' = pin s /\
    mlfq_ticks s' = mlfq_ticks s /\ mlfq_pass s' = mlfq_pass s /\
    mlfq_tickets s' = mlfq_tickets s /\ initproc s' = initproc s /\
    nextpid s' = nextpid s.
Proof.
  intros Hsize.
  assert (Hw : sub32 (stride_size s) 1 = stride_size s - 1).
  { apply wrap_small. unfold in_int.
    change (2 ^ 30) with 1073741824 in Hsize.
    change (2 ^ 31) with 2147483648. lia. }
  unfold popheap. rewrite Hw.
  set (n := stride_size s - 1).
  set (s1 := with_stride_size n s).
  set (last := minheap s (stride_size s)).
  destruct (popheap_loop_ok s1 last (Z.to_nat (stride_size s)) 1 (minheap s1))
    as (h' & p' & Hrun & Hperm & Hh).
  - simpl. lia.
  - simpl. lia.
  - lia.
  - auto.
  - change (2 * 1) with 2 in Hrun. rewrite Hrun. simpl.
    eexists. split; [reflexivity|].
    split; [reflexivity|]. split; [reflexivity|]. split; [|split].
    + unfold heap_elems. simpl. simpl in Hperm. fold n in Hperm.
      eapply Permutation_trans; [apply perm_skip; exact Hperm|].
      replace (stride_size s + 1) with (n + 1 + 1) by (subst n; lia).
      rewrite (zrange_snoc 1 (n + 1)) by (subst n; lia).
      rewrite map_app. simpl.
      replace (n + 1) with (stride_size s) at 3 by (subst n; lia).
      fold last.
      destruct (Z.eq_dec n 0) as [Hn0|Hn0].
      * rewrite Hn0. simpl. replace (stride_size s) with 1 in * by lia.
        subst last. replace (stride_size s) with 1 by lia.
        apply Permutation_refl.
      * rewrite (zrange_cons 1 (n + 1)) by (subst n; lia). simpl.
        rewrite updz_eq.
        rewrite (map_ext_in (updz (minheap s) 1 last) (minheap s)).
        2:{ intros x Hx. apply In_zrange in Hx. apply updz_neq. lia. }
        apply perm_skip.
        apply (Permutation_cons_append (map (minheap s) (zrange (1 + 1) (n + 1))) last).
    + intros Hheap. apply heap_property_upto in Hheap. split.
      * apply heap_property_upto. apply Hh.
        -- split.
           ++ intros j Hj Hne1 Hne2. apply Hheap. simpl in Hj. lia.
           ++ intros j Hj Hpar Hge. lia.
        -- lia.
      * exact (heap_root_min _ _ _ Hheap).
    + repeat split; reflexivity.
Qed.

(** The sift-down loop leaves the cells above the hole alone, and the
    hole only moves down. *)
Lemma popheap_loop_frame s last : forall fuel parent child h h' p',
  stride_size s < 2 ^ 30 -> 1 <= parent < child ->
  popheap_loop fuel s last parent child h = Done (h', p') ->
  parent <= p' /\ forall j, j < parent -> h' j = h j.
Proof.
  induction fuel as [|fuel IH]; intros parent child h h' p' Hn Hpc Hrun;
    [discriminate|].
  change (2 ^ 30) with 1073741824 in Hn.
  cbn [popheap_loop] in Hrun.
  destruct (Z.leb_spec child (stride_size s)) as [Hc|Hc].
  - assert (Hw1 : add32 child 1 = child + 1).
    { apply wrap_small. unfold in_int. change (2 ^ 31) with 2147483648. lia. }
    rewrite Hw1 in Hrun.
    set (child1 := if (child <? stride_size s) &&
                      (ppass s (h child) >? ppass s (h (child + 1)))
                   then child + 1 else child) in *.
    assert (Hc1 : child <= child1 <= stride_size s).
    { subst child1. destruct (Z.ltb_spec child (stride_size s)); cbn [andb];
        [destruct (ppass s (h child) >? ppass s (h (child + 1)))|]; lia. }
    destruct (ppass s last <=? ppass s (h child1)).
    + injection Hrun as <- <-. split; [lia|auto].
    + assert (Hw2 : mul32 child1 2 = 2 * child1).
      { unfold mul32. rewrite wrap_small; [lia|]. unfold in_int.
        change (2 ^ 31) with 2147483648. lia. }
      rewrite Hw2 in Hrun.
      assert (Hpc' : 1 <= child1 < 2 * child1) by lia.
      destruct (IH child1 (2 * child1) _ h' p' Hn Hpc' Hrun) as [Hp Hj].
      split; [lia|]. intros j Hjp. rewrite Hj by lia. apply updz_neq. lia.
  - injection Hrun as <- <-. split; [lia|auto].
Qed.

(** The root after [popheap]: the last element when its pass is at most
    the passes of the children of the root, and else the child of the
    root with the smaller pass, the left one on a tie. *)
Lemma popheap_root s m s' :
  2 <= stride_size s < 2 ^ 30 -> popheap s = Done (m, s') ->
  let n' := stride_size s - 1 in
  let last := minheap s (stride_size s) in
  let c := if (2 <? n') && (ppass s (minheap s 2) >? ppass s (minheap s 3))
           then 3 else 2 in
  minheap s' 1 =
  if (2 <=? n') && negb (ppass s last <=? ppass s (minheap s c))
  then minheap s c else last.
Proof.
  intros Hsize Hrun n' last c.
  assert (Hw : sub32 (stride_size s) 1 = stride_size s - 1).
  { apply wrap_small. unfold in_int.
    change (2 ^ 30) with 1073741824 in Hsize.
    change (2 ^ 31) with 2147483648. lia. }
  unfold popheap in Hrun. rewrite Hw in Hrun. fold n' last in Hrun.
  set (s1 := with_stride_size n' s) in *.
  destruct (Z.to_nat (stride_size s)) as [|fuel] eqn:Ef; [lia|].
  cbn [popheap_loop] in Hrun.
  change (stride_size s1) with n' in Hrun.
  change (add32 2 1) with 3 in Hrun.
  change (minheap s1) with (minheap s) in Hrun.
  change (ppass s1) with (ppass s) in Hrun.
  replace (2 <? n') with (2 <? n') in Hrun by reflexivity.
  fold c in Hrun.
  destruct (Z.leb_spec 2 n') as [H2|H2]; cbn [andb].
  - destruct (ppass s last <=? ppass s (minheap s c)) eqn:Ele; cbn [negb].
    + cbn [bind fst snd] in Hrun. injection Hrun as _ <-.
      cbn [minheap with_minheap]. apply updz_eq.
    + destruct (popheap_loop fuel s1 last c (mul32 c 2)
                  (updz (minheap s) 1 (minheap s c))) as [[h' p']|e] eqn:El;
        [|discriminate].
      cbn [bind fst snd] in Hrun. injection Hrun as _ <-.
      assert (Hc : 2 <= c <= 3).
      { subst c. destruct ((2 <? n') && _); lia. }
      assert (Hm : mul32 c 2 = 2 * c).
      { unfold mul32. rewrite wrap_small; [lia|]. unfold in_int.
        change (2 ^ 31) with 2147483648. lia. }
      rewrite Hm in El.
      assert (Hn1 : stride_size s1 < 2 ^ 30).
      { change (stride_size s1) with n'. subst n'. lia. }
      assert (Hc2 : 1 <= c < 2 * c) by lia.
      destruct (popheap_loop_frame s1 last fuel c (2 * c) _ h' p' Hn1 Hc2 El)
        as [Hp Hj].
      cbn [minheap with_minheap]. rewrite updz_neq by lia.
      rewrite Hj by lia. apply updz_eq.
  - cbn [bind fst snd] in Hrun. injection Hrun as _ <-.
    cbn [minheap with_minheap]. apply updz_eq.
Qed.

End HeapProofs.

(** ** Pointer fields and chains *)

Lemma node_eqb_spec a b : reflect (a = b) (node_eqb a b).
Proof.
  destruct a, b; simpl; try (constructor; congruence);
    try (destruct (Z.eqb_spec l l0); constructor; congruence);
    destruct (Nat.eqb_spec i i0); constructor; congruence.
Qed.

Lemma node_eqb_refl a : node_eqb a a = true.
Proof. destruct (node_eqb_spec a a); congruence. Qed.

Lemma node_eqb_neq a b : a <> b -> node_eqb a b = false.
Proof. destruct (node_eqb_spec a b); congruence. Qed.

Lemma node_eq_dec (a b : node) : {a = b} + {a <> b}.
Proof. destruct (node_eqb_spec a b); auto. Qed.

Lemma updn_eq {A} (f : node -> A) k v : updn f k v k = v.
Proof. unfold updn. now rewrite node_eqb_refl. Qed.

Lemma updn_neq {A} (f : node -> A) k v x : x <> k -> updn f k v x = f x.
Proof. unfold updn. intros H. now rewrite node_eqb_neq. Qed.

Lemma updl_eq L h xs : updl L h xs h = xs.
Proof. unfold updl. now rewrite node_eqb_refl. Qed.

Lemma updl_neq L h xs k : k <> h -> updl L h xs k = L k.
Proof. unfold updl. intros H. now rewrite node_eqb_neq. Qed.

Lemma linked_cons f a b l : linked f (a :: b :: l) <-> f a = b /\ linked f (b :: l).
Proof. reflexivity. Qed.

Lemma linked_tail f a l : linked f (a :: l) -> linked f l.
Proof. destruct l; simpl; tauto. Qed.

Lemma linked_app f l1 a l2 :
  linked f (l1 ++ a :: l2) <-> linked f (l1 ++ [a]) /\ linked f (a :: l2).
Proof.
  induction l1 as [|x l1 IH].
  - simpl. tauto.
  - destruct l1 as [|y l1].
    + simpl. tauto.
    + change ((x :: y :: l1) ++ a :: l2) with (x :: y :: (l1 ++ a :: l2)).
      change ((x :: y :: l1) ++ [a]) with (x :: y :: (l1 ++ [a])).
      rewrite !linked_cons. simpl app in IH. tauto.
Qed.

(** A chain only depends on the fields of its nodes but the last. *)
Lemma linked_frame f g l :
  (forall n, In n (removelast l) -> g n = f n) -> linked f l -> linked g l.
Proof.
  induction l as [|a l IH]; auto.
  destruct l as [|b l]; auto.
  intros Hag [Hab Hl]. split.
  - rewrite Hag; auto. simpl. auto.
  - apply IH; auto. intros n Hn. apply Hag.
    change (removelast (a :: b :: l)) with (a :: removelast (b :: l)).
    now right.
Qed.

Lemma linked_hd f a l d : linked f (a :: l ++ [d]) -> f a = hd d l.
Proof. destruct l; simpl; tauto. Qed.

Lemma removelast_snoc {A} (l : list A) x : removelast (l ++ [x]) = l.
Proof. apply removelast_last. Qed.

Lemma hd_app_snoc {A} (l : list A) (x d : A) : hd d (l ++ [x]) = hd x l.
Proof. destruct l; reflexivity. Qed.

Lemma last_cons_default {A} (l : list A) (x d : A) : last (x :: l) d = last l x.
Proof.
  revert x d. induction l as [|y l IH]; intros x d; auto.
  change (last (x :: y :: l) d) with (last (y :: l) d).
  now rewrite !IH.
Qed.

Lemma hd_rev {A} (l : list A) d : hd d (rev l) = last l d.
Proof.
  induction l as [|x l IH] using rev_ind; auto.
  rewrite rev_app_distr, last_last. reflexivity.
Qed.

Lemma last_rev {A} (l : list A) d : last (rev l) d = hd d l.
Proof. rewrite <- (rev_involutive l) at 2. now rewrite hd_rev. Qed.

(** Every list is its front part followed by its last element. *)
Lemma snoc_view {A} (x : A) (l : list A) :
  exists pre, x :: l = pre ++ [last l x] /\ removelast (x :: l) = pre.
Proof.
  exists (removelast (x :: l)). split; auto.
  rewrite <- last_cons_default with (d := x).
  apply app_removelast_last. discriminate.
Qed.

Lemma linked_cons_hd f a l d :
  l <> [] -> (linked f (a :: l) <-> f a = hd d l /\ linked f l).
Proof. destruct l; [congruence|]. intros _. reflexivity. Qed.

(** Splicing the chain [ys] into a cycle, between [a] and [b]. *)
Lemma linked_splice f f' h a ys b :
  NoDup (h :: a ++ ys ++ b) -> ys <> [] ->
  linked f (h :: a ++ b ++ [h]) -> linked f ys ->
  f' (last a h) = hd h ys -> f' (last ys h) = hd h b ->
  (forall n, In n (h :: a ++ ys ++ b) ->
             n <> last a h -> n <> last ys h -> f' n = f n) ->
  linked f' (h :: a ++ ys ++ b ++ [h]).
Proof.
  intros Hnd Hys Hcyc Hch Hla Hly Hother.
  destruct (snoc_view h a) as [pre [E _]].
  destruct (exists_last Hys) as [yp [ly Eys]]. subst ys.
  rewrite last_last in *.
  set (la := last a h) in *. clearbody la.
  change (h :: a ++ (yp ++ [ly]) ++ b ++ [h])
    with ((h :: a) ++ (yp ++ [ly]) ++ b ++ [h]).
  change (h :: a ++ b ++ [h]) with ((h :: a) ++ b ++ [h]) in Hcyc.
  change (h :: a ++ (yp ++ [ly]) ++ b)
    with ((h :: a) ++ (yp ++ [ly]) ++ b) in Hnd, Hother.
  rewrite E in *. clear E.
  rewrite <- !app_assoc in *. simpl in Hcyc, Hnd. simpl.
  apply linked_app in Hcyc. destruct Hcyc as [Hpre Hpost].
  assert (Hla_out : ~ In la (pre ++ yp ++ ly :: b)) by (apply NoDup_remove_2; exact Hnd).
  assert (Hly_out : ~ In ly (pre ++ la :: yp ++ b)).
  { replace (pre ++ la :: yp ++ ly :: b) with ((pre ++ la :: yp) ++ ly :: b) in Hnd
      by (rewrite <- app_assoc; reflexivity).
    apply NoDup_remove_2 in Hnd. rewrite <- app_assoc in Hnd. exact Hnd. }
  assert (Hfr : forall n, In n (pre ++ yp ++ b) -> f' n = f n).
  { intros n Hn. apply Hother; [|intros ->..].
    - rewrite !in_app_iff in *. cbn [In].
      rewrite ?in_app_iff. cbn [In]. tauto.
    - apply Hla_out. rewrite !in_app_iff in *. cbn [In]. tauto.
    - apply Hly_out. rewrite !in_app_iff in *. cbn [In]. rewrite !in_app_iff. tauto. }
  apply linked_app. split.
  - apply linked_frame with (f := f); auto.
    rewrite removelast_snoc. intros n Hn. apply Hfr.
    rewrite in_app_iff. auto.
  - rewrite (linked_cons_hd _ _ _ h) by (destruct yp; discriminate).
    split.
    + rewrite Hla. destruct yp; reflexivity.
    + apply linked_app. split.
      * apply linked_frame with (f := f); auto.
        rewrite removelast_snoc. intros n Hn. apply Hfr.
        rewrite !in_app_iff. auto.
      * rewrite (linked_cons_hd _ _ _ h) by (destruct b; discriminate).
        split.
        -- rewrite Hly. now rewrite hd_app_snoc.
        -- apply linked_tail in Hpost.
           apply linked_frame with (f := f); auto.
           rewrite removelast_snoc. intros n Hn. apply Hfr.
           rewrite !in_app_iff. auto.
Qed.

(** Bridging over the node [x] of a cycle. *)
Lemma linked_del f f' h a x b :
  NoDup (h :: a ++ x :: b) ->
  linked f (h :: a ++ x :: b ++ [h]) ->
  f' (last a h) = hd h b ->
  (forall n, In n (h :: a ++ b) -> n <> last a h -> f' n = f n) ->
  linked f' (h :: a ++ b ++ [h]).
Proof.
  intros Hnd Hcyc Hla Hother.
  destruct (snoc_view h a) as [pre [E _]].
  set (la := last a h) in *. clearbody la.
  change (h :: a ++ b ++ [h]) with ((h :: a) ++ b ++ [h]).
  change (h :: a ++ x :: b ++ [h]) with ((h :: a) ++ x :: b ++ [h]) in Hcyc.
  change (h :: a ++ x :: b) with ((h :: a) ++ x :: b) in Hnd.
  change (h :: a ++ b) with ((h :: a) ++ b) in Hother.
  rewrite E in *. clear E.
  rewrite <- !app_assoc in *. simpl in Hcyc, Hnd. simpl.
  apply linked_app in Hcyc. destruct Hcyc as [Hpre Hpost].
  assert (Hla_out : ~ In la (pre ++ x :: b)) by (apply NoDup_remove_2; exact Hnd).
  assert (Hfr : forall n, In n (pre ++ b) -> f' n = f n).
  { intros n Hn. apply Hother; [|intros ->].
    - rewrite !in_app_iff in *. cbn [In]. tauto.
    - apply Hla_out. rewrite !in_app_iff in *. cbn [In]. tauto. }
  apply linked_app. split.
  - apply linked_frame with (f := f); auto.
    rewrite removelast_snoc. intros n Hn. apply Hfr.
    rewrite in_app_iff. auto.
  - rewrite (linked_cons_hd _ _ _ h) by (destruct b; discriminate).
    split.
    + rewrite Hla. now rewrite hd_app_snoc.
    + do 2 apply linked_tail in Hpost.
      apply linked_frame with (f := f); auto.
      rewrite removelast_snoc. intros n Hn. apply Hfr.
      rewrite !in_app_iff. auto.
Qed.

(** What the pointers of a well-formed list are. *)
Lemma is_list_next_head s h xs : is_list s h xs -> nxt s h = hd h xs.
Proof. intros (_ & Hn & _). now apply linked_hd in Hn. Qed.

Lemma is_list_prev_head s h xs : is_list s h xs -> prv s h = last xs h.
Proof.
  intros (_ & _ & Hp). apply linked_hd in Hp. now rewrite hd_rev in Hp.
Qed.

Lemma is_list_next_elem s h a x b :
  is_list s h (a ++ x :: b) -> nxt s x = hd h b.
Proof.
  intros (_ & Hn & _).
  change (h :: (a ++ x :: b) ++ [h]) with ((h :: a ++ x :: b) ++ [h]) in Hn.
  replace ((h :: a ++ x :: b) ++ [h]) with ((h :: a) ++ x :: (b ++ [h])) in Hn
    by (simpl; rewrite <- app_assoc; reflexivity).
  apply linked_app in Hn. destruct Hn as [_ Hn].
  now apply linked_hd in Hn.
Qed.

Lemma is_list_prev_elem s h a x b :
  is_list s h (a ++ x :: b) -> prv s x = last a h.
Proof.
  intros (_ & _ & Hp).
  rewrite rev_app_distr in Hp.
  change (rev (x :: b)) with (rev b ++ [x]) in Hp.
  replace (h :: ((rev b ++ [x]) ++ rev a) ++ [h])
    with ((h :: rev b) ++ x :: (rev a ++ [h])) in Hp
    by (simpl; rewrite <- !app_assoc; reflexivity).
  apply linked_app in Hp. destruct Hp as [_ Hp].
  apply linked_hd in Hp. now rewrite hd_rev in Hp.
Qed.

Lemma is_list_frame s s' h xs :
  (forall n, In n (h :: xs) -> nxt s' n = nxt s n /\ prv s' n = prv s n) ->
  is_list s h xs -> is_list s' h xs.
Proof.
  intros Hfr (Hnd & Hn & Hp). split; [exact Hnd|]. split.
  - apply linked_frame with (f := nxt s); auto.
    change (h :: xs ++ [h]) with ((h :: xs) ++ [h]).
    rewrite removelast_snoc. intros n Hin. now apply Hfr.
  - apply linked_frame with (f := prv s); auto.
    change (h :: rev xs ++ [h]) with ((h :: rev xs) ++ [h]).
    rewrite removelast_snoc. intros n Hin. apply Hfr.
    destruct Hin as [->|Hin]; [now left|right]. now apply in_rev.
Qed.

Lemma linked_front f l x : linked f (l ++ [x]) -> linked f l.
Proof.
  destruct l as [|a l] using rev_ind; auto.
  intros H. rewrite <- app_assoc in H. simpl in H.
  apply linked_app in H. tauto.
Qed.

Lemma NoDup_app_disjoint {A} (l1 l2 : list A) :
  NoDup (l1 ++ l2) -> forall a, In a l1 -> ~ In a l2.
Proof.
  induction l1 as [|x l1 IH]; simpl; intros Hnd a; [tauto|].
  inversion Hnd as [|? ? Hx Hnd']; subst.
  intros [->|Ha] H2.
  - apply Hx. rewrite in_app_iff. auto.
  - exact (IH Hnd' a Ha H2).
Qed.

Lemma NoDup_head_rev (h : node) l : NoDup (h :: l) -> NoDup (h :: rev l).
Proof.
  apply Permutation_NoDup. apply perm_skip, Permutation_rev.
Qed.

Lemma rev_middle {A} (a b : list A) x : rev (a ++ x :: b) = rev b ++ [x] ++ rev a.
Proof. rewrite rev_app_distr. simpl. now rewrite <- app_assoc. Qed.

(** ** The list operations on one well-formed list *)

Lemma is_list_insert s h a b x :
  is_list s h (a ++ b) -> ~ In x (h :: a ++ b) ->
  is_list (list_insert_between x (last a h) (hd h b) s) h (a ++ x :: b).
Proof.
  intros (Hnd & Hn & Hp) Hx.
  assert (Hnd' : NoDup (h :: a ++ x :: b)).
  { apply Permutation_NoDup with (l := x :: h :: a ++ b).
    - change (h :: a ++ x :: b) with ((h :: a) ++ x :: b).
      apply (Permutation_middle (h :: a) b x).
    - constructor; auto. }
  assert (Hxp : x <> last a h).
  { intros ->. apply Hx.
    destruct (snoc_view h a) as [pre [E _]].
    change (h :: a ++ b) with ((h :: a) ++ b). rewrite E.
    rewrite !in_app_iff. simpl. auto. }
  assert (Hxn : x <> hd h b).
  { intros ->. apply Hx. destruct b; simpl; auto.
    right. rewrite in_app_iff. simpl. auto. }
  split; [exact Hnd'|]. split.
  - cbn [list_insert_between set_next set_prev nxt with_nxt with_prv].
    change (h :: (a ++ x :: b) ++ [h]) with (h :: (a ++ [x] ++ b) ++ [h]).
    rewrite <- !app_assoc.
    apply linked_splice with (f := nxt s).
    + exact Hnd'.
    + discriminate.
    + now rewrite <- app_assoc in Hn.
    + exact I.
    + simpl. now rewrite updn_eq.
    + simpl. rewrite updn_neq by auto. now rewrite updn_eq.
    + intros n _ H1 H2. simpl in H2. now rewrite !updn_neq by auto.
  - cbn [list_insert_between set_next set_prev prv with_nxt with_prv].
    rewrite rev_app_distr. change (rev (x :: b)) with (rev b ++ [x]).
    rewrite <- !app_assoc.
    rewrite rev_app_distr, <- app_assoc in Hp.
    apply linked_splice with (f := prv s).
    + rewrite <- rev_middle. now apply NoDup_head_rev.
    + discriminate.
    + exact Hp.
    + exact I.
    + rewrite last_rev. simpl. rewrite updn_neq by auto. now rewrite updn_eq.
    + simpl. rewrite updn_eq. now rewrite hd_rev.
    + intros n _ H1 H2. rewrite last_rev in H1. simpl in H2.
      now rewrite !updn_neq by auto.
Qed.

Lemma is_list_add s h xs x :
  is_list s h xs -> ~ In x (h :: xs) -> is_list (list_add x h s) h (x :: xs).
Proof.
  intros Hl Hx. unfold list_add. rewrite (is_list_next_head _ _ _ Hl).
  apply (is_list_insert s h [] xs x); auto.
Qed.

Lemma is_list_add_tail s h xs x :
  is_list s h xs -> ~ In x (h :: xs) ->
  is_list (list_add_tail x h s) h (xs ++ [x]).
Proof.
  intros Hl Hx. unfold list_add_tail. rewrite (is_list_prev_head _ _ _ Hl).
  apply (is_list_insert s h xs [] x); rewrite app_nil_r; auto.
Qed.

Lemma is_list_del s h a x b :
  is_list s h (a ++ x :: b) -> is_list (list_del x s) h (a ++ b).
Proof.
  intros Hl.
  pose proof (is_list_next_elem _ _ _ _ _ Hl) as Hnx.
  pose proof (is_list_prev_elem _ _ _ _ _ Hl) as Hpx.
  destruct Hl as (Hnd & Hn & Hp).
  assert (Hnd' : NoDup (h :: a ++ b)).
  { change (h :: a ++ x :: b) with ((h :: a) ++ x :: b) in Hnd.
    now apply NoDup_remove_1 in Hnd. }
  split; [exact Hnd'|]. unfold list_del. rewrite Hnx, Hpx. split.
  - cbn [set_next set_prev nxt with_nxt with_prv].
    rewrite <- app_assoc. rewrite <- app_assoc in Hn.
    apply linked_del with (f := nxt s) (x := x); auto.
    + now rewrite updn_eq.
    + intros n _ H1. now rewrite updn_neq.
  - cbn [set_next set_prev prv with_nxt with_prv].
    rewrite rev_app_distr, <- app_assoc.
    rewrite rev_app_distr in Hp. change (rev (x :: b)) with (rev b ++ [x]) in Hp.
    rewrite <- !app_assoc in Hp.
    apply linked_del with (f := prv s) (x := x); auto.
    + change (x :: rev a) with ([x] ++ rev a).
      rewrite <- rev_middle. now apply NoDup_head_rev.
    + rewrite last_rev, updn_eq. now rewrite hd_rev.
    + intros n _ H1. rewrite last_rev in H1. now rewrite updn_neq.
Qed.

Lemma is_list_bulk s src dst xs ys :
  is_list s src ys -> is_list s dst xs -> NoDup (dst :: xs ++ src :: ys) ->
  is_list (list_bulk_move_tail src dst s) dst (xs ++ ys) /\
  is_list (list_bulk_move_tail src dst s) src [].
Proof.
  intros Hs Hd Hnd.
  pose proof (is_list_next_head _ _ _ Hs) as Hfirst.
  pose proof (is_list_prev_head _ _ _ Hs) as Hlast.
  pose proof (is_list_prev_head _ _ _ Hd) as Htail.
  unfold list_bulk_move_tail, list_empty. rewrite Hfirst.
  destruct ys as [|y0 ys].
  { simpl. rewrite node_eqb_refl, app_nil_r. auto. }
  cbn [hd]. cbn [hd] in Hfirst.
  rewrite last_cons_default in Hlast.
  assert (Hall : NoDup (src :: dst :: xs ++ y0 :: ys)).
  { apply Permutation_NoDup with (l := dst :: xs ++ src :: y0 :: ys); auto.
    apply Permutation_sym.
    apply (Permutation_middle (dst :: xs) (y0 :: ys) src). }
  assert (Hsrc : ~ In src (dst :: xs ++ y0 :: ys)) by now inversion Hall.
  assert (Hnd' : NoDup (dst :: xs ++ y0 :: ys)) by now inversion Hall.
  assert (Hy0src : y0 <> src).
  { intros ->. apply Hsrc. right. rewrite in_app_iff. simpl. auto. }
  rewrite node_eqb_neq by auto.
  rewrite Hlast, Htail.
  set (last := last ys y0) in *.
  set (tail := List.last xs dst) in *.
  assert (Hlast_in : In last (y0 :: ys)).
  { subst last. rewrite <- last_cons_default with (d := y0).
    destruct (snoc_view y0 ys) as [pre [E _]].
    rewrite last_cons_default, E, in_app_iff. simpl. auto. }
  assert (Htail_in : In tail (dst :: xs)).
  { subst tail. destruct (snoc_view dst xs) as [pre [E _]].
    rewrite E, in_app_iff. simpl. auto. }
  assert (Hdisj : forall n, In n (dst :: xs) -> ~ In n (y0 :: ys)).
  { intros n H1 H2.
    change (dst :: xs ++ y0 :: ys) with ((dst :: xs) ++ y0 :: ys) in Hnd'.
    exact (NoDup_app_disjoint _ _ Hnd' n H1 H2). }
  assert (Hsrc_xs : ~ In src (dst :: xs)).
  { intros H. apply Hsrc. simpl in *. rewrite in_app_iff. tauto. }
  assert (Hsrc_ys : ~ In src (y0 :: ys)).
  { intros H. apply Hsrc. simpl in *. rewrite in_app_iff. simpl. tauto. }
  destruct Hs as (Hsnd & Hsn & Hsp). destruct Hd as (Hdnd & Hdn & Hdp).
  split.
  - split; [exact Hnd'|]. split.
    + cbn [list_head_init set_next set_prev nxt with_nxt with_prv].
      rewrite <- app_assoc.
      replace ((y0 :: ys) ++ [dst]) with ((y0 :: ys) ++ [] ++ [dst]) by reflexivity.
      apply linked_splice with (f := nxt s).
      * now rewrite app_nil_r.
      * discriminate.
      * exact Hdn.
      * apply linked_tail in Hsn. now apply linked_front in Hsn.
      * fold tail. cbn [hd].
        rewrite updn_neq by (intros ->; auto).
        rewrite updn_neq by (intros E; apply (Hdisj tail); auto; now rewrite E).
        now rewrite updn_eq.
      * rewrite last_cons_default. fold last. cbn [hd].
        rewrite updn_neq by (intros ->; auto).
        now rewrite updn_eq.
      * intros n Hin H1 H2. fold tail in H1.
        rewrite last_cons_default in H2. fold last in H2.
        rewrite app_nil_r in Hin.
        rewrite updn_neq by (intros ->; auto).
        now rewrite !updn_neq by auto.
    + cbn [list_head_init set_next set_prev prv with_nxt with_prv].
      rewrite rev_app_distr, <- app_assoc.
      change (dst :: rev (y0 :: ys) ++ rev xs ++ [dst])
        with (dst :: [] ++ rev (y0 :: ys) ++ rev xs ++ [dst]).
      apply linked_splice with (f := prv s).
      * cbn [app]. rewrite <- rev_app_distr. now apply NoDup_head_rev.
      * intros E. apply (f_equal (@length node)) in E.
        rewrite length_rev in E. discriminate.
      * exact Hdp.
      * apply linked_tail in Hsp. now apply linked_front in Hsp.
      * cbn [List.last]. rewrite hd_rev, last_cons_default. fold last.
        rewrite updn_neq by (intros ->; apply Hsrc_xs; now left).
        now rewrite updn_eq.
      * rewrite last_rev, hd_rev. cbn [hd]. fold tail.
        rewrite updn_neq by auto.
        rewrite updn_neq
          by (intros ->; apply (Hdisj dst); [now left|now left]).
        now rewrite updn_eq.
      * intros n Hin H1 H2. cbn [List.last] in H1.
        rewrite last_rev in H2. cbn [hd] in H2.
        assert (n <> src).
        { intros ->. apply Hsrc. cbn [app] in Hin.
          destruct Hin as [E|Hin]; [now left|right].
          rewrite <- rev_app_distr in Hin. now apply in_rev in Hin. }
        now rewrite !updn_neq by auto.
  - split; [constructor; [simpl; tauto|constructor]|].
    cbn [list_head_init set_next set_prev nxt prv with_nxt with_prv].
    simpl. now rewrite !updn_eq.
Qed.

(** ** The list operations on a family of disjoint lists *)

Lemma last_in_cons {A} (h : A) (a : list A) : In (last a h) (h :: a).
Proof.
  destruct (snoc_view h a) as [pre [E _]]. rewrite E, in_app_iff. simpl. auto.
Qed.

Lemma hd_in_cons {A} (h : A) (b : list A) : In (hd h b) (h :: b).
Proof. destruct b; simpl; auto. Qed.

Lemma in_cons_app_l {A} (h n : A) a b : In n (h :: a) -> In n (h :: a ++ b).
Proof. simpl. rewrite in_app_iff. tauto. Qed.

Lemma in_cons_app_r {A} (h n : A) a b : In n (h :: b) -> In n (h :: a ++ b).
Proof. simpl. rewrite in_app_iff. tauto. Qed.

Lemma in_cons_app_r' {A} (h n x : A) a b : In n (h :: b) -> In n (h :: a ++ x :: b).
Proof. simpl. rewrite in_app_iff. simpl. tauto. Qed.

Lemma insert_footprint x p nx s n :
  n <> x -> n <> p -> n <> nx ->
  nxt (list_insert_between x p nx s) n = nxt s n /\
  prv (list_insert_between x p nx s) n = prv s n.
Proof.
  intros. cbn [list_insert_between set_next set_prev nxt prv with_nxt with_prv].
  now rewrite !updn_neq by auto.
Qed.

Lemma del_footprint x s n :
  n <> prv s x -> n <> nxt s x ->
  nxt (list_del x s) n = nxt s n /\ prv (list_del x s) n = prv s n.
Proof.
  intros. unfold list_del.
  cbn [set_next set_prev nxt prv with_nxt with_prv].
  now rewrite !updn_neq by auto.
Qed.

Lemma bulk_footprint src dst s n :
  n <> src -> n <> dst -> n <> nxt s src -> n <> prv s src -> n <> prv s dst ->
  nxt (list_bulk_move_tail src dst s) n = nxt s n /\
  prv (list_bulk_move_tail src dst s) n = prv s n.
Proof.
  intros. unfold list_bulk_move_tail. destruct (list_empty src s); auto.
  cbn [list_head_init set_next set_prev nxt prv with_nxt with_prv].
  now rewrite !updn_neq by auto.
Qed.

Lemma lists_ok_apart s hs L h h' n :
  lists_ok s hs L -> In h hs -> In h' hs -> h <> h' ->
  In n (h' :: L h') -> ~ In n (h :: L h).
Proof.
  intros (Hl & Hnh & Hdj) Hh Hh' Hne [<-|Hn] [E|Hn'].
  - congruence.
  - exact (Hnh h h' Hh Hn' Hh').
  - subst n. exact (Hnh h' h Hh' Hn Hh).
  - exact (Hdj h h' n Hh Hh' Hne Hn' Hn).
Qed.

Lemma lists_ok_insert s hs L h a b x :
  lists_ok s hs L -> In h hs -> L h = a ++ b -> off_lists hs L x ->
  lists_ok (list_insert_between x (last a h) (hd h b) s) hs
           (updl L h (a ++ x :: b)).
Proof.
  intros Hok Hh HL [Hxh Hxl].
  pose proof Hok as (Hl & Hnh & Hdj).
  assert (Hsub : forall n, In n (a ++ x :: b) -> n = x \/ In n (L h)).
  { intros n. rewrite HL. rewrite !in_app_iff. simpl.
    intuition (subst; auto). }
  split; [|split].
  - intros h' Hh'. destruct (node_eq_dec h' h) as [->|Hne].
    + rewrite updl_eq. apply is_list_insert.
      * rewrite <- HL. auto.
      * rewrite <- HL. intros [<-|Hin]; [auto|]. exact (Hxl h Hh Hin).
    + rewrite updl_neq by auto.
      apply is_list_frame with (s := s); auto.
      intros n Hn.
      pose proof (lists_ok_apart s hs L h h' n Hok Hh Hh' (not_eq_sym Hne) Hn) as Hap.
      apply insert_footprint.
      * intros ->. destruct Hn as [<-|Hn]; [auto|]. exact (Hxl h' Hh' Hn).
      * intros ->. apply Hap. rewrite HL. apply in_cons_app_l, last_in_cons.
      * intros ->. apply Hap. rewrite HL. apply in_cons_app_r, hd_in_cons.
  - intros h' n Hh' Hn. destruct (node_eq_dec h' h) as [->|Hne].
    + rewrite updl_eq in Hn.
      destruct (Hsub n Hn) as [->|Hin]; [exact Hxh|exact (Hnh h n Hh Hin)].
    + rewrite updl_neq in Hn by auto. exact (Hnh h' n Hh' Hn).
  - intros h1 h2 n Hh1 Hh2 Hne Hn1 Hn2.
    destruct (node_eq_dec h1 h) as [->|Hne1]; destruct (node_eq_dec h2 h) as [->|Hne2];
      try congruence.
    + rewrite updl_eq in Hn1. rewrite updl_neq in Hn2 by auto.
      destruct (Hsub n Hn1) as [->|Hin].
      * exact (Hxl h2 Hh2 Hn2).
      * exact (Hdj h h2 n Hh Hh2 Hne Hin Hn2).
    + rewrite updl_eq in Hn2. rewrite updl_neq in Hn1 by auto.
      destruct (Hsub n Hn2) as [->|Hin].
      * exact (Hxl h1 Hh1 Hn1).
      * exact (Hdj h1 h n Hh1 Hh Hne Hn1 Hin).
    + rewrite updl_neq in Hn1, Hn2 by auto.
      exact (Hdj h1 h2 n Hh1 Hh2 Hne Hn1 Hn2).
Qed.

Lemma lists_ok_add s hs L h x :
  lists_ok s hs L -> In h hs -> off_lists hs L x ->
  lists_ok (list_add x h s) hs (updl L h (x :: L h)).
Proof.
  intros Hok Hh Hx. unfold list_add.
  rewrite (is_list_next_head s h (L h)) by (apply Hok; auto).
  apply (lists_ok_insert s hs L h [] (L h) x); auto.
Qed.

Lemma lists_ok_add_tail s hs L h x :
  lists_ok s hs L -> In h hs -> off_lists hs L x ->
  lists_ok (list_add_tail x h s) hs (updl L h (L h ++ [x])).
Proof.
  intros Hok Hh Hx. unfold list_add_tail.
  rewrite (is_list_prev_head s h (L h)) by (apply Hok; auto).
  apply (lists_ok_insert s hs L h (L h) [] x); auto. now rewrite app_nil_r.
Qed.

Lemma lists_ok_del s hs L h a x b :
  lists_ok s hs L -> In h hs -> L h = a ++ x :: b ->
  lists_ok (list_del x s) hs (updl L h (a ++ b)) /\
  off_lists hs (updl L h (a ++ b)) x.
Proof.
  intros Hok Hh HL.
  pose proof Hok as (Hl & Hnh & Hdj).
  assert (His : is_list s h (a ++ x :: b)) by (rewrite <- HL; auto).
  assert (Hxin : In x (L h)) by (rewrite HL, in_app_iff; simpl; auto).
  assert (Hsub : forall n, In n (a ++ b) -> In n (L h)).
  { intros n. rewrite HL, !in_app_iff. simpl. tauto. }
  split.
  - split; [|split].
    + intros h' Hh'. destruct (node_eq_dec h' h) as [->|Hne].
      * rewrite updl_eq. now apply is_list_del.
      * rewrite updl_neq by auto.
        apply is_list_frame with (s := s); auto.
        intros n Hn.
        pose proof (lists_ok_apart s hs L h h' n Hok Hh Hh' (not_eq_sym Hne) Hn) as Hap.
        apply del_footprint.
        -- rewrite (is_list_prev_elem _ _ _ _ _ His). intros ->. apply Hap.
           rewrite HL. apply in_cons_app_l, last_in_cons.
        -- rewrite (is_list_next_elem _ _ _ _ _ His). intros ->. apply Hap.
           rewrite HL. apply in_cons_app_r', hd_in_cons.
    + intros h' n Hh' Hn. destruct (node_eq_dec h' h) as [->|Hne].
      * rewrite updl_eq in Hn. exact (Hnh h n Hh (Hsub n Hn)).
      * rewrite updl_neq in Hn by auto. exact (Hnh h' n Hh' Hn).
    + intros h1 h2 n Hh1 Hh2 Hne Hn1 Hn2.
      destruct (node_eq_dec h1 h) as [->|Hne1];
        destruct (node_eq_dec h2 h) as [->|Hne2]; try congruence.
      * rewrite updl_eq in Hn1. rewrite updl_neq in Hn2 by auto.
        exact (Hdj h h2 n Hh Hh2 Hne (Hsub n Hn1) Hn2).
      * rewrite updl_eq in Hn2. rewrite updl_neq in Hn1 by auto.
        exact (Hdj h1 h n Hh1 Hh Hne Hn1 (Hsub n Hn2)).
      * rewrite updl_neq in Hn1, Hn2 by auto.
        exact (Hdj h1 h2 n Hh1 Hh2 Hne Hn1 Hn2).
  - split; [exact (Hnh h x Hh Hxin)|].
    intros h' Hh'. destruct (node_eq_dec h' h) as [->|Hne].
    + rewrite updl_eq. destruct His as (Hnd & _).
      change (h :: a ++ x :: b) with ((h :: a) ++ x :: b) in Hnd.
      apply NoDup_remove_2 in Hnd. simpl in Hnd. tauto.
    + rewrite updl_neq by auto. intros Hin.
      exact (Hdj h h' x Hh Hh' (not_eq_sym Hne) Hxin Hin).
Qed.

Lemma lists_ok_bulk s hs L src dst :
  lists_ok s hs L -> In src hs -> In dst hs -> src <> dst ->
  lists_ok (list_bulk_move_tail src dst s) hs
           (updl (updl L dst (L dst ++ L src)) src []).
Proof.
  intros Hok Hs Hd Hne.
  pose proof Hok as (Hl & Hnh & Hdj).
  assert (Hnd : NoDup (dst :: L dst ++ src :: L src)).
  { change (dst :: L dst ++ src :: L src) with ((dst :: L dst) ++ src :: L src).
    apply NoDup_app.
    - apply (Hl dst Hd).
    - apply (Hl src Hs).
    - intros n Hn. exact (lists_ok_apart s hs L src dst n Hok Hs Hd Hne Hn). }
  destruct (is_list_bulk s src dst (L dst) (L src) (Hl src Hs) (Hl dst Hd) Hnd)
    as [Hdst Hsrc].
  split; [|split].
  - intros h Hh. destruct (node_eq_dec h src) as [->|Hn1].
    + now rewrite updl_eq.
    + rewrite updl_neq by auto. destruct (node_eq_dec h dst) as [->|Hn2].
      * now rewrite updl_eq.
      * rewrite updl_neq by auto.
        apply is_list_frame with (s := s); auto.
        intros n Hn.
        pose proof (lists_ok_apart s hs L src h n Hok Hs Hh (not_eq_sym Hn1) Hn) as Hap1.
        pose proof (lists_ok_apart s hs L dst h n Hok Hd Hh (not_eq_sym Hn2) Hn) as Hap2.
        apply bulk_footprint.
        -- intros ->. apply Hap1. now left.
        -- intros ->. apply Hap2. now left.
        -- rewrite (is_list_next_head _ _ _ (Hl src Hs)). intros ->.
           apply Hap1. apply hd_in_cons.
        -- rewrite (is_list_prev_head _ _ _ (Hl src Hs)). intros ->.
           apply Hap1. apply last_in_cons.
        -- rewrite (is_list_prev_head _ _ _ (Hl dst Hd)). intros ->.
           apply Hap2. apply last_in_cons.
  - intros h n Hh Hn. destruct (node_eq_dec h src) as [->|Hn1].
    + now rewrite updl_eq in Hn.
    + rewrite updl_neq in Hn by auto. destruct (node_eq_dec h dst) as [->|Hn2].
      * rewrite updl_eq, in_app_iff in Hn.
        destruct Hn as [Hn|Hn]; [exact (Hnh dst n Hd Hn)|exact (Hnh src n Hs Hn)].
      * rewrite updl_neq in Hn by auto. exact (Hnh h n Hh Hn).
  - intros h1 h2 n Hh1 Hh2 Hne12 Hn1 Hn2.
    destruct (node_eq_dec h1 src) as [->|Ha]; [now rewrite updl_eq in Hn1|].
    destruct (node_eq_dec h2 src) as [->|Hb]; [now rewrite updl_eq in Hn2|].
    rewrite updl_neq in Hn1, Hn2 by auto.
    destruct (node_eq_dec h1 dst) as [->|Hc]; destruct (node_eq_dec h2 dst) as [->|Hd2];
      try congruence.
    + rewrite updl_eq, in_app_iff in Hn1. rewrite updl_neq in Hn2 by auto.
      destruct Hn1 as [Hn1|Hn1].
      * exact (Hdj dst h2 n Hd Hh2 Hne12 Hn1 Hn2).
      * exact (Hdj src h2 n Hs Hh2 (not_eq_sym Hb) Hn1 Hn2).
    + rewrite updl_eq, in_app_iff in Hn2. rewrite updl_neq in Hn1 by auto.
      destruct Hn2 as [Hn2|Hn2].
      * exact (Hdj h1 dst n Hh1 Hd Hne12 Hn1 Hn2).
      * exact (Hdj h1 src n Hh1 Hs Ha Hn1 Hn2).
    + rewrite updl_neq in Hn1, Hn2 by auto.
      exact (Hdj h1 h2 n Hh1 Hh2 Hne12 Hn1 Hn2).
Qed.

(** ** Loops over a well-formed list *)

Lemma is_list_next_split s h a b :
  is_list s h (a ++ b) -> nxt s (last a h) = hd h b.
Proof.
  intros Hl. destruct a as [|x a] using rev_ind.
  - simpl. now apply is_list_next_head.
  - rewrite last_last. rewrite <- app_assoc in Hl.
    now apply is_list_next_elem in Hl.
Qed.

Lemma is_list_elem_not_head s h xs x : is_list s h xs -> In x xs -> x <> h.
Proof.
  intros (Hnd & _) Hx ->. inversion Hnd; auto.
Qed.

(** A loop [for(itr = h->next; itr != h; itr = itr->next)] over a list
    whose links the body keeps: it ends after one pass, with the
    invariant [I] carried over every element. *)
Lemma list_for_each_ok (I : list node -> ptable -> Prop) body h xs :
  (forall done a, I done a -> is_list a h xs) ->
  (forall done x rest a, xs = done ++ x :: rest -> I done a ->
     exists a', body x a = Done a' /\ I (done ++ [x]) a') ->
  forall s fuel, I [] s -> (length xs < fuel)%nat ->
  exists s', list_for_each fuel h (nxt s h) body s = Done s' /\ I xs s'.
Proof.
  intros Hlist Hstep s fuel HI Hfuel.
  assert (G : forall rest done a fuel,
             xs = done ++ rest -> I done a -> (length rest < fuel)%nat ->
             exists s', list_for_each fuel h (hd h rest) body a = Done s' /\ I xs s').
  { induction rest as [|x rest IH]; intros done a f E Ha Hf.
    - destruct f; [lia|]. simpl. rewrite node_eqb_refl.
      exists a. split; auto. rewrite app_nil_r in E. now subst.
    - destruct f; [simpl in Hf; lia|]. cbn [list_for_each hd].
      assert (Hx : x <> h).
      { apply (is_list_elem_not_head a h xs); eauto.
        rewrite E, in_app_iff. simpl. auto. }
      rewrite node_eqb_neq by auto.
      destruct (Hstep done x rest a E Ha) as (a' & Hb & Ha').
      rewrite Hb. cbn [bind].
      pose proof (Hlist _ _ Ha') as Hl'.
      rewrite E in Hl'.
      rewrite (is_list_next_elem _ _ _ _ _ Hl').
      apply (IH (done ++ [x])); auto.
      + rewrite <- app_assoc. exact E.
      + simpl in Hf. lia. }
  rewrite (is_list_next_head s h xs) by eauto.
  apply (G xs [] s fuel); auto.
Qed.

(** ** Walking a queue from its pin *)

Lemma split_at_spec c x :
  In x c ->
  exists pre post, c = pre ++ x :: post /\ ~ In x pre /\
                   split_at c x = (pre, x :: post).
Proof.
  induction c as [|y c IH]; intros Hx; [contradiction|].
  simpl. destruct (node_eqb_spec y x) as [->|Hne].
  - exists [], c. simpl. auto.
  - destruct Hx as [Hx|Hx]; [congruence|].
    destruct (IH Hx) as (pre & post & E & Hpre & Hs).
    exists (y :: pre), post. rewrite Hs, E. simpl. split; [auto|]. split; [|auto].
    intros [H|H]; auto.
Qed.

Lemma rotate_from_split pre x post :
  ~ In x pre -> rotate_from (pre ++ x :: post) x = x :: post ++ pre.
Proof.
  intros Hpre. unfold rotate_from.
  assert (In x (pre ++ x :: post)) as Hin by (rewrite in_app_iff; simpl; auto).
  destruct (split_at_spec _ _ Hin) as (pre' & post' & E & Hpre' & Hs).
  rewrite Hs. simpl.
  assert (pre' = pre /\ post' = post) as [-> ->]; [|reflexivity].
  clear Hs Hin. revert pre' E Hpre'.
  induction pre as [|a pre IH]; intros [|b pre'] E Hp'; simpl in *.
  - inversion E; auto.
  - inversion E; subst. tauto.
  - inversion E; subst. tauto.
  - inversion E; subst.
    destruct (IH (fun H => Hpre (or_intror H)) pre' H1 (fun H => Hp' (or_intror H)))
      as [-> ->]. auto.
Qed.

Lemma rotate_from_perm c x : In x c -> Permutation (rotate_from c x) c.
Proof.
  intros Hin. destruct (split_at_spec _ _ Hin) as (pre & post & E & Hpre & _).
  rewrite E at 1. rewrite rotate_from_split by auto. subst c.
  change (x :: post ++ pre) with ((x :: post) ++ pre).
  apply Permutation_app_comm.
Qed.

Lemma linked_rotate f pre x post :
  linked f ((pre ++ x :: post) ++ [hd x pre]) ->
  linked f ((x :: post ++ pre) ++ [x]).
Proof.
  destruct pre as [|h pre]; simpl hd.
  - now rewrite app_nil_r.
  - intros H.
    replace (((h :: pre) ++ x :: post) ++ [h])
      with ((h :: pre) ++ x :: (post ++ [h])) in H
      by (rewrite <- app_assoc; reflexivity).
    apply linked_app in H. destruct H as [H1 H2].
    replace ((x :: post ++ h :: pre) ++ [x])
      with ((x :: post) ++ h :: (pre ++ [x]))
      by (simpl; rewrite <- app_assoc; reflexivity).
    apply linked_app. split; auto.
Qed.

Lemma first_runnable_some s ns p :
  first_runnable s ns = Some p ->
  exists before after,
    ns = before ++ PQueue p :: after /\ pstate s p = RUNNABLE /\
    forall q, In (PQueue q) before -> pstate s q <> RUNNABLE.
Proof.
  induction ns as [|n ns IH]; simpl; [discriminate|].
  intros H.
  assert (Hskip : first_runnable s ns = Some p ->
                  (forall q, n = PQueue q -> pstate s q <> RUNNABLE) ->
                  exists before after,
                    n :: ns = before ++ PQueue p :: after /\ pstate s p = RUNNABLE /\
                    forall q, In (PQueue q) before -> pstate s q <> RUNNABLE).
  { intros H' Hn. destruct (IH H') as (b & a & E & Hp & Hb).
    exists (n :: b), a. rewrite E. split; [reflexivity|]. split; [auto|].
    intros q [Hq|Hq]; auto. }
  destruct n; try (apply Hskip; [exact H|discriminate]).
  destruct (pstate s i) eqn:Est;
    try (apply Hskip; [exact H|intros q [= <-]; congruence]).
  inversion H; subst. exists [], ns. simpl. split; [auto|]. split; [auto|tauto].
Qed.

Lemma first_runnable_none s ns :
  first_runnable s ns = None ->
  forall q, In (PQueue q) ns -> pstate s q <> RUNNABLE.
Proof.
  induction ns as [|n ns IH]; simpl; [tauto|].
  intros H q [Hq|Hq].
  - subst n. destruct (pstate s q); congruence.
  - apply IH; auto. destruct n; auto. destruct (pstate s i); auto; discriminate.
Qed.

Section MlfqProofs.
Context {T : Tunables}.

(** The walk of one level visits the nodes from [itr] on and stops when
    it is back at the start. *)
Lemma mlfqselect_walk_ok s l start : forall rest done itr fuel,
  NoDup (done ++ itr :: rest) -> hd itr done = start ->
  linked (nxt s) ((done ++ itr :: rest) ++ [start]) ->
  (forall n, In n (itr :: rest) -> n = QueueHead l \/ is_pqueue n) ->
  (length rest < fuel)%nat ->
  mlfqselect_walk fuel (QueueHead l) start itr s =
  Done (first_runnable s (itr :: rest)).
Proof.
  induction rest as [|y rest IH]; intros done itr fuel Hnd Hstart Hlk Hel Hfuel;
    (destruct fuel as [|fuel]; [simpl in Hfuel; lia|]).
  - assert (Hnext : nxt s itr = start).
    { rewrite <- app_assoc in Hlk. apply linked_app in Hlk.
      destruct Hlk as [_ Hlk]. simpl in Hlk. tauto. }
    cbn [mlfqselect_walk first_runnable]. unfold list_is_head.
    destruct (Hel itr (or_introl eq_refl)) as [->|[p ->]].
    + rewrite node_eqb_refl. cbn [bind]. rewrite Hnext, node_eqb_refl. reflexivity.
    + cbn [node_eqb queue_entry bind].
      destruct (pstate s p); cbn [bind]; try reflexivity;
        rewrite Hnext, node_eqb_refl; reflexivity.
  - assert (Hnext : nxt s itr = y).
    { rewrite <- app_assoc in Hlk. apply linked_app in Hlk.
      destruct Hlk as [_ Hlk]. simpl in Hlk. tauto. }
    assert (Hy : y <> start).
    { intros ->. subst.
      replace (done ++ itr :: hd itr done :: rest)
        with ((done ++ [itr]) ++ hd itr done :: rest) in Hnd
        by (rewrite <- app_assoc; reflexivity).
      apply NoDup_remove_2 in Hnd. apply Hnd.
      rewrite !in_app_iff. left. destruct done; simpl; auto. }
    assert (Hrec : mlfqselect_walk fuel (QueueHead l) start y s =
                   Done (first_runnable s (y :: rest))).
    { apply (IH (done ++ [itr])).
      - now rewrite <- (app_assoc done [itr]).
      - now rewrite hd_app_snoc.
      - now rewrite <- (app_assoc done [itr]).
      - intros n Hn. apply Hel. now right.
      - simpl in Hfuel. lia. }
    cbn [mlfqselect_walk]. unfold list_is_head.
    destruct (Hel itr (or_introl eq_refl)) as [->|[p ->]].
    + rewrite node_eqb_refl. cbn [bind]. rewrite Hnext, node_eqb_neq by auto.
      rewrite Hrec. reflexivity.
    + cbn [node_eqb queue_entry bind].
      change (first_runnable s (PQueue p :: y :: rest))
        with (match pstate s p with
              | RUNNABLE => Some p
              | _ => first_runnable s (y :: rest)
              end).
      destruct (pstate s p); cbn [bind]; try reflexivity;
        rewrite Hnext, node_eqb_neq by auto; exact Hrec.
Qed.

Lemma pin_in_cycle s L l :
  pin_valid s L l -> In (pin s l) (QueueHead l :: L (QueueHead l)).
Proof. intros [->|H]; simpl; auto. Qed.

Lemma select_level_ok s hs L l fuel :
  mlfq_ok s hs L -> 0 <= l < QSIZE -> pin_valid s L l ->
  (length (L (QueueHead l)) < fuel)%nat ->
  mlfqselect_walk fuel (QueueHead l) (pin s l) (pin s l) s =
  Done (select_level s L l).
Proof.
  intros (Hok & Hheads & Hpq) Hl Hpin Hfuel.
  pose proof (pin_in_cycle _ _ _ Hpin) as Hin.
  destruct (split_at_spec _ _ Hin) as (pre & post & E & Hpre & _).
  unfold select_level. rewrite E, rotate_from_split by auto.
  destruct Hok as (Hlists & _).
  destruct (Hlists _ (Hheads l Hl)) as (Hnd & Hn & _).
  apply (mlfqselect_walk_ok s l (pin s l) (post ++ pre) [] (pin s l) fuel).
  - simpl. apply Permutation_NoDup with (l := QueueHead l :: L (QueueHead l)); auto.
    rewrite E. change (pin s l :: post ++ pre) with ((pin s l :: post) ++ pre).
    apply Permutation_app_comm.
  - reflexivity.
  - simpl app at 1.
    apply linked_rotate.
    replace (hd (pin s l) pre) with (QueueHead l)
      by (destruct pre; simpl in E; inversion E; reflexivity).
    rewrite <- E. exact Hn.
  - intros n Hn'.
    assert (In n (QueueHead l :: L (QueueHead l))) as [<-|Hq].
    { rewrite E. cbn [In] in Hn'. rewrite in_app_iff in *. cbn [In]. tauto. }
    + now left.
    + right. eapply Hpq; eauto.
  - apply (f_equal (@length node)) in E. rewrite length_app in E.
    simpl in E. rewrite length_app. lia.
Qed.

Lemma mlfqselect_levels_ok s hs L fuel ls :
  mlfq_ok s hs L -> pins_valid s L ->
  (forall l, In l ls -> 0 <= l < QSIZE) ->
  (forall l, In l ls -> (length (L (QueueHead l)) < fuel)%nat) ->
  mlfqselect_levels fuel ls s = Done (select_levels s L ls).
Proof.
  intros Hok Hpins. induction ls as [|l ls IH]; intros Hr Hf; [reflexivity|].
  cbn [mlfqselect_levels select_levels].
  rewrite (select_level_ok s hs L l fuel); auto; try (apply Hr || apply Hf; now left).
  2:{ apply Hpins, Hr. now left. }
  cbn [bind]. destruct (select_level s L l); [reflexivity|].
  apply IH; intros; [apply Hr|apply Hf]; now right.
Qed.

Lemma select_levels_range s hs L hi :
  mlfq_ok s hs L -> pins_valid s L -> hi <= QSIZE ->
  forall k lo, Z.to_nat (hi - lo) = k -> 0 <= lo ->
  match select_levels s L (zrange lo hi) with
  | (None, s') =>
      s' = s /\ forall l, lo <= l < hi -> no_runnable s L l
  | (Some p, s') =>
      exists l before after,
        lo <= l < hi /\
        rotate_from (QueueHead l :: L (QueueHead l)) (pin s l) =
          before ++ PQueue p :: after /\
        pstate s p = RUNNABLE /\
        (forall q, In (PQueue q) before -> pstate s q <> RUNNABLE) /\
        (forall l', lo <= l' < l -> no_runnable s L l') /\
        s' = set_pin l (PQueue p) s
  end.
Proof.
  intros Hok Hpins Hhi. induction k as [|k IH]; intros lo Hk Hlo.
  - rewrite zrange_nil by lia. simpl. split; [reflexivity|]. intros l Hl. lia.
  - rewrite zrange_cons by lia. cbn [select_levels].
    destruct (select_level s L lo) as [p|] eqn:Esel.
    + unfold select_level in Esel.
      destruct (first_runnable_some _ _ _ Esel) as (before & after & E & Hp & Hb).
      exists lo, before, after. repeat split; auto; try lia.
    + specialize (IH (lo + 1) ltac:(lia) ltac:(lia)).
      assert (Hno : no_runnable s L lo).
      { intros q Hq. unfold select_level in Esel.
        apply (first_runnable_none _ _ Esel).
        apply (Permutation_in (l := QueueHead lo :: L (QueueHead lo))).
        - apply Permutation_sym, rotate_from_perm, pin_in_cycle, Hpins. lia.
        - now right. }
      destruct (select_levels s L (zrange (lo + 1) hi)) as [[p|] s'].
      * destruct IH as (l & before & after & Hl & E & Hp & Hb & Hlow & Hs').
        exists l, before, after. repeat split; auto; try lia.
        intros l' Hl'. destruct (Z.eq_dec l' lo) as [->|]; auto. apply Hlow. lia.
      * destruct IH as [-> Hall]. split; auto.
        intros l Hl. destruct (Z.eq_dec l lo) as [->|]; auto. apply Hall. lia.
Qed.

(** ** Pins under the queue operations *)

Lemma lists_ok_same_links s s' hs L :
  nxt s' = nxt s -> prv s' = prv s -> lists_ok s hs L -> lists_ok s' hs L.
Proof.
  intros Hn Hp (Hl & H2 & H3). split; [|split]; auto.
  intros h Hh. apply is_list_frame with (s := s); auto.
  intros n _. now rewrite Hn, Hp.
Qed.

Lemma mlfq_ok_same_links s s' hs L :
  nxt s' = nxt s -> prv s' = prv s -> mlfq_ok s hs L -> mlfq_ok s' hs L.
Proof.
  intros Hn Hp (H1 & H2 & H3). split; [|split]; auto.
  eapply lists_ok_same_links; eauto.
Qed.

Lemma queue_head_inj l l' : QueueHead l = QueueHead l' -> l = l'.
Proof. congruence. Qed.

Lemma enqueue_ok s hs L level p :
  mlfq_ok s hs L -> 0 <= level < QSIZE -> off_lists hs L (PQueue p) ->
  pins_valid s L ->
  mlfq_ok (enqueue level p s) hs
          (updl L (QueueHead level) (L (QueueHead level) ++ [PQueue p])) /\
  pins_valid (enqueue level p s)
          (updl L (QueueHead level) (L (QueueHead level) ++ [PQueue p])) /\
  pin (enqueue level p s) = pin s.
Proof.
  intros (Hok & Hheads & Hpq) Hl Hoff Hpins.
  split; [|split]; [| |reflexivity].
  - split; [|split]; auto.
    + apply lists_ok_add_tail; auto.
    + intros l n Hr Hn. destruct (Z.eq_dec l level) as [->|Hne].
      * rewrite updl_eq, in_app_iff in Hn. destruct Hn as [Hn|[<-|[]]].
        -- eapply Hpq; eauto.
        -- now exists p.
      * rewrite updl_neq in Hn by congruence. eapply Hpq; eauto.
  - intros l Hr. destruct (Hpins l Hr) as [Hp|Hp]; [now left|right].
    change (pin (enqueue level p s) l) with (pin s l).
    destruct (Z.eq_dec l level) as [->|Hne].
    + rewrite updl_eq, in_app_iff. now left.
    + rewrite updl_neq by congruence. exact Hp.
Qed.

Lemma dequeue_ok s hs L p a b :
  mlfq_ok s hs L -> pins_valid s L ->
  0 <= privlevel (procs s p) < QSIZE ->
  L (QueueHead (privlevel (procs s p))) = a ++ PQueue p :: b ->
  let l := privlevel (procs s p) in
  let L' := updl L (QueueHead l) (a ++ b) in
  mlfq_ok (dequeue p s) hs L' /\
  pins_valid (dequeue p s) L' /\
  off_lists hs L' (PQueue p) /\
  pin (dequeue p s) l =
    (if node_eqb (pin s l) (PQueue p) then hd (QueueHead l) b else pin s l) /\
  (forall l', l' <> l -> pin (dequeue p s) l' = pin s l') /\
  procs (dequeue p s) = procs s.
Proof.
  intros Hm Hpins Hl HL l L'. subst l.
  set (l := privlevel (procs s p)) in *.
  pose proof Hm as (Hok & Hheads & Hpq).
  assert (Hlist : is_list s (QueueHead l) (a ++ PQueue p :: b)).
  { rewrite <- HL. apply Hok. auto. }
  pose proof (is_list_next_elem _ _ _ _ _ Hlist) as Hnext.
  set (s1 := if node_eqb (pin s l) (PQueue p)
             then set_pin l (nxt s (PQueue p)) s else s).
  assert (Hs1 : nxt s1 = nxt s /\ prv s1 = prv s /\ procs s1 = procs s).
  { subst s1. destruct (node_eqb (pin s l) (PQueue p)); auto. }
  destruct Hs1 as (Hn1 & Hp1 & Hpr1).
  assert (Hok1 : lists_ok s1 hs L) by (eapply lists_ok_same_links; eauto).
  destruct (lists_ok_del s1 hs L (QueueHead l) a (PQueue p) b Hok1 (Hheads l Hl) HL)
    as [Hok' Hoff].
  assert (Hd : dequeue p s = list_del (PQueue p) s1) by reflexivity.
  assert (Hpin_l : pin (dequeue p s) l =
                   if node_eqb (pin s l) (PQueue p)
                   then hd (QueueHead l) b else pin s l).
  { rewrite Hd. change (pin (list_del (PQueue p) s1)) with (pin s1). subst s1.
    destruct (node_eqb (pin s l) (PQueue p)); auto.
    cbn [set_pin pin with_pin]. now rewrite updz_eq. }
  assert (Hpin_o : forall l', l' <> l -> pin (dequeue p s) l' = pin s l').
  { intros l' Hne. rewrite Hd.
    change (pin (list_del (PQueue p) s1)) with (pin s1). subst s1.
    destruct (node_eqb (pin s l) (PQueue p)); auto.
    cbn [set_pin pin with_pin]. now rewrite updz_neq. }
  split; [|split; [|split; [|split; [|split]]]]; auto.
  - split; [exact Hok'|split]; [exact Hheads|].
    intros l' n Hr Hn. subst L'. destruct (Z.eq_dec l' l) as [->|Hne].
    + rewrite updl_eq in Hn. apply (Hpq l n Hr). rewrite HL.
      rewrite in_app_iff in *. simpl. tauto.
    + rewrite updl_neq in Hn by congruence. eapply Hpq; eauto.
  - intros l' Hr. unfold pin_valid. subst L'.
    destruct (Z.eq_dec l' l) as [->|Hne].
    + rewrite Hpin_l, updl_eq.
      destruct (node_eqb_spec (pin s l) (PQueue p)) as [E|E].
      * destruct b as [|y b]; simpl; [now left|right].
        rewrite in_app_iff. simpl. auto.
      * destruct (Hpins l Hr) as [Hp|Hp]; [now left|right].
        rewrite HL in Hp. rewrite in_app_iff in *.
        destruct Hp as [Hp|[Hp|Hp]]; auto. congruence.
    + rewrite Hpin_o by auto. rewrite updl_neq by congruence.
      apply Hpins; auto.
Qed.

Lemma list_empty_iff s h xs : is_list s h xs -> list_empty h s = true <-> xs = [].
Proof.
  intros Hl. unfold list_empty. rewrite (is_list_next_head _ _ _ Hl).
  destruct xs as [|x xs]; simpl.
  - rewrite node_eqb_refl. tauto.
  - rewrite node_eqb_neq; [split; discriminate|].
    apply (is_list_elem_not_head s h (x :: xs)); simpl; auto.
Qed.

Lemma concatqueue_ok s hs L src dst :
  mlfq_ok s hs L -> pins_valid s L ->
  0 <= src < QSIZE -> 0 <= dst < QSIZE -> src <> dst ->
  let L' := updl (updl L (QueueHead dst) (L (QueueHead dst) ++ L (QueueHead src)))
                 (QueueHead src) [] in
  mlfq_ok (concatqueue src dst s) hs L' /\
  pins_valid (concatqueue src dst s) L' /\
  pin (concatqueue src dst s) src = QueueHead src /\
  pin (concatqueue src dst s) dst =
    (if list_empty (QueueHead dst) s && negb (node_eqb (pin s src) (QueueHead src))
     then pin s src else pin s dst) /\
  (forall l, l <> src -> l <> dst -> pin (concatqueue src dst s) l = pin s l) /\
  procs (concatqueue src dst s) = procs s.
Proof.
  intros Hm Hpins Hs Hd Hne L'.
  pose proof Hm as (Hok & Hheads & Hpq).
  set (c := list_empty (QueueHead dst) s && negb (node_eqb (pin s src) (QueueHead src))).
  set (s1 := if c then set_pin dst (pin s src) s else s).
  set (s2 := set_pin src (QueueHead src) s1).
  assert (Hcq : concatqueue src dst s =
                list_bulk_move_tail (QueueHead src) (QueueHead dst) s2) by reflexivity.
  assert (Hlinks : nxt s2 = nxt s /\ prv s2 = prv s /\ procs s2 = procs s).
  { subst s2 s1. destruct c; auto. }
  destruct Hlinks as (Hn2 & Hp2 & Hpr2).
  assert (Hok2 : lists_ok s2 hs L) by (eapply lists_ok_same_links; eauto).
  assert (Hpin : pin (concatqueue src dst s) = pin s2).
  { rewrite Hcq. unfold list_bulk_move_tail.
    destruct (list_empty (QueueHead src) s2); reflexivity. }
  assert (Hprocs : procs (concatqueue src dst s) = procs s).
  { rewrite Hcq. unfold list_bulk_move_tail.
    destruct (list_empty (QueueHead src) s2); auto. }
  assert (Hpsrc : pin s2 src = QueueHead src).
  { subst s2. cbn [set_pin pin with_pin]. now rewrite updz_eq. }
  assert (Hpdst : pin s2 dst = if c then pin s src else pin s dst).
  { subst s2 s1. cbn [set_pin pin with_pin]. rewrite updz_neq by auto.
    destruct c; auto. cbn [set_pin pin with_pin]. now rewrite updz_eq. }
  assert (Hpoth : forall l, l <> src -> l <> dst -> pin s2 l = pin s l).
  { intros l H1 H2. subst s2 s1. cbn [set_pin pin with_pin].
    rewrite updz_neq by auto.
    destruct c; auto. cbn [set_pin pin with_pin]. now rewrite updz_neq. }
  rewrite Hpin. split; [|split; [|split; [|split; [|split]]]]; auto.
  - split; [|split]; [|exact Hheads|].
    + rewrite Hcq. apply lists_ok_bulk; auto. congruence.
    + intros l n Hr Hn. subst L'.
      destruct (Z.eq_dec l src) as [->|H1]; [now rewrite updl_eq in Hn|].
      rewrite updl_neq in Hn by congruence.
      destruct (Z.eq_dec l dst) as [->|H2].
      * rewrite updl_eq, in_app_iff in Hn.
        destruct Hn as [Hn|Hn]; [exact (Hpq dst n Hd Hn)|exact (Hpq src n Hs Hn)].
      * rewrite updl_neq in Hn by congruence. exact (Hpq l n Hr Hn).
  - intros l Hr. unfold pin_valid. rewrite Hpin. subst L'.
    destruct (Z.eq_dec l src) as [->|H1]; [now left|].
    rewrite (updl_neq _ _ _ (QueueHead l)) by congruence.
    destruct (Z.eq_dec l dst) as [->|H2].
    + rewrite Hpdst, updl_eq. destruct c eqn:Ec.
      * right. rewrite in_app_iff. right.
        subst c. apply andb_prop in Ec. destruct Ec as [_ Ec].
        destruct (node_eqb_spec (pin s src) (QueueHead src)); [discriminate|].
        destruct (Hpins src Hs); [contradiction|auto].
      * destruct (Hpins dst Hd) as [Hp|Hp]; [now left|right].
        rewrite in_app_iff. now left.
    + rewrite Hpoth by auto. rewrite updl_neq by congruence. apply Hpins; auto.
Qed.

Lemma pins_valid_same s s' L :
  pin s' = pin s -> pins_valid s L -> pins_valid s' L.
Proof. intros E H l Hl. unfold pin_valid. rewrite E. now apply H. Qed.

Lemma procs_upd_proc_eq i f s : procs (upd_proc i f s) i = f (procs s i).
Proof. unfold upd_proc. cbn [procs with_procs]. now rewrite updp_eq. Qed.

Lemma procs_upd_proc_neq i j f s : j <> i -> procs (upd_proc i f s) j = procs s j.
Proof. intros H. unfold upd_proc. cbn [procs with_procs]. now rewrite updp_neq. Qed.

(** ** The accounting of [mlfqlogic] for a RUNNABLE process *)

Lemma mlfqlogic_account_runnable s hs L p a b :
  mlfq_ok s hs L -> pins_valid s L -> pstate s p = RUNNABLE ->
  0 <= privlevel (procs s p) < QSIZE -> in_int (QSIZE - 1) ->
  in_int (ticks (procs s p) + 1) ->
  L (QueueHead (privlevel (procs s p))) = a ++ PQueue p :: b ->
  let l := privlevel (procs s p) in
  let t := ticks (procs s p) + 1 in
  if (l <? QSIZE - 1) && (Z.rem t (TA l) =? 0) then
    exists s',
      mlfqlogic_account p s = Done s' /\
      mlfq_ok s' hs (demoted_layout L l p a b) /\
      pins_valid s' (demoted_layout L l p a b) /\
      procs s' p = set_ticks 0 (set_privlevel (l + 1) (procs s p)) /\
      (forall i, i <> p -> procs s' i = procs s i) /\
      (forall l', l' <> l -> pin s' l' = pin s l')
  else if Z.rem t (TQ l) =? 0 then
    mlfqlogic_account p s =
    Done (set_pin l (hd (QueueHead l) b) (upd_proc p (set_ticks t) s))
  else
    mlfqlogic_account p s = Done (upd_proc p (set_ticks t) s).
Proof.
  intros Hm Hpins Hst Hl Hq Ht HL l t.
  assert (Hbase : sub32 QSIZE 1 = QSIZE - 1) by now apply wrap_small.
  assert (Hadd : add32 (ticks (procs s p)) 1 = t) by now apply wrap_small.
  unfold mlfqlogic_account. rewrite Hst, Hbase.
  set (s1 := upd_proc p (fun x => set_ticks (add32 (ticks x) 1) x) s).
  assert (Hs1 : procs s1 p = set_ticks t (procs s p)).
  { subst s1. rewrite procs_upd_proc_eq. now rewrite Hadd. }
  rewrite Hs1. cbn [privlevel ticks set_ticks]. fold l.
  destruct ((l <? QSIZE - 1) && (Z.rem t (TA l) =? 0)) eqn:Edem.
  - apply andb_prop in Edem. destruct Edem as [El _]. apply Z.ltb_lt in El.
    assert (Hm1 : mlfq_ok s1 hs L) by (eapply mlfq_ok_same_links; eauto).
    assert (Hp1 : pins_valid s1 L) by (eapply pins_valid_same; eauto).
    assert (Hl1 : privlevel (procs s1 p) = l) by now rewrite Hs1.
    destruct (dequeue_ok s1 hs L p a b Hm1 Hp1) as (Hm2 & Hp2 & Hoff2 & _ & Hpo2 & Hpr2).
    { rewrite Hl1. exact Hl. }
    { rewrite Hl1. exact HL. }
    rewrite Hl1 in *.
    set (s2 := dequeue p s1) in *.
    set (L2 := updl L (QueueHead l) (a ++ b)) in *.
    set (s3 := upd_proc p (fun x => set_privlevel (add32 (privlevel x) 1) x) s2).
    assert (Hs3 : procs s3 p = set_privlevel (l + 1) (set_ticks t (procs s p))).
    { subst s3. rewrite procs_upd_proc_eq, Hpr2, Hs1. cbn [privlevel set_ticks].
      fold l. unfold add32. rewrite wrap_small; auto.
      unfold in_int in *. lia. }
    assert (Hm3 : mlfq_ok s3 hs L2) by (eapply mlfq_ok_same_links; eauto).
    assert (Hp3 : pins_valid s3 L2) by (eapply pins_valid_same; eauto).
    destruct (enqueue_ok s3 hs L2 (l + 1) p Hm3 ltac:(lia) Hoff2 Hp3)
      as (Hm4 & Hp4 & Hpin4).
    rewrite Hs3. cbn [privlevel set_privlevel].
    assert (HL2 : L2 (QueueHead (l + 1)) = L (QueueHead (l + 1))).
    { subst L2. apply updl_neq. intros E. apply queue_head_inj in E. lia. }
    rewrite HL2 in Hm4, Hp4.
    eexists. split; [reflexivity|].
    split; [|split; [|split; [|split]]].
    + eapply mlfq_ok_same_links; [| |exact Hm4]; reflexivity.
    + eapply pins_valid_same; [|exact Hp4]. reflexivity.
    + rewrite procs_upd_proc_eq.
      change (procs (enqueue (l + 1) p s3) p) with (procs s3 p).
      rewrite Hs3. reflexivity.
    + intros i Hi. rewrite procs_upd_proc_neq by auto.
      change (procs (enqueue (l + 1) p s3) i) with (procs s3 i).
      subst s3. rewrite procs_upd_proc_neq by auto. rewrite Hpr2.
      subst s1. now rewrite procs_upd_proc_neq.
    + intros l' Hl'.
      change (pin (upd_proc p (set_ticks 0) (enqueue (l + 1) p s3)) l')
        with (pin s2 l').
      now rewrite Hpo2.
  - assert (Hnext : nxt s1 (PQueue p) = hd (QueueHead l) b).
    { change (nxt s1) with (nxt s).
      destruct Hm as ((Hlists & _) & Hheads & _).
      apply (is_list_next_elem s (QueueHead l) a (PQueue p) b).
      rewrite <- HL. apply Hlists, Hheads. exact Hl. }
    rewrite Hnext. subst s1. unfold upd_proc. rewrite Hadd.
    destruct (Z.rem t (TQ l) =? 0); reflexivity.
Qed.

End MlfqProofs.

(** ** Wakeup *)

Lemma lists_ok_layout_ext s hs L L' :
  (forall h, L h = L' h) -> lists_ok s hs L -> lists_ok s hs L'.
Proof.
  intros E (H1 & H2 & H3). split; [|split].
  - intros h Hh. rewrite <- E. auto.
  - intros h x Hh Hx. rewrite <- E in Hx. eauto.
  - intros h h' x Hh Hh' Hne Hx. rewrite <- E in *. eauto.
Qed.

Lemma chanid_eqb_spec a b : reflect (a = b) (chanid_eqb a b).
Proof.
  destruct a, b; simpl; try (constructor; congruence).
  - destruct (Nat.eqb_spec i i0); constructor; congruence.
  - destruct (Z.eqb_spec a a0); constructor; congruence.
Qed.

Lemma same_sched_refl s : same_sched s s.
Proof. unfold same_sched. tauto. Qed.

Lemma same_sched_trans s1 s2 s3 :
  same_sched s1 s2 -> same_sched s2 s3 -> same_sched s1 s3.
Proof.
  unfold same_sched.
  intros (A1 & A2 & A3 & A4 & A5 & A6 & A7 & A8) (B1 & B2 & B3 & B4 & B5 & B6 & B7 & B8).
  repeat split; congruence.
Qed.

Section WakeProofs.
Context {T : Tunables}.

Lemma wakes_same_keys s s' c n : same_keys s s' -> wakes s' c n = wakes s c n.
Proof.
  intros H. destruct n; simpl; auto. destruct (H i) as (-> & _). reflexivity.
Qed.

Lemma wakes_mlfq_at_same_keys s s' c l n :
  same_keys s s' -> wakes_mlfq_at s' c l n = wakes_mlfq_at s c l n.
Proof.
  intros H. destruct n; simpl; auto. unfold ptype.
  destruct (H i) as (-> & -> & ->). reflexivity.
Qed.

Lemma wakeup1_loop_ok c hs : forall rest kept s fuel L,
  lists_ok s hs L -> In SleepHead hs -> L SleepHead = kept ++ rest ->
  (forall n, In n rest ->
     exists i, n = PQueue i /\
               (ptype s i = MLFQ -> In (QueueHead (privlevel (procs s i))) hs)) ->
  (length rest < fuel)%nat ->
  exists s' L',
    wakeup1_loop fuel c (hd SleepHead rest) s = Done s' /\
    lists_ok s' hs L' /\
    L' SleepHead = kept ++ filter (fun n => negb (wakes s c n)) rest /\
    (forall l, L' (QueueHead l) =
               L (QueueHead l) ++ filter (wakes_mlfq_at s c l) rest) /\
    (forall h, h <> SleepHead -> (forall l, h <> QueueHead l) -> L' h = L h) /\
    (forall i, procs s' i =
               if existsb (node_eqb (PQueue i)) rest &&
                  chanid_eqb (chan (procs s i)) c
               then set_state RUNNABLE (procs s i) else procs s i) /\
    same_sched s s'.
Proof.
  induction rest as [|n rest IH]; intros kept s fuel L Hok Hsl HL Hel Hfuel;
    (destruct fuel as [|fuel]; [simpl in Hfuel; lia|]).
  - exists s, L. cbn [wakeup1_loop hd]. rewrite node_eqb_refl.
    split; [reflexivity|]. split; [exact Hok|].
    split; [exact HL|]. split; [intros l; simpl; now rewrite app_nil_r|].
    split; [auto|]. split; [reflexivity|apply same_sched_refl].
  - destruct (Hel n (or_introl eq_refl)) as (p & -> & Hq).
    assert (Hlist : is_list s SleepHead (kept ++ PQueue p :: rest)).
    { rewrite <- HL. apply Hok. exact Hsl. }
    cbn [wakeup1_loop hd node_eqb queue_entry bind].
    assert (Hrest : forall n, In n rest -> forall s3, same_keys s s3 ->
              exists i, n = PQueue i /\
                (ptype s3 i = MLFQ -> In (QueueHead (privlevel (procs s3 i))) hs)).
    { intros n Hn s3 Hk. destruct (Hel n (or_intror Hn)) as (i & -> & Hi).
      exists i. split; auto. unfold ptype in *.
      destruct (Hk i) as (_ & -> & ->). exact Hi. }
    destruct (chanid_eqb_spec (chan (procs s p)) c) as [Hc|Hc].
    + (* the sleeper is woken *)
      rewrite (is_list_prev_elem _ _ _ _ _ Hlist).
      destruct (lists_ok_del s hs L SleepHead kept (PQueue p) rest Hok Hsl HL)
        as [Hok1 Hoff1].
      set (s1 := list_del (PQueue p) s) in *.
      set (L1 := updl L SleepHead (kept ++ rest)) in *.
      set (s2 := upd_proc p (set_state RUNNABLE) s1).
      assert (Hok2 : lists_ok s2 hs L1) by (eapply lists_ok_same_links; eauto).
      assert (Hp2 : forall i, procs s2 i =
                      if Nat.eqb i p then set_state RUNNABLE (procs s p) else procs s i).
      { intros i. subst s2. destruct (Nat.eqb_spec i p) as [->|Hne].
        - now rewrite procs_upd_proc_eq.
        - now rewrite procs_upd_proc_neq. }
      assert (Hk2 : same_keys s s2).
      { intros i. rewrite Hp2. destruct (Nat.eqb i p) eqn:E; auto.
        apply Nat.eqb_eq in E. subst. auto. }
      assert (Hty : ptype s2 p = ptype s p) by (unfold ptype; apply Hk2).
      assert (Hlv : privlevel (procs s2 p) = privlevel (procs s p)) by apply Hk2.
      rewrite Hty, Hlv.
      set (lv := privlevel (procs s p)) in *.
      set (s3 := match ptype s p with
                 | MLFQ => enqueue lv p s2
                 | STRIDE => s2
                 end).
      set (L3 := match ptype s p with
                 | MLFQ => updl L1 (QueueHead lv) (L1 (QueueHead lv) ++ [PQueue p])
                 | STRIDE => L1
                 end).
      assert (Hok3 : lists_ok s3 hs L3).
      { subst s3 L3. destruct (ptype s p) eqn:Et; auto.
        apply lists_ok_add_tail; auto. }
      assert (Hp3 : procs s3 = procs s2).
      { subst s3. destruct (ptype s p); reflexivity. }
      assert (Hsame3 : same_sched s s3).
      { subst s3. destruct (ptype s p); unfold same_sched; cbn; tauto. }
      assert (HL3s : L3 SleepHead = kept ++ rest).
      { subst L3 L1. destruct (ptype s p).
        - rewrite updl_neq by discriminate. now rewrite updl_eq.
        - now rewrite updl_eq. }
      assert (HL3q : forall l, L3 (QueueHead l) =
                        L (QueueHead l) ++
                        if wakes_mlfq_at s c l (PQueue p) then [PQueue p] else []).
      { intros l. subst L3 L1. cbn [wakes_mlfq_at]. fold lv.
        destruct (chanid_eqb_spec (chan (procs s p)) c); [|contradiction].
        destruct (ptype s p); cbn [schedtype_eqb andb].
        - destruct (Z.eqb_spec lv l) as [->|Hne].
          + rewrite updl_eq. now rewrite updl_neq by discriminate.
          + rewrite !updl_neq by (try discriminate; congruence).
            now rewrite app_nil_r.
        - rewrite updl_neq by discriminate. now rewrite app_nil_r. }
      assert (HL3o : forall h, h <> SleepHead -> (forall l, h <> QueueHead l) ->
                               L3 h = L h).
      { intros h H1 H2. subst L3 L1. destruct (ptype s p).
        - rewrite !updl_neq; auto.
        - rewrite updl_neq; auto. }
      assert (Hk3 : same_keys s s3) by (intros i; rewrite Hp3; apply Hk2).
      assert (Hnext : nxt s3 (last kept SleepHead) = hd SleepHead rest).
      { apply is_list_next_split. rewrite <- HL3s. apply Hok3. exact Hsl. }
      fold s1. fold s2. fold s3. rewrite Hnext.
      destruct (IH kept s3 fuel L3 Hok3 Hsl HL3s) as (s' & L' & Hrun & Hok' & Hs' & Hq' & Ho' & Hp' & Hsame').
      { intros n Hn. apply Hrest; auto. }
      { simpl in Hfuel. lia. }
      exists s', L'. split; [exact Hrun|]. split; [exact Hok'|].
      split; [|split; [|split; [|split]]].
      * rewrite Hs'. cbn [filter wakes].
        destruct (chanid_eqb_spec (chan (procs s p)) c); [|contradiction].
        cbn [negb]. f_equal. apply filter_ext. intros n.
        now rewrite (wakes_same_keys s s3).
      * intros l. rewrite Hq', HL3q. cbn [filter].
        rewrite <- app_assoc. f_equal.
        rewrite (filter_ext _ _ (fun n => wakes_mlfq_at_same_keys s s3 c l n Hk3)).
        destruct (wakes_mlfq_at s c l (PQueue p)); reflexivity.
      * intros h H1 H2. rewrite Ho' by auto. now apply HL3o.
      * intros i. rewrite Hp'.
        destruct (Hk3 i) as (Hch & _). rewrite Hch. rewrite Hp3, Hp2.
        cbn [existsb node_eqb].
        destruct (Nat.eq_dec i p) as [->|Hne].
        -- rewrite Nat.eqb_refl. cbn [orb].
           destruct (chanid_eqb_spec (chan (procs s p)) c); [|contradiction].
           rewrite andb_true_r.
           destruct (existsb (node_eqb (PQueue p)) rest); reflexivity.
        -- rewrite (proj2 (Nat.eqb_neq i p) Hne). reflexivity.
      * eapply same_sched_trans; eauto.
    + (* the sleeper stays *)
      rewrite (is_list_next_elem _ _ _ _ _ Hlist).
      destruct (IH (kept ++ [PQueue p]) s fuel L Hok Hsl) as (s' & L' & Hrun & Hok' & Hs' & Hq' & Ho' & Hp' & Hsame').
      { rewrite <- app_assoc. exact HL. }
      { intros n Hn. apply Hel. now right. }
      { simpl in Hfuel. lia. }
      exists s', L'. split; [exact Hrun|]. split; [exact Hok'|].
      split; [|split; [|split; [|split]]]; auto.
      * rewrite Hs', <- app_assoc. cbn [filter wakes].
        destruct (chanid_eqb_spec (chan (procs s p)) c); [contradiction|].
        reflexivity.
      * intros l. rewrite Hq'. cbn [filter wakes_mlfq_at].
        destruct (chanid_eqb_spec (chan (procs s p)) c); [contradiction|].
        reflexivity.
      * intros i. rewrite Hp'. cbn [existsb node_eqb].
        destruct (Nat.eq_dec i p) as [->|Hne].
        -- rewrite Nat.eqb_refl. cbn [orb].
           destruct (chanid_eqb_spec (chan (procs s p)) c); [contradiction|].
           now rewrite !andb_false_r.
        -- rewrite (proj2 (Nat.eqb_neq i p) Hne). reflexivity.
Qed.

(** [wakeup1] on well-formed lists: it returns; the sleepers on [c] are
    off the sleep list and RUNNABLE, those of type MLFQ are at the tail
    of their level; the stride heap and everything else is untouched. *)
Lemma wakeup1_ok fuel c s hs L :
  lists_ok s hs L -> In SleepHead hs -> sleepers_ok s hs L ->
  (length (L SleepHead) < fuel)%nat ->
  exists s' L',
    wakeup1 fuel c s = Done s' /\
    lists_ok s' hs L' /\
    (forall h, L' h = woken_layout s c L h) /\
    (forall i, procs s' i = woken_procs s c L i) /\
    same_sched s s'.
Proof.
  intros Hok Hsl Hsleep Hfuel.
  destruct (wakeup1_loop_ok c hs (L SleepHead) [] s fuel L Hok Hsl eq_refl Hsleep Hfuel)
    as (s' & L' & Hrun & Hok' & Hs' & Hq' & Ho' & Hp' & Hsame').
  exists s', L'. unfold wakeup1.
  rewrite (is_list_next_head s SleepHead (L SleepHead)) by (apply Hok; exact Hsl).
  split; [exact Hrun|]. split; [exact Hok'|]. split; [|split; [exact Hp'|exact Hsame']].
  intros h. unfold woken_layout.
  destruct h; try (apply Ho'; [discriminate|intros; discriminate]); auto.
Qed.

(** ** Kill *)

Lemma kill_scan_first target s : forall slots before i after,
  slots = before ++ i :: after ->
  (forall j, In j before -> pid (procs s j) <> target) ->
  pid (procs s i) = target ->
  kill_scan slots target s = (kill_found i s, 0).
Proof.
  induction slots as [|x slots IH]; intros before i after E Hb Hi.
  - destruct before; discriminate.
  - destruct before as [|y before]; simpl in E; inversion E; subst; simpl.
    + now rewrite Z.eqb_refl.
    + rewrite (proj2 (Z.eqb_neq _ _) (Hb y (or_introl eq_refl))).
      eapply IH; eauto. intros j Hj. apply Hb. now right.
Qed.

Lemma kill_first target s i :
  (i < NPROC)%nat -> pid (procs s i) = target ->
  (forall j, (j < i)%nat -> pid (procs s j) <> target) ->
  kill target s = (kill_found i s, 0).
Proof.
  intros Hi Hp Hb. unfold kill.
  apply (kill_scan_first target s _ (seq 0 i) i (seq (S i) (NPROC - S i))); auto.
  - replace NPROC with (i + S (NPROC - S i))%nat at 1 by lia.
    rewrite seq_app. reflexivity.
  - intros j Hj. apply in_seq in Hj. apply Hb. lia.
Qed.

(** The layout after [kill] has found the sleeper [i] between [a] and
    [b] on the sleep list. *)
Lemma kill_found_sleeping s hs L i a b :
  lists_ok s hs L -> In SleepHead hs -> pstate s i = SLEEPING ->
  L SleepHead = a ++ PQueue i :: b ->
  (ptype s i = MLFQ -> In (QueueHead (privlevel (procs s i))) hs) ->
  lists_ok (kill_found i s) hs (killed_layout s L i a b) /\
  procs (kill_found i s) i = set_state RUNNABLE (set_killed 1 (procs s i)) /\
  (forall j, j <> i -> procs (kill_found i s) j = procs s j) /\
  same_sched s (kill_found i s).
Proof.
  intros Hok Hsl Hst HL Hq. unfold kill_found.
  set (s1 := upd_proc i (set_killed 1) s).
  assert (Hs1 : procs s1 i = set_killed 1 (procs s i))
    by (subst s1; now rewrite procs_upd_proc_eq).
  assert (Hst1 : pstate s1 i = SLEEPING) by (unfold pstate; now rewrite Hs1).
  rewrite Hst1.
  assert (Hok1 : lists_ok s1 hs L) by (eapply lists_ok_same_links; eauto).
  destruct (lists_ok_del s1 hs L SleepHead a (PQueue i) b Hok1 Hsl HL)
    as [Hok2 Hoff2].
  set (s2 := list_del (PQueue i) s1) in *.
  set (s3 := upd_proc i (set_state RUNNABLE) s2).
  assert (Hs3 : procs s3 i = set_state RUNNABLE (set_killed 1 (procs s i))).
  { subst s3. rewrite procs_upd_proc_eq. now rewrite <- Hs1. }
  assert (Hok3 : lists_ok s3 hs (updl L SleepHead (a ++ b)))
    by (eapply lists_ok_same_links; eauto).
  assert (Ho3 : forall j, j <> i -> procs s3 j = procs s j).
  { intros j Hj. subst s3. rewrite procs_upd_proc_neq by auto.
    subst s2 s1. change (procs (list_del (PQueue i) (upd_proc i (set_killed 1) s)) j)
      with (procs (upd_proc i (set_killed 1) s) j).
    now rewrite procs_upd_proc_neq. }
  unfold killed_layout, ptype. rewrite Hs3. cbn [type privlevel set_state set_killed].
  destruct (type (procs s i)) eqn:Et.
  - split; [|split; [|split]].
    + apply lists_ok_add_tail; auto.
    + exact Hs3.
    + exact Ho3.
    + unfold same_sched. cbn. tauto.
  - split; [|split; [|split]]; auto.
    unfold same_sched. cbn. tauto.
Qed.

End WakeProofs.

(** ** Sums over the process table *)

Lemma sum_map_ext {A} (f g : A -> Z) l :
  (forall x, In x l -> f x = g x) ->
  fold_right Z.add 0 (map f l) = fold_right Z.add 0 (map g l).
Proof.
  induction l as [|a l IH]; intros H; simpl; auto.
  rewrite (H a) by now left. rewrite IH; auto. intros x Hx. apply H. now right.
Qed.

Lemma sum_map_change (f g : nat -> Z) l c :
  NoDup l -> In c l -> (forall x, x <> c -> f x = g x) ->
  fold_right Z.add 0 (map f l) = fold_right Z.add 0 (map g l) + (f c - g c).
Proof.
  induction l as [|a l IH]; intros Hnd Hc H; [contradiction|].
  inversion Hnd as [|? ? Ha Hnd']; subst. simpl.
  destruct Hc as [->|Hc].
  - rewrite (sum_map_ext f g l); [lia|].
    intros x Hx. apply H. intros ->. contradiction.
  - rewrite IH by auto. rewrite (H a); [lia|]. intros ->. contradiction.
Qed.

Lemma sum_map_nonneg_le (f : nat -> Z) l c :
  (forall x, In x l -> 0 <= f x) -> In c l ->
  f c <= fold_right Z.add 0 (map f l).
Proof.
  induction l as [|a l IH]; intros H Hc; [contradiction|]. simpl.
  assert (0 <= fold_right Z.add 0 (map f l)).
  { clear IH Hc. induction l as [|b l IHl]; simpl; [lia|].
    assert (0 <= f b) by (apply H; simpl; auto).
    assert (0 <= fold_right Z.add 0 (map f l)).
    { apply IHl. intros x [Hx|Hx]; apply H; simpl; auto. }
    lia. }
  destruct Hc as [->|Hc].
  - lia.
  - assert (0 <= f a) by (apply H; now left).
    specialize (IH (fun x Hx => H x (or_intror Hx)) Hc). lia.
Qed.

Section TicketProofs.
Context {T : Tunables}.

Lemma ticket_sum_same s s' :
  (forall i, (i < NPROC)%nat ->
     stride_tickets (procs s' i) = stride_tickets (procs s i)) ->
  ticket_sum s' = ticket_sum s.
Proof.
  intros H. unfold ticket_sum. apply sum_map_ext.
  intros i Hi. apply in_seq in Hi. apply H. lia.
Qed.

Lemma ticket_sum_change s s' c :
  (c < NPROC)%nat ->
  (forall i, i <> c -> stride_tickets (procs s' i) = stride_tickets (procs s i)) ->
  ticket_sum s' =
  ticket_sum s + (stride_tickets (procs s' c) - stride_tickets (procs s c)).
Proof.
  intros Hc H. unfold ticket_sum.
  apply (sum_map_change (fun i => stride_tickets (procs s' i))
                        (fun i => stride_tickets (procs s i))).
  - apply seq_NoDup.
  - apply in_seq. lia.
  - exact H.
Qed.

Lemma stride_tickets_le_sum s c :
  (forall i, (i < NPROC)%nat -> 0 <= stride_tickets (procs s i)) ->
  (c < NPROC)%nat -> stride_tickets (procs s c) <= ticket_sum s.
Proof.
  intros H Hc. unfold ticket_sum.
  apply (sum_map_nonneg_le (fun i => stride_tickets (procs s i))).
  - intros x Hx. apply in_seq in Hx. apply H. lia.
  - apply in_seq. lia.
Qed.

Lemma same_shares_stride_tickets s s' i :
  same_shares s s' -> stride_tickets (procs s' i) = stride_tickets (procs s i).
Proof.
  intros H. destruct (H i) as (Ht & Hk & Hl). unfold stride_tickets.
  now rewrite Ht, Hk, Hl.
Qed.

(** ** pinit *)

Lemma pinit_procs s : procs (pinit s) = procs s.
Proof.
  unfold pinit. cbn [procs with_mlfq_tickets].
  assert (F1 : forall l a, procs (fold_left (fun s i => list_add_tail (PQueue i) FreeHead s) l a) = procs a).
  { induction l as [|x l IH]; intros a; simpl; auto. now rewrite IH. }
  assert (F2 : forall l a,
             procs (fold_left (fun s i => set_pin i (QueueHead i)
                                            (list_head_init (QueueHead i) s)) l a)
             = procs a).
  { induction l as [|x l IH]; intros a; simpl; auto. now rewrite IH. }
  rewrite F1. cbn [procs list_head_init set_next set_prev with_nxt with_prv].
  now rewrite F2.
Qed.

Lemma pinit_tickets s :
  (forall i, (i < NPROC)%nat -> stride_tickets (procs s i) = 0) ->
  mlfq_tickets (pinit s) = 100 /\ ticket_sum (pinit s) = 0 /\
  tickets_inv (pinit s).
Proof.
  intros H.
  assert (Hsum : ticket_sum (pinit s) = 0).
  { unfold ticket_sum. rewrite pinit_procs.
    rewrite (sum_map_ext _ (fun _ => 0)).
    - induction (seq 0 NPROC); simpl; auto.
    - intros i Hi. apply in_seq in Hi. apply H. lia. }
  assert (Ht : mlfq_tickets (pinit s) = 100) by reflexivity.
  split; [exact Ht|]. split; [exact Hsum|].
  split; [|split].
  - unfold tickets_conserved. rewrite Ht, Hsum. reflexivity.
  - rewrite Ht. lia.
  - intros i Hi. rewrite pinit_procs. rewrite H; auto. lia.
Qed.

(** ** set_cpu_share *)

Lemma set_cpu_share_spec cur share s :
  0 <= RESERVE <= 100 -> in_int share ->
  0 <= mlfq_tickets s <= 100 -> 0 <= held s cur <= 100 ->
  let r := set_cpu_share cur share s in
  (snd r = -1 <-> ~ grantable s cur share) /\
  (snd r = 0 <-> grantable s cur share) /\
  (snd r = -1 -> fst r = s) /\
  (snd r = 0 ->
     mlfq_tickets (fst r) = mlfq_tickets s + held s cur - share /\
     procs (fst r) cur =
       set_tickets share
         (match ptype s cur with
          | STRIDE => procs s cur
          | MLFQ =>
              set_type STRIDE
                (set_pass (Z.min (getminpass (dequeue cur s)) (mlfq_pass s))
                          (procs s cur))
          end) /\
     (forall i, i <> cur -> procs (fst r) i = procs s i)).
Proof.
  intros HR Hsh HT Hh r. subst r. unfold set_cpu_share, grantable.
  assert (Hw1 : sub32 100 RESERVE = 100 - RESERVE).
  { apply wrap_small. unfold in_int. change (2 ^ 31) with 2147483648. lia. }
  rewrite Hw1.
  destruct (Z.ltb_spec share 1) as [H1|H1]; cbn [orb].
  { cbn [fst snd]. repeat split; try lia; auto. }
  destruct (Z.gtb_spec share (100 - RESERVE)) as [H2|H2].
  { cbn [fst snd]. repeat split; try lia; auto. }
  assert (Hrem : match ptype s cur with
                 | STRIDE => add32 (mlfq_tickets s) (tickets (procs s cur))
                 | MLFQ => mlfq_tickets s
                 end = mlfq_tickets s + held s cur).
  { unfold held in *. destruct (ptype s cur); [lia|].
    apply wrap_small. unfold in_int. change (2 ^ 31) with 2147483648. lia. }
  rewrite Hrem.
  assert (Hw2 : sub32 (mlfq_tickets s + held s cur) share =
                mlfq_tickets s + held s cur - share).
  { apply wrap_small. unfold in_int. change (2 ^ 31) with 2147483648. lia. }
  rewrite Hw2.
  destruct (Z.geb_spec (mlfq_tickets s + held s cur - share) RESERVE) as [H3|H3].
  2:{ cbn [fst snd]. repeat split; try lia; auto. }
  cbn [fst snd]. split; [split; [discriminate|lia]|].
  split; [split; [lia|reflexivity]|]. split; [discriminate|]. intros _.
  split; [reflexivity|]. split.
  - rewrite procs_upd_proc_eq. cbn [procs with_mlfq_tickets].
    unfold ptype. destruct (type (procs s cur)) eqn:Et; [|reflexivity].
    change (procs (list_add (PQueue cur) RunHead
              (upd_proc cur (set_type STRIDE)
                 (upd_proc cur (set_pass
                    (if getminpass (dequeue cur s) <? mlfq_pass (dequeue cur s)
                     then getminpass (dequeue cur s)
                     else mlfq_pass (dequeue cur s))) (dequeue cur s)))) cur)
      with (procs (upd_proc cur (set_type STRIDE)
                 (upd_proc cur (set_pass
                    (if getminpass (dequeue cur s) <? mlfq_pass (dequeue cur s)
                     then getminpass (dequeue cur s)
                     else mlfq_pass (dequeue cur s))) (dequeue cur s))) cur).
    rewrite !procs_upd_proc_eq.
    assert (Hd : procs (dequeue cur s) = procs s).
    { unfold dequeue. destruct (node_eqb _ _); reflexivity. }
    assert (Hm : mlfq_pass (dequeue cur s) = mlfq_pass s).
    { unfold dequeue. destruct (node_eqb _ _); reflexivity. }
    rewrite Hd, Hm. f_equal. f_equal. f_equal.
    destruct (Z.ltb_spec (getminpass (dequeue cur s)) (mlfq_pass s)); lia.
  - intros i Hi. rewrite procs_upd_proc_neq by auto.
    cbn [procs with_mlfq_tickets].
    unfold ptype. destruct (type (procs s cur)); [|reflexivity].
    change (procs (list_add (PQueue cur) RunHead ?a) i) with (procs a i).
    rewrite !procs_upd_proc_neq by auto.
    unfold dequeue. destruct (node_eqb _ _); reflexivity.
Qed.

Lemma set_cpu_share_tickets cur share s :
  0 <= RESERVE <= 100 -> in_int share ->
  tickets_inv s -> (cur < NPROC)%nat -> pstate s cur = RUNNING ->
  snd (set_cpu_share cur share s) = 0 ->
  tickets_inv (fst (set_cpu_share cur share s)).
Proof.
  intros HR Hsh (Hc & HT & Hnn) Hcur Hrun Hok.
  assert (Hst : stride_tickets (procs s cur) = held s cur).
  { unfold stride_tickets, held, ptype. unfold pstate in Hrun.
    rewrite Hrun. destruct (type (procs s cur)); reflexivity. }
  pose proof (stride_tickets_le_sum s cur Hnn Hcur) as Hle.
  pose proof (Hnn cur Hcur) as H0.
  unfold tickets_conserved in Hc.
  destruct (set_cpu_share_spec cur share s HR Hsh) as (_ & Hadm & _ & Hsucc);
    [lia|lia|].
  destruct (Hsucc Hok) as (HT' & Hp' & Ho').
  apply Hadm in Hok. destruct Hok as (A1 & A2 & A3).
  set (s' := fst (set_cpu_share cur share s)) in *.
  assert (Hst' : stride_tickets (procs s' cur) = share).
  { rewrite Hp'. unfold stride_tickets, ptype. unfold pstate in Hrun.
    destruct (type (procs s cur)) eqn:Et; cbn; rewrite ?Et, Hrun; reflexivity. }
  assert (Hsum : ticket_sum s' = ticket_sum s + (share - held s cur)).
  { rewrite (ticket_sum_change s s' cur Hcur).
    - rewrite Hst', Hst. reflexivity.
    - intros i Hi. now rewrite Ho'. }
  split; [|split].
  - unfold tickets_conserved. rewrite HT', Hsum. lia.
  - lia.
  - intros i Hi. destruct (Nat.eq_dec i cur) as [->|Hne].
    + rewrite Hst'. lia.
    + rewrite Ho' by auto. auto.
Qed.

(** ** exit *)

Lemma same_shares_refl s : same_shares s s.
Proof. intros i. auto. Qed.

Lemma same_shares_trans s1 s2 s3 :
  same_shares s1 s2 -> same_shares s2 s3 -> same_shares s1 s3.
Proof.
  intros H1 H2 i. destruct (H1 i) as (A & B & C). destruct (H2 i) as (D & E & F).
  repeat split; congruence.
Qed.

Lemma existsb_pqueue i l : existsb (node_eqb (PQueue i)) l = true -> In (PQueue i) l.
Proof.
  intros H. apply existsb_exists in H. destruct H as (x & Hx & E).
  destruct (node_eqb_spec (PQueue i) x); [now subst|discriminate].
Qed.

(** [wakeup1] keeps what a later wakeup and the ticket accounts rely on. *)
Lemma wakeup1_keeps fuel c s hs L :
  lists_ok s hs L -> In SleepHead hs -> sleepers_ok s hs L ->
  sleepers_sleeping s L -> (length (L SleepHead) < fuel)%nat ->
  exists s' L',
    wakeup1 fuel c s = Done s' /\
    lists_ok s' hs L' /\ sleepers_ok s' hs L' /\ sleepers_sleeping s' L' /\
    (length (L' SleepHead) <= length (L SleepHead))%nat /\
    (forall i, L' (PChildren i) = L (PChildren i)) /\
    same_sched s s' /\ same_shares s s'.
Proof.
  intros Hok Hsl Hso Hss Hfuel.
  destruct (wakeup1_ok fuel c s hs L Hok Hsl Hso Hfuel)
    as (s' & L' & Hrun & Hok' & HL' & Hp' & Hsame).
  exists s', L'. split; [exact Hrun|]. split; [exact Hok'|].
  assert (HLs : L' SleepHead = filter (fun n => negb (wakes s c n)) (L SleepHead))
    by (rewrite HL'; reflexivity).
  assert (Hfields : forall i, type (procs s' i) = type (procs s i) /\
                              privlevel (procs s' i) = privlevel (procs s i) /\
                              tickets (procs s' i) = tickets (procs s i)).
  { intros i. rewrite Hp'. unfold woken_procs.
    destruct (_ && _); auto. }
  split; [|split; [|split; [|split; [|split]]]].
  - intros n Hn. rewrite HLs in Hn. apply filter_In in Hn. destruct Hn as [Hn _].
    destruct (Hso n Hn) as (i & -> & Hi). exists i. split; auto.
    unfold ptype. destruct (Hfields i) as (-> & -> & _). exact Hi.
  - intros i Hi. rewrite HLs in Hi. apply filter_In in Hi. destruct Hi as [Hi Hw].
    unfold pstate. rewrite Hp'. unfold woken_procs.
    cbn [wakes] in Hw. apply negb_true_iff in Hw. rewrite Hw, andb_false_r.
    apply Hss. exact Hi.
  - rewrite HLs. apply filter_length_le.
  - intros i. rewrite HL'. reflexivity.
  - exact Hsame.
  - intros i. destruct (Hfields i) as (-> & _ & ->). split; [auto|split; [auto|]].
    rewrite Hp'. unfold woken_procs.
    destruct (existsb (node_eqb (PQueue i)) (L SleepHead)) eqn:Ex; cbn [andb]; auto.
    destruct (chanid_eqb (chan (procs s i)) c); auto.
    apply existsb_pqueue in Ex. apply Hss in Ex. unfold pstate in Ex.
    rewrite Ex. reflexivity.
Qed.

Lemma exit_ok fuel cur i0 s hs L :
  lists_ok s hs L -> In SleepHead hs -> In (PChildren cur) hs ->
  sleepers_ok s hs L -> sleepers_sleeping s L -> children_ok L cur ->
  initproc s = Some i0 -> cur <> i0 ->
  (length (L SleepHead) < fuel)%nat -> (length (L (PChildren cur)) < fuel)%nat ->
  exists s',
    exit fuel cur s = Done s' /\
    pstate s' cur = ZOMBIE /\
    mlfq_tickets s' =
      match ptype s cur with
      | MLFQ => mlfq_tickets s
      | STRIDE => add32 (mlfq_tickets s) (tickets (procs s cur))
      end /\
    (forall i, i <> cur ->
       type (procs s' i) = type (procs s i) /\
       tickets (procs s' i) = tickets (procs s i) /\
       live (state (procs s' i)) = live (state (procs s i))).
Proof.
  intros Hok Hsl Hch Hso Hss Hco Hinit Hne Hf1 Hf2.
  unfold exit. rewrite Hinit. rewrite (proj2 (Nat.eqb_neq cur i0) Hne).
  destruct (wakeup1_keeps fuel (chan_of_ptr (parent (procs s cur))) s hs L
              Hok Hsl Hso Hss Hf1)
    as (s1 & L1 & Hrun1 & Hok1 & Hso1 & Hss1 & Hlen1 & Hch1 & Hsame1 & Hsh1).
  rewrite Hrun1. cbn [bind].
  set (xs := L (PChildren cur)) in *.
  set (body := fun itr a =>
                 p <- sibling_entry itr ;;
                 let b := upd_proc p (set_parent (initproc a)) a in
                 match pstate b p with
                 | ZOMBIE => wakeup1 fuel (chan_of_ptr (initproc b)) b
                 | _ => Done b
                 end).
  set (I := fun (_ : list node) a =>
              exists La, lists_ok a hs La /\ La (PChildren cur) = xs /\
                         sleepers_ok a hs La /\ sleepers_sleeping a La /\
                         (length (La SleepHead) <= length (L SleepHead))%nat /\
                         same_sched s a /\ same_shares s a).
  destruct (list_for_each_ok I body (PChildren cur) xs) with (s := s1) (fuel := fuel)
    as (s2 & Hrun2 & (L2 & Hok2 & Hx2 & Hso2 & Hss2 & Hlen2 & Hsame2 & Hsh2)).
  { intros done a (La & HokA & HxA & _). rewrite <- HxA. apply HokA. exact Hch. }
  { intros done x rest a E (La & HokA & HxA & HsoA & HssA & HlenA & HsameA & HshA).
    destruct (Hco x) as (p & ->).
    { fold xs. rewrite E, in_app_iff. right. now left. }
    subst body. cbn [sibling_entry bind].
    set (b := upd_proc p (set_parent (initproc a)) a).
    assert (Hpb : forall i, procs b i =
                    if Nat.eqb i p then set_parent (initproc a) (procs a i)
                    else procs a i).
    { intros i. subst b. destruct (Nat.eqb_spec i p) as [->|Hn].
      - now rewrite procs_upd_proc_eq.
      - now rewrite procs_upd_proc_neq. }
    assert (Hfb : forall i, type (procs b i) = type (procs a i) /\
                            privlevel (procs b i) = privlevel (procs a i) /\
                            tickets (procs b i) = tickets (procs a i) /\
                            state (procs b i) = state (procs a i)).
    { intros i. rewrite Hpb. destruct (Nat.eqb i p); auto. }
    assert (HokB : lists_ok b hs La) by (eapply lists_ok_same_links; eauto).
    assert (HsoB : sleepers_ok b hs La).
    { intros n Hn. destruct (HsoA n Hn) as (i & -> & Hi). exists i. split; auto.
      unfold ptype. destruct (Hfb i) as (-> & -> & _). exact Hi. }
    assert (HssB : sleepers_sleeping b La).
    { intros i Hi. unfold pstate. destruct (Hfb i) as (_ & _ & _ & ->).
      apply HssA. exact Hi. }
    assert (HshB : same_shares s b).
    { intros i. destruct (Hfb i) as (-> & _ & -> & ->). apply HshA. }
    assert (HsameB : same_sched s b) by exact HsameA.
    assert (Hstay : I (done ++ [PSibling p]) b).
    { exists La. split; [exact HokB|]. split; [exact HxA|].
      split; [exact HsoB|]. split; [exact HssB|]. split; [exact HlenA|].
      split; [exact HsameB|exact HshB]. }
    destruct (pstate b p); try (exists b; split; [reflexivity|exact Hstay]).
    destruct (wakeup1_keeps fuel (chan_of_ptr (initproc b)) b hs La HokB Hsl HsoB HssB)
      as (a' & La' & HrunA & HokA' & HsoA' & HssA' & HlenA' & HchA' & HsameA' & HshA').
    { lia. }
    exists a'. split; [exact HrunA|].
    exists La'. split; [exact HokA'|]. split; [now rewrite HchA'|].
    split; [exact HsoA'|]. split; [exact HssA'|]. split; [lia|].
    split; [eapply same_sched_trans; eauto|eapply same_shares_trans; eauto]. }
  { exists L1. split; [exact Hok1|]. split; [apply Hch1|].
    split; [exact Hso1|]. split; [exact Hss1|]. split; [exact Hlen1|].
    split; [exact Hsame1|exact Hsh1]. }
  { exact Hf2. }
  fold body. rewrite Hrun2. cbn [bind].
  set (s3 := list_bulk_move_tail (PChildren cur) (PChildren i0) s2).
  assert (Hs3 : procs s3 = procs s2 /\ mlfq_tickets s3 = mlfq_tickets s2).
  { subst s3. unfold list_bulk_move_tail. destruct (list_empty _ _); auto. }
  destruct Hs3 as (Hp3 & Ht3).
  destruct Hsame2 as (_ & _ & _ & Hmt2 & _).
  assert (Hty : ptype s3 cur = ptype s cur).
  { unfold ptype. rewrite Hp3. apply Hsh2. }
  assert (Htk : tickets (procs s3 cur) = tickets (procs s cur)).
  { rewrite Hp3. apply Hsh2. }
  rewrite Hty, Htk, Ht3, Hmt2.
  eexists. split; [reflexivity|]. split; [|split].
  - unfold pstate. now rewrite procs_upd_proc_eq.
  - destruct (ptype s cur); [|reflexivity].
    unfold dequeue. destruct (node_eqb _ _); cbn; congruence.
  - intros i Hi. rewrite procs_upd_proc_neq by auto.
    assert (Hp4 : procs (match ptype s cur with
                         | MLFQ => dequeue cur s3
                         | STRIDE =>
                             list_del (PQueue cur)
                               (with_mlfq_tickets
                                  (add32 (mlfq_tickets s) (tickets (procs s cur))) s3)
                         end) = procs s2).
    { destruct (ptype s cur); [|exact Hp3].
      unfold dequeue. destruct (node_eqb _ _); exact Hp3. }
    rewrite Hp4. apply Hsh2.
Qed.

Lemma exit_tickets fuel cur s s' :
  tickets_inv s -> (cur < NPROC)%nat -> pstate s cur = RUNNING ->
  pstate s' cur = ZOMBIE ->
  mlfq_tickets s' =
    match ptype s cur with
    | MLFQ => mlfq_tickets s
    | STRIDE => add32 (mlfq_tickets s) (tickets (procs s cur))
    end ->
  (forall i, i <> cur ->
     type (procs s' i) = type (procs s i) /\
     tickets (procs s' i) = tickets (procs s i) /\
     live (state (procs s' i)) = live (state (procs s i))) ->
  exit fuel cur s = Done s' ->
  tickets_inv s' /\ mlfq_tickets s' = mlfq_tickets s + held s cur.
Proof.
  intros (Hc & HT & Hnn) Hcur Hrun Hz Hmt Hoth _.
  assert (Hst : stride_tickets (procs s cur) = held s cur).
  { unfold stride_tickets, held, ptype. unfold pstate in Hrun.
    rewrite Hrun. destruct (type (procs s cur)); reflexivity. }
  pose proof (stride_tickets_le_sum s cur Hnn Hcur) as Hle.
  pose proof (Hnn cur Hcur) as H0.
  unfold tickets_conserved in Hc.
  assert (Hst' : stride_tickets (procs s' cur) = 0).
  { unfold stride_tickets. unfold pstate in Hz. rewrite Hz.
    destruct (type (procs s' cur)); reflexivity. }
  assert (Hsame : forall i, i <> cur ->
            stride_tickets (procs s' i) = stride_tickets (procs s i)).
  { intros i Hi. destruct (Hoth i Hi) as (A & B & C).
    unfold stride_tickets. now rewrite A, B, C. }
  assert (Hsum : ticket_sum s' = ticket_sum s - held s cur).
  { rewrite (ticket_sum_change s s' cur Hcur Hsame). rewrite Hst', Hst. lia. }
  assert (HT' : mlfq_tickets s' = mlfq_tickets s + held s cur).
  { rewrite Hmt. unfold held in *. destruct (ptype s cur); [lia|].
    apply wrap_small. unfold in_int. change (2 ^ 31) with 2147483648. lia. }
  split; [|exact HT'].
  split; [|split].
  - unfold tickets_conserved. rewrite HT', Hsum. lia.
  - lia.
  - intros i Hi. destruct (Nat.eq_dec i cur) as [->|Hn].
    + rewrite Hst'. lia.
    + rewrite Hsame by auto. auto.
Qed.

End TicketProofs.

Section StrideProofs.
Context {T : Tunables}.

(** ** The pass overflow handling *)

Lemma same_frame_refl s : same_frame s s.
Proof. unfold same_frame. tauto. Qed.

Lemma same_frame_trans s1 s2 s3 :
  same_frame s1 s2 -> same_frame s2 s3 -> same_frame s1 s3.
Proof.
  unfold same_frame.
  intros (A1 & A2 & A3 & A4 & A5 & A6 & A7 & A8 & A9)
         (B1 & B2 & B3 & B4 & B5 & B6 & B7 & B8 & B9).
  repeat split; congruence.
Qed.

Lemma rebase_fold m : forall ps s,
  NoDup ps ->
  let s' := fold_left (fun a q => rebase_proc m q a) ps s in
  (forall i, In i ps ->
     procs s' i = set_pass (sub32 (pass (procs s i)) m) (procs s i)) /\
  (forall i, ~ In i ps -> procs s' i = procs s i) /\
  same_frame s s' /\ mlfq_pass s' = mlfq_pass s.
Proof.
  induction ps as [|q ps IH]; intros s Hnd; cbn [fold_left].
  - split; [intros i []|]. split; [auto|]. split; [apply same_frame_refl|auto].
  - inversion Hnd as [|? ? Hq Hnd']; subst.
    destruct (IH (rebase_proc m q s) Hnd') as (H1 & H2 & H3 & H4).
    split; [|split; [|split]].
    + intros i [->|Hi].
      * rewrite H2 by auto. unfold rebase_proc. now rewrite procs_upd_proc_eq.
      * rewrite H1 by auto.
        assert (i <> q) by (intros ->; contradiction).
        unfold rebase_proc. now rewrite procs_upd_proc_neq.
    + intros i Hi. rewrite H2 by (intros Hc; apply Hi; now right).
      unfold rebase_proc. rewrite procs_upd_proc_neq; auto.
      intros ->. apply Hi. now left.
    + eapply same_frame_trans; [|exact H3]. unfold same_frame. cbn. tauto.
    + rewrite H4. reflexivity.
Qed.

Lemma rebase_heap_fold m : forall l s,
  fold_left (fun a i => rebase_proc m (minheap a i) a) l s =
  fold_left (fun a q => rebase_proc m q a) (map (minheap s) l) s.
Proof.
  induction l as [|i l IH]; intros s; cbn [fold_left map]; auto.
  rewrite IH. reflexivity.
Qed.

Lemma rebase_fold_links m ps s :
  nxt (fold_left (fun a q => rebase_proc m q a) ps s) = nxt s /\
  prv (fold_left (fun a q => rebase_proc m q a) ps s) = prv s.
Proof.
  revert s. induction ps as [|q ps IH]; intros s; cbn [fold_left]; auto.
  destruct (IH (rebase_proc m q s)) as [-> ->]. auto.
Qed.

Lemma queue_procs_app a b : queue_procs (a ++ b) = queue_procs a ++ queue_procs b.
Proof. unfold queue_procs. now rewrite flat_map_app. Qed.

Lemma in_queue_procs i ns : In i (queue_procs ns) <-> In (PQueue i) ns.
Proof.
  unfold queue_procs. rewrite in_flat_map. split.
  - intros (n & Hn & Hi). destruct n; simpl in Hi; try contradiction.
    destruct Hi as [->|[]]. exact Hn.
  - intros H. exists (PQueue i). simpl. auto.
Qed.

Lemma stridelogic_rebase_ok fuel p s hs L :
  lists_ok s hs L -> In RunHead hs ->
  (forall n, In n (L RunHead) -> is_pqueue n) ->
  (length (L RunHead) < fuel)%nat ->
  NoDup (rebase_set s L) ->
  exists s',
    stridelogic_rebase fuel p s = Done s' /\
    (if stride_minpass p s >? BARRIER then
       mlfq_pass s' = sub32 (mlfq_pass s) (stride_minpass p s) /\
       (forall i, In i (rebase_set s L) ->
          procs s' i =
          set_pass (sub32 (pass (procs s i)) (stride_minpass p s)) (procs s i)) /\
       (forall i, ~ In i (rebase_set s L) -> procs s' i = procs s i)
     else s' = s) /\
    same_frame s s'.
Proof.
  intros Hok Hrun Hpq Hfuel Hnd. unfold stridelogic_rebase.
  set (m := stride_minpass p s).
  destruct (m >? BARRIER); [|exists s; split; [reflexivity|split; [reflexivity|apply same_frame_refl]]].
  rewrite rebase_heap_fold. fold (heap_elems s).
  set (step := fun a q => rebase_proc m q a).
  set (s1 := fold_left step (heap_elems s) s).
  set (xs := L RunHead) in *.
  set (body := fun itr a => i <- queue_entry itr ;; Done (rebase_proc m i a)).
  set (I := fun done a => a = fold_left step (queue_procs done) s1).
  assert (Hlist1 : is_list s1 RunHead xs).
  { destruct (rebase_fold_links m (heap_elems s) s) as [Hn Hp].
    apply is_list_frame with (s := s); [|apply Hok; exact Hrun].
    intros n _. fold step in Hn, Hp. fold s1 in Hn, Hp. now rewrite Hn, Hp. }
  destruct (list_for_each_ok I body RunHead xs) with (s := s1) (fuel := fuel)
    as (s2 & Hrun2 & Hs2).
  { intros done a ->.
    destruct (rebase_fold_links m (queue_procs done) s1) as [Hn Hp].
    apply is_list_frame with (s := s1); auto.
    intros n _. fold step in Hn, Hp. now rewrite Hn, Hp. }
  { intros done x rest a E ->.
    destruct (Hpq x) as (i & ->).
    { rewrite E, in_app_iff. right. now left. }
    subst body. cbn [queue_entry bind]. eexists. split; [reflexivity|].
    unfold I. rewrite queue_procs_app. cbn [queue_procs flat_map app].
    rewrite fold_left_app. reflexivity. }
  { reflexivity. }
  { exact Hfuel. }
  fold body. rewrite Hrun2. cbn [bind]. eexists. split; [reflexivity|].
  unfold I in Hs2. subst s1. rewrite <- fold_left_app in Hs2.
  assert (Hs2' : s2 = fold_left step (rebase_set s L) s) by exact Hs2.
  destruct (rebase_fold m (rebase_set s L) s Hnd) as (H1 & H2 & H3 & H4).
  fold step in H1, H2, H3, H4. rewrite <- Hs2' in H1, H2, H3, H4.
  split; [split; [|split]|].
  - cbn [mlfq_pass with_mlfq_pass]. now rewrite H4.
  - exact H1.
  - exact H2.
  - eapply same_frame_trans; [exact H3|]. unfold same_frame. cbn. tauto.
Qed.

(** ** The pass increase for a stride process *)

Lemma heap_elems_same_frame s s' : same_frame s s' -> heap_elems s' = heap_elems s.
Proof.
  intros (_ & _ & _ & _ & _ & Hm & Hs & _). unfold heap_elems. now rewrite Hm, Hs.
Qed.

Lemma same_but_pass_refl x : same_but_pass x x.
Proof. reflexivity. Qed.

Lemma same_but_pass_trans x y z :
  same_but_pass x y -> same_but_pass y z -> same_but_pass x z.
Proof. unfold same_but_pass. congruence. Qed.

Lemma same_but_pass_set v x : same_but_pass (set_pass v x) x.
Proof. reflexivity. Qed.

Lemma same_but_pass_fields x y :
  same_but_pass x y ->
  state x = state y /\ type x = type y /\ tickets x = tickets y /\
  privlevel x = privlevel y /\ ticks x = ticks y /\ chan x = chan y.
Proof.
  unfold same_but_pass, set_pass. intros H. inversion H. auto 10.
Qed.

Lemma stridelogic_stride_ok fuel p s hs L :
  lists_ok s hs L -> In RunHead hs ->
  (forall n, In n (L RunHead) -> is_pqueue n) ->
  (length (L RunHead) < fuel)%nat ->
  NoDup (rebase_set s L) -> ~ In p (rebase_set s L) ->
  ptype s p = STRIDE -> 0 <= stride_size s < 2 ^ 30 ->
  in_int (ppass s p + STRD (tickets (procs s p))) ->
  exists s',
    stridelogic fuel (Some p) s = Done s' /\
    (if requeued (pstate s p) then
       ppass s' p = ppass s p + STRD (tickets (procs s p)) /\
       Permutation (heap_elems s') (p :: heap_elems s) /\
       stride_size s' = stride_size s + 1
     else
       ppass s' p = ppass s p /\ heap_elems s' = heap_elems s /\
       stride_size s' = stride_size s) /\
    (forall i, same_but_pass (procs s' i) (procs s i)) /\
    nxt s' = nxt s /\ prv s' = prv s /\ pin s' = pin s /\
    mlfq_tickets s' = mlfq_tickets s.
Proof.
  intros Hok Hrun Hpq Hfuel Hnd Hp Hty Hsize Hint.
  destruct (stridelogic_rebase_ok fuel (Some p) s hs L Hok Hrun Hpq Hfuel Hnd)
    as (s1 & Hrb & Hcase & Hfr).
  unfold stridelogic. rewrite Hrb. cbn [bind].
  assert (Hp1 : procs s1 p = procs s p).
  { destruct (stride_minpass (Some p) s >? BARRIER).
    - destruct Hcase as (_ & _ & H). now apply H.
    - now subst. }
  assert (Hall1 : forall i, same_but_pass (procs s1 i) (procs s i)).
  { intros i. destruct (stride_minpass (Some p) s >? BARRIER).
    - destruct Hcase as (_ & H1 & H2).
      destruct (in_dec Nat.eq_dec i (rebase_set s L)) as [Hi|Hi].
      + rewrite H1 by auto. apply same_but_pass_set.
      + rewrite H2 by auto. reflexivity.
    - subst. reflexivity. }
  pose proof (heap_elems_same_frame _ _ Hfr) as Hheap1.
  destruct Hfr as (Fn & Fp & Fpin & _ & Ftk & Fm & Fs & _).
  unfold stridelogic_advance, ptype, pstate. rewrite Hp1.
  unfold ptype in Hty. rewrite Hty. unfold pstate.
  set (s2 := upd_proc p (fun x => set_pass (add32 (pass x) (STRD (tickets x))) x) s1).
  assert (Hs2p : procs s2 p =
                 set_pass (ppass s p + STRD (tickets (procs s p))) (procs s p)).
  { subst s2. rewrite procs_upd_proc_eq, Hp1. unfold add32.
    rewrite wrap_small by exact Hint. reflexivity. }
  assert (Hall2 : forall i, same_but_pass (procs s2 i) (procs s i)).
  { intros i. destruct (Nat.eq_dec i p) as [->|Hne].
    - rewrite Hs2p. apply same_but_pass_set.
    - subst s2. rewrite procs_upd_proc_neq by auto. apply Hall1. }
  destruct (pushheap_perm s2 p) as (s3 & Hpush & Hsz3 & Hpr3 & Hperm3 & _ & Hn3 & Hv3 & Hpin3 & _ & _ & Htk3 & _).
  { change (stride_size s2) with (stride_size s1). rewrite Fs. exact Hsize. }
  assert (Hyes : exists s',
             pushheap p s2 = Done s' /\
             (ppass s' p = ppass s p + STRD (tickets (procs s p)) /\
              Permutation (heap_elems s') (p :: heap_elems s) /\
              stride_size s' = stride_size s + 1) /\
             (forall i, same_but_pass (procs s' i) (procs s i)) /\
             nxt s' = nxt s /\ prv s' = prv s /\ pin s' = pin s /\
             mlfq_tickets s' = mlfq_tickets s).
  { exists s3. split; [exact Hpush|]. split; [split; [|split]|].
    - unfold ppass. rewrite Hpr3, Hs2p. reflexivity.
    - eapply Permutation_trans; [exact Hperm3|]. apply perm_skip.
      change (heap_elems s2) with (heap_elems s1). rewrite Hheap1.
      apply Permutation_refl.
    - rewrite Hsz3. change (stride_size s2) with (stride_size s1). now rewrite Fs.
    - split; [intros i; rewrite Hpr3; apply Hall2|].
      rewrite Hn3, Hv3, Hpin3, Htk3. cbn. auto. }
  assert (Hno : exists s',
             Done s1 = Done s' /\
             (ppass s' p = ppass s p /\ heap_elems s' = heap_elems s /\
              stride_size s' = stride_size s) /\
             (forall i, same_but_pass (procs s' i) (procs s i)) /\
             nxt s' = nxt s /\ prv s' = prv s /\ pin s' = pin s /\
             mlfq_tickets s' = mlfq_tickets s).
  { exists s1. split; [reflexivity|]. split; [split; [|split]|]; auto.
    unfold ppass. now rewrite Hp1. }
  destruct (state (procs s p)); cbn [requeued]; assumption.
Qed.

(** ** A stride process that blocks *)

Lemma sched_run_block fuel p c s hs L :
  lists_ok s hs L -> In RunHead hs -> In SleepHead hs ->
  off_lists hs L (PQueue p) ->
  (forall n, In n (L RunHead) -> is_pqueue n) ->
  (length (L RunHead) < fuel)%nat ->
  NoDup (rebase_set s L) -> ~ In p (rebase_set s L) ->
  ptype s p = STRIDE -> pstate s p = RUNNABLE ->
  0 <= stride_size s < 2 ^ 30 ->
  in_int (ppass s p + STRD (tickets (procs s p))) ->
  exists s' L',
    sched_run fuel (fun i a => Done (sleep i c a)) (Some p) s = Done s' /\
    lists_ok s' hs L' /\
    (forall h, L' h = updl L SleepHead (PQueue p :: L SleepHead) h) /\
    pstate s' p = SLEEPING /\ ptype s' p = STRIDE /\
    ppass s' p = ppass s p + STRD (tickets (procs s p)) /\
    Permutation (heap_elems s') (p :: heap_elems s) /\
    (forall i, i <> p -> same_but_pass (procs s' i) (procs s i)).
Proof.
  intros Hok Hrun Hsl Hoff Hpq Hfuel Hnd Hp Hty Hst Hsize Hint.
  unfold sched_run. rewrite Hst. cbn [bind].
  unfold sched_dispatch. rewrite Hty.
  (* dispatch *)
  pose proof (lists_ok_add s hs L RunHead (PQueue p) Hok Hrun Hoff) as Hok1.
  set (s1 := list_add (PQueue p) RunHead s) in *.
  set (L1 := updl L RunHead (PQueue p :: L RunHead)) in *.
  set (s2 := upd_proc p (set_state RUNNING) s1).
  (* sleep *)
  unfold sleep.
  set (s3 := upd_proc p (set_chan c) s2).
  assert (Hty3 : ptype s3 p = STRIDE).
  { unfold ptype. subst s3 s2. rewrite !procs_upd_proc_eq.
    cbn [type set_chan set_state]. exact Hty. }
  rewrite Hty3.
  assert (Hok3 : lists_ok s3 hs L1) by (eapply lists_ok_same_links; eauto).
  destruct (lists_ok_del s3 hs L1 RunHead [] (PQueue p) (L RunHead) Hok3 Hrun)
    as [Hok4 Hoff4].
  { subst L1. now rewrite updl_eq. }
  set (s4 := list_del (PQueue p) s3) in *.
  set (L4 := updl L1 RunHead ([] ++ L RunHead)) in *.
  set (s5 := upd_proc p (set_state SLEEPING) s4).
  assert (Hok5 : lists_ok s5 hs L4) by (eapply lists_ok_same_links; eauto).
  pose proof (lists_ok_add s5 hs L4 SleepHead (PQueue p) Hok5 Hsl Hoff4) as Hok6.
  set (s6 := list_add (PQueue p) SleepHead s5) in *.
  set (L6 := updl L4 SleepHead (PQueue p :: L4 SleepHead)) in *.
  assert (HL6 : forall h, L6 h = updl L SleepHead (PQueue p :: L SleepHead) h).
  { intros h. subst L6 L4 L1. unfold updl.
    destruct (node_eqb_spec h SleepHead) as [->|H1]; [reflexivity|].
    destruct (node_eqb_spec h RunHead) as [->|H2]; reflexivity. }
  assert (Hp6 : procs s6 p =
                set_state SLEEPING (set_chan c (set_state RUNNING (procs s p)))).
  { subst s6 s5 s4 s3 s2 s1.
    change (procs (list_add (PQueue p) SleepHead ?a) p) with (procs a p).
    rewrite procs_upd_proc_eq.
    change (procs (list_del (PQueue p) ?a) p) with (procs a p).
    rewrite !procs_upd_proc_eq. reflexivity. }
  assert (Ho6 : forall i, i <> p -> procs s6 i = procs s i).
  { intros i Hi. subst s6 s5 s4 s3 s2 s1.
    change (procs (list_add (PQueue p) SleepHead ?a) i) with (procs a i).
    rewrite procs_upd_proc_neq by auto.
    change (procs (list_del (PQueue p) ?a) i) with (procs a i).
    rewrite !procs_upd_proc_neq by auto. reflexivity. }
  assert (Hty6 : ptype s6 p = STRIDE).
  { unfold ptype. rewrite Hp6. exact Hty. }
  rewrite Hty6.
  assert (Hheap6 : heap_elems s6 = heap_elems s) by reflexivity.
  assert (Hrs6 : rebase_set s6 L6 = rebase_set s L).
  { unfold rebase_set. rewrite Hheap6. reflexivity. }
  destruct (stridelogic_stride_ok fuel p s6 hs L6) as (s' & Hrun' & Hcase & Hall & Hn' & Hv' & _).
  { exact Hok6. }
  { exact Hrun. }
  { intros n Hn. rewrite HL6, updl_neq in Hn by discriminate. auto. }
  { rewrite HL6, updl_neq by discriminate. exact Hfuel. }
  { now rewrite Hrs6. }
  { now rewrite Hrs6. }
  { exact Hty6. }
  { exact Hsize. }
  { unfold ppass. rewrite Hp6. exact Hint. }
  assert (Hst6 : pstate s6 p = SLEEPING) by (unfold pstate; now rewrite Hp6).
  rewrite Hst6 in Hcase. cbn [requeued] in Hcase.
  destruct Hcase as (Hpass & Hperm & _).
  exists s', L6. split; [exact Hrun'|].
  split; [eapply lists_ok_same_links; eauto|].
  split; [exact HL6|].
  destruct (same_but_pass_fields _ _ (Hall p)) as (Es & Et & _).
  split; [unfold pstate; rewrite Es; exact Hst6|].
  split; [unfold ptype; rewrite Et; exact Hty6|].
  split; [rewrite Hpass; unfold ppass; rewrite Hp6; reflexivity|].
  split; [exact Hperm|].
  intros i Hi. rewrite <- (Ho6 i Hi). apply Hall.
Qed.

(** ** A sleeping stride process at the root of the heap *)

Lemma scheduler_round_sleeping_root fuel swtch s hs L :
  lists_ok s hs L -> In RunHead hs ->
  (forall n, In n (L RunHead) -> is_pqueue n) ->
  (length (L RunHead) < fuel)%nat ->
  NoDup (rebase_set s L) ->
  getminpass s < mlfq_pass s -> 1 <= stride_size s < 2 ^ 30 ->
  ptype s (minheap s 1) = STRIDE -> pstate s (minheap s 1) = SLEEPING ->
  in_int (ppass s (minheap s 1) + STRD (tickets (procs s (minheap s 1)))) ->
  exists s',
    scheduler_round fuel swtch s = Done s' /\
    pstate s' (minheap s 1) = SLEEPING /\
    ppass s' (minheap s 1) =
      ppass s (minheap s 1) + STRD (tickets (procs s (minheap s 1))) /\
    Permutation (heap_elems s') (heap_elems s) /\
    (forall i, same_but_pass (procs s' i) (procs s i)) /\
    nxt s' = nxt s /\ prv s' = prv s.
Proof.
  intros Hok Hrun Hpq Hfuel Hnd Hlt Hsize Hty Hst Hint.
  set (p := minheap s 1) in *.
  unfold scheduler_round, sched_pick.
  rewrite (proj2 (Z.ltb_lt _ _) Hlt).
  destruct (popheap_perm s Hsize)
    as (s1 & Hpop & Hsz1 & Hpr1 & Hperm1 & _ & Hn1 & Hv1 & _).
  fold p in Hpop, Hperm1.
  rewrite Hpop. cbn [bind fst snd]. unfold sched_run.
  assert (Hst1 : pstate s1 p = SLEEPING) by (unfold pstate; now rewrite Hpr1).
  rewrite Hst1. cbn [bind].
  assert (Hnd1 : NoDup (p :: rebase_set s1 L)).
  { apply Permutation_NoDup with (l := rebase_set s L); auto.
    unfold rebase_set. apply Permutation_sym.
    change (p :: heap_elems s1 ++ queue_procs (L RunHead))
      with ((p :: heap_elems s1) ++ queue_procs (L RunHead)).
    apply Permutation_app_tail. exact Hperm1. }
  inversion Hnd1 as [|? ? Hp1 Hnd1']; subst.
  destruct (stridelogic_stride_ok fuel p s1 hs L) as (s' & Hrun' & Hcase & Hall & Hn' & Hv' & _).
  { eapply lists_ok_same_links; eauto. }
  { exact Hrun. }
  { exact Hpq. }
  { exact Hfuel. }
  { exact Hnd1'. }
  { exact Hp1. }
  { unfold ptype. now rewrite Hpr1. }
  { lia. }
  { unfold ppass. rewrite Hpr1. exact Hint. }
  rewrite Hst1 in Hcase. cbn [requeued] in Hcase.
  destruct Hcase as (Hpass & Hperm & _).
  exists s'. split; [exact Hrun'|].
  assert (Hall' : forall i, same_but_pass (procs s' i) (procs s i)).
  { intros i. rewrite <- Hpr1. apply Hall. }
  destruct (same_but_pass_fields _ _ (Hall' p)) as (Es & _).
  split; [unfold pstate; rewrite Es; exact Hst|].
  split; [rewrite Hpass; unfold ppass; now rewrite Hpr1|].
  split; [eapply Permutation_trans; eauto|].
  split; [exact Hall'|]. split; congruence.
Qed.

(** ** Bounds after the rebase *)

Lemma rebase_in_range x m :
  0 <= BARRIER -> in_int BARRIER -> m <= x <= m + BARRIER ->
  0 <= sub32 x m <= BARRIER.
Proof.
  intros Hb Hi Hx. unfold sub32. rewrite wrap_small; [lia|].
  unfold in_int in *. lia.
Qed.

Lemma sub32_self m : sub32 m m = 0.
Proof. unfold sub32. rewrite Z.sub_diag. reflexivity. Qed.

End StrideProofs.

(** ** The priority boost *)

Lemma boost_proc_twice x : boost_proc (boost_proc x) = boost_proc x.
Proof. reflexivity. Qed.

Lemma boost_layout_other L h : forall ls,
  (forall l, h <> QueueHead l) -> boost_layout L ls h = L h.
Proof.
  intros ls. revert L. induction ls as [|l ls IH]; intros L Hh; [reflexivity|].
  cbn [boost_layout]. rewrite IH by exact Hh.
  rewrite !updl_neq by apply Hh. reflexivity.
Qed.

Lemma boost_layout_untouched l : forall ls L,
  ~ In l ls -> l <> 0 -> boost_layout L ls (QueueHead l) = L (QueueHead l).
Proof.
  induction ls as [|l0 ls IH]; intros L Hl H0; [reflexivity|].
  cbn [boost_layout]. rewrite IH.
  - rewrite !updl_neq; [reflexivity|congruence|].
    intros E. apply Hl. left. congruence.
  - intros Hin. apply Hl. now right.
  - exact H0.
Qed.

Lemma boost_layout_level l : forall ls L,
  In l ls -> l <> 0 -> boost_layout L ls (QueueHead l) = [].
Proof.
  induction ls as [|l0 ls IH]; intros L Hl H0; [contradiction|].
  cbn [boost_layout].
  destruct (in_dec Z.eq_dec l ls) as [Hin|Hout].
  - apply IH; auto.
  - destruct Hl as [->|Hl]; [|contradiction].
    rewrite boost_layout_untouched by auto. apply updl_eq.
Qed.

Lemma flat_map_ext_on {A B} (f g : A -> list B) l :
  (forall a, In a l -> f a = g a) -> flat_map f l = flat_map g l.
Proof.
  induction l as [|a l IH]; intros H; [reflexivity|].
  cbn [flat_map]. rewrite (H a) by now left.
  rewrite IH; [reflexivity|]. intros b Hb. apply H. now right.
Qed.

Lemma boost_layout_zero : forall ls L,
  NoDup ls -> ~ In 0 ls ->
  boost_layout L ls (QueueHead 0) =
  L (QueueHead 0) ++ flat_map (fun l => L (QueueHead l)) ls.
Proof.
  induction ls as [|l ls IH]; intros L Hnd H0.
  - cbn. now rewrite app_nil_r.
  - cbn [boost_layout flat_map]. apply NoDup_cons_iff in Hnd.
    destruct Hnd as [Hl Hnd].
    assert (Hl0 : l <> 0) by (intros ->; apply H0; now left).
    rewrite IH; [|exact Hnd|intros Hin; apply H0; now right].
    rewrite updl_neq by congruence. rewrite updl_eq.
    rewrite <- app_assoc. f_equal. f_equal.
    apply flat_map_ext_on. intros l' Hl'.
    rewrite !updl_neq; [reflexivity| |].
    + intros E. apply H0. right. injection E as ->. exact Hl'.
    + intros E. apply Hl. injection E as ->. exact Hl'.
Qed.

Lemma concatqueue_sched src dst s : same_sched_but_pin s (concatqueue src dst s).
Proof.
  unfold same_sched_but_pin, concatqueue, list_bulk_move_tail.
  destruct (list_empty (QueueHead dst) s && _);
    destruct (list_empty (QueueHead src) _); cbn; tauto.
Qed.

(** One loop of the boost: the processes on the list are reset, and
    nothing else changes. *)
Lemma boost_loop_ok fuel s hs L h :
  lists_ok s hs L -> In h hs -> (forall n, In n (L h) -> is_pqueue n) ->
  (length (L h) < fuel)%nat ->
  exists s',
    list_for_each fuel h (nxt s h) boost_reset s = Done s' /\
    (forall i, In (PQueue i) (L h) -> procs s' i = boost_proc (procs s i)) /\
    (forall i, ~ In (PQueue i) (L h) -> procs s' i = procs s i) /\
    nxt s' = nxt s /\ prv s' = prv s /\ same_sched s s'.
Proof.
  intros Hok Hh Hpq Hfuel.
  set (xs := L h) in *.
  pose proof (proj1 Hok h Hh) as Hlist. fold xs in Hlist.
  assert (Hnd : NoDup xs).
  { destruct Hlist as [Hnd _]. now apply NoDup_cons_iff in Hnd. }
  set (I := fun (done : list node) (a : ptable) =>
              nxt a = nxt s /\ prv a = prv s /\ same_sched s a /\
              (forall i, In (PQueue i) done -> procs a i = boost_proc (procs s i)) /\
              (forall i, ~ In (PQueue i) done -> procs a i = procs s i)).
  destruct (list_for_each_ok I boost_reset h xs) with (s := s) (fuel := fuel)
    as (s' & Hrun & Hn & Hp & Hs & Hin & Hout).
  - intros done a (Hn & Hp & _).
    apply is_list_frame with (s := s); [|exact Hlist].
    intros n _. now rewrite Hn, Hp.
  - intros done x rest a E (Hn & Hp & Hs & Hin & Hout).
    destruct (Hpq x) as (i0 & ->).
    { rewrite E, in_app_iff. right. now left. }
    assert (Hi0 : ~ In (PQueue i0) done).
    { rewrite E in Hnd. apply NoDup_remove_2 in Hnd.
      intros Hd. apply Hnd. apply in_or_app. now left. }
    unfold boost_reset. cbn [queue_entry bind]. eexists. split; [reflexivity|].
    split; [exact Hn|]. split; [exact Hp|]. split; [exact Hs|]. split.
    + intros i Hi. apply in_app_or in Hi. destruct Hi as [Hi|[Hi|[]]].
      * assert (Hne : i <> i0) by (intros ->; contradiction).
        rewrite !procs_upd_proc_neq by exact Hne. now apply Hin.
      * injection Hi as <-.
        rewrite procs_upd_proc_eq, procs_upd_proc_eq, (Hout i0 Hi0).
        reflexivity.
    + intros i Hi.
      assert (Hne : i <> i0).
      { intros ->. apply Hi. apply in_or_app. right. now left. }
      rewrite !procs_upd_proc_neq by exact Hne. apply Hout.
      intros Hd. apply Hi. apply in_or_app. now left.
  - unfold I. split; [reflexivity|]. split; [reflexivity|].
    split; [apply same_sched_refl|]. split; [intros i []|reflexivity].
  - exact Hfuel.
  - exists s'. auto 10.
Qed.

Lemma same_sched_but_pin_of s s' : same_sched s s' -> same_sched_but_pin s s'.
Proof. unfold same_sched, same_sched_but_pin. tauto. Qed.

Lemma same_sched_but_pin_trans s1 s2 s3 :
  same_sched_but_pin s1 s2 -> same_sched_but_pin s2 s3 ->
  same_sched_but_pin s1 s3.
Proof.
  unfold same_sched_but_pin.
  intros (A1 & A2 & A3 & A4 & A5 & A6 & A7) (B1 & B2 & B3 & B4 & B5 & B6 & B7).
  repeat split; congruence.
Qed.

Section BoostProofs.
Context {T : Tunables}.

(** The loop over the levels: every level of [ls] is emptied onto the
    tail of level 0 and its processes are reset. *)
Lemma boost_levels_ok fuel hs : forall ls s L,
  mlfq_ok s hs L -> pins_valid s L -> 0 < QSIZE ->
  NoDup ls -> (forall l, In l ls -> 1 <= l < QSIZE) ->
  (forall l, In l ls -> (length (L (QueueHead l)) < fuel)%nat) ->
  exists s',
    boost_levels fuel ls s = Done s' /\
    mlfq_ok s' hs (boost_layout L ls) /\
    pins_valid s' (boost_layout L ls) /\
    (forall i l, In l ls -> In (PQueue i) (L (QueueHead l)) ->
       procs s' i = boost_proc (procs s i)) /\
    (forall i, (forall l, In l ls -> ~ In (PQueue i) (L (QueueHead l))) ->
       procs s' i = procs s i) /\
    same_sched_but_pin s s'.
Proof.
  induction ls as [|l ls IH]; intros s L Hok Hpins Hq Hnd Hrange Hfuel.
  - exists s. cbn [boost_levels boost_layout].
    split; [reflexivity|]. split; [exact Hok|]. split; [exact Hpins|].
    split; [intros i l []|]. split; [reflexivity|].
    apply same_sched_but_pin_of, same_sched_refl.
  - apply NoDup_cons_iff in Hnd. destruct Hnd as [Hl Hnd].
    assert (Hlr : 1 <= l < QSIZE) by (apply Hrange; now left).
    destruct Hok as (Hlists & Hheads & Hpq).
    destruct (boost_loop_ok fuel s hs L (QueueHead l))
      as (s1 & Hrun1 & Hin1 & Hout1 & Hn1 & Hp1 & Hs1).
    { exact Hlists. }
    { apply Hheads. lia. }
    { intros n Hn. apply (Hpq l); [lia|exact Hn]. }
    { apply Hfuel. now left. }
    assert (Hok1 : mlfq_ok s1 hs L).
    { apply (mlfq_ok_same_links s); auto. split; auto. }
    assert (Hpins1 : pins_valid s1 L).
    { apply (pins_valid_same s); [|exact Hpins]. apply Hs1. }
    pose proof (concatqueue_ok s1 hs L l 0 Hok1 Hpins1 ltac:(lia) ltac:(lia)
                  ltac:(lia)) as Hc.
    cbv zeta in Hc. destruct Hc as (Hok2 & Hpins2 & _ & _ & _ & Hprocs2).
    set (L1 := updl (updl L (QueueHead 0) (L (QueueHead 0) ++ L (QueueHead l)))
                    (QueueHead l) []) in *.
    assert (HL1 : forall l', In l' ls -> L1 (QueueHead l') = L (QueueHead l')).
    { intros l' Hl'. subst L1. rewrite !updl_neq; [reflexivity| |].
      - intros E. injection E as ->. specialize (Hrange 0 (or_intror Hl')). lia.
      - intros E. injection E as ->. contradiction. }
    destruct (IH (concatqueue l 0 s1) L1 Hok2 Hpins2 Hq Hnd)
      as (s' & Hrun & Hok' & Hpins' & Hin' & Hout' & Hs').
    { intros l' Hl'. apply Hrange. now right. }
    { intros l' Hl'. rewrite HL1 by exact Hl'. apply Hfuel. now right. }
    exists s'. cbn [boost_levels boost_layout]. rewrite Hrun1. cbn [bind].
    split; [exact Hrun|]. split; [exact Hok'|]. split; [exact Hpins'|].
    assert (Hapart : forall i l1 l2, 0 <= l1 < QSIZE -> 0 <= l2 < QSIZE ->
                       l1 <> l2 -> In (PQueue i) (L (QueueHead l1)) ->
                       ~ In (PQueue i) (L (QueueHead l2))).
    { intros i l1 l2 H1 H2 Hne Hi. destruct Hlists as (_ & _ & Hdj).
      apply (Hdj (QueueHead l1) (QueueHead l2)); auto. congruence. }
    split; [|split].
    + intros i l' [<-|Hl'] Hi.
      * rewrite Hout'.
        -- rewrite Hprocs2. now apply Hin1.
        -- intros l' Hl'. rewrite HL1 by exact Hl'.
           apply (Hapart i l l'); auto.
           ++ lia.
           ++ specialize (Hrange l' (or_intror Hl')). lia.
           ++ intros ->. contradiction.
      * rewrite (Hin' i l' Hl'); [|rewrite HL1 by exact Hl'; exact Hi].
        rewrite Hprocs2. rewrite Hout1; [reflexivity|].
        apply (Hapart i l' l); auto.
        -- specialize (Hrange l' (or_intror Hl')). lia.
        -- lia.
        -- intros ->. contradiction.
    + intros i Hi. rewrite Hout'.
      * rewrite Hprocs2. apply Hout1. apply Hi. now left.
      * intros l' Hl'. rewrite HL1 by exact Hl'. apply Hi. now right.
    + eapply same_sched_but_pin_trans; [apply same_sched_but_pin_of; exact Hs1|].
      eapply same_sched_but_pin_trans; [apply concatqueue_sched|exact Hs'].
Qed.

(** The boost as a whole. *)
Lemma mlfqlogic_boost_ok fuel s hs L :
  mlfq_ok s hs L -> pins_valid s L -> In SleepHead hs ->
  (forall n, In n (L SleepHead) -> is_pqueue n) ->
  0 < QSIZE -> in_int (QSIZE - 1) ->
  (forall l, 1 <= l < QSIZE -> (length (L (QueueHead l)) < fuel)%nat) ->
  (length (L SleepHead) < fuel)%nat ->
  exists s',
    mlfqlogic_boost fuel s = Done s' /\
    mlfq_ok s' hs (boost_layout L (zrange 1 QSIZE)) /\
    pins_valid s' (boost_layout L (zrange 1 QSIZE)) /\
    (forall i l, 1 <= l < QSIZE -> In (PQueue i) (L (QueueHead l)) ->
       procs s' i = boost_proc (procs s i)) /\
    (forall i, In (PQueue i) (L SleepHead) ->
       procs s' i = boost_proc (procs s i)) /\
    (forall i, (forall l, 1 <= l < QSIZE -> ~ In (PQueue i) (L (QueueHead l))) ->
       ~ In (PQueue i) (L SleepHead) -> procs s' i = procs s i) /\
    same_sched_but_pin s s'.
Proof.
  intros Hok Hpins Hsl Hspq Hq Hint Hfuel Hfs.
  unfold mlfqlogic_boost.
  assert (Hb : sub32 QSIZE 1 + 1 = QSIZE).
  { unfold sub32. rewrite wrap_small by exact Hint. lia. }
  rewrite Hb.
  destruct (boost_levels_ok fuel hs (zrange 1 QSIZE) s L Hok Hpins Hq)
    as (s1 & Hrun1 & Hok1 & Hpins1 & Hin1 & Hout1 & Hs1).
  { apply NoDup_zrange. }
  { intros l Hl. now apply In_zrange in Hl. }
  { intros l Hl. apply In_zrange in Hl. auto. }
  rewrite Hrun1. cbn [bind].
  set (L1 := boost_layout L (zrange 1 QSIZE)) in *.
  assert (HLs : L1 SleepHead = L SleepHead).
  { apply boost_layout_other. intros l. discriminate. }
  destruct (boost_loop_ok fuel s1 hs L1 SleepHead)
    as (s2 & Hrun2 & Hin2 & Hout2 & Hn2 & Hp2 & Hs2).
  { apply Hok1. }
  { exact Hsl. }
  { rewrite HLs. exact Hspq. }
  { rewrite HLs. exact Hfs. }
  exists s2. split; [exact Hrun2|].
  split; [apply (mlfq_ok_same_links s1); auto|].
  split; [apply (pins_valid_same s1); [apply Hs2|exact Hpins1]|].
  rewrite HLs in Hin2, Hout2.
  assert (Hapart : forall i l, 0 <= l < QSIZE -> In (PQueue i) (L (QueueHead l)) ->
                               ~ In (PQueue i) (L SleepHead)).
  { intros i l Hl Hi. destruct Hok as ((_ & _ & Hdj) & Hheads & _).
    apply (Hdj (QueueHead l) SleepHead); auto. discriminate. }
  split; [|split; [|split]].
  - intros i l Hl Hi. rewrite Hout2 by (apply (Hapart i l); [lia|exact Hi]).
    apply (Hin1 i l); [apply In_zrange; lia|exact Hi].
  - intros i Hi. rewrite (Hin2 i Hi). f_equal. apply Hout1.
    intros l Hl Hq'. apply In_zrange in Hl.
    apply (Hapart i l); [lia|exact Hq'|exact Hi].
  - intros i Hlev Hsle. rewrite (Hout2 i Hsle). apply Hout1.
    intros l Hl. apply In_zrange in Hl. auto.
  - eapply same_sched_but_pin_trans; [exact Hs1|].
    apply same_sched_but_pin_of. exact Hs2.
Qed.

End BoostProofs.

(** ** Soundness of the checks *)

Lemma linkedb_sound f l : linkedb f l = true -> linked f l.
Proof.
  induction l as [|a l IH]; simpl; auto.
  destruct l as [|b l]; auto.
  intros H. apply andb_prop in H. destruct H as [H1 H2].
  split; [|auto]. destruct (node_eqb_spec (f a) b); [auto|discriminate].
Qed.

Lemma existsb_node_false x l : existsb (node_eqb x) l = false -> ~ In x l.
Proof.
  intros H Hin. assert (existsb (node_eqb x) l = true); [|congruence].
  apply existsb_exists. exists x. split; auto. apply node_eqb_refl.
Qed.

Lemma existsb_node_true x l : existsb (node_eqb x) l = true -> In x l.
Proof.
  intros H. apply existsb_exists in H. destruct H as (y & Hy & E).
  destruct (node_eqb_spec x y); [now subst|discriminate].
Qed.

Lemma existsb_nat_true x l : existsb (Nat.eqb x) l = true -> In x l.
Proof.
  intros H. apply existsb_exists in H. destruct H as (y & Hy & E).
  apply Nat.eqb_eq in E. now subst.
Qed.

Lemma existsb_nat_false x l : existsb (Nat.eqb x) l = false -> ~ In x l.
Proof.
  intros H Hin. assert (existsb (Nat.eqb x) l = true); [|congruence].
  apply existsb_exists. exists x. split; auto. apply Nat.eqb_refl.
Qed.

Lemma nodupb_sound l : nodupb l = true -> NoDup l.
Proof.
  induction l as [|a l IH]; simpl; intros H; constructor.
  - apply andb_prop in H. destruct H as [H _].
    apply negb_true_iff in H. now apply existsb_node_false.
  - apply andb_prop in H. destruct H as [_ H]. auto.
Qed.

Lemma nodupb_nat_sound l : nodupb_nat l = true -> NoDup l.
Proof.
  induction l as [|a l IH]; simpl; intros H; constructor.
  - apply andb_prop in H. destruct H as [H _].
    apply negb_true_iff in H. intros Hin.
    assert (existsb (Nat.eqb a) l = true); [|congruence].
    apply existsb_exists. exists a. split; auto. apply Nat.eqb_refl.
  - apply andb_prop in H. destruct H as [_ H]. auto.
Qed.

Lemma is_listb_sound s h xs : is_listb s h xs = true -> is_list s h xs.
Proof.
  unfold is_listb. intros H.
  apply andb_prop in H. destruct H as [H H3].
  apply andb_prop in H. destruct H as [H1 H2].
  split; [now apply nodupb_sound|]. split; now apply linkedb_sound.
Qed.

Lemma lists_okb_sound s hs L : lists_okb s hs L = true -> lists_ok s hs L.
Proof.
  unfold lists_okb. intros H.
  apply andb_prop in H. destruct H as [H H3].
  apply andb_prop in H. destruct H as [H1 H2].
  rewrite forallb_forall in H1, H2, H3.
  split; [|split].
  - intros h Hh. apply is_listb_sound. auto.
  - intros h x Hh Hx. specialize (H2 h Hh). rewrite forallb_forall in H2.
    specialize (H2 x Hx). apply negb_true_iff in H2.
    now apply existsb_node_false.
  - intros h h' x Hh Hh' Hne Hx.
    specialize (H3 h Hh). rewrite forallb_forall in H3. specialize (H3 h' Hh').
    destruct (node_eqb_spec h h'); [contradiction|]. simpl in H3.
    rewrite forallb_forall in H3. specialize (H3 x Hx).
    apply negb_true_iff in H3. now apply existsb_node_false.
Qed.

Lemma forallb_zrange (f : Z -> bool) lo hi :
  forallb f (zrange lo hi) = true -> forall l, lo <= l < hi -> f l = true.
Proof.
  intros H l Hl. rewrite forallb_forall in H. apply H. now apply In_zrange.
Qed.

Lemma is_pqueueb_sound n : is_pqueueb n = true -> is_pqueue n.
Proof. destruct n; try discriminate. intros _. now exists i. Qed.

Lemma forallb_pqueue_sound l :
  forallb is_pqueueb l = true -> forall n, In n l -> is_pqueue n.
Proof.
  intros H n Hn. rewrite forallb_forall in H. apply is_pqueueb_sound. auto.
Qed.

Lemma forallb_psibling_sound l :
  forallb is_psiblingb l = true -> forall n, In n l -> exists i, n = PSibling i.
Proof.
  intros H n Hn. rewrite forallb_forall in H. specialize (H n Hn).
  destruct n; try discriminate. now exists i.
Qed.

Lemma between_b lo x hi : (lo <=? x) && (x <? hi) = true -> lo <= x < hi.
Proof. intros H. apply andb_prop in H. lia. Qed.

Lemma between_le_b lo x hi : (lo <=? x) && (x <=? hi) = true -> lo <= x <= hi.
Proof. intros H. apply andb_prop in H. lia. Qed.

Lemma in_int_b x : (- 2 ^ 31 <=? x) && (x <? 2 ^ 31) = true -> in_int x.
Proof. intros H. apply andb_prop in H. unfold in_int. lia. Qed.

Lemma is_done_value {A} (d : A) (r : result A) :
  is_done r = true -> r = Done (value d r).
Proof. destruct r; [reflexivity|discriminate]. Qed.

Section CheckerProofs.
Context {T : Tunables}.

Lemma mlfq_okb_sound s hs L : mlfq_okb s hs L = true -> mlfq_ok s hs L.
Proof.
  unfold mlfq_okb. intros H. apply andb_prop in H. destruct H as [H1 H2].
  pose proof (forallb_zrange _ _ _ H2) as H2'. cbv beta in H2'.
  split; [now apply lists_okb_sound|]. split.
  - intros l Hl. specialize (H2' l Hl). apply andb_prop in H2'.
    apply existsb_node_true. tauto.
  - intros l n Hl Hn. specialize (H2' l Hl). apply andb_prop in H2'.
    destruct H2' as [_ H2']. eapply forallb_pqueue_sound; eauto.
Qed.

Lemma pins_validb_sound s L : pins_validb s L = true -> pins_valid s L.
Proof.
  unfold pins_validb. intros H l Hl.
  pose proof (forallb_zrange _ _ _ H l Hl) as H'. cbv beta in H'.
  apply orb_prop in H'. destruct H' as [H'|H'].
  - left. destruct (node_eqb_spec (pin s l) (QueueHead l)); [auto|discriminate].
  - right. now apply existsb_node_true.
Qed.

Lemma sleepers_okb_sound s hs L : sleepers_okb s hs L = true -> sleepers_ok s hs L.
Proof.
  unfold sleepers_okb. intros H n Hn. rewrite forallb_forall in H.
  specialize (H n Hn). destruct n; try discriminate.
  exists i. split; [reflexivity|]. intros Ht. rewrite Ht in H.
  now apply existsb_node_true.
Qed.

Lemma sleepers_sleepingb_sound s L :
  sleepers_sleepingb s L = true -> sleepers_sleeping s L.
Proof.
  unfold sleepers_sleepingb. intros H i Hi. rewrite forallb_forall in H.
  specialize (H _ Hi). cbv beta iota in H.
  destruct (pstate s i); try discriminate. reflexivity.
Qed.

Lemma tickets_invb_sound s : tickets_invb s = true -> tickets_inv s.
Proof.
  unfold tickets_invb. intros H.
  apply andb_prop in H. destruct H as [H H3].
  apply andb_prop in H. destruct H as [H1 H2].
  split; [|split].
  - now apply Z.eqb_eq.
  - now apply Z.leb_le.
  - intros i Hi. rewrite forallb_forall in H3. apply Z.leb_le. apply H3.
    apply in_seq. lia.
Qed.

Lemma heap_propertyb_sound s : heap_propertyb s = true -> heap_property s.
Proof.
  unfold heap_propertyb. intros H. apply heap_property_upto.
  intros j Hj. apply Z.leb_le.
  apply (forallb_zrange _ _ _ H j). lia.
Qed.

Lemma sleeping_strideb_sound s L :
  sleeping_strideb s L = true -> sleeping_stride_in_heap s L.
Proof.
  unfold sleeping_strideb. intros H i Hi Ht Hs.
  rewrite forallb_forall in H.
  specialize (H i). rewrite Ht, Hs in H.
  assert (Hin : In i (seq 0 NPROC)) by (apply in_seq; lia).
  specialize (H Hin). apply andb_prop in H. destruct H as [H1 H2]. split.
  - now apply existsb_node_true.
  - apply existsb_exists in H2. destruct H2 as (y & Hy & E).
    apply Nat.eqb_eq in E. now subst.
Qed.

Lemma off_listsb_sound hs L x : off_listsb hs L x = true -> off_lists hs L x.
Proof.
  unfold off_listsb. intros H. apply andb_prop in H. destruct H as [H1 H2].
  apply negb_true_iff in H1. split; [now apply existsb_node_false|].
  intros h Hh. rewrite forallb_forall in H2. specialize (H2 h Hh).
  apply negb_true_iff in H2. now apply existsb_node_false.
Qed.

End CheckerProofs.

Lemma successor_middle h x b : forall a,
  NoDup (a ++ x :: b) -> successor h (a ++ x :: b) x = hd h b.
Proof.
  induction a as [|y a IH]; intros Hnd.
  - cbn [app successor]. rewrite node_eqb_refl. reflexivity.
  - cbn [app successor]. cbn [app] in Hnd.
    apply NoDup_cons_iff in Hnd. destruct Hnd as [Hy Hnd].
    destruct (node_eqb_spec y x) as [->|_].
    + exfalso. apply Hy. apply in_or_app. right. now left.
    + auto.
Qed.

(* ================================================================= *)
(** * The properties of the specification *)

(* ================================================================= *)
(** ** The stride heap *)

Section HeapTheorems.
Context {T : Tunables}.

(** C5: [pushheap] and [popheap] preserve the min-heap property on
    [minheap[1..size]]: both return, the heap holds the same processes
    plus the pushed one, respectively minus the root, and [popheap] on
    a non-empty heap returns the old root, whose pass is the least of
    all passes in the heap.  The root is refilled with the last element
    when its pass is at most the passes of the children of the root;
    otherwise the child with the smaller pass, the left one on a tie,
    moves up into the root. *)
Theorem heap_push_pop_keep_heap s p :
  heap_property s -> 0 <= stride_size s < 2 ^ 30 ->
  (exists s1,
     pushheap p s = Done s1 /\ heap_property s1 /\
     stride_size s1 = stride_size s + 1 /\
     Permutation (heap_elems s1) (p :: heap_elems s) /\
     procs s1 = procs s) /\
  (1 <= stride_size s ->
   exists s2,
     popheap s = Done (minheap s 1, s2) /\ heap_property s2 /\
     stride_size s2 = stride_size s - 1 /\
     Permutation (minheap s 1 :: heap_elems s2) (heap_elems s) /\
     (forall i, In i (heap_elems s) -> ppass s (minheap s 1) <= ppass s i) /\
     procs s2 = procs s /\
     (2 <= stride_size s ->
      let n' := stride_size s - 1 in
      let last := minheap s (stride_size s) in
      let c := if (2 <? n') && (ppass s (minheap s 2) >? ppass s (minheap s 3))
               then 3 else 2 in
      minheap s2 1 =
      if (2 <=? n') && negb (ppass s last <=? ppass s (minheap s c))
      then minheap s c else last)).
Proof.
  intros Hheap Hsize. split.
  - destruct (pushheap_perm s p Hsize)
      as (s1 & Hrun & Hsz & Hprocs & Hperm & Hkeep & _).
    exists s1. split; [exact Hrun|]. split; [exact (Hkeep Hheap)|].
    split; [exact Hsz|]. split; [exact Hperm|exact Hprocs].
  - intros Hne.
    destruct (popheap_perm s) as (s2 & Hrun & Hsz & Hprocs & Hperm & Hkeep & _);
      [lia|].
    destruct (Hkeep Hheap) as [Hheap2 Hmin].
    exists s2. split; [exact Hrun|]. split; [exact Hheap2|].
    split; [exact Hsz|]. split; [exact Hperm|]. split; [|split; [exact Hprocs|]].
    + intros i Hi. unfold heap_elems in Hi. apply in_map_iff in Hi.
      destruct Hi as (j & <- & Hj). apply In_zrange in Hj. apply Hmin. lia.
    + intros H2. apply (popheap_root s (minheap s 1) s2); [lia|exact Hrun].
Qed.

End HeapTheorems.

(* ================================================================= *)
(** ** The MLFQ queues *)

Section MlfqTheorems.
Context {T : Tunables}.

(** C7: for an MLFQ process [p] that is RUNNABLE when the accounting of
    [mlfqlogic] runs, the ticks of [p] are incremented, and then: below
    the base level and at a multiple of the time allotment, [p] leaves
    its queue, joins the tail of the next level with its privlevel
    incremented and its ticks reset to 0; otherwise, at a multiple of
    the time quantum, the pin of the level of [p] moves to the successor
    of [p] and nothing else changes; otherwise only the ticks change.
    [mlfqlogic] is this accounting, run after the increment of
    [mlfq.ticks] and followed by the boost when one is due. *)
Theorem mlfqlogic_runnable_accounting fuel s hs L p a b :
  mlfq_ok s hs L -> pins_valid s L -> pstate s p = RUNNABLE ->
  0 <= privlevel (procs s p) < QSIZE -> in_int (QSIZE - 1) ->
  in_int (ticks (procs s p) + 1) ->
  L (QueueHead (privlevel (procs s p))) = a ++ PQueue p :: b ->
  let l := privlevel (procs s p) in
  let t := ticks (procs s p) + 1 in
  (if (l <? QSIZE - 1) && (Z.rem t (TA l) =? 0) then
     exists s',
       mlfqlogic_account p s = Done s' /\
       mlfq_ok s' hs (demoted_layout L l p a b) /\
       pins_valid s' (demoted_layout L l p a b) /\
       procs s' p = set_ticks 0 (set_privlevel (l + 1) (procs s p)) /\
       (forall i, i <> p -> procs s' i = procs s i) /\
       (forall l', l' <> l -> pin s' l' = pin s l')
   else if Z.rem t (TQ l) =? 0 then
     mlfqlogic_account p s =
     Done (set_pin l (successor (QueueHead l) (L (QueueHead l)) (PQueue p))
                   (upd_proc p (set_ticks t) s))
   else
     mlfqlogic_account p s = Done (upd_proc p (set_ticks t) s)) /\
  (forall s0,
     mlfqlogic fuel p s0 =
     (s1 <- mlfqlogic_account p
              (with_mlfq_ticks (add32 (mlfq_ticks s0) 1) s0) ;;
      if Z.rem (mlfq_ticks s1) BOOSTINTERVAL =? 0
      then mlfqlogic_boost fuel s1 else Done s1)).
Proof.
  intros Hok Hpins Hst Hl Hq Ht HL l t. split; [|reflexivity].
  pose proof (mlfqlogic_account_runnable s hs L p a b Hok Hpins Hst Hl Hq Ht HL)
    as H.
  cbv zeta in H. fold l t in H. fold l in HL.
  destruct ((l <? QSIZE - 1) && (Z.rem t (TA l) =? 0)); [exact H|].
  destruct (Z.rem t (TQ l) =? 0); [|exact H].
  rewrite H. do 2 f_equal.
  assert (Hnd : NoDup (a ++ PQueue p :: b)).
  { destruct Hok as [[Hlist _] [Hhd _]]. specialize (Hlist _ (Hhd l Hl)).
    destruct Hlist as [Hnd _]. apply NoDup_cons_iff in Hnd.
    rewrite <- HL. tauto. }
  rewrite HL. symmetry. now apply successor_middle.
Qed.

(** C8: [mlfqselect] returns, and its result is the one the spec
    describes: the levels are scanned from 0 upward; at each level the
    circular queue, sentinel included, is read once around from the pin,
    and the first RUNNABLE process found is returned with the pin of its
    level set to its node; if no queue holds a RUNNABLE process the
    result is null and the state, pins included, is the one it was. *)
Theorem mlfqselect_first_runnable fuel s hs L :
  mlfq_ok s hs L -> pins_valid s L ->
  (forall l, 0 <= l < QSIZE -> (length (L (QueueHead l)) < fuel)%nat) ->
  mlfqselect fuel s = Done (mlfqselect_spec s L) /\
  (forall l, 0 <= l < QSIZE ->
     let turn := rotate_from (QueueHead l :: L (QueueHead l)) (pin s l) in
     hd (QueueHead l) turn = pin s l /\
     Permutation turn (QueueHead l :: L (QueueHead l)) /\
     linked (nxt s) (turn ++ [pin s l])) /\
  match mlfqselect_spec s L with
  | (None, s') =>
      s' = s /\ forall l, 0 <= l < QSIZE -> no_runnable s L l
  | (Some p, s') =>
      exists l before after,
        0 <= l < QSIZE /\
        rotate_from (QueueHead l :: L (QueueHead l)) (pin s l) =
          before ++ PQueue p :: after /\
        pstate s p = RUNNABLE /\
        (forall q, In (PQueue q) before -> pstate s q <> RUNNABLE) /\
        (forall l', 0 <= l' < l -> no_runnable s L l') /\
        s' = set_pin l (PQueue p) s
  end.
Proof.
  intros Hok Hpins Hfuel. split; [|split].
  - unfold mlfqselect, mlfqselect_spec.
    apply (mlfqselect_levels_ok s hs L); auto.
    + intros l Hl. now apply In_zrange in Hl.
    + intros l Hl. apply In_zrange in Hl. auto.
  - intros l Hl turn. subst turn.
    pose proof (pin_in_cycle s L l (Hpins l Hl)) as Hin.
    destruct (split_at_spec _ _ Hin) as (pre & post & Hc & Hnp & Hsp).
    destruct Hok as [[Hlist _] [Hhd _]]. specialize (Hlist _ (Hhd l Hl)).
    destruct Hlist as (_ & Hnxt & _).
    split; [|split].
    + rewrite Hc, rotate_from_split by exact Hnp. reflexivity.
    + now apply rotate_from_perm.
    + rewrite Hc, rotate_from_split by exact Hnp.
      apply (linked_rotate (nxt s) pre (pin s l) post).
      change (QueueHead l :: L (QueueHead l) ++ [QueueHead l])
        with ((QueueHead l :: L (QueueHead l)) ++ [QueueHead l]) in Hnxt.
      rewrite Hc in Hnxt.
      replace (hd (pin s l) pre) with (QueueHead l); [exact Hnxt|].
      destruct pre as [|x pre]; simpl in Hc |- *; congruence.
  - unfold mlfqselect_spec.
    apply (select_levels_range s hs L QSIZE Hok Hpins (Z.le_refl _)
             (Z.to_nat (QSIZE - 0)) 0); [reflexivity|lia].
Qed.

(** C9: pin validity is preserved by [enqueue], by [dequeue], which
    moves a pin that points at the removed node to its successor, by
    [concatqueue], which resets the pin of the source and hands it to an
    empty destination, and by [mlfqselect].  Each of the four is shown
    for every call it can get in a state with valid pins. *)
Theorem pin_validity_preserved fuel s hs L :
  mlfq_ok s hs L -> pins_valid s L ->
  (forall level p,
     0 <= level < QSIZE -> off_lists hs L (PQueue p) ->
     let L' := updl L (QueueHead level) (L (QueueHead level) ++ [PQueue p]) in
     mlfq_ok (enqueue level p s) hs L' /\ pins_valid (enqueue level p s) L' /\
     pin (enqueue level p s) = pin s) /\
  (forall q a b,
     0 <= privlevel (procs s q) < QSIZE ->
     L (QueueHead (privlevel (procs s q))) = a ++ PQueue q :: b ->
     let l := privlevel (procs s q) in
     let L' := updl L (QueueHead l) (a ++ b) in
     mlfq_ok (dequeue q s) hs L' /\ pins_valid (dequeue q s) L' /\
     pin (dequeue q s) l =
       (if node_eqb (pin s l) (PQueue q)
        then successor (QueueHead l) (L (QueueHead l)) (PQueue q)
        else pin s l) /\
     (forall l', l' <> l -> pin (dequeue q s) l' = pin s l')) /\
  (forall src dst,
     0 <= src < QSIZE -> 0 <= dst < QSIZE -> src <> dst ->
     let L' := updl (updl L (QueueHead dst) (L (QueueHead dst) ++ L (QueueHead src)))
                    (QueueHead src) [] in
     mlfq_ok (concatqueue src dst s) hs L' /\
     pins_valid (concatqueue src dst s) L' /\
     pin (concatqueue src dst s) src = QueueHead src /\
     pin (concatqueue src dst s) dst =
       (if list_empty (QueueHead dst) s && negb (node_eqb (pin s src) (QueueHead src))
        then pin s src else pin s dst) /\
     (forall l, l <> src -> l <> dst -> pin (concatqueue src dst s) l = pin s l)) /\
  ((forall l, 0 <= l < QSIZE -> (length (L (QueueHead l)) < fuel)%nat) ->
   exists r, mlfqselect fuel s = Done r /\
             mlfq_ok (snd r) hs L /\ pins_valid (snd r) L).
Proof.
  intros Hok Hpins.
  split; [|split; [|split]].
  - intros level p Hlev Hoff. apply enqueue_ok; auto.
  - intros q a b Hlq HLq.
    pose proof (dequeue_ok s hs L q a b Hok Hpins Hlq HLq) as H.
    cbv zeta in H. cbv zeta.
    destruct H as (H1 & H2 & _ & H4 & H5 & _).
    split; [exact H1|]. split; [exact H2|]. split; [|exact H5].
    rewrite H4. destruct (node_eqb (pin s _) (PQueue q)); [|reflexivity].
    assert (Hnd : NoDup (a ++ PQueue q :: b)).
    { destruct Hok as [[Hlist _] [Hhd _]]. specialize (Hlist _ (Hhd _ Hlq)).
      destruct Hlist as [Hnd _]. apply NoDup_cons_iff in Hnd.
      rewrite <- HLq. tauto. }
    rewrite HLq. symmetry. now apply successor_middle.
  - intros src dst Hsrc Hdst Hne.
    pose proof (concatqueue_ok s hs L src dst Hok Hpins Hsrc Hdst Hne) as H.
    cbv zeta in H. cbv zeta. tauto.
  - intros Hfuel. exists (mlfqselect_spec s L). split.
    + unfold mlfqselect, mlfqselect_spec.
      apply (mlfqselect_levels_ok s hs L); auto.
      * intros l Hl. now apply In_zrange in Hl.
      * intros l Hl. apply In_zrange in Hl. auto.
    + pose proof (select_levels_range s hs L QSIZE Hok Hpins (Z.le_refl _)
                    (Z.to_nat (QSIZE - 0)) 0 eq_refl (Z.le_refl 0)) as H.
      unfold mlfqselect_spec.
      destruct (select_levels s L (zrange 0 QSIZE)) as [[r|] s'].
      * destruct H as (l & before & after & Hl & Hrot & _ & _ & _ & ->).
        simpl. split.
        -- apply (mlfq_ok_same_links s); auto.
        -- intros l' Hl'. unfold pin_valid. simpl. unfold updz.
           destruct (Z.eqb_spec l' l) as [->|_]; [|apply Hpins; auto].
           right.
           assert (Hin : In (PQueue r) (QueueHead l :: L (QueueHead l))).
           { apply (Permutation_in (l := rotate_from (QueueHead l :: L (QueueHead l)) (pin s l))).
             - apply rotate_from_perm. apply pin_in_cycle. auto.
             - rewrite Hrot. apply in_or_app. right. now left. }
           destruct Hin as [Hin|Hin]; [discriminate|exact Hin].
      * destruct H as [-> _]. simpl. auto.
Qed.

(** C3 (the code differs): the priority boost that [mlfqlogic] runs on
    a boost tick returns.  It splices the queues of the levels from 1
    on, in this order, onto the tail of level 0 and leaves them empty;
    every process that was on one of these queues or on the sleep list
    has privlevel 0 and ticks 0 afterwards.  A process that was on the
    queue of level 0 is not visited and keeps its ticks, so the state is
    the boosted state of the spec exactly when the MLFQ processes of
    level 0 had privlevel 0 and ticks 0 before the boost. *)
Theorem boost_resets_lower_levels fuel s hs L :
  mlfq_ok s hs L -> pins_valid s L -> In SleepHead hs ->
  (forall n, In n (L SleepHead) -> is_pqueue n) ->
  0 < QSIZE -> in_int (QSIZE - 1) ->
  (forall l, 1 <= l < QSIZE -> (length (L (QueueHead l)) < fuel)%nat) ->
  (length (L SleepHead) < fuel)%nat ->
  (exists s' L',
     mlfqlogic_boost fuel s = Done s' /\ mlfq_ok s' hs L' /\ pins_valid s' L' /\
     L' (QueueHead 0) =
       L (QueueHead 0) ++ flat_map (fun l => L (QueueHead l)) (zrange 1 QSIZE) /\
     (forall l, 1 <= l < QSIZE -> L' (QueueHead l) = []) /\
     L' SleepHead = L SleepHead /\
     (forall i l, 1 <= l < QSIZE -> In (PQueue i) (L (QueueHead l)) ->
        procs s' i = boost_proc (procs s i)) /\
     (forall i, In (PQueue i) (L SleepHead) ->
        procs s' i = boost_proc (procs s i)) /\
     (forall i, In (PQueue i) (L (QueueHead 0)) -> procs s' i = procs s i) /\
     mlfq_ticks s' = mlfq_ticks s /\
     (boosted s' L' <->
      forall i, In (PQueue i) (L (QueueHead 0)) -> ptype s i = MLFQ ->
                privlevel (procs s i) = 0 /\ ticks (procs s i) = 0)) /\
  (forall p s0,
     mlfqlogic fuel p s0 =
     (s1 <- mlfqlogic_account p
              (with_mlfq_ticks (add32 (mlfq_ticks s0) 1) s0) ;;
      if Z.rem (mlfq_ticks s1) BOOSTINTERVAL =? 0
      then mlfqlogic_boost fuel s1 else Done s1)).
Proof.
  intros Hok Hpins Hsl Hspq Hq Hint Hfuel Hfs. split; [|reflexivity].
  destruct (mlfqlogic_boost_ok fuel s hs L Hok Hpins Hsl Hspq Hq Hint Hfuel Hfs)
    as (s' & Hrun & Hok' & Hpins' & Hlev & Hsleep & Hrest & Hsame).
  set (L' := boost_layout L (zrange 1 QSIZE)) in *.
  assert (H0 : L' (QueueHead 0) =
               L (QueueHead 0) ++ flat_map (fun l => L (QueueHead l)) (zrange 1 QSIZE)).
  { apply boost_layout_zero; [apply NoDup_zrange|].
    intros Hin. apply In_zrange in Hin. lia. }
  assert (H1 : forall l, 1 <= l < QSIZE -> L' (QueueHead l) = []).
  { intros l Hl. apply boost_layout_level; [apply In_zrange; lia|lia]. }
  assert (Hs : L' SleepHead = L SleepHead).
  { apply boost_layout_other. intros l. discriminate. }
  assert (Hzero : forall i, In (PQueue i) (L (QueueHead 0)) -> procs s' i = procs s i).
  { intros i Hi. destruct Hok as ((_ & _ & Hdj) & Hheads & _). apply Hrest.
    - intros l Hl. apply (Hdj (QueueHead 0) (QueueHead l)); auto.
      + apply Hheads. lia.
      + apply Hheads. lia.
      + intros E. injection E as E. lia.
    - apply (Hdj (QueueHead 0) SleepHead); auto.
      + apply Hheads. lia.
      + discriminate. }
  exists s', L'. split; [exact Hrun|]. split; [exact Hok'|].
  split; [exact Hpins'|]. split; [exact H0|]. split; [exact H1|].
  split; [exact Hs|]. split; [exact Hlev|]. split; [exact Hsleep|].
  split; [exact Hzero|]. split; [apply Hsame|]. split.
  - intros (B & _) i Hi Hty.
    assert (E := Hzero i Hi).
    destruct (B 0 i) as [Bp Bt].
    + lia.
    + rewrite H0. apply in_or_app. now left.
    + unfold ptype. rewrite E. exact Hty.
    + rewrite E in Bp, Bt. auto.
  - intros Hz. split; [|split].
    + intros l i Hl Hi Hty.
      destruct (Z.eq_dec l 0) as [->|Hl0].
      * rewrite H0 in Hi. apply in_app_or in Hi. destruct Hi as [Hi|Hi].
        -- rewrite (Hzero i Hi). apply Hz; [exact Hi|].
           unfold ptype in Hty |- *. now rewrite (Hzero i Hi) in Hty.
        -- apply in_flat_map in Hi. destruct Hi as (l' & Hl' & Hi).
           apply In_zrange in Hl'. rewrite (Hlev i l' Hl' Hi). auto.
      * rewrite H1 in Hi by lia. contradiction.
    + intros i Hi Hty. rewrite Hs in Hi. rewrite (Hsleep i Hi). auto.
    + exact H1.
Qed.

End MlfqTheorems.

(* ================================================================= *)
(** ** Tickets *)

Section TicketTheorems.
Context {T : Tunables}.

(** C1: conservation of tickets.  [pinit] establishes
    [mlfq.tickets = 100] with no tickets on the stride side; a
    successful [set_cpu_share] by the running process keeps
    [mlfq.tickets] plus the tickets of all RUNNABLE, SLEEPING or
    RUNNING stride processes at 100, and a failing one changes nothing;
    [exit] of the running process returns, hands the tickets of a
    stride process back to [mlfq.tickets], and keeps the sum at 100. *)
Theorem ticket_conservation fuel s0 s cur i0 share hs L :
  (forall i, (i < NPROC)%nat -> stride_tickets (procs s0 i) = 0) ->
  tickets_inv s -> (cur < NPROC)%nat -> pstate s cur = RUNNING ->
  0 <= RESERVE <= 100 -> in_int share ->
  lists_ok s hs L -> In SleepHead hs -> In (PChildren cur) hs ->
  sleepers_ok s hs L -> sleepers_sleeping s L -> children_ok L cur ->
  initproc s = Some i0 -> cur <> i0 ->
  (length (L SleepHead) < fuel)%nat ->
  (length (L (PChildren cur)) < fuel)%nat ->
  (mlfq_tickets (pinit s0) = 100 /\ ticket_sum (pinit s0) = 0 /\
   tickets_inv (pinit s0)) /\
  (snd (set_cpu_share cur share s) = 0 ->
   tickets_inv (fst (set_cpu_share cur share s))) /\
  (snd (set_cpu_share cur share s) <> 0 -> fst (set_cpu_share cur share s) = s) /\
  (exists s',
     exit fuel cur s = Done s' /\ tickets_inv s' /\
     mlfq_tickets s' = mlfq_tickets s + held s cur /\
     pstate s' cur = ZOMBIE).
Proof.
  intros Hboot Hinv Hcur Hrun Hres Hshare Hok Hsl Hch Hso Hss Hco Hinit Hne
         Hf1 Hf2.
  split; [|split; [|split]].
  - now apply pinit_tickets.
  - now apply set_cpu_share_tickets.
  - intros Hr.
    assert (Hst : stride_tickets (procs s cur) = held s cur).
    { unfold stride_tickets, held, ptype. unfold pstate in Hrun.
      rewrite Hrun. destruct (type (procs s cur)); reflexivity. }
    destruct Hinv as (Hsum & Hm0 & Hnn). unfold tickets_conserved in Hsum.
    pose proof (stride_tickets_le_sum s cur Hnn Hcur) as Hle.
    pose proof (Hnn cur Hcur) as H0.
    assert (Hheld : 0 <= held s cur <= 100) by lia.
    assert (Hm : 0 <= mlfq_tickets s <= 100) by lia.
    pose proof (set_cpu_share_spec cur share s Hres Hshare Hm Hheld) as H.
    cbv zeta in H. destruct H as (H1 & H2 & H3 & _).
    apply H3. apply H1. intros Ha. apply Hr. now apply H2.
  - destruct (exit_ok fuel cur i0 s hs L) as (s' & Hex & Hz & Hm & Hrest); auto.
    exists s'. split; [exact Hex|].
    destruct (exit_tickets fuel cur s s' Hinv Hcur Hrun Hz Hm Hrest Hex)
      as [Hinv' Hm'].
    auto.
Qed.

(** C2 (amended): [set_cpu_share] returns -1 exactly when [share < 1],
    or [share > 100 - RESERVE], or [mlfq.tickets] plus the stride
    tickets the caller already holds, minus [share], is below RESERVE;
    a failing call leaves the whole state as it was; a successful call
    returns 0, makes the caller a stride process with [share] tickets,
    and decrements [mlfq.tickets] by [share] less the stride tickets
    the caller held before: by [share] for an MLFQ caller only. *)
Theorem set_cpu_share_outcome cur share s :
  0 <= RESERVE <= 100 -> in_int share ->
  0 <= mlfq_tickets s <= 100 -> 0 <= held s cur <= 100 ->
  let r := set_cpu_share cur share s in
  (snd r = -1 \/ snd r = 0) /\
  (snd r = -1 <->
   share < 1 \/ share > 100 - RESERVE \/
   mlfq_tickets s + held s cur - share < RESERVE) /\
  (snd r = -1 -> fst r = s) /\
  (snd r = 0 ->
   mlfq_tickets (fst r) = mlfq_tickets s - (share - held s cur) /\
   (ptype s cur = MLFQ -> mlfq_tickets (fst r) = mlfq_tickets s - share) /\
   ptype (fst r) cur = STRIDE /\ tickets (procs (fst r) cur) = share /\
   (forall i, i <> cur -> procs (fst r) i = procs s i)).
Proof.
  intros Hres Hshare Hm Hheld r.
  pose proof (set_cpu_share_spec cur share s Hres Hshare Hm Hheld) as H.
  cbv zeta in H. fold r in H. destruct H as (H1 & H2 & H3 & H4).
  assert (Hdec : grantable s cur share \/ ~ grantable s cur share).
  { unfold grantable. lia. }
  split; [|split; [|split]].
  - destruct Hdec as [Ha|Ha]; [right; now apply H2|left; now apply H1].
  - rewrite H1. unfold grantable. lia.
  - exact H3.
  - intros Hr. destruct (H4 Hr) as (Ht & Hp & Hrest).
    split; [lia|]. split; [|split; [|split]].
    + intros Hty. unfold held in Ht. rewrite Hty in Ht. lia.
    + unfold ptype. rewrite Hp. destruct (ptype s cur) eqn:E; [reflexivity|].
      simpl. exact E.
    + rewrite Hp. reflexivity.
    + exact Hrest.
Qed.

End TicketTheorems.

(* ================================================================= *)
(** ** Wakeup and kill *)

Lemma existsb_node_in x l : In x l -> existsb (node_eqb x) l = true.
Proof.
  intros H. apply existsb_exists. exists x. split; auto. apply node_eqb_refl.
Qed.

Lemma same_sched_heap s s' : same_sched s s' -> heap_elems s' = heap_elems s.
Proof.
  intros (_ & _ & _ & _ & Hh & Hn & _). unfold heap_elems. now rewrite Hh, Hn.
Qed.

Section WakeTheorems.
Context {T : Tunables}.

(** C4 (amended): [wakeup1] returns and takes every sleeper on the
    channel off the sleep list and makes it RUNNABLE; [kill] does the
    same to a SLEEPING target, after setting its killed flag.  A
    process of type MLFQ is then enqueued at the tail of its privlevel.
    A process of type STRIDE is not pushed: the stride heap is left as
    it was. *)
Theorem wakeup_kill_requeue fuel c target i a b s hs L :
  lists_ok s hs L -> In SleepHead hs -> sleepers_ok s hs L ->
  (length (L SleepHead) < fuel)%nat ->
  (i < NPROC)%nat -> pid (procs s i) = target ->
  (forall j, (j < i)%nat -> pid (procs s j) <> target) ->
  pstate s i = SLEEPING -> L SleepHead = a ++ PQueue i :: b ->
  (exists s' L',
     wakeup1 fuel c s = Done s' /\ lists_ok s' hs L' /\
     (forall h, L' h = woken_layout s c L h) /\
     (forall j, procs s' j = woken_procs s c L j) /\
     (forall j, In (PQueue j) (L SleepHead) -> chan (procs s j) = c ->
        pstate s' j = RUNNABLE /\ ~ In (PQueue j) (L' SleepHead) /\
        (ptype s j = MLFQ ->
         In (PQueue j) (L' (QueueHead (privlevel (procs s j)))))) /\
     minheap s' = minheap s /\ stride_size s' = stride_size s /\
     heap_elems s' = heap_elems s) /\
  (kill target s = (kill_found i s, 0) /\
   lists_ok (kill_found i s) hs (killed_layout s L i a b) /\
   procs (kill_found i s) i = set_state RUNNABLE (set_killed 1 (procs s i)) /\
   (forall j, j <> i -> procs (kill_found i s) j = procs s j) /\
   killed_layout s L i a b SleepHead = a ++ b /\
   ~ In (PQueue i) (a ++ b) /\
   (ptype s i = MLFQ ->
    killed_layout s L i a b (QueueHead (privlevel (procs s i))) =
    L (QueueHead (privlevel (procs s i))) ++ [PQueue i]) /\
   minheap (kill_found i s) = minheap s /\
   stride_size (kill_found i s) = stride_size s /\
   heap_elems (kill_found i s) = heap_elems s).
Proof.
  intros Hok Hsl Hso Hfuel Hi Hpid Hfirst Hst HL. split.
  - destruct (wakeup1_ok fuel c s hs L Hok Hsl Hso Hfuel)
      as (s' & L' & Hrun & Hok' & HL' & Hp' & Hsame).
    exists s', L'. split; [exact Hrun|]. split; [exact Hok'|].
    split; [exact HL'|]. split; [exact Hp'|]. split.
    + intros j Hj Hc.
      assert (Hce : chanid_eqb (chan (procs s j)) c = true).
      { destruct (chanid_eqb_spec (chan (procs s j)) c); [reflexivity|contradiction]. }
      split; [|split].
      * unfold pstate. rewrite Hp'. unfold woken_procs.
        rewrite (existsb_node_in _ _ Hj), Hce. reflexivity.
      * rewrite HL'. cbn [woken_layout]. intros Hin.
        apply filter_In in Hin. destruct Hin as [_ Hin].
        cbn [wakes] in Hin. rewrite Hce in Hin. discriminate.
      * intros Hty. rewrite HL'. cbn [woken_layout].
        apply in_or_app. right. apply filter_In. split; [exact Hj|].
        cbn [wakes_mlfq_at]. rewrite Hce, Hty, Z.eqb_refl. reflexivity.
    + pose proof (same_sched_heap _ _ Hsame) as Hh.
      destruct Hsame as (_ & _ & _ & _ & Hm & Hn & _). auto.
  - assert (Hq : ptype s i = MLFQ -> In (QueueHead (privlevel (procs s i))) hs).
    { destruct (Hso (PQueue i)) as (j & Hj & Hq).
      - rewrite HL. apply in_or_app. right. now left.
      - injection Hj as <-. exact Hq. }
    destruct (kill_found_sleeping s hs L i a b Hok Hsl Hst HL Hq)
      as (Hok' & Hp & Hrest & Hsame).
    split; [now apply kill_first|]. split; [exact Hok'|].
    split; [exact Hp|]. split; [exact Hrest|].
    split; [|split; [|split]].
    + unfold killed_layout. destruct (type (procs s i)).
      * rewrite updl_neq by discriminate. apply updl_eq.
      * apply updl_eq.
    + destruct Hok as [Hlist _]. specialize (Hlist _ Hsl).
      destruct Hlist as [Hnd _]. apply NoDup_cons_iff in Hnd.
      destruct Hnd as [_ Hnd]. rewrite HL in Hnd.
      now apply NoDup_remove_2 in Hnd.
    + intros Hty. unfold killed_layout. unfold ptype in Hty. rewrite Hty.
      rewrite updl_eq. rewrite updl_neq by discriminate. reflexivity.
    + pose proof (same_sched_heap _ _ Hsame) as Hh.
      destruct Hsame as (_ & _ & _ & _ & Hm & Hn & _). auto.
Qed.

End WakeTheorems.

(* ================================================================= *)
(** ** The stride side *)

Section StrideTheorems.
Context {T : Tunables}.

(** The overflow handling of [stridelogic] by itself, with [minpass]
    the pass of the MLFQ side when no process or an MLFQ process ran and
    the pass of the departing stride process otherwise: when
    [minpass > BARRIER], [minpass] is subtracted, in 32-bit arithmetic,
    from [mlfq.pass] and exactly once from the pass of every process in
    the heap and on the run list, and nothing else changes; [mlfq.pass]
    becomes 0 when no process or an MLFQ process ran.  A pass that lay
    between [minpass] and [minpass + BARRIER] lies between 0 and BARRIER
    afterwards. *)
Theorem rebase_subtracts_minpass fuel p s hs L :
  lists_ok s hs L -> In RunHead hs ->
  (forall n, In n (L RunHead) -> is_pqueue n) ->
  (length (L RunHead) < fuel)%nat ->
  NoDup (rebase_set s L) ->
  0 <= BARRIER -> in_int BARRIER ->
  let m := stride_minpass p s in
  m = match p with
      | None => mlfq_pass s
      | Some i => match ptype s i with
                  | MLFQ => mlfq_pass s
                  | STRIDE => ppass s i
                  end
      end /\
  exists s',
    stridelogic_rebase fuel p s = Done s' /\
    (m <= BARRIER -> s' = s) /\
    (m > BARRIER ->
     mlfq_pass s' = sub32 (mlfq_pass s) m /\
     (m = mlfq_pass s -> mlfq_pass s' = 0) /\
     (forall i, In i (rebase_set s L) ->
        ppass s' i = sub32 (ppass s i) m /\
        same_but_pass (procs s' i) (procs s i)) /\
     (forall i, ~ In i (rebase_set s L) -> procs s' i = procs s i) /\
     rebase_set s' L = rebase_set s L /\
     (m <= mlfq_pass s <= m + BARRIER -> 0 <= mlfq_pass s' <= BARRIER) /\
     (forall i, In i (rebase_set s L) -> m <= ppass s i <= m + BARRIER ->
        0 <= ppass s' i <= BARRIER) /\
     (m <= mlfq_pass s <= m + BARRIER ->
      (forall i, In i (rebase_set s L) -> m <= ppass s i <= m + BARRIER) ->
      passes_in_range s' L)).
Proof.
  intros Hok Hrun Hpq Hfuel Hnd HB0 HB m. split; [reflexivity|].
  destruct (stridelogic_rebase_ok fuel p s hs L Hok Hrun Hpq Hfuel Hnd)
    as (s' & Hres & Hcase & Hframe).
  fold m in Hcase.
  exists s'. split; [exact Hres|]. split.
  - intros Hle. destruct (Z.gtb_spec m BARRIER); [lia|exact Hcase].
  - intros Hgt. destruct (Z.gtb_spec m BARRIER); [|lia].
    destruct Hcase as (Hmp & Hin & Hout).
    assert (Hset : rebase_set s' L = rebase_set s L).
    { unfold rebase_set. now rewrite (heap_elems_same_frame _ _ Hframe). }
    assert (Hpass : forall i, In i (rebase_set s L) ->
                              ppass s' i = sub32 (ppass s i) m).
    { intros i Hi. unfold ppass. rewrite (Hin i Hi). reflexivity. }
    split; [exact Hmp|]. split; [|split; [|split; [|split; [|split; [|split]]]]].
    + intros E. rewrite Hmp, <- E. apply sub32_self.
    + intros i Hi. split; [now apply Hpass|].
      rewrite (Hin i Hi). apply same_but_pass_set.
    + exact Hout.
    + exact Hset.
    + intros Hr. rewrite Hmp. now apply rebase_in_range.
    + intros i Hi Hr. rewrite (Hpass i Hi). now apply rebase_in_range.
    + intros Hr Hall. split.
      * rewrite Hmp. now apply rebase_in_range.
      * intros i Hi. rewrite Hset in Hi. rewrite (Hpass i Hi).
        apply rebase_in_range; auto.
Qed.

(** C6 (the code differs): the overflow handling of [stridelogic] when
    a stride process [p] leaves the CPU, RUNNABLE or SLEEPING, with a
    pass above BARRIER.  [minpass] is the pass of [p]; it is subtracted,
    in 32-bit arithmetic, from [mlfq.pass] and from the pass of every
    process in the heap and on the run list.  The process [p] itself is
    in neither when the rebase runs, as [yield] and [sleep] have taken
    it off the run list and [pushheap] comes after the rebase: its pass
    is not rebased, [STRD(tickets)] is added to it and it is pushed, so
    that right after the rebase the heap holds a pass above BARRIER. *)
Theorem rebase_misses_departing_stride fuel p s hs L :
  lists_ok s hs L -> In RunHead hs ->
  (forall n, In n (L RunHead) -> is_pqueue n) ->
  (length (L RunHead) < fuel)%nat ->
  NoDup (rebase_set s L) -> ~ In p (rebase_set s L) ->
  ptype s p = STRIDE -> requeued (pstate s p) = true ->
  0 <= stride_size s < 2 ^ 30 ->
  0 <= STRD (tickets (procs s p)) ->
  in_int (ppass s p + STRD (tickets (procs s p))) ->
  ppass s p > BARRIER ->
  stride_minpass (Some p) s = ppass s p /\
  exists s',
    stridelogic fuel (Some p) s = Done s' /\
    mlfq_pass s' = sub32 (mlfq_pass s) (ppass s p) /\
    (forall i, In i (rebase_set s L) ->
       ppass s' i = sub32 (ppass s i) (ppass s p)) /\
    Permutation (heap_elems s') (p :: heap_elems s) /\
    ppass s' p = ppass s p + STRD (tickets (procs s p)) /\
    ~ (0 <= ppass s' p <= BARRIER).
Proof.
  intros Hok Hrun Hpq Hfuel Hnd Hp Hty Hrq Hsize Hs0 Hint Hgt.
  assert (Hm : stride_minpass (Some p) s = ppass s p).
  { unfold stride_minpass. now rewrite Hty. }
  split; [exact Hm|].
  destruct (stridelogic_rebase_ok fuel (Some p) s hs L Hok Hrun Hpq Hfuel Hnd)
    as (s1 & Hrb & Hcase & Hfr).
  rewrite Hm in Hcase.
  destruct (Z.gtb_spec (ppass s p) BARRIER) as [_|Hle]; [|lia].
  destruct Hcase as (Hmp & Hin & Hout).
  unfold stridelogic. rewrite Hrb. cbn [bind].
  pose proof (Hout p Hp) as Hp1.
  pose proof (heap_elems_same_frame _ _ Hfr) as Hheap1.
  destruct Hfr as (_ & _ & _ & _ & _ & _ & Fs & _).
  unfold stridelogic_advance, ptype, pstate. rewrite Hp1.
  unfold ptype in Hty. rewrite Hty.
  set (s2 := upd_proc p (fun x => set_pass (add32 (pass x) (STRD (tickets x))) x) s1).
  assert (Hadv : match state (procs s p) with
                 | RUNNABLE | SLEEPING => pushheap p s2
                 | _ => Done s1
                 end = pushheap p s2).
  { unfold pstate in Hrq.
    destruct (state (procs s p)); try discriminate Hrq; reflexivity. }
  rewrite Hadv.
  assert (Hs2p : procs s2 p =
                 set_pass (ppass s p + STRD (tickets (procs s p))) (procs s p)).
  { subst s2. rewrite procs_upd_proc_eq, Hp1. unfold add32.
    rewrite wrap_small by exact Hint. reflexivity. }
  destruct (pushheap_perm s2 p)
    as (s3 & Hpush & _ & Hpr3 & Hperm3 & _ & _ & _ & _ & _ & Hmp3 & _).
  { change (stride_size s2) with (stride_size s1). rewrite Fs. exact Hsize. }
  assert (Hpp : ppass s3 p = ppass s p + STRD (tickets (procs s p))).
  { unfold ppass. rewrite Hpr3, Hs2p. reflexivity. }
  exists s3. split; [exact Hpush|].
  split; [rewrite Hmp3; exact Hmp|].
  split.
  { intros i Hi. unfold ppass. rewrite Hpr3.
    assert (Hne : i <> p) by (intros ->; exact (Hp Hi)).
    subst s2. rewrite procs_upd_proc_neq by exact Hne.
    rewrite (Hin i Hi). reflexivity. }
  split.
  { eapply Permutation_trans; [exact Hperm3|]. apply perm_skip.
    change (heap_elems s2) with (heap_elems s1). rewrite Hheap1.
    apply Permutation_refl. }
  split; [exact Hpp|]. rewrite Hpp. lia.
Qed.

(** C10: a stride process that leaves the CPU in state RUNNABLE or
    SLEEPING is pushed back onto the heap by [stridelogic] with its pass
    advanced by [STRD(tickets)]; in any other state it is left out.  A
    running stride process that blocks is, at the end of the scheduler
    round, SLEEPING, on the sleep list and in the heap.  When the
    scheduler pops a SLEEPING stride process it does not switch to it,
    and [stridelogic] pushes it back with its pass advanced.  Both
    rounds keep every SLEEPING stride process on the sleep list and in
    the heap. *)
Theorem sleeping_stride_stays_in_heap fuel c swtch p q sa sb sc hs La Lb Lc :
  lists_ok sa hs La -> lists_ok sb hs Lb -> lists_ok sc hs Lc ->
  In RunHead hs -> In SleepHead hs ->
  (forall n, In n (La RunHead) -> is_pqueue n) ->
  (forall n, In n (Lb RunHead) -> is_pqueue n) ->
  (forall n, In n (Lc RunHead) -> is_pqueue n) ->
  (length (La RunHead) < fuel)%nat -> (length (Lb RunHead) < fuel)%nat ->
  (length (Lc RunHead) < fuel)%nat ->
  NoDup (rebase_set sa La) -> NoDup (rebase_set sb Lb) ->
  NoDup (rebase_set sc Lc) ->
  ~ In p (rebase_set sa La) -> ptype sa p = STRIDE ->
  0 <= stride_size sa < 2 ^ 30 ->
  in_int (ppass sa p + STRD (tickets (procs sa p))) ->
  off_lists hs Lb (PQueue q) -> ~ In q (rebase_set sb Lb) ->
  ptype sb q = STRIDE -> pstate sb q = RUNNABLE ->
  0 <= stride_size sb < 2 ^ 30 ->
  in_int (ppass sb q + STRD (tickets (procs sb q))) ->
  getminpass sc < mlfq_pass sc -> 1 <= stride_size sc < 2 ^ 30 ->
  ptype sc (minheap sc 1) = STRIDE -> pstate sc (minheap sc 1) = SLEEPING ->
  in_int (ppass sc (minheap sc 1) + STRD (tickets (procs sc (minheap sc 1)))) ->
  (exists s',
     stridelogic fuel (Some p) sa = Done s' /\
     (if requeued (pstate sa p) then
        ppass s' p = ppass sa p + STRD (tickets (procs sa p)) /\
        Permutation (heap_elems s') (p :: heap_elems sa)
      else
        ppass s' p = ppass sa p /\ heap_elems s' = heap_elems sa) /\
     pstate s' p = pstate sa p) /\
  (exists s' L',
     sched_run fuel (fun i a => Done (sleep i c a)) (Some q) sb = Done s' /\
     lists_ok s' hs L' /\
     pstate s' q = SLEEPING /\ ptype s' q = STRIDE /\
     In (PQueue q) (L' SleepHead) /\ In q (heap_elems s') /\
     ppass s' q = ppass sb q + STRD (tickets (procs sb q)) /\
     (sleeping_stride_in_heap sb Lb -> sleeping_stride_in_heap s' L')) /\
  (exists s',
     scheduler_round fuel swtch sc = Done s' /\
     lists_ok s' hs Lc /\
     pstate s' (minheap sc 1) = SLEEPING /\
     In (minheap sc 1) (heap_elems s') /\
     ppass s' (minheap sc 1) =
       ppass sc (minheap sc 1) + STRD (tickets (procs sc (minheap sc 1))) /\
     Permutation (heap_elems s') (heap_elems sc) /\
     (sleeping_stride_in_heap sc Lc -> sleeping_stride_in_heap s' Lc)).
Proof.
  intros Hoka Hokb Hokc Hrun Hsl Hpa Hpb Hpc Hfa Hfb Hfc Hnda Hndb Hndc
         Hpout Hpty Hsza Hpin Hqoff Hqout Hqty Hqst Hszb Hqin
         Hlt Hszc Hrty Hrst Hrin.
  split; [|split].
  - destruct (stridelogic_stride_ok fuel p sa hs La Hoka Hrun Hpa Hfa Hnda
                Hpout Hpty Hsza Hpin)
      as (s' & Hres & Hcase & Hsame & _).
    exists s'. split; [exact Hres|]. split.
    + destruct (requeued (pstate sa p)); tauto.
    + unfold pstate. destruct (same_but_pass_fields _ _ (Hsame p)) as [E _].
      exact E.
  - destruct (sched_run_block fuel q c sb hs Lb Hokb Hrun Hsl Hqoff Hpb Hfb
                Hndb Hqout Hqty Hqst Hszb Hqin)
      as (s' & L' & Hres & Hok' & HL' & Hst' & Hty' & Hps' & Hperm & Hsame).
    exists s', L'. split; [exact Hres|]. split; [exact Hok'|].
    split; [exact Hst'|]. split; [exact Hty'|].
    assert (Hql : In (PQueue q) (L' SleepHead)).
    { rewrite HL', updl_eq. now left. }
    assert (Hqh : In q (heap_elems s')).
    { apply (Permutation_in _ (Permutation_sym Hperm)). now left. }
    split; [exact Hql|]. split; [exact Hqh|]. split; [exact Hps'|].
    intros Hinv i Hi Hty Hst.
    destruct (Nat.eq_dec i q) as [->|Hne]; [auto|].
    destruct (same_but_pass_fields _ _ (Hsame i Hne)) as (E1 & E2 & _).
    unfold ptype, pstate in Hty, Hst. rewrite E2 in Hty. rewrite E1 in Hst.
    destruct (Hinv i Hi Hty Hst) as [H1 H2]. split.
    + rewrite HL', updl_eq. now right.
    + apply (Permutation_in _ (Permutation_sym Hperm)). now right.
  - destruct (scheduler_round_sleeping_root fuel swtch sc hs Lc Hokc Hrun Hpc
                Hfc Hndc Hlt Hszc Hrty Hrst Hrin)
      as (s' & Hres & Hst' & Hps' & Hperm & Hsame & Hn & Hp).
    exists s'. split; [exact Hres|].
    split; [now apply (lists_ok_same_links sc)|].
    split; [exact Hst'|]. split.
    { apply (Permutation_in _ (Permutation_sym Hperm)).
      unfold heap_elems. apply in_map. apply In_zrange. lia. }
    split; [exact Hps'|]. split; [exact Hperm|].
    intros Hinv i Hi Hty Hst.
    destruct (same_but_pass_fields _ _ (Hsame i)) as (E1 & E2 & _).
    unfold ptype, pstate in Hty, Hst. rewrite E2 in Hty. rewrite E1 in Hst.
    destruct (Hinv i Hi Hty Hst) as [H1 H2]. split; [exact H1|].
    apply (Permutation_in _ (Permutation_sym Hperm)). exact H2.
Qed.

End StrideTheorems.

(* ================================================================= *)
(** ** The theorems on the small machine *)

Module Runs.
Import Demo.

(** *** The states of the small machine, read off *)

(** init and its two children after the second fork. *)
Lemma st_three_shape :
  layout_of 16 st_three (QueueHead 0) = [PQueue 0; PQueue 1; PQueue 2] /\
  map (pstate st_three) [0; 1; 2]%nat = [RUNNABLE; RUNNABLE; RUNNABLE] /\
  map (pin st_three) [0; 1; 2] = [QueueHead 0; QueueHead 1; QueueHead 2] /\
  mlfq_tickets st_three = 100.
Proof. repeat split; vm_compute; reflexivity. Qed.

(** Slot 1 runs as a stride process with 30 tickets; init sleeps. *)
Lemma st_share_shape :
  procs st_share 1 = mkProc RUNNING STRIDE 0 0 30 10485 NoChan 0 2 (Some 0%nat) /\
  mlfq_tickets st_share = 70 /\
  layout_of 16 st_share RunHead = [PQueue 1] /\
  layout_of 16 st_share SleepHead = [PQueue 0] /\
  layout_of 16 st_share (QueueHead 0) = [PQueue 2] /\
  heap_elems st_share = [].
Proof. repeat split; vm_compute; reflexivity. Qed.

(** Slot 1 sleeps on channel 7 and is in the heap; init sleeps on its
    own slot. *)
Lemma st_blocked_shape :
  layout_of 16 st_blocked SleepHead = [PQueue 1; PQueue 0] /\
  heap_elems st_blocked = [1%nat] /\
  procs st_blocked 1 =
    mkProc SLEEPING STRIDE 0 0 30 45437 (AddrChan 7) 0 2 (Some 0%nat) /\
  chan (procs st_blocked 0) = ProcChan 0 /\
  ptype st_blocked 0 = MLFQ.
Proof. repeat split; vm_compute; reflexivity. Qed.

(** The pass of the MLFQ side has gone beyond the pass of the sleeping
    slot 1, the root of the heap. *)
Lemma st_overtaken_shape :
  heap_elems st_overtaken = [1%nat] /\
  pstate st_overtaken 1 = SLEEPING /\
  ppass st_overtaken 1 = 45437 /\
  mlfq_pass st_overtaken = 55422.
Proof. repeat split; vm_compute; reflexivity. Qed.

(** The state handed to [mlfqlogic] at the 50th tick. *)
Lemma st_tick50_in_shape :
  fst (value (None, st_tick49) (sched_pick 16 st_tick49)) = Some 0%nat /\
  mlfq_ticks st_tick50_in = 49 /\
  layout_of 16 st_tick50_in (QueueHead 0) = [PQueue 0; PQueue 1; PQueue 2] /\
  map (pstate st_tick50_in) [0; 1; 2]%nat = [RUNNABLE; RUNNABLE; RUNNABLE] /\
  map (ptype st_tick50_in) [0; 1; 2]%nat = [MLFQ; MLFQ; MLFQ] /\
  map (fun i => privlevel (procs st_tick50_in i)) [0; 1; 2]%nat = [0; 0; 0] /\
  map (fun i => ticks (procs st_tick50_in i)) [0; 1; 2]%nat = [19; 15; 15].
Proof. repeat split; vm_compute; reflexivity. Qed.

(** The state handed to [stridelogic] after slot 2 has run while slot 1
    runs on the other CPU. *)
Lemma st_barrier2_in_shape :
  layout_of 16 st_barrier2_in RunHead = [PQueue 1] /\
  heap_elems st_barrier2_in = [] /\
  pstate st_barrier2_in 1 = RUNNING /\ ptype st_barrier2_in 1 = STRIDE /\
  ppass st_barrier2_in 1 = 2 ^ 30 /\
  ptype st_barrier2_in 2 = MLFQ /\
  mlfq_pass st_barrier2_in = 2 ^ 30 + 14979 /\
  BARRIER = 2 ^ 30.
Proof. repeat split; vm_compute; reflexivity. Qed.

(** *** The theorems at these states *)

(** The heap of three, with passes 10, 20 and 30: a push and a pop keep
    the heap property; the pop returns slot 1 and moves slot 2 up. *)
Lemma heap_push_pop_keep_heap_run :
  heap_property st_heap /\
  (exists s1, pushheap 2 st_heap = Done s1 /\ heap_property s1 /\
              stride_size s1 = stride_size st_heap + 1) /\
  (exists s2, popheap st_heap = Done (minheap st_heap 1, s2) /\
              heap_property s2 /\
              stride_size s2 = stride_size st_heap - 1 /\
              minheap s2 1 = 2%nat).
Proof.
  assert (H0 : heap_property st_heap).
  { apply heap_propertyb_sound. vm_compute. reflexivity. }
  assert (H1 : 0 <= stride_size st_heap < 2 ^ 30).
  { apply between_b. vm_compute. reflexivity. }
  destruct (heap_push_pop_keep_heap st_heap 2 H0 H1) as [Hpush Hpop].
  split; [exact H0|]. split.
  - destruct Hpush as (s1 & E & Hh & Hs & _). exists s1.
    split; [exact E|]. split; [exact Hh|exact Hs].
  - destruct Hpop as (s2 & E & Hh & Hs & _ & _ & _ & Hroot).
    + apply Z.leb_le. vm_compute. reflexivity.
    + exists s2. split; [exact E|]. split; [exact Hh|]. split; [exact Hs|].
      assert (H2 : 2 <= stride_size st_heap).
      { apply Z.leb_le. vm_compute. reflexivity. }
      apply (eq_trans (Hroot H2)). vm_compute. reflexivity.
Defined.

(** Slot 1 holds 30 tickets and asks for 40: the call succeeds and the
    MLFQ side gives up the difference. *)
Lemma set_cpu_share_outcome_run :
  snd (set_cpu_share 1 40 st_share) = 0 /\
  mlfq_tickets (fst (set_cpu_share 1 40 st_share)) =
  mlfq_tickets st_share - (40 - held st_share 1).
Proof.
  assert (H := set_cpu_share_outcome 1 40 st_share).
  cbv zeta in H.
  destruct H as (_ & _ & _ & H).
  - apply between_le_b. vm_compute. reflexivity.
  - apply in_int_b. vm_compute. reflexivity.
  - apply between_le_b. vm_compute. reflexivity.
  - apply between_le_b. vm_compute. reflexivity.
  - assert (E : snd (set_cpu_share 1 40 st_share) = 0).
    { vm_compute. reflexivity. }
    split; [exact E|]. exact (proj1 (H E)).
Defined.

(** ... so [mlfq.tickets], 70 before the call, is 60 and not 30 after it. *)
Lemma set_cpu_share_stride_caller : ~ decremented_by_share 1 40 st_share.
Proof.
  intros H.
  assert (E : snd (set_cpu_share 1 40 st_share) = 0).
  { vm_compute. reflexivity. }
  assert (N : (mlfq_tickets (fst (set_cpu_share 1 40 st_share)) =?
               mlfq_tickets st_share - 40) = false).
  { vm_compute. reflexivity. }
  exact (proj1 (Z.eqb_neq _ _) N (H E)).
Qed.

(** The tickets stay at 100 when slot 1 takes 40 and when it exits. *)
Lemma ticket_conservation_run :
  tickets_inv (pinit boot) /\
  tickets_inv (fst (set_cpu_share 1 40 st_share)) /\
  exists s', exit 16 1 st_share = Done s' /\ tickets_inv s' /\
             mlfq_tickets s' = 100.
Proof.
  destruct (ticket_conservation 16 boot st_share 1 0 40 heads
              (layout_of 16 st_share))
    as ((_ & _ & Hp) & Hs & _ & s' & Hex & Hinv & Hm & _).
  - intros i _. vm_compute. reflexivity.
  - apply tickets_invb_sound. vm_compute. reflexivity.
  - apply Nat.ltb_lt. vm_compute. reflexivity.
  - vm_compute. reflexivity.
  - apply between_le_b. vm_compute. reflexivity.
  - apply in_int_b. vm_compute. reflexivity.
  - apply lists_okb_sound. vm_compute. reflexivity.
  - apply existsb_node_true. vm_compute. reflexivity.
  - apply existsb_node_true. vm_compute. reflexivity.
  - apply sleepers_okb_sound. vm_compute. reflexivity.
  - apply sleepers_sleepingb_sound. vm_compute. reflexivity.
  - unfold children_ok. apply forallb_psibling_sound. vm_compute. reflexivity.
  - vm_compute. reflexivity.
  - intros E. discriminate E.
  - apply Nat.ltb_lt. vm_compute. reflexivity.
  - apply Nat.ltb_lt. vm_compute. reflexivity.
  - split; [exact Hp|]. split.
    + apply Hs. vm_compute. reflexivity.
    + exists s'. split; [exact Hex|]. split; [exact Hinv|].
      assert (E : mlfq_tickets st_share + held st_share 1 = 100).
      { vm_compute. reflexivity. }
      exact (eq_trans Hm E).
Defined.

(** Slot 1 sleeps on channel 7 as a stride process: a wakeup on the
    channel and a kill of pid 2 make it RUNNABLE and leave the heap
    alone. *)
Lemma wakeup_kill_requeue_run :
  (exists s', wakeup1 16 (AddrChan 7) st_blocked = Done s' /\
              heap_elems s' = heap_elems st_blocked) /\
  kill 2 st_blocked = (kill_found 1 st_blocked, 0) /\
  procs (kill_found 1 st_blocked) 1 =
    set_state RUNNABLE (set_killed 1 (procs st_blocked 1)) /\
  heap_elems (kill_found 1 st_blocked) = heap_elems st_blocked.
Proof.
  destruct (wakeup_kill_requeue 16 (AddrChan 7) 2 1 [] [PQueue 0] st_blocked
              heads (layout_of 16 st_blocked))
    as ((s' & L' & Hw & _ & _ & _ & _ & _ & _ & Hh) &
        Hk & _ & Hp & _ & _ & _ & _ & _ & _ & Hkh).
  - apply lists_okb_sound. vm_compute. reflexivity.
  - apply existsb_node_true. vm_compute. reflexivity.
  - apply sleepers_okb_sound. vm_compute. reflexivity.
  - apply Nat.ltb_lt. vm_compute. reflexivity.
  - apply Nat.ltb_lt. vm_compute. reflexivity.
  - vm_compute. reflexivity.
  - intros j Hj. assert (E : j = 0%nat) by lia. rewrite E.
    apply Z.eqb_neq. vm_compute. reflexivity.
  - vm_compute. reflexivity.
  - vm_compute. reflexivity.
  - split; [exists s'; split; [exact Hw|exact Hh]|].
    split; [exact Hk|]. split; [exact Hp|exact Hkh].
Defined.

(** ... so the heap does not gain the woken process. *)
Lemma wakeup_leaves_heap :
  ~ wakeup_pushes_stride 16 (AddrChan 7) st_blocked (layout_of 16 st_blocked).
Proof.
  intros H.
  assert (D : is_done (wakeup1 16 (AddrChan 7) st_blocked) = true).
  { vm_compute. reflexivity. }
  pose proof (H _ (is_done_value st_blocked _ D) 1%nat) as P.
  assert (N : Nat.eqb
                (length (heap_elems
                           (value st_blocked (wakeup1 16 (AddrChan 7) st_blocked))))
                (length (1%nat :: heap_elems st_blocked)) = false).
  { vm_compute. reflexivity. }
  apply Nat.eqb_neq in N. apply N. apply Permutation_length. apply P.
  - apply existsb_node_true. vm_compute. reflexivity.
  - vm_compute. reflexivity.
  - vm_compute. reflexivity.
Qed.

(** Slot 1, with 80 tickets and the pass 2^30 + 8678, has run and
    yielded: [stridelogic] takes [mlfq.pass] down by this pass, to
    39321, and pushes slot 1 with the pass 2^30 + 21785. *)
Lemma rebase_misses_departing_stride_run :
  exists s',
    stridelogic 16 (Some 1%nat) st_due_in = Done s' /\
    mlfq_pass s' = sub32 (mlfq_pass st_due_in) (ppass st_due_in 1) /\
    Permutation (heap_elems s') (1%nat :: heap_elems st_due_in) /\
    ppass s' 1 = ppass st_due_in 1 + STRD (tickets (procs st_due_in 1)) /\
    ~ (0 <= ppass s' 1 <= BARRIER).
Proof.
  destruct (rebase_misses_departing_stride 16 1 st_due_in heads
              (layout_of 16 st_due_in))
    as (_ & s' & Hrun & Hmp & _ & Hperm & Hpass & Hout).
  - apply lists_okb_sound. vm_compute. reflexivity.
  - apply existsb_node_true. vm_compute. reflexivity.
  - apply forallb_pqueue_sound. vm_compute. reflexivity.
  - apply Nat.ltb_lt. vm_compute. reflexivity.
  - apply nodupb_nat_sound. vm_compute. reflexivity.
  - apply existsb_nat_false. vm_compute. reflexivity.
  - vm_compute. reflexivity.
  - vm_compute. reflexivity.
  - apply between_b. vm_compute. reflexivity.
  - apply Z.leb_le. vm_compute. reflexivity.
  - apply in_int_b. vm_compute. reflexivity.
  - apply Z.lt_gt. apply Z.ltb_lt. vm_compute. reflexivity.
  - exists s'. split; [exact Hrun|]. split; [exact Hmp|].
    split; [exact Hperm|]. split; [exact Hpass|exact Hout].
Defined.

(** The whole round on one CPU: slot 1 is due, runs and yields.  After
    the round [mlfq.pass] is 39321 and slot 1, alone in the heap, has
    the pass 2^30 + 21785, above the barrier 2^30: it is not due again
    before [mlfq.pass] has climbed back over the barrier. *)
Lemma rebase_leaves_departing_pass :
  exists s',
    scheduler_round 16 swtch_yield st_due = Done s' /\
    BARRIER = 2 ^ 30 /\
    mlfq_pass st_due = 2 ^ 30 + 47999 /\ ppass st_due 1 = 2 ^ 30 + 8678 /\
    heap_elems st_due = [1%nat] /\ layout_of 16 st_due RunHead = [] /\
    mlfq_pass s' = 39321 /\ heap_elems s' = [1%nat] /\
    ppass s' 1 = 2 ^ 30 + 21785 /\
    ~ (0 <= ppass s' 1 <= BARRIER).
Proof.
  assert (D : is_done (scheduler_round 16 swtch_yield st_due) = true).
  { vm_compute. reflexivity. }
  exists (value st_due (scheduler_round 16 swtch_yield st_due)).
  split; [exact (is_done_value st_due _ D)|].
  split; [vm_compute; reflexivity|]. split; [vm_compute; reflexivity|].
  split; [vm_compute; reflexivity|]. split; [vm_compute; reflexivity|].
  split; [vm_compute; reflexivity|]. split; [vm_compute; reflexivity|].
  split; [vm_compute; reflexivity|]. split; [vm_compute; reflexivity|].
  intros [_ H].
  assert (N : (ppass (value st_due (scheduler_round 16 swtch_yield st_due)) 1
               <=? BARRIER) = false).
  { vm_compute. reflexivity. }
  apply Z.leb_gt in N. exact (Z.lt_irrefl _ (Z.le_lt_trans _ _ _ H N)).
Qed.

(** The pass of the MLFQ side stands above the barrier after slot 2 has
    run: the rebase brings it to 0. *)
Lemma rebase_subtracts_minpass_run :
  exists s', stridelogic_rebase 16 (Some 2%nat) st_barrier2_in = Done s' /\
             mlfq_pass s' = 0.
Proof.
  pose proof (rebase_subtracts_minpass 16 (Some 2%nat) st_barrier2_in heads
                (layout_of 16 st_barrier2_in)) as H.
  cbv zeta in H.
  destruct H as (_ & s' & Hres & _ & Hgt).
  - apply lists_okb_sound. vm_compute. reflexivity.
  - apply existsb_node_true. vm_compute. reflexivity.
  - apply forallb_pqueue_sound. vm_compute. reflexivity.
  - apply Nat.ltb_lt. vm_compute. reflexivity.
  - apply nodupb_nat_sound. vm_compute. reflexivity.
  - apply Z.leb_le. vm_compute. reflexivity.
  - apply in_int_b. vm_compute. reflexivity.
  - exists s'. split; [exact Hres|].
    assert (G : stride_minpass (Some 2%nat) st_barrier2_in > BARRIER).
    { vm_compute. reflexivity. }
    destruct (Hgt G) as (_ & Hz & _). apply Hz. vm_compute. reflexivity.
Defined.

(** ... and takes the pass of slot 1, which runs on the other CPU, below 0. *)
Lemma rebase_negative_pass :
  ~ rebase_keeps_range 16 (Some 2%nat) st_barrier2_in
      (layout_of 16 st_barrier2_in).
Proof.
  intros H.
  assert (G : stride_minpass (Some 2%nat) st_barrier2_in > BARRIER).
  { vm_compute. reflexivity. }
  assert (D : is_done (stridelogic_rebase 16 (Some 2%nat) st_barrier2_in) = true).
  { vm_compute. reflexivity. }
  destruct (H G _ (is_done_value st_barrier2_in _ D)) as [_ P].
  assert (N : (0 <=? ppass (value st_barrier2_in
                              (stridelogic_rebase 16 (Some 2%nat) st_barrier2_in))
                       1) = false).
  { vm_compute. reflexivity. }
  apply Z.leb_gt in N.
  assert (I : In 1%nat
                (rebase_set (value st_barrier2_in
                               (stridelogic_rebase 16 (Some 2%nat) st_barrier2_in))
                            (layout_of 16 st_barrier2_in))).
  { apply existsb_nat_true. vm_compute. reflexivity. }
  exact (Z.lt_irrefl 0 (Z.le_lt_trans _ _ _ (proj1 (P _ I)) N)).
Qed.

(** Slot 0 has run for four ticks at level 0: the fifth completes the
    quantum, and the pin moves on to slot 1. *)
Lemma mlfqlogic_runnable_accounting_run :
  exists s', mlfqlogic_account 0 st_tick4 = Done s' /\
             pin s' 0 = PQueue 1 /\ ticks (procs s' 0) = 5.
Proof.
  pose proof (mlfqlogic_runnable_accounting 16 st_tick4 heads
                (layout_of 16 st_tick4) 0 [] [PQueue 1; PQueue 2]) as H.
  cbv zeta in H.
  destruct H as [H _].
  - apply mlfq_okb_sound. vm_compute. reflexivity.
  - apply pins_validb_sound. vm_compute. reflexivity.
  - vm_compute. reflexivity.
  - apply between_b. vm_compute. reflexivity.
  - apply in_int_b. vm_compute. reflexivity.
  - apply in_int_b. vm_compute. reflexivity.
  - vm_compute. reflexivity.
  - assert (E1 : (privlevel (procs st_tick4 0) <? QSIZE - 1) &&
                 (Z.rem (ticks (procs st_tick4 0) + 1)
                        (TA (privlevel (procs st_tick4 0))) =? 0) = false).
    { vm_compute. reflexivity. }
    assert (E2 : (Z.rem (ticks (procs st_tick4 0) + 1)
                        (TQ (privlevel (procs st_tick4 0))) =? 0) = true).
    { vm_compute. reflexivity. }
    rewrite E1, E2 in H.
    eexists. split; [exact H|]. split; vm_compute; reflexivity.
Defined.

(** Three RUNNABLE processes at level 0, pin on slot 0: slot 0 is
    selected. *)
Lemma mlfqselect_first_runnable_run :
  mlfqselect 16 st_three = Done (mlfqselect_spec st_three (layout_of 16 st_three)) /\
  fst (mlfqselect_spec st_three (layout_of 16 st_three)) = Some 0%nat.
Proof.
  destruct (mlfqselect_first_runnable 16 st_three heads (layout_of 16 st_three))
    as (H & _).
  - apply mlfq_okb_sound. vm_compute. reflexivity.
  - apply pins_validb_sound. vm_compute. reflexivity.
  - intros l Hl. apply Nat.ltb_lt.
    assert (E : forallb (fun l => Nat.ltb (length (layout_of 16 st_three (QueueHead l))) 16)
                        (zrange 0 QSIZE) = true).
    { vm_compute. reflexivity. }
    exact (forallb_zrange _ _ _ E l Hl).
  - split; [exact H|]. vm_compute. reflexivity.
Defined.

(** The pin of level 0 stands on slot 0, which [dequeue] removes: the
    pin moves on to slot 1.  Slot 0, off its queue, is enqueued at
    level 1.  With init alone at level 1 under the pin and level 0
    empty, [concatqueue] hands the pin of level 1 to level 0 and resets
    it; with slots 1 and 2 at level 0 it resets the pin of level 1 and
    leaves the pin of level 0.  The pins stay valid through all of
    them and through a selection. *)
Lemma pin_validity_preserved_run :
  (node_eqb (pin st_tick50_in (privlevel (procs st_tick50_in 0))) (PQueue 0) = true /\
   pin (dequeue 0 st_tick50_in) (privlevel (procs st_tick50_in 0)) =
     successor (QueueHead (privlevel (procs st_tick50_in 0)))
               (layout_of 16 st_tick50_in (QueueHead (privlevel (procs st_tick50_in 0))))
               (PQueue 0) /\
   pin (dequeue 0 st_tick50_in) 0 = PQueue 1 /\
   pins_valid (dequeue 0 st_tick50_in)
     (updl (layout_of 16 st_tick50_in)
           (QueueHead (privlevel (procs st_tick50_in 0)))
           ([] ++ [PQueue 1; PQueue 2]))) /\
  pins_valid (enqueue 1 0 st_demoting)
    (updl (layout_of 16 st_demoting) (QueueHead 1)
          (layout_of 16 st_demoting (QueueHead 1) ++ [PQueue 0])) /\
  (list_empty (QueueHead 0) st_level1 &&
     negb (node_eqb (pin st_level1 1) (QueueHead 1)) = true /\
   pin (concatqueue 1 0 st_level1) 0 = pin st_level1 1 /\
   pin st_level1 1 = PQueue 0 /\
   pin (concatqueue 1 0 st_level1) 1 = QueueHead 1 /\
   pins_valid (concatqueue 1 0 st_level1)
     (updl (updl (layout_of 16 st_level1) (QueueHead 0)
                 (layout_of 16 st_level1 (QueueHead 0) ++
                  layout_of 16 st_level1 (QueueHead 1)))
           (QueueHead 1) [])) /\
  (layout_of 16 st_tick50_acc (QueueHead 1) = [PQueue 0] /\
   pin (concatqueue 1 0 st_tick50_acc) 0 = pin st_tick50_acc 0 /\
   pin (concatqueue 1 0 st_tick50_acc) 1 = QueueHead 1 /\
   pins_valid (concatqueue 1 0 st_tick50_acc)
     (updl (updl (layout_of 16 st_tick50_acc) (QueueHead 0)
                 (layout_of 16 st_tick50_acc (QueueHead 0) ++
                  layout_of 16 st_tick50_acc (QueueHead 1)))
           (QueueHead 1) [])) /\
  exists r, mlfqselect 16 st_tick50_in = Done r /\
            pins_valid (snd r) (layout_of 16 st_tick50_in).
Proof.
  assert (R0 : 0 <= 0 < QSIZE).
  { apply between_b. vm_compute. reflexivity. }
  assert (R1 : 0 <= 1 < QSIZE).
  { apply between_b. vm_compute. reflexivity. }
  assert (N10 : 1 <> 0) by (intros E; discriminate E).
  (* the running state at the 50th tick *)
  destruct (pin_validity_preserved 16 st_tick50_in heads (layout_of 16 st_tick50_in))
    as (_ & Hdeq & _ & Hsel).
  { apply mlfq_okb_sound. vm_compute. reflexivity. }
  { apply pins_validb_sound. vm_compute. reflexivity. }
  pose proof (Hdeq 0%nat [] [PQueue 1; PQueue 2]) as Hd. cbv zeta in Hd.
  destruct Hd as (_ & Hdv & Hdp & _).
  { apply between_b. vm_compute. reflexivity. }
  { vm_compute. reflexivity. }
  assert (Epin : node_eqb (pin st_tick50_in (privlevel (procs st_tick50_in 0)))
                          (PQueue 0) = true).
  { vm_compute. reflexivity. }
  rewrite Epin in Hdp.
  destruct Hsel as (r & Hr & _ & Hrv).
  { intros l Hl. apply Nat.ltb_lt.
    assert (E : forallb (fun l => Nat.ltb (length (layout_of 16 st_tick50_in
                                                     (QueueHead l))) 16)
                        (zrange 0 QSIZE) = true).
    { vm_compute. reflexivity. }
    exact (forallb_zrange _ _ _ E l Hl). }
  (* slot 0 off its queue *)
  destruct (pin_validity_preserved 16 st_demoting heads (layout_of 16 st_demoting))
    as (Henq & _).
  { apply mlfq_okb_sound. vm_compute. reflexivity. }
  { apply pins_validb_sound. vm_compute. reflexivity. }
  pose proof (Henq 1 0%nat R1) as He. cbv zeta in He.
  destruct He as (_ & Hev & _).
  { apply off_listsb_sound. vm_compute. reflexivity. }
  (* init alone at level 1 *)
  destruct (pin_validity_preserved 16 st_level1 mlfq_heads (layout_of 16 st_level1))
    as (_ & _ & Hcat & _).
  { apply mlfq_okb_sound. vm_compute. reflexivity. }
  { apply pins_validb_sound. vm_compute. reflexivity. }
  pose proof (Hcat 1 0 R1 R0 N10) as Hc. cbv zeta in Hc.
  destruct Hc as (_ & Hcv & Hcs & Hcd & _).
  assert (Ec : list_empty (QueueHead 0) st_level1 &&
               negb (node_eqb (pin st_level1 1) (QueueHead 1)) = true).
  { vm_compute. reflexivity. }
  rewrite Ec in Hcd.
  (* the boost of the 50th tick *)
  destruct (pin_validity_preserved 16 st_tick50_acc heads (layout_of 16 st_tick50_acc))
    as (_ & _ & Hcat2 & _).
  { apply mlfq_okb_sound. vm_compute. reflexivity. }
  { apply pins_validb_sound. vm_compute. reflexivity. }
  pose proof (Hcat2 1 0 R1 R0 N10) as Hc2. cbv zeta in Hc2.
  destruct Hc2 as (_ & Hc2v & Hc2s & Hc2d & _).
  assert (Ec2 : list_empty (QueueHead 0) st_tick50_acc &&
                negb (node_eqb (pin st_tick50_acc 1) (QueueHead 1)) = false).
  { vm_compute. reflexivity. }
  rewrite Ec2 in Hc2d.
  split.
  { split; [exact Epin|]. split; [exact Hdp|].
    split; [vm_compute; reflexivity|exact Hdv]. }
  split; [exact Hev|].
  split.
  { split; [exact Ec|]. split; [exact Hcd|].
    split; [vm_compute; reflexivity|]. split; [exact Hcs|exact Hcv]. }
  split.
  { split; [vm_compute; reflexivity|]. split; [exact Hc2d|].
    split; [exact Hc2s|exact Hc2v]. }
  exists r. split; [exact Hr|exact Hrv].
Defined.

(** Slot 1, a stride process: put back by [stridelogic] when it sleeps;
    on the sleep list and in the heap after the round in which it
    blocks; popped while SLEEPING, not run, and pushed back. *)
Lemma sleeping_stride_stays_in_heap_run :
  (exists s', stridelogic 16 (Some 1%nat) st_sleeping = Done s' /\
              pstate s' 1 = pstate st_sleeping 1) /\
  (exists s' L',
     sched_run 16 (fun i a => Done (sleep i (AddrChan 9) a)) (Some 1%nat)
               st_popped = Done s' /\
     pstate s' 1 = SLEEPING /\ In (PQueue 1) (L' SleepHead) /\
     In 1%nat (heap_elems s')) /\
  (exists s', scheduler_round 16 swtch_yield st_overtaken = Done s' /\
              pstate s' (minheap st_overtaken 1) = SLEEPING /\
              In (minheap st_overtaken 1) (heap_elems s') /\
              sleeping_stride_in_heap s' (layout_of 16 st_overtaken)).
Proof.
  destruct (sleeping_stride_stays_in_heap 16 (AddrChan 9) swtch_yield 1 1
              st_sleeping st_popped st_overtaken heads
              (layout_of 16 st_sleeping) (layout_of 16 st_popped)
              (layout_of 16 st_overtaken))
    as ((sa' & Ha & _ & Hast) &
        (sb' & Lb' & Hb & _ & Hbst & _ & Hbl & Hbh & _) &
        (sc' & Hc & _ & Hcst & Hch & _ & _ & Hci)).
  - apply lists_okb_sound. vm_compute. reflexivity.
  - apply lists_okb_sound. vm_compute. reflexivity.
  - apply lists_okb_sound. vm_compute. reflexivity.
  - apply existsb_node_true. vm_compute. reflexivity.
  - apply existsb_node_true. vm_compute. reflexivity.
  - apply forallb_pqueue_sound. vm_compute. reflexivity.
  - apply forallb_pqueue_sound. vm_compute. reflexivity.
  - apply forallb_pqueue_sound. vm_compute. reflexivity.
  - apply Nat.ltb_lt. vm_compute. reflexivity.
  - apply Nat.ltb_lt. vm_compute. reflexivity.
  - apply Nat.ltb_lt. vm_compute. reflexivity.
  - apply nodupb_nat_sound. vm_compute. reflexivity.
  - apply nodupb_nat_sound. vm_compute. reflexivity.
  - apply nodupb_nat_sound. vm_compute. reflexivity.
  - apply existsb_nat_false. vm_compute. reflexivity.
  - vm_compute. reflexivity.
  - apply between_b. vm_compute. reflexivity.
  - apply in_int_b. vm_compute. reflexivity.
  - apply off_listsb_sound. vm_compute. reflexivity.
  - apply existsb_nat_false. vm_compute. reflexivity.
  - vm_compute. reflexivity.
  - vm_compute. reflexivity.
  - apply between_b. vm_compute. reflexivity.
  - apply in_int_b. vm_compute. reflexivity.
  - apply Z.ltb_lt. vm_compute. reflexivity.
  - apply between_b. vm_compute. reflexivity.
  - vm_compute. reflexivity.
  - vm_compute. reflexivity.
  - apply in_int_b. vm_compute. reflexivity.
  - split; [exists sa'; split; [exact Ha|exact Hast]|].
    split.
    + exists sb', Lb'. split; [exact Hb|]. split; [exact Hbst|].
      split; [exact Hbl|exact Hbh].
    + exists sc'. split; [exact Hc|]. split; [exact Hcst|].
      split; [exact Hch|]. apply Hci.
      apply sleeping_strideb_sound. vm_compute. reflexivity.
Defined.

(** Slots 0, 1 and 2 are MLFQ processes at level
    0 with 19, 15 and 15 ticks, and slot 0 runs at the 50th tick of the
    MLFQ side, a boost tick.  [mlfqlogic] returns; slot 0, demoted to
    level 1 by this tick, is back at the tail of level 0 with ticks 0;
    slots 1 and 2, on the queue of level 0, keep their 15 ticks: the
    state is not the boosted state of the spec. *)
Lemma boost_keeps_level0_ticks :
  exists s',
    mlfqlogic 16 0 st_tick50_in = Done s' /\
    Z.rem (mlfq_ticks s') BOOSTINTERVAL = 0 /\
    layout_of 16 s' (QueueHead 0) = [PQueue 1; PQueue 2; PQueue 0] /\
    layout_of 16 s' (QueueHead 1) = [] /\
    layout_of 16 s' (QueueHead 2) = [] /\
    map (fun i => ptype s' i) [0; 1; 2]%nat = [MLFQ; MLFQ; MLFQ] /\
    map (fun i => privlevel (procs s' i)) [0; 1; 2]%nat = [0; 0; 0] /\
    map (fun i => ticks (procs st_tick50_in i)) [0; 1; 2]%nat = [19; 15; 15] /\
    map (fun i => ticks (procs s' i)) [0; 1; 2]%nat = [0; 15; 15] /\
    ~ boosted s' (layout_of 16 s').
Proof.
  assert (D : is_done (mlfqlogic 16 0 st_tick50_in) = true).
  { vm_compute. reflexivity. }
  exists (value st_tick50_in (mlfqlogic 16 0 st_tick50_in)).
  split; [exact (is_done_value st_tick50_in _ D)|].
  split; [vm_compute; reflexivity|]. split; [vm_compute; reflexivity|].
  split; [vm_compute; reflexivity|]. split; [vm_compute; reflexivity|].
  split; [vm_compute; reflexivity|]. split; [vm_compute; reflexivity|].
  split; [vm_compute; reflexivity|]. split; [vm_compute; reflexivity|].
  intros [B _].
  assert (R : 0 <= 0 < QSIZE).
  { apply between_b. vm_compute. reflexivity. }
  assert (I : In (PQueue 1)
                 (layout_of 16 (value st_tick50_in (mlfqlogic 16 0 st_tick50_in))
                            (QueueHead 0))).
  { apply existsb_node_true. vm_compute. reflexivity. }
  assert (M : ptype (value st_tick50_in (mlfqlogic 16 0 st_tick50_in)) 1 = MLFQ).
  { vm_compute. reflexivity. }
  assert (N : (ticks (procs (value st_tick50_in (mlfqlogic 16 0 st_tick50_in)) 1)
               =? 0) = false).
  { vm_compute. reflexivity. }
  exact (proj1 (Z.eqb_neq _ _) N (proj2 (B 0 1%nat R I M))).
Qed.

(** The boost of the 50th tick: slot 0, on level 1 by now, is reset and
    spliced onto level 0; slots 1 and 2 are passed over, and the state
    is not the boosted state. *)
Lemma boost_resets_lower_levels_run :
  exists s' L',
    mlfqlogic_boost 16 st_tick50_acc = Done s' /\
    L' (QueueHead 0) =
      layout_of 16 st_tick50_acc (QueueHead 0) ++
      flat_map (fun l => layout_of 16 st_tick50_acc (QueueHead l)) (zrange 1 QSIZE) /\
    procs s' 1 = procs st_tick50_acc 1 /\
    ~ boosted s' L'.
Proof.
  destruct (boost_resets_lower_levels 16 st_tick50_acc heads
              (layout_of 16 st_tick50_acc))
    as ((s' & L' & Hrun & _ & _ & H0 & _ & _ & _ & _ & Hz & _ & Hiff) & _).
  - apply mlfq_okb_sound. vm_compute. reflexivity.
  - apply pins_validb_sound. vm_compute. reflexivity.
  - apply existsb_node_true. vm_compute. reflexivity.
  - apply forallb_pqueue_sound. vm_compute. reflexivity.
  - apply Z.ltb_lt. vm_compute. reflexivity.
  - apply in_int_b. vm_compute. reflexivity.
  - intros l Hl. apply Nat.ltb_lt.
    assert (E : forallb (fun l => Nat.ltb (length (layout_of 16 st_tick50_acc
                                                     (QueueHead l))) 16)
                        (zrange 1 QSIZE) = true).
    { vm_compute. reflexivity. }
    exact (forallb_zrange _ _ _ E l Hl).
  - apply Nat.ltb_lt. vm_compute. reflexivity.
  - assert (I : In (PQueue 1) (layout_of 16 st_tick50_acc (QueueHead 0))).
    { apply existsb_node_true. vm_compute. reflexivity. }
    exists s', L'. split; [exact Hrun|]. split; [exact H0|].
    split; [exact (Hz 1%nat I)|].
    intros B.
    assert (M : ptype st_tick50_acc 1 = MLFQ).
    { vm_compute. reflexivity. }
    assert (N : (ticks (procs st_tick50_acc 1) =? 0) = false).
    { vm_compute. reflexivity. }
    exact (proj1 (Z.eqb_neq _ _) N (proj2 (proj1 Hiff B 1%nat I M))).
Defined.

End Runs.

(* ================================================================= *)
(** * Further properties of proc.c *)

(** ** More on families of lists *)

Lemma lists_ok_heads_ext s hs hs' L :
  (forall h, In h hs' -> In h hs) -> lists_ok s hs L -> lists_ok s hs' L.
Proof.
  intros Hsub (H1 & H2 & H3). split; [|split].
  - intros h Hh. apply H1. auto.
  - intros h x Hh Hx Hx'. apply (H2 h x); auto.
  - intros h h' x Hh Hh' Hne Hx. apply (H3 h h' x); auto.
Qed.

Lemma lists_ok_heads_same s hs hs' L :
  (forall h, In h hs' <-> In h hs) -> lists_ok s hs L -> lists_ok s hs' L.
Proof.
  intros Heq (H1 & H2 & H3). split; [|split].
  - intros h Hh. apply H1. now apply Heq.
  - intros h x Hh Hx Hx'. apply (H2 h x); auto; now apply Heq.
  - intros h h' x Hh Hh' Hne Hx. apply (H3 h h' x); auto; now apply Heq.
Qed.

Lemma lists_ok_empty s : lists_ok s [] empty_layout.
Proof. split; [|split]; intros; contradiction. Qed.

(** A head that is on no list becomes an empty list of its own. *)
Lemma lists_ok_head_init s hs L h :
  lists_ok s hs L -> off_lists hs L h ->
  lists_ok (list_head_init h s) (h :: hs) (updl L h []).
Proof.
  intros (H1 & H2 & H3) (Hh & Hoff). split; [|split].
  - intros h' [<-|Hh'].
    + rewrite updl_eq. split; [|split].
      * constructor; [intros []|constructor].
      * cbn. split; [|exact I]. unfold updn. now rewrite node_eqb_refl.
      * cbn. split; [|exact I]. unfold updn. now rewrite node_eqb_refl.
    + assert (Hne : h' <> h) by (intros ->; contradiction).
      rewrite updl_neq by exact Hne.
      apply is_list_frame with (s := s); [|auto].
      intros n Hn. cbn. unfold updn.
      assert (Hnh : n <> h).
      { intros ->. destruct Hn as [E|Hn]; [congruence|].
        exact (Hoff h' Hh' Hn). }
      rewrite !node_eqb_neq by exact Hnh. auto.
  - intros h' x [<-|Hh'] Hx.
    + rewrite updl_eq in Hx. contradiction.
    + assert (Hne : h' <> h) by (intros ->; contradiction).
      rewrite updl_neq in Hx by exact Hne.
      intros [<-|Hx'].
      * exact (Hoff h' Hh' Hx).
      * exact (H2 h' x Hh' Hx Hx').
  - intros h1 h2 x Hh1 Hh2 Hne Hx.
    destruct (node_eq_dec h1 h) as [->|N1].
    + rewrite updl_eq in Hx. contradiction.
    + rewrite updl_neq in Hx by exact N1.
      destruct (node_eq_dec h2 h) as [->|N2].
      * rewrite updl_eq. intros [].
      * rewrite updl_neq by exact N2.
        destruct Hh1 as [E|Hh1]; [congruence|].
        destruct Hh2 as [E|Hh2]; [congruence|].
        exact (H3 h1 h2 x Hh1 Hh2 Hne Hx).
Qed.

(** Initialising a head whose list is empty changes nothing. *)
Lemma lists_ok_head_init_empty s hs L h :
  lists_ok s hs L -> In h hs -> L h = [] ->
  lists_ok (list_head_init h s) hs L.
Proof.
  intros Hok Hh Hempty.
  pose proof (proj1 Hok h Hh) as Hl. rewrite Hempty in Hl.
  destruct Hl as (_ & Hn & Hp). cbn in Hn, Hp.
  destruct Hn as [Hn _]. destruct Hp as [Hp _].
  destruct Hok as (H1 & H2 & H3). split; [|split]; auto.
  intros h' Hh'. apply is_list_frame with (s := s); [|auto].
  intros n _. cbn. unfold updn.
  destruct (node_eqb_spec n h) as [->|]; auto.
Qed.

Lemma upd_proc_links i f s :
  nxt (upd_proc i f s) = nxt s /\ prv (upd_proc i f s) = prv s.
Proof. split; reflexivity. Qed.

Lemma lists_ok_upd_proc i f s hs L :
  lists_ok s hs L -> lists_ok (upd_proc i f s) hs L.
Proof. apply lists_ok_same_links; reflexivity. Qed.

Lemma off_lists_updl_other hs L h xs x :
  off_lists hs L x -> ~ In x xs -> off_lists hs (updl L h xs) x.
Proof.
  intros [H1 H2] Hx. split; [exact H1|]. intros h' Hh'.
  unfold updl. destruct (node_eqb h' h); auto.
Qed.

(* ================================================================= *)
(** ** pinit *)

Section PinitProofs.
Context {T : Tunables}.

Lemma pinit_queues_ok : forall ls s hs,
  NoDup ls -> lists_ok s hs empty_layout ->
  (forall l, In l ls -> ~ In (QueueHead l) hs) ->
  let step := fun a l => set_pin l (QueueHead l) (list_head_init (QueueHead l) a) in
  let s' := fold_left step ls s in
  lists_ok s' (map QueueHead (rev ls) ++ hs) empty_layout /\
  (forall l, In l ls -> pin s' l = QueueHead l) /\
  (forall l, ~ In l ls -> pin s' l = pin s l) /\
  procs s' = procs s /\ same_sched_but_pin s s'.
Proof.
  induction ls as [|l ls IH]; intros s hs Hnd Hok Hfresh step s'.
  - subst s'. cbn. split; [exact Hok|]. split; [intros l []|].
    split; [reflexivity|]. split; [reflexivity|].
    unfold same_sched_but_pin. tauto.
  - apply NoDup_cons_iff in Hnd. destruct Hnd as [Hl Hnd].
    subst s'. cbn [fold_left].
    set (s1 := step s l).
    assert (Hok1 : lists_ok s1 (QueueHead l :: hs) empty_layout).
    { apply lists_ok_same_links with (s := list_head_init (QueueHead l) s);
        [reflexivity|reflexivity|].
      apply lists_ok_layout_ext with (L := updl empty_layout (QueueHead l) []).
      - intros h. unfold updl, empty_layout. now destruct (node_eqb h _).
      - apply lists_ok_head_init; [exact Hok|].
        split; [apply Hfresh; now left|]. intros h _ []. }
    destruct (IH s1 (QueueHead l :: hs) Hnd Hok1) as (A & B & C & D & E).
    { intros l' Hl' [E|Hin].
      - injection E as ->. contradiction.
      - apply (Hfresh l'); [now right|exact Hin]. }
    fold step in A, B, C, D, E.
    split; [|split; [|split; [|split]]].
    + cbn [rev]. rewrite map_app, <- app_assoc. exact A.
    + intros l' [<-|Hl'].
      * rewrite C by exact Hl. subst s1 step. cbn. unfold updz.
        now rewrite Z.eqb_refl.
      * now apply B.
    + intros l' Hl'. rewrite C by (intros Hin; apply Hl'; now right).
      subst s1 step. cbn. unfold updz.
      destruct (Z.eqb_spec l' l) as [->|_]; [|reflexivity].
      exfalso. apply Hl'. now left.
    + rewrite D. reflexivity.
    + eapply same_sched_but_pin_trans; [|exact E].
      subst s1 step. unfold same_sched_but_pin. cbn. tauto.
Qed.

Lemma pinit_free_ok hs : forall slots s L,
  NoDup slots -> lists_ok s hs L -> In FreeHead hs ->
  (forall i, In i slots -> off_lists hs L (PQueue i)) ->
  let s' := fold_left (fun a i => list_add_tail (PQueue i) FreeHead a) slots s in
  lists_ok s' hs (updl L FreeHead (L FreeHead ++ map PQueue slots)) /\
  procs s' = procs s /\ same_sched s s'.
Proof.
  induction slots as [|i slots IH]; intros s L Hnd Hok Hf Hoff s'.
  - subst s'. cbn. split; [|split; [reflexivity|apply same_sched_refl]].
    apply lists_ok_layout_ext with (L := L); [|exact Hok].
    intros h. unfold updl. destruct (node_eqb_spec h FreeHead) as [->|];
      [now rewrite app_nil_r|reflexivity].
  - apply NoDup_cons_iff in Hnd. destruct Hnd as [Hi Hnd].
    subst s'. cbn [fold_left map].
    set (s1 := list_add_tail (PQueue i) FreeHead s).
    set (L1 := updl L FreeHead (L FreeHead ++ [PQueue i])).
    assert (Hok1 : lists_ok s1 hs L1).
    { apply lists_ok_add_tail; auto. apply Hoff. now left. }
    destruct (IH s1 L1 Hnd Hok1 Hf) as (A & B & C).
    { intros j Hj. apply off_lists_updl_other; [apply Hoff; now right|].
      intros Hin. apply in_app_or in Hin. destruct Hin as [Hin|[E|[]]].
      - destruct (Hoff j (or_intror Hj)) as [_ Hn]. exact (Hn FreeHead Hf Hin).
      - injection E as ->. contradiction. }
    split; [|split].
    + apply lists_ok_layout_ext with
        (L := updl L1 FreeHead (L1 FreeHead ++ map PQueue slots)); [|exact A].
      intros h. subst L1. unfold updl.
      destruct (node_eqb_spec h FreeHead) as [->|]; [|reflexivity].
      rewrite node_eqb_refl, <- app_assoc. reflexivity.
    + rewrite B. reflexivity.
    + eapply same_sched_trans; [|exact C].
      subst s1. unfold same_sched, list_add_tail, list_insert_between. cbn. tauto.
Qed.

End PinitProofs.

Section PinitTheorems.
Context {T : Tunables}.

Lemma pinit_ok s :
  lists_ok (pinit s) pinit_heads pinit_layout /\
  mlfq_ok (pinit s) pinit_heads pinit_layout /\
  pins_valid (pinit s) pinit_layout /\
  (forall l, 0 <= l < QSIZE ->
     pin (pinit s) l = QueueHead l /\
     list_empty (QueueHead l) (pinit s) = true) /\
  list_empty RunHead (pinit s) = true /\
  list_empty SleepHead (pinit s) = true /\
  (list_empty FreeHead (pinit s) = true <-> NPROC = 0%nat) /\
  procs (pinit s) = procs s /\ mlfq_tickets (pinit s) = 100 /\
  minheap (pinit s) = minheap s /\ stride_size (pinit s) = stride_size s /\
  nextpid (pinit s) = nextpid s /\ initproc (pinit s) = initproc s /\
  mlfq_ticks (pinit s) = mlfq_ticks s /\ mlfq_pass (pinit s) = mlfq_pass s.
Proof.
  unfold pinit.
  set (step := fun a l => set_pin l (QueueHead l) (list_head_init (QueueHead l) a)).
  set (s1 := fold_left step (zrange 0 QSIZE) s).
  set (s2 := list_head_init RunHead s1).
  set (s3 := list_head_init SleepHead s2).
  set (s4 := list_head_init FreeHead s3).
  set (s5 := fold_left (fun a i => list_add_tail (PQueue i) FreeHead a)
                       (seq 0 NPROC) s4).
  destruct (pinit_queues_ok (zrange 0 QSIZE) s [] (NoDup_zrange _ _)
              (lists_ok_empty s)) as (A1 & B1 & _ & D1 & E1).
  { intros l _ []. }
  fold step in A1, B1, D1, E1. fold s1 in A1, B1, D1, E1.
  rewrite app_nil_r in A1.
  set (qs := map QueueHead (rev (zrange 0 QSIZE))) in *.
  assert (Hqs : forall n, In n qs -> exists l, n = QueueHead l /\ 0 <= l < QSIZE).
  { intros n Hn. subst qs. apply in_map_iff in Hn. destruct Hn as (l & <- & Hl).
    exists l. split; [reflexivity|]. apply in_rev in Hl. now apply In_zrange in Hl. }
  assert (Hinit : forall a hs h, lists_ok a hs empty_layout -> ~ In h hs ->
                    lists_ok (list_head_init h a) (h :: hs) empty_layout).
  { intros a hs h Hok Hh.
    apply lists_ok_layout_ext with (L := updl empty_layout h []).
    - intros k. unfold updl, empty_layout. now destruct (node_eqb k h).
    - apply lists_ok_head_init; [exact Hok|]. split; [exact Hh|]. intros k _ []. }
  assert (A2 : lists_ok s2 (RunHead :: qs) empty_layout).
  { apply Hinit; [exact A1|]. intros Hn. destruct (Hqs _ Hn) as (l & E & _).
    discriminate E. }
  assert (A3 : lists_ok s3 (SleepHead :: RunHead :: qs) empty_layout).
  { apply Hinit; [exact A2|]. intros [E|Hn]; [discriminate E|].
    destruct (Hqs _ Hn) as (l & E & _). discriminate E. }
  assert (A4 : lists_ok s4 (FreeHead :: SleepHead :: RunHead :: qs) empty_layout).
  { apply Hinit; [exact A3|]. intros [E|[E|Hn]]; try discriminate E.
    destruct (Hqs _ Hn) as (l & E & _). discriminate E. }
  set (hs4 := FreeHead :: SleepHead :: RunHead :: qs) in *.
  destruct (pinit_free_ok hs4 (seq 0 NPROC) s4 empty_layout (seq_NoDup _ _) A4)
    as (A5 & B5 & C5).
  { now left. }
  { intros i _. split; [|intros h _ []].
    intros [E|[E|[E|Hn]]]; try discriminate E.
    destruct (Hqs _ Hn) as (l & E & _). discriminate E. }
  fold s5 in A5, B5, C5.
  assert (Hheads : forall h, In h pinit_heads -> In h hs4).
  { intros h Hh. unfold pinit_heads in Hh. apply in_app_or in Hh.
    destruct Hh as [Hh|[<-|[<-|[<-|[]]]]].
    - right. right. right. subst qs. apply in_map_iff in Hh.
      destruct Hh as (l & <- & Hl). apply in_map. now apply -> in_rev.
    - right. right. now left.
    - right. now left.
    - now left. }
  assert (Hok : lists_ok (with_mlfq_tickets 100 s5) pinit_heads pinit_layout).
  { apply lists_ok_same_links with (s := s5); [reflexivity|reflexivity|].
    apply lists_ok_heads_ext with (hs := hs4); [exact Hheads|].
    apply lists_ok_layout_ext with
      (L := updl empty_layout FreeHead (empty_layout FreeHead ++ map PQueue (seq 0 NPROC)));
      [|exact A5].
    intros h. unfold updl, empty_layout, pinit_layout. now destruct h. }
  assert (Hpin : forall l, 0 <= l < QSIZE ->
                           pin (with_mlfq_tickets 100 s5) l = QueueHead l).
  { intros l Hl. cbn [pin with_mlfq_tickets].
    destruct C5 as (-> & _). subst s4 s3 s2. cbn [pin list_head_init set_prev set_next with_prv with_nxt].
    apply B1. now apply In_zrange. }
  assert (Hqh : forall l, 0 <= l < QSIZE -> In (QueueHead l) pinit_heads).
  { intros l Hl. unfold pinit_heads. apply in_or_app. left. apply in_map.
    now apply In_zrange. }
  assert (Hrun : In RunHead pinit_heads).
  { unfold pinit_heads. apply in_or_app. right. now left. }
  assert (Hsleep : In SleepHead pinit_heads).
  { unfold pinit_heads. apply in_or_app. right. right. now left. }
  assert (Hfree : In FreeHead pinit_heads).
  { unfold pinit_heads. apply in_or_app. right. right. right. now left. }
  split; [exact Hok|]. split.
  { split; [exact Hok|]. split; [exact Hqh|]. intros l n _ []. }
  split.
  { intros l Hl. left. now apply Hpin. }
  split.
  { intros l Hl. split; [now apply Hpin|].
    apply (list_empty_iff _ _ _ (proj1 Hok _ (Hqh l Hl))). reflexivity. }
  split; [apply (list_empty_iff _ _ _ (proj1 Hok _ Hrun)); reflexivity|].
  split; [apply (list_empty_iff _ _ _ (proj1 Hok _ Hsleep)); reflexivity|].
  split.
  { rewrite (list_empty_iff _ _ _ (proj1 Hok _ Hfree)). cbn [pinit_layout].
    destruct NPROC; cbn; split; intros E; try reflexivity; discriminate E. }
  destruct C5 as (_ & C1 & C2 & C3 & C4 & C5' & C6 & C7).
  destruct E1 as (F1 & F2 & F3 & F4 & F5 & F6 & F7).
  cbn [procs mlfq_tickets minheap stride_size nextpid initproc mlfq_ticks
       mlfq_pass with_mlfq_tickets].
  rewrite B5, C4, C5', C7, C6, C1, C2.
  subst s4 s3 s2.
  cbn [procs minheap stride_size nextpid initproc mlfq_ticks mlfq_pass
       list_head_init set_prev set_next with_prv with_nxt].
  rewrite D1, F4, F5, F7, F6, F1, F2. repeat split; reflexivity.
Qed.

(** X1: whatever the memory held before, [pinit] leaves every list of
    the scheduler well formed: the queues of all levels, the run list
    and the sleep list are empty, the free list holds the queue nodes of
    all [NPROC] slots in table order, and every pin stands on the
    sentinel of its level.  The process table, the heap and the pid
    counter are not touched, and [mlfq.tickets] is 100. *)
Theorem pinit_sets_up_lists s :
  lists_ok (pinit s) pinit_heads pinit_layout /\
  mlfq_ok (pinit s) pinit_heads pinit_layout /\
  pins_valid (pinit s) pinit_layout /\
  (forall l, 0 <= l < QSIZE ->
     pin (pinit s) l = QueueHead l /\
     list_empty (QueueHead l) (pinit s) = true) /\
  list_empty RunHead (pinit s) = true /\
  list_empty SleepHead (pinit s) = true /\
  (list_empty FreeHead (pinit s) = true <-> NPROC = 0%nat) /\
  procs (pinit s) = procs s /\ mlfq_tickets (pinit s) = 100 /\
  minheap (pinit s) = minheap s /\ stride_size (pinit s) = stride_size s /\
  nextpid (pinit s) = nextpid s /\ initproc (pinit s) = initproc s /\
  mlfq_ticks (pinit s) = mlfq_ticks s /\ mlfq_pass (pinit s) = mlfq_pass s.
Proof. apply pinit_ok. Qed.

End PinitTheorems.

(* ================================================================= *)
(** ** allocproc, fork, freeproc *)

Lemma off_lists_new_head hs L h x :
  off_lists hs L x -> x <> h -> off_lists (h :: hs) (updl L h []) x.
Proof.
  intros [H1 H2] Hne. split.
  - intros [E|Hin]; [congruence|contradiction].
  - intros k Hk. unfold updl. destruct (node_eqb_spec k h) as [->|Hkh].
    + intros [].
    + destruct Hk as [E|Hk]; [congruence|]. auto.
Qed.

Lemma lists_ok_head_ready s hs L h :
  lists_ok s hs L -> fresh_or_empty hs L h ->
  lists_ok (list_head_init h s) (h :: hs) (updl L h []).
Proof.
  intros Hok [Hoff|[Hin Hempty]].
  - now apply lists_ok_head_init.
  - apply lists_ok_heads_same with (hs := hs).
    + intros k. split; [intros [<-|Hk]; auto|intros Hk; now right].
    + apply lists_ok_layout_ext with (L := L).
      * intros k. unfold updl. destruct (node_eqb_spec k h) as [->|]; auto.
      * now apply lists_ok_head_init_empty.
Qed.

Section AllocProofs.
Context {T : Tunables}.

Lemma allocproc_none k s hs L :
  lists_ok s hs L -> In FreeHead hs -> L FreeHead = [] ->
  allocproc k s = Done (None, s).
Proof.
  intros Hok Hf He. unfold allocproc.
  rewrite (proj2 (list_empty_iff _ _ _ (proj1 Hok _ Hf)) He). reflexivity.
Qed.

Lemma allocproc_ok s hs L p rest :
  lists_ok s hs L -> In FreeHead hs -> L FreeHead = PQueue p :: rest ->
  in_int (nextpid s + 1) ->
  exists s',
    allocproc true s = Done (Some p, s') /\
    procs s' p = set_pid (nextpid s) (set_state EMBRYO (procs s p)) /\
    (forall i, i <> p -> procs s' i = procs s i) /\
    nextpid s' = nextpid s + 1 /\ pin s' = pin s /\ same_counters s s' /\
    off_lists hs (updl L FreeHead rest) (PQueue p) /\
    (fresh_or_empty hs L (PChildren p) ->
     lists_ok s' (PChildren p :: hs)
              (updl (updl L FreeHead rest) (PChildren p) []) /\
     off_lists (PChildren p :: hs)
               (updl (updl L FreeHead rest) (PChildren p) []) (PQueue p)).
Proof.
  intros Hok Hf HL Hint. unfold allocproc.
  pose proof (proj1 Hok _ Hf) as Hlist.
  assert (Hne : list_empty FreeHead s = false).
  { destruct (list_empty FreeHead s) eqn:E; [|reflexivity].
    apply (list_empty_iff _ _ _ Hlist) in E. rewrite HL in E. discriminate E. }
  rewrite Hne. cbn [negb].
  rewrite (is_list_next_head _ _ _ Hlist), HL. cbn [hd queue_entry bind].
  destruct (lists_ok_del s hs L FreeHead [] (PQueue p) rest Hok Hf HL)
    as [Hok1 Hoff1].
  cbn [app] in Hok1, Hoff1.
  eexists. split; [reflexivity|].
  split.
  { cbn. unfold updp. rewrite !Nat.eqb_refl. reflexivity. }
  split.
  { intros i Hi. cbn. unfold updp.
    rewrite !(proj2 (Nat.eqb_neq i p) Hi). reflexivity. }
  split.
  { cbn. apply wrap_small. exact Hint. }
  split; [reflexivity|]. split; [unfold same_counters; cbn; tauto|].
  split; [exact Hoff1|].
  intros Hready.
  assert (Hready1 : fresh_or_empty hs (updl L FreeHead rest) (PChildren p)).
  { destruct Hready as [Hoff|[Hin He]].
    - left. apply off_lists_updl_other; [exact Hoff|].
      intros Hr. destruct Hoff as [_ Hn]. apply (Hn FreeHead Hf).
      rewrite HL. now right.
    - right. split; [exact Hin|]. rewrite updl_neq by discriminate. exact He. }
  split.
  - apply lists_ok_head_ready; [|exact Hready1].
    apply lists_ok_same_links with (s := list_del (PQueue p) s);
      [reflexivity|reflexivity|exact Hok1].
  - apply off_lists_new_head; [exact Hoff1|discriminate].
Qed.

(** What [allocproc] does when [kalloc] fails, in terms of the state in
    which it would have returned the slot. *)
Lemma allocproc_fail_eq s p s' :
  allocproc true s = Done (Some p, s') ->
  allocproc false s =
  Done (None, list_add (PQueue p) FreeHead (upd_proc p (set_state UNUSED) s')).
Proof.
  unfold allocproc. destruct (negb (list_empty FreeHead s)); [|discriminate].
  destruct (queue_entry (nxt s FreeHead)) as [q|e]; cbn [bind]; [|discriminate].
  intros H. injection H as <- <-. reflexivity.
Qed.

(** The slot goes back: the state after the undo that [allocproc] and
    [fork] share. *)
Lemma alloc_undo_ok s sa hs L p rest :
  In FreeHead hs -> L FreeHead = PQueue p :: rest ->
  procs sa p = set_pid (nextpid s) (set_state EMBRYO (procs s p)) ->
  (forall i, i <> p -> procs sa i = procs s i) ->
  lists_ok sa (PChildren p :: hs) (updl (updl L FreeHead rest) (PChildren p) []) ->
  off_lists (PChildren p :: hs)
            (updl (updl L FreeHead rest) (PChildren p) []) (PQueue p) ->
  let sf := list_add (PQueue p) FreeHead (upd_proc p (set_state UNUSED) sa) in
  procs sf p =
    set_state UNUSED (set_pid (nextpid s) (set_state EMBRYO (procs s p))) /\
  (forall i, i <> p -> procs sf i = procs s i) /\
  nextpid sf = nextpid sa /\ pin sf = pin sa /\
  lists_ok sf (PChildren p :: hs) (updl L (PChildren p) []).
Proof.
  intros Hf HL Hp Hrest Hok Hoff sf.
  split.
  { subst sf. cbn. unfold updp. rewrite Nat.eqb_refl, Hp. reflexivity. }
  split.
  { intros i Hi. subst sf. cbn. unfold updp.
    rewrite (proj2 (Nat.eqb_neq i p) Hi). apply Hrest. exact Hi. }
  split; [reflexivity|]. split; [reflexivity|].
  set (L1 := updl (updl L FreeHead rest) (PChildren p) []) in *.
  apply lists_ok_layout_ext with
    (L := updl L1 FreeHead (PQueue p :: L1 FreeHead)).
  - intros h. subst L1. unfold updl.
    destruct (node_eqb_spec h FreeHead) as [->|Hne].
    + cbn [node_eqb]. rewrite HL. reflexivity.
    + destruct (node_eqb h (PChildren p)); reflexivity.
  - subst sf. apply lists_ok_add; [|now right|exact Hoff].
    apply lists_ok_upd_proc. exact Hok.
Qed.

Lemma freeproc_ok p s hs L :
  lists_ok s hs L -> In FreeHead hs -> off_lists hs L (PQueue p) ->
  lists_ok (freeproc p s) hs (updl L FreeHead (PQueue p :: L FreeHead)) /\
  cleared (procs (freeproc p s) p) /\
  type (procs (freeproc p s) p) = type (procs s p) /\
  (forall i, i <> p -> procs (freeproc p s) i = procs s i) /\
  same_sched s (freeproc p s) .
Proof.
  intros Hok Hf Hoff. unfold freeproc. split; [|split; [|split; [|split]]].
  - apply lists_ok_add; [|exact Hf|exact Hoff].
    repeat apply lists_ok_upd_proc. exact Hok.
  - unfold cleared. cbn. unfold updp. rewrite !Nat.eqb_refl. cbn. tauto.
  - cbn. unfold updp. rewrite !Nat.eqb_refl. reflexivity.
  - intros i Hi. cbn. unfold updp. rewrite !(proj2 (Nat.eqb_neq i p) Hi).
    reflexivity.
  - unfold same_sched. cbn. tauto.
Qed.

Lemma kill_scan_none target s : forall slots,
  (forall i, In i slots -> pid (procs s i) <> target) ->
  kill_scan slots target s = (s, -1).
Proof.
  induction slots as [|i slots IH]; intros H; [reflexivity|].
  cbn [kill_scan]. rewrite (proj2 (Z.eqb_neq _ _) (H i (or_introl eq_refl))).
  apply IH. intros j Hj. apply H. now right.
Qed.

End AllocProofs.

Section AllocTheorems.
Context {T : Tunables}.

(** X2: [allocproc] returns no slot and changes nothing when the free
    list is empty.  Otherwise it takes the first slot of the free list
    off that list, makes it an EMBRYO with the next pid, increments the
    pid counter and gives it an empty child list; all other fields of
    the slot, the killed flag among them, and all other slots are left
    as they were.  It returns this slot when [kalloc] succeeds.  When
    [kalloc] fails it returns no slot: the slot is UNUSED again and
    back at the front of the free list, but it keeps the pid, and the
    pid counter stays incremented. *)
Theorem allocproc_takes_first_free k s hs L :
  lists_ok s hs L -> In FreeHead hs ->
  (forall n, In n (L FreeHead) -> is_pqueue n) -> in_int (nextpid s + 1) ->
  match L FreeHead with
  | [] => allocproc k s = Done (None, s)
  | n :: rest =>
      exists p s',
        n = PQueue p /\
        allocproc k s = Done ((if k then Some p else None), s') /\
        procs s' p =
          (if k then set_pid (nextpid s) (set_state EMBRYO (procs s p))
           else set_state UNUSED
                  (set_pid (nextpid s) (set_state EMBRYO (procs s p)))) /\
        (forall i, i <> p -> procs s' i = procs s i) /\
        nextpid s' = nextpid s + 1 /\
        (fresh_or_empty hs L (PChildren p) ->
         lists_ok s' (PChildren p :: hs)
                  (updl (updl L FreeHead (if k then rest else n :: rest))
                        (PChildren p) []))
  end.
Proof.
  intros Hok Hf Hpq Hint.
  destruct (L FreeHead) as [|n rest] eqn:HL.
  - now apply (allocproc_none k s hs L).
  - destruct (Hpq n (or_introl eq_refl)) as (p & ->).
    destruct (allocproc_ok s hs L p rest Hok Hf HL Hint)
      as (s' & Hrun & Hp & Hrest & Hnp & _ & _ & _ & Hlists).
    destruct k.
    + exists p, s'. split; [reflexivity|]. split; [exact Hrun|].
      split; [exact Hp|]. split; [exact Hrest|]. split; [exact Hnp|].
      intros Hready. apply (Hlists Hready).
    + exists p. eexists. split; [reflexivity|].
      split; [exact (allocproc_fail_eq s p s' Hrun)|].
      assert (Hundo : fresh_or_empty hs L (PChildren p) ->
                      procs (list_add (PQueue p) FreeHead
                               (upd_proc p (set_state UNUSED) s')) p =
                        set_state UNUSED
                          (set_pid (nextpid s) (set_state EMBRYO (procs s p))) /\
                      lists_ok (list_add (PQueue p) FreeHead
                                  (upd_proc p (set_state UNUSED) s'))
                               (PChildren p :: hs) (updl L (PChildren p) [])).
      { intros Hready. destruct (Hlists Hready) as [Hoka Hoffa].
        pose proof (alloc_undo_ok s s' hs L p rest Hf HL Hp Hrest Hoka Hoffa) as H.
        cbv zeta in H. destruct H as (H1 & _ & _ & _ & H5). now split. }
      split.
      { cbn. unfold updp. rewrite Nat.eqb_refl, Hp. reflexivity. }
      split.
      { intros i Hi. cbn. unfold updp. rewrite (proj2 (Nat.eqb_neq i p) Hi).
        apply Hrest. exact Hi. }
      split; [exact Hnp|].
      intros Hready.
      apply lists_ok_layout_ext with (L := updl L (PChildren p) []).
      * intros h. unfold updl.
        destruct (node_eqb h (PChildren p)); [reflexivity|].
        destruct (node_eqb_spec h FreeHead) as [->|]; [exact HL|reflexivity].
      * apply (Hundo Hready).
Qed.

(** X3: [fork] returns -1 and changes nothing when no slot is free.
    With a free slot it returns the next pid when [kalloc] and
    [copyuvm] succeed; the child is the first slot of the free list,
    now RUNNABLE, of type MLFQ, with the caller as its parent; it is
    appended to the child list of the caller and to the tail of the
    queue of the privlevel its slot carries.  When one of the two
    fails, [fork] returns -1 with the pid used up: the slot is UNUSED
    at the front of the free list, carries the pid, and no list but the
    (empty) child list of the slot differs. *)
Theorem fork_outcome k c cur s hs L :
  lists_ok s hs L -> In FreeHead hs -> In (PChildren cur) hs ->
  (forall n, In n (L FreeHead) -> is_pqueue n) -> in_int (nextpid s + 1) ->
  match L FreeHead with
  | [] => fork k c cur s = Done (-1, s)
  | n :: rest =>
      exists np,
        n = PQueue np /\
        (fresh_or_empty hs L (PChildren np) -> off_lists hs L (PSibling np) ->
         In (QueueHead (privlevel (procs s np))) hs ->
         exists s',
           fork k c cur s = Done ((if k && c then nextpid s else -1), s') /\
           (forall i, i <> np -> procs s' i = procs s i) /\
           nextpid s' = nextpid s + 1 /\ pin s' = pin s /\
           if k && c then
             procs s' np =
               set_state RUNNABLE
                 (set_type MLFQ
                    (set_parent (Some cur)
                       (set_pid (nextpid s) (set_state EMBRYO (procs s np))))) /\
             let L1 := updl (updl L FreeHead rest) (PChildren np) [] in
             let L2 := updl L1 (PChildren cur) (L1 (PChildren cur) ++ [PSibling np]) in
             let lvl := privlevel (procs s np) in
             lists_ok s' (PChildren np :: hs)
                      (updl L2 (QueueHead lvl) (L2 (QueueHead lvl) ++ [PQueue np]))
           else
             procs s' np =
               set_state UNUSED
                 (set_pid (nextpid s) (set_state EMBRYO (procs s np))) /\
             lists_ok s' (PChildren np :: hs) (updl L (PChildren np) []))
  end.
Proof.
  intros Hok Hf Hc Hpq Hint.
  destruct (L FreeHead) as [|n rest] eqn:HL.
  - unfold fork. rewrite (allocproc_none k s hs L Hok Hf HL). reflexivity.
  - destruct (Hpq n (or_introl eq_refl)) as (np & ->).
    exists np. split; [reflexivity|]. intros Hready Hsib Hq.
    destruct (allocproc_ok s hs L np rest Hok Hf HL Hint)
      as (sa & Hrun & Hp & Hrest & Hnp & Hpin & _ & _ & Hlists).
    destruct (Hlists Hready) as [Hoka Hoffa].
    pose proof (alloc_undo_ok s sa hs L np rest Hf HL Hp Hrest Hoka Hoffa) as Hundo.
    cbv zeta in Hundo. destruct Hundo as (U1 & U2 & U3 & U4 & U5).
    assert (Hfail : forall r,
              r = Done (-1, list_add (PQueue np) FreeHead
                              (upd_proc np (set_state UNUSED) sa)) ->
              exists s',
                r = Done (-1, s') /\
                (forall i, i <> np -> procs s' i = procs s i) /\
                nextpid s' = nextpid s + 1 /\ pin s' = pin s /\
                procs s' np =
                  set_state UNUSED
                    (set_pid (nextpid s) (set_state EMBRYO (procs s np))) /\
                lists_ok s' (PChildren np :: hs) (updl L (PChildren np) [])).
    { intros r ->. eexists. split; [reflexivity|]. split; [exact U2|].
      split; [rewrite U3; exact Hnp|]. split; [rewrite U4; exact Hpin|].
      split; [exact U1|exact U5]. }
    destruct k; cbn [andb].
    2:{ apply Hfail. unfold fork.
        rewrite (allocproc_fail_eq s np sa Hrun). reflexivity. }
    destruct c.
    2:{ apply Hfail. unfold fork. rewrite Hrun. reflexivity. }
    unfold fork. rewrite Hrun. cbn [bind fst snd].
    set (L1 := updl (updl L FreeHead rest) (PChildren np) []) in *.
    set (hs1 := PChildren np :: hs) in *.
    set (s1 := upd_proc np (set_parent (Some cur)) sa).
    set (s2 := list_add_tail (PSibling np) (PChildren cur) s1).
    set (s3 := upd_proc np (set_type MLFQ) s2).
    set (s4 := upd_proc np (set_state RUNNABLE) s3).
    assert (Hsib1 : off_lists hs1 L1 (PSibling np)).
    { subst hs1 L1. apply off_lists_new_head; [|discriminate].
      apply off_lists_updl_other; [exact Hsib|].
      intros Hin. destruct Hsib as [_ Hn]. apply (Hn FreeHead Hf).
      rewrite HL. now right. }
    assert (Hok2 : lists_ok s2 hs1
                     (updl L1 (PChildren cur) (L1 (PChildren cur) ++ [PSibling np]))).
    { apply lists_ok_add_tail; [|now right|exact Hsib1].
      apply lists_ok_upd_proc. exact Hoka. }
    set (L2 := updl L1 (PChildren cur) (L1 (PChildren cur) ++ [PSibling np])) in *.
    assert (Hoff2 : off_lists hs1 L2 (PQueue np)).
    { subst L2. apply off_lists_updl_other; [exact Hoffa|].
      intros Hin. apply in_app_or in Hin. destruct Hin as [Hin|[E|[]]].
      - destruct Hoffa as [_ Hn]. apply (Hn (PChildren cur)); [now right|exact Hin].
      - discriminate E. }
    assert (Hp4 : procs s4 np =
                  set_state RUNNABLE
                    (set_type MLFQ
                       (set_parent (Some cur)
                          (set_pid (nextpid s) (set_state EMBRYO (procs s np)))))).
    { subst s4 s3. rewrite !procs_upd_proc_eq.
      subst s2. cbn [procs list_add_tail list_insert_between set_next set_prev
                     with_nxt with_prv].
      subst s1. rewrite procs_upd_proc_eq, Hp. reflexivity. }
    assert (Hlvl : privlevel (procs s4 np) = privlevel (procs s np)).
    { rewrite Hp4. reflexivity. }
    rewrite Hlvl.
    eexists. split.
    { rewrite Hp4. cbn [pid set_state set_type set_parent set_pid]. reflexivity. }
    split.
    { intros i Hi. cbn. unfold updp. rewrite !(proj2 (Nat.eqb_neq i np) Hi).
      apply Hrest. exact Hi. }
    split; [exact Hnp|]. split; [exact Hpin|]. split; [exact Hp4|].
    cbv zeta. unfold enqueue.
    apply lists_ok_add_tail; [|now right|exact Hoff2].
    subst s4 s3. repeat apply lists_ok_upd_proc. exact Hok2.
Qed.

(** X4: the free list is a stack.  [freeproc] clears the slot (pid,
    parent, killed, tickets, pass, ticks and privlevel are zeroed, the
    state is UNUSED, the type is kept) and puts it at the front of the
    free list, so that the next [allocproc] takes this very slot.  When
    [kalloc] succeeds the slot is handed out and the free list is back
    to what it was; when [kalloc] fails no slot is handed out and the
    slot stays at the front of the free list, UNUSED, with the pid that
    was used up on it. *)
Theorem freeproc_then_allocproc k p s hs L :
  lists_ok s hs L -> In FreeHead hs -> off_lists hs L (PQueue p) ->
  in_int (nextpid s + 1) ->
  lists_ok (freeproc p s) hs (updl L FreeHead (PQueue p :: L FreeHead)) /\
  cleared (procs (freeproc p s) p) /\
  type (procs (freeproc p s) p) = type (procs s p) /\
  (forall i, i <> p -> procs (freeproc p s) i = procs s i) /\
  exists s',
    allocproc k (freeproc p s) = Done ((if k then Some p else None), s') /\
    pstate s' p = (if k then EMBRYO else UNUSED) /\
    pid (procs s' p) = nextpid s /\ nextpid s' = nextpid s + 1 /\
    killed (procs s' p) = 0 /\ privlevel (procs s' p) = 0 /\
    ticks (procs s' p) = 0 /\ tickets (procs s' p) = 0 /\
    (forall i, i <> p -> procs s' i = procs s i) /\
    (fresh_or_empty hs L (PChildren p) ->
     lists_ok s' (PChildren p :: hs)
       (updl (if k then L else updl L FreeHead (PQueue p :: L FreeHead))
             (PChildren p) [])).
Proof.
  intros Hok Hf Hoff Hint.
  destruct (freeproc_ok p s hs L Hok Hf Hoff) as (Hok1 & Hcl & Hty & Hrest & Hsame).
  split; [exact Hok1|]. split; [exact Hcl|]. split; [exact Hty|].
  split; [exact Hrest|].
  set (s1 := freeproc p s) in *.
  set (L1 := updl L FreeHead (PQueue p :: L FreeHead)) in *.
  assert (Hnp : nextpid s1 = nextpid s) by apply Hsame.
  assert (HL1 : L1 FreeHead = PQueue p :: L FreeHead).
  { subst L1. apply updl_eq. }
  assert (Hint1 : in_int (nextpid s1 + 1)) by (rewrite Hnp; exact Hint).
  destruct (allocproc_ok s1 hs L1 p (L FreeHead) Hok1 Hf HL1 Hint1)
    as (s' & Hrun & Hp & Hrest' & Hnp' & _ & _ & _ & Hlists).
  destruct Hcl as (_ & _ & _ & Hk & Htk & _ & Hti & Hpl).
  assert (Hready1 : fresh_or_empty hs L (PChildren p) ->
                    fresh_or_empty hs L1 (PChildren p)).
  { intros [Ho|[Hin He]].
    - left. subst L1. apply off_lists_updl_other; [exact Ho|].
      intros [E|Hin]; [discriminate E|].
      destruct Ho as [_ Hn]. exact (Hn FreeHead Hf Hin).
    - right. split; [exact Hin|]. subst L1.
      rewrite updl_neq by discriminate. exact He. }
  destruct k.
  - exists s'. split; [exact Hrun|].
    unfold pstate. rewrite Hp, Hnp, Hnp'. cbn.
    split; [reflexivity|]. split; [reflexivity|]. split; [reflexivity|].
    split; [exact Hk|].
    split; [exact Hpl|]. split; [exact Hti|]. split; [exact Htk|]. split.
    + intros i Hi. rewrite Hrest' by exact Hi. apply Hrest. exact Hi.
    + intros Hready.
      apply lists_ok_layout_ext with
        (L := updl (updl L1 FreeHead (L FreeHead)) (PChildren p) []).
      * intros h. subst L1. unfold updl.
        destruct (node_eqb h (PChildren p)); [reflexivity|].
        destruct (node_eqb_spec h FreeHead) as [->|]; reflexivity.
      * apply Hlists. apply Hready1. exact Hready.
  - eexists. split; [exact (allocproc_fail_eq s1 p s' Hrun)|].
    set (sf := list_add (PQueue p) FreeHead (upd_proc p (set_state UNUSED) s')).
    assert (Hpf : procs sf p =
                  set_state UNUSED
                    (set_pid (nextpid s) (set_state EMBRYO (procs s1 p)))).
    { change (procs sf p) with (procs (upd_proc p (set_state UNUSED) s') p).
      rewrite procs_upd_proc_eq, Hp, Hnp. reflexivity. }
    assert (Hof : forall i, i <> p -> procs sf i = procs s i).
    { intros i Hi.
      change (procs sf i) with (procs (upd_proc p (set_state UNUSED) s') i).
      rewrite procs_upd_proc_neq by exact Hi.
      rewrite Hrest' by exact Hi. apply Hrest. exact Hi. }
    unfold pstate. rewrite Hpf.
    split; [reflexivity|]. split; [reflexivity|].
    split; [change (nextpid sf) with (nextpid s'); rewrite <- Hnp; exact Hnp'|].
    split; [exact Hk|].
    split; [exact Hpl|]. split; [exact Hti|]. split; [exact Htk|].
    split; [exact Hof|].
    intros Hready. destruct (Hlists (Hready1 Hready)) as [Hoka Hoffa].
    pose proof (alloc_undo_ok s1 s' hs L1 p (L FreeHead) Hf HL1 Hp Hrest'
                  Hoka Hoffa) as H.
    cbv zeta in H. apply H.
Qed.

(** X5: [kill] returns -1 exactly when no slot of the table carries the
    pid, and then nothing is changed.  It does not look at the state of
    the slot it finds: a target that is not SLEEPING only gets its
    killed flag set. *)
Theorem kill_outcome target s :
  (snd (kill target s) = -1 <->
   forall i, (i < NPROC)%nat -> pid (procs s i) <> target) /\
  (snd (kill target s) = -1 -> fst (kill target s) = s) /\
  (snd (kill target s) = -1 \/ snd (kill target s) = 0) /\
  (forall i, (i < NPROC)%nat -> pid (procs s i) = target ->
     (forall j, (j < i)%nat -> pid (procs s j) <> target) ->
     pstate s i <> SLEEPING ->
     kill target s = (upd_proc i (set_killed 1) s, 0)).
Proof.
  assert (Hdec : (forall i, (i < NPROC)%nat -> pid (procs s i) <> target) \/
                 exists i, (i < NPROC)%nat /\ pid (procs s i) = target /\
                           forall j, (j < i)%nat -> pid (procs s j) <> target).
  { induction NPROC as [|n IH].
    - left. intros i Hi. lia.
    - destruct IH as [IH|(i & Hi & Hp & Hfirst)].
      + destruct (Z.eq_dec (pid (procs s n)) target) as [E|E].
        * right. exists n. split; [lia|]. split; [exact E|].
          intros j Hj. apply IH. exact Hj.
        * left. intros i Hi. destruct (Nat.eq_dec i n) as [->|]; [exact E|].
          apply IH. lia.
      + right. exists i. split; [lia|]. split; [exact Hp|exact Hfirst]. }
  assert (Hnone : (forall i, (i < NPROC)%nat -> pid (procs s i) <> target) ->
                  kill target s = (s, -1)).
  { intros H. unfold kill. apply kill_scan_none.
    intros i Hi. apply in_seq in Hi. apply H. lia. }
  split; [|split; [|split]].
  - split.
    + intros Hr. destruct Hdec as [H|(i & Hi & Hp & Hfirst)]; [exact H|].
      rewrite (kill_first target s i Hi Hp Hfirst) in Hr. discriminate Hr.
    + intros H. now rewrite (Hnone H).
  - intros Hr. destruct Hdec as [H|(i & Hi & Hp & Hfirst)].
    + now rewrite (Hnone H).
    + rewrite (kill_first target s i Hi Hp Hfirst) in Hr. discriminate Hr.
  - destruct Hdec as [H|(i & Hi & Hp & Hfirst)].
    + left. now rewrite (Hnone H).
    + right. now rewrite (kill_first target s i Hi Hp Hfirst).
  - intros i Hi Hp Hfirst Hst.
    rewrite (kill_first target s i Hi Hp Hfirst). f_equal.
    unfold kill_found.
    assert (E : pstate (upd_proc i (set_killed 1) s) i = pstate s i).
    { unfold pstate. rewrite procs_upd_proc_eq. reflexivity. }
    rewrite E. destruct (pstate s i); try reflexivity. contradiction.
Qed.

End AllocTheorems.

(* ================================================================= *)
(** ** wait *)

Section WaitProofs.
Context {T : Tunables}.

Lemma first_zombie_some s ns p :
  first_zombie s ns = Some p ->
  exists a b, ns = a ++ PSibling p :: b /\ pstate s p = ZOMBIE /\
              forall q, In (PSibling q) a -> pstate s q <> ZOMBIE.
Proof.
  induction ns as [|n ns IH]; intros H; [discriminate H|].
  assert (Hskip : first_zombie s ns = Some p ->
                  (forall q, n = PSibling q -> pstate s q <> ZOMBIE) ->
                  exists a b, n :: ns = a ++ PSibling p :: b /\
                              pstate s p = ZOMBIE /\
                              forall q, In (PSibling q) a -> pstate s q <> ZOMBIE).
  { intros H' Hn. destruct (IH H') as (a & b & -> & Hz & Ha).
    exists (n :: a), b. split; [reflexivity|]. split; [exact Hz|].
    intros q [E|Hq]; [now apply Hn|now apply Ha]. }
  destruct n; cbn [first_zombie] in H;
    try (apply Hskip; [exact H|intros q E; discriminate E]).
  destruct (pstate s i) eqn:Est;
    try (apply Hskip; [exact H|intros q E; injection E as <-; congruence]).
  injection H as <-. exists [], ns. split; [reflexivity|].
  split; [exact Est|]. intros q [].
Qed.

Lemma first_zombie_none s ns :
  first_zombie s ns = None ->
  forall q, In (PSibling q) ns -> pstate s q <> ZOMBIE.
Proof.
  induction ns as [|n ns IH]; intros H q Hq; [contradiction|].
  destruct Hq as [->|Hq].
  - cbn [first_zombie] in H. intros Hz. rewrite Hz in H. discriminate H.
  - apply IH; [|exact Hq]. destruct n; cbn [first_zombie] in H; try exact H.
    destruct (pstate s i); try exact H. discriminate H.
Qed.

Lemma wait_scan_ok s h xs :
  is_list s h xs -> (forall n, In n xs -> exists i, n = PSibling i) ->
  forall fuel, (length xs < fuel)%nat ->
  wait_scan fuel h (nxt s h) s = Done (first_zombie s xs).
Proof.
  intros Hlist Hsib.
  assert (G : forall rest done fuel,
             xs = done ++ rest -> (length rest < fuel)%nat ->
             wait_scan fuel h (hd h rest) s = Done (first_zombie s rest)).
  { induction rest as [|x rest IH]; intros done fuel E Hf.
    - destruct fuel; [lia|]. cbn. now rewrite node_eqb_refl.
    - destruct fuel; [cbn in Hf; lia|]. cbn [wait_scan hd].
      assert (Hx : x <> h).
      { apply (is_list_elem_not_head s h xs); [exact Hlist|].
        rewrite E. apply in_or_app. right. now left. }
      rewrite node_eqb_neq by exact Hx.
      destruct (Hsib x) as (i & ->).
      { rewrite E. apply in_or_app. right. now left. }
      cbn [sibling_entry bind first_zombie].
      assert (Hnext : nxt s (PSibling i) = hd h rest).
      { rewrite E in Hlist. exact (is_list_next_elem _ _ _ _ _ Hlist). }
      rewrite Hnext.
      assert (Hrec : wait_scan fuel h (hd h rest) s = Done (first_zombie s rest)).
      { apply (IH (done ++ [PSibling i])).
        - rewrite <- app_assoc. exact E.
        - cbn in Hf. lia. }
      destruct (pstate s i); try exact Hrec. reflexivity. }
  intros fuel Hf. rewrite (is_list_next_head _ _ _ Hlist).
  apply (G xs [] fuel); [reflexivity|exact Hf].
Qed.

Lemma sleep_mlfq_ok cur c s hs L a b :
  mlfq_ok s hs L -> pins_valid s L -> In SleepHead hs ->
  ptype s cur = MLFQ -> 0 <= privlevel (procs s cur) < QSIZE ->
  L (QueueHead (privlevel (procs s cur))) = a ++ PQueue cur :: b ->
  let l := privlevel (procs s cur) in
  let L' := updl (updl L (QueueHead l) (a ++ b)) SleepHead
                 (PQueue cur :: L SleepHead) in
  mlfq_ok (sleep cur c s) hs L' /\ pins_valid (sleep cur c s) L' /\
  procs (sleep cur c s) cur = set_state SLEEPING (set_chan c (procs s cur)) /\
  (forall i, i <> cur -> procs (sleep cur c s) i = procs s i) /\
  same_sched_but_pin s (sleep cur c s).
Proof.
  intros Hok Hpins Hsl Hty Hl HL l L'.
  unfold sleep.
  set (s1 := upd_proc cur (set_chan c) s).
  assert (Hty1 : ptype s1 cur = MLFQ).
  { subst s1. unfold ptype. rewrite procs_upd_proc_eq. exact Hty. }
  rewrite Hty1.
  assert (Hok1 : mlfq_ok s1 hs L) by (apply (mlfq_ok_same_links s); auto).
  assert (Hpins1 : pins_valid s1 L) by (apply (pins_valid_same s); auto).
  assert (Hl1 : privlevel (procs s1 cur) = l).
  { subst s1. rewrite procs_upd_proc_eq. reflexivity. }
  pose proof (dequeue_ok s1 hs L cur a b Hok1 Hpins1) as Hd.
  rewrite Hl1 in Hd. specialize (Hd Hl HL). cbv zeta in Hd.
  destruct Hd as (Hok2 & Hpins2 & Hoff2 & _ & _ & Hprocs2).
  set (s2 := dequeue cur s1) in *.
  set (L1 := updl L (QueueHead l) (a ++ b)) in *.
  set (s3 := upd_proc cur (set_state SLEEPING) s2).
  assert (HLs : L1 SleepHead = L SleepHead).
  { subst L1. apply updl_neq. discriminate. }
  assert (Hok3 : lists_ok (list_add (PQueue cur) SleepHead s3) hs
                          (updl L1 SleepHead (PQueue cur :: L1 SleepHead))).
  { apply lists_ok_add; [|exact Hsl|exact Hoff2].
    apply lists_ok_upd_proc. apply Hok2. }
  rewrite HLs in Hok3. fold L' in Hok3.
  assert (HLq : forall k, L' (QueueHead k) = L1 (QueueHead k)).
  { intros k. subst L'. apply updl_neq. discriminate. }
  split; [|split; [|split; [|split]]].
  - split; [exact Hok3|]. split; [apply Hok|].
    intros k n Hk Hn. rewrite HLq in Hn. destruct Hok2 as (_ & _ & Hpq).
    exact (Hpq k n Hk Hn).
  - intros k Hk. specialize (Hpins2 k Hk). unfold pin_valid in *.
    rewrite HLq. exact Hpins2.
  - cbn [procs list_add list_insert_between set_next set_prev with_nxt with_prv].
    subst s3. rewrite procs_upd_proc_eq, Hprocs2. subst s1.
    rewrite procs_upd_proc_eq. reflexivity.
  - intros i Hi.
    cbn [procs list_add list_insert_between set_next set_prev with_nxt with_prv].
    subst s3. rewrite procs_upd_proc_neq by exact Hi. rewrite Hprocs2.
    subst s1. now rewrite procs_upd_proc_neq.
  - subst s3 s2 s1. unfold same_sched_but_pin, dequeue.
    destruct (node_eqb _ _); cbn; tauto.
Qed.

End WaitProofs.

Section WaitTheorems.
Context {T : Tunables}.

(** X6: [kill] and [allocproc] together: [kill] matches a slot by its
    pid alone, so a kill of the pid an UNUSED slot carries (0 once the
    slot was freed) sets the killed flag of that slot and returns 0.
    [allocproc] does not clear the flag: when [kalloc] succeeds the
    process that gets the slot is born killed, and when [kalloc] fails
    the slot goes back to the free list with the flag still set. *)
Theorem kill_marks_free_slot k target s hs L p rest :
  lists_ok s hs L -> In FreeHead hs -> L FreeHead = PQueue p :: rest ->
  in_int (nextpid s + 1) ->
  (p < NPROC)%nat -> pid (procs s p) = target ->
  (forall j, (j < p)%nat -> pid (procs s j) <> target) ->
  pstate s p = UNUSED ->
  exists s1 s2,
    kill target s = (s1, 0) /\ killed (procs s1 p) = 1 /\
    pstate s1 p = UNUSED /\
    allocproc k s1 = Done ((if k then Some p else None), s2) /\
    pstate s2 p = (if k then EMBRYO else UNUSED) /\
    pid (procs s2 p) = nextpid s /\
    killed (procs s2 p) = 1.
Proof.
  intros Hok Hf HL Hint Hp Hpid Hfirst Hst.
  set (s1 := upd_proc p (set_killed 1) s).
  assert (Hk : kill target s = (s1, 0)).
  { rewrite (kill_first target s p Hp Hpid Hfirst). f_equal.
    unfold kill_found. fold s1.
    assert (E : pstate s1 p = UNUSED).
    { unfold pstate. subst s1. rewrite procs_upd_proc_eq. exact Hst. }
    rewrite E. reflexivity. }
  destruct (allocproc_ok s1 hs L p rest (lists_ok_upd_proc _ _ _ _ _ Hok) Hf HL Hint)
    as (s2 & Hrun & Hp2 & _).
  assert (Hp1 : procs s1 p = set_killed 1 (procs s p)).
  { subst s1. apply procs_upd_proc_eq. }
  exists s1.
  assert (Hfront : killed (procs s1 p) = 1 /\ pstate s1 p = UNUSED).
  { unfold pstate. rewrite Hp1. split; [reflexivity|exact Hst]. }
  destruct k.
  - exists s2. split; [exact Hk|].
    split; [apply Hfront|]. split; [apply Hfront|].
    split; [exact Hrun|].
    unfold pstate. rewrite Hp2, Hp1. cbn.
    repeat split; reflexivity.
  - eexists. split; [exact Hk|].
    split; [apply Hfront|]. split; [apply Hfront|].
    split; [exact (allocproc_fail_eq s1 p s2 Hrun)|].
    unfold pstate.
    change (procs (list_add (PQueue p) FreeHead
                     (upd_proc p (set_state UNUSED) s2)) p)
      with (procs (upd_proc p (set_state UNUSED) s2) p).
    rewrite procs_upd_proc_eq, Hp2, Hp1. cbn.
    repeat split; reflexivity.
Qed.

(** X7: one turn of [wait].  With a ZOMBIE among the children, the
    first one in list order is reaped: its pid is returned, it leaves
    the child list, its slot is cleared and goes to the front of the
    free list.  With no ZOMBIE child, [wait] returns -1 and changes
    nothing when the caller has no children or is killed, and otherwise
    puts the caller to sleep on its own slot. *)
Theorem wait_round_outcome fuel cur s hs L :
  lists_ok s hs L -> In (PChildren cur) hs -> In FreeHead hs ->
  children_ok L cur -> (length (L (PChildren cur)) < fuel)%nat ->
  match first_zombie s (L (PChildren cur)) with
  | Some p =>
      exists a b,
        L (PChildren cur) = a ++ PSibling p :: b /\
        pstate s p = ZOMBIE /\
        (forall q, In (PSibling q) a -> pstate s q <> ZOMBIE) /\
        wait_round fuel cur s =
          Done (Some (pid (procs s p)), freeproc p (list_del (PSibling p) s)) /\
        (off_lists hs L (PQueue p) ->
         lists_ok (freeproc p (list_del (PSibling p) s)) hs
                  (updl (updl L (PChildren cur) (a ++ b)) FreeHead
                        (PQueue p :: L FreeHead)) /\
         cleared (procs (freeproc p (list_del (PSibling p) s)) p) /\
         forall i, i <> p ->
                   procs (freeproc p (list_del (PSibling p) s)) i = procs s i)
  | None =>
      (forall q, In (PSibling q) (L (PChildren cur)) -> pstate s q <> ZOMBIE) /\
      (L (PChildren cur) = [] \/ killed (procs s cur) <> 0 ->
       wait_round fuel cur s = Done (Some (-1), s)) /\
      (L (PChildren cur) <> [] -> killed (procs s cur) = 0 ->
       wait_round fuel cur s = Done (None, sleep cur (ProcChan cur) s))
  end.
Proof.
  intros Hok Hc Hf Hco Hfuel.
  pose proof (proj1 Hok _ Hc) as Hlist.
  pose proof (wait_scan_ok s (PChildren cur) (L (PChildren cur)) Hlist Hco fuel Hfuel)
    as Hscan.
  unfold wait_round. rewrite Hscan. cbn [bind].
  destruct (first_zombie s (L (PChildren cur))) as [p|] eqn:Hz.
  - destruct (first_zombie_some _ _ _ Hz) as (a & b & HL & Hzp & Ha).
    exists a, b. split; [exact HL|]. split; [exact Hzp|]. split; [exact Ha|].
    split; [reflexivity|]. intros Hoff.
    destruct (lists_ok_del s hs L (PChildren cur) a (PSibling p) b Hok Hc HL)
      as [Hok1 _].
    set (L1 := updl L (PChildren cur) (a ++ b)) in *.
    assert (Hoff1 : off_lists hs L1 (PQueue p)).
    { subst L1. apply off_lists_updl_other; [exact Hoff|].
      intros Hin. destruct Hoff as [_ Hn]. apply (Hn (PChildren cur) Hc).
      rewrite HL. apply in_app_or in Hin. apply in_or_app.
      destruct Hin as [Hin|Hin]; [now left|right; now right]. }
    destruct (freeproc_ok p (list_del (PSibling p) s) hs L1 Hok1 Hf Hoff1)
      as (Hok2 & Hcl & _ & Hrest & _).
    split; [|split; [exact Hcl|exact Hrest]].
    replace (L FreeHead) with (L1 FreeHead); [exact Hok2|].
    subst L1. apply updl_neq. discriminate.
  - split; [exact (first_zombie_none _ _ Hz)|]. split.
    + intros [He|Hk].
      * rewrite (proj2 (list_empty_iff _ _ _ Hlist) He). reflexivity.
      * rewrite (proj2 (Z.eqb_neq _ _) Hk). cbn [negb].
        rewrite orb_true_r. reflexivity.
    + intros Hne Hk.
      assert (E : list_empty (PChildren cur) s = false).
      { destruct (list_empty (PChildren cur) s) eqn:E; [|reflexivity].
        apply (list_empty_iff _ _ _ Hlist) in E. contradiction. }
      rewrite E, Hk. reflexivity.
Qed.

End WaitTheorems.

(* ================================================================= *)
(** ** Round trips *)

Lemma filter_all {A} (f : A -> bool) l :
  (forall x, In x l -> f x = true) -> filter f l = l.
Proof.
  induction l as [|a l IH]; intros H; [reflexivity|].
  cbn [filter]. rewrite (H a (or_introl eq_refl)). f_equal.
  apply IH. intros x Hx. apply H. now right.
Qed.

Lemma filter_none {A} (f : A -> bool) l :
  (forall x, In x l -> f x = false) -> filter f l = [].
Proof.
  induction l as [|a l IH]; intros H; [reflexivity|].
  cbn [filter]. rewrite (H a (or_introl eq_refl)).
  apply IH. intros x Hx. apply H. now right.
Qed.

Lemma mlfq_ok_layout_ext {T : Tunables} s hs L L' :
  (forall h, L h = L' h) -> mlfq_ok s hs L -> mlfq_ok s hs L'.
Proof.
  intros E (H1 & H2 & H3). split; [|split].
  - now apply (lists_ok_layout_ext s hs L).
  - exact H2.
  - intros l n Hl Hn. rewrite <- E in Hn. exact (H3 l n Hl Hn).
Qed.

Lemma pins_valid_layout_ext {T : Tunables} s L L' :
  (forall h, L h = L' h) -> pins_valid s L -> pins_valid s L'.
Proof.
  intros E H l Hl. specialize (H l Hl). unfold pin_valid in *.
  now rewrite <- E.
Qed.

Section RoundTripProofs.
Context {T : Tunables}.

Lemma wakeup1_nomatch fuel c s hs L :
  lists_ok s hs L -> In SleepHead hs ->
  (forall n, In n (L SleepHead) -> is_pqueue n) ->
  (forall i, In (PQueue i) (L SleepHead) -> chan (procs s i) <> c) ->
  (length (L SleepHead) < fuel)%nat ->
  wakeup1 fuel c s = Done s.
Proof.
  intros Hok Hsl Hpq Hno Hfuel.
  pose proof (proj1 Hok _ Hsl) as Hlist.
  assert (G : forall rest done fuel,
             L SleepHead = done ++ rest -> (length rest < fuel)%nat ->
             wakeup1_loop fuel c (hd SleepHead rest) s = Done s).
  { induction rest as [|x rest IH]; intros done f E Hf.
    - destruct f; [lia|]. reflexivity.
    - destruct f; [cbn in Hf; lia|]. cbn [wakeup1_loop hd].
      assert (Hin : In x (L SleepHead)).
      { rewrite E. apply in_or_app. right. now left. }
      rewrite node_eqb_neq
        by (apply (is_list_elem_not_head s SleepHead (L SleepHead)); auto).
      destruct (Hpq x Hin) as (i & ->). cbn [queue_entry bind].
      destruct (chanid_eqb_spec (chan (procs s i)) c) as [Ec|_].
      + exfalso. exact (Hno i Hin Ec).
      + rewrite E in Hlist. rewrite (is_list_next_elem _ _ _ _ _ Hlist).
        apply (IH (done ++ [PQueue i])).
        * rewrite <- app_assoc. exact E.
        * cbn in Hf. lia. }
  unfold wakeup1. rewrite (is_list_next_head _ _ _ Hlist).
  apply (G (L SleepHead) [] fuel); [reflexivity|exact Hfuel].
Qed.

Lemma sleepers_ok_pqueue s hs L :
  sleepers_ok s hs L -> forall n, In n (L SleepHead) -> is_pqueue n.
Proof. intros H n Hn. destruct (H n Hn) as (i & -> & _). now exists i. Qed.

End RoundTripProofs.

Section RoundTripTheorems.
Context {T : Tunables}.

(** X8: [wakeup1] on a channel nobody sleeps on returns with the state
    exactly as it was, and [wakeup1] is idempotent: once it has
    returned, a second call on the same channel changes nothing. *)
Theorem wakeup1_idempotent fuel c s hs L :
  lists_ok s hs L -> In SleepHead hs -> sleepers_ok s hs L ->
  (length (L SleepHead) < fuel)%nat ->
  ((forall i, In (PQueue i) (L SleepHead) -> chan (procs s i) <> c) ->
   wakeup1 fuel c s = Done s) /\
  exists s', wakeup1 fuel c s = Done s' /\ wakeup1 fuel c s' = Done s'.
Proof.
  intros Hok Hsl Hso Hfuel. split.
  - intros Hno. apply (wakeup1_nomatch fuel c s hs L); auto.
    now apply (sleepers_ok_pqueue s hs).
  - destruct (wakeup1_ok fuel c s hs L Hok Hsl Hso Hfuel)
      as (s' & L' & Hrun & Hok' & HL' & Hp' & _).
    exists s'. split; [exact Hrun|].
    assert (HLs : L' SleepHead = filter (fun n => negb (wakes s c n)) (L SleepHead)).
    { rewrite HL'. reflexivity. }
    apply (wakeup1_nomatch fuel c s' hs L' Hok' Hsl).
    + intros n Hn. rewrite HLs in Hn. apply filter_In in Hn.
      apply (sleepers_ok_pqueue s hs L Hso). apply Hn.
    + intros i Hi. rewrite HLs in Hi. apply filter_In in Hi.
      destruct Hi as [_ Hi]. cbn [wakes] in Hi.
      rewrite Hp'. unfold woken_procs.
      destruct (chanid_eqb_spec (chan (procs s i)) c) as [E|N];
        [discriminate Hi|].
      rewrite andb_false_r. exact N.
    + rewrite HLs. pose proof (filter_length_le (fun n => negb (wakes s c n))
                                 (L SleepHead)). lia.
Qed.

(** X9: push then pop on the stride heap.  The pop that follows a push
    returns a process of least pass among the pushed one and those that
    were in the heap; when the pass of the pushed process is strictly
    below all others, it is this process that comes back, and the heap
    holds what it held before, as a heap of the same size. *)
Theorem pushheap_then_popheap s p :
  heap_property s -> 0 <= stride_size s < 2 ^ 30 - 1 ->
  exists s1 q s2,
    pushheap p s = Done s1 /\ popheap s1 = Done (q, s2) /\
    In q (p :: heap_elems s) /\
    (forall i, In i (p :: heap_elems s) -> ppass s q <= ppass s i) /\
    getminpass s1 = ppass s q /\
    heap_property s2 /\ stride_size s2 = stride_size s /\
    Permutation (q :: heap_elems s2) (p :: heap_elems s) /\
    ((forall i, In i (heap_elems s) -> ppass s p < ppass s i) ->
     q = p /\ Permutation (heap_elems s2) (heap_elems s)).
Proof.
  intros Hheap Hsize.
  destruct (pushheap_perm s p) as (s1 & Hpush & Hsz1 & Hprocs1 & Hperm1 & Hkeep1 & _);
    [lia|].
  destruct (popheap_perm s1) as (s2 & Hpop & Hsz2 & Hprocs2 & Hperm2 & Hkeep2 & _);
    [lia|].
  destruct (Hkeep2 (Hkeep1 Hheap)) as [Hheap2 Hmin].
  set (q := minheap s1 1) in *.
  assert (Hpp : forall i, ppass s1 i = ppass s i).
  { intros i. unfold ppass. now rewrite Hprocs1. }
  assert (Hq1 : In q (heap_elems s1)).
  { unfold heap_elems. subst q. apply in_map. apply In_zrange. lia. }
  assert (Hq : In q (p :: heap_elems s)).
  { exact (Permutation_in _ Hperm1 Hq1). }
  assert (Hleast : forall i, In i (p :: heap_elems s) -> ppass s q <= ppass s i).
  { intros i Hi. apply (Permutation_in _ (Permutation_sym Hperm1)) in Hi.
    unfold heap_elems in Hi. apply in_map_iff in Hi.
    destruct Hi as (j & <- & Hj). apply In_zrange in Hj.
    rewrite <- !Hpp. apply Hmin. lia. }
  exists s1, q, s2. split; [exact Hpush|]. split; [exact Hpop|].
  split; [exact Hq|]. split; [exact Hleast|]. split.
  { unfold getminpass. destruct (Z.ltb_spec 0 (stride_size s1)); [|lia].
    fold q. apply Hpp. }
  split; [exact Hheap2|]. split; [lia|]. split.
  { exact (Permutation_trans Hperm2 Hperm1). }
  intros Hstrict.
  assert (E : q = p).
  { destruct Hq as [E|Hq]; [now symmetry|].
    specialize (Hstrict q Hq). specialize (Hleast p (or_introl eq_refl)). lia. }
  split; [exact E|].
  apply (Permutation_cons_inv (a := p)). rewrite <- E at 1.
  exact (Permutation_trans Hperm2 Hperm1).
Qed.

(** X10: enqueue then dequeue.  A process that is put at the tail of
    the queue of its privlevel and taken off again leaves the queues,
    the pins and the process table as they were. *)
Theorem enqueue_then_dequeue s hs L p :
  mlfq_ok s hs L -> pins_valid s L ->
  0 <= privlevel (procs s p) < QSIZE -> off_lists hs L (PQueue p) ->
  let s' := dequeue p (enqueue (privlevel (procs s p)) p s) in
  mlfq_ok s' hs L /\ pins_valid s' L /\ off_lists hs L (PQueue p) /\
  (forall l, pin s' l = pin s l) /\ procs s' = procs s.
Proof.
  intros Hok Hpins Hl Hoff s'.
  set (l := privlevel (procs s p)) in *.
  destruct (enqueue_ok s hs L l p Hok Hl Hoff Hpins) as (Hok1 & Hpins1 & Hpin1).
  set (s1 := enqueue l p s) in *.
  set (L1 := updl L (QueueHead l) (L (QueueHead l) ++ [PQueue p])) in *.
  assert (Hl1 : privlevel (procs s1 p) = l) by reflexivity.
  pose proof (dequeue_ok s1 hs L1 p (L (QueueHead l)) [] Hok1 Hpins1) as Hd.
  rewrite Hl1 in Hd. specialize (Hd Hl). cbv zeta in Hd.
  destruct Hd as (Hok2 & Hpins2 & _ & Hpinl & Hpino & Hprocs2).
  { subst L1. apply updl_eq. }
  assert (Hext : forall h, updl L1 (QueueHead l) (L (QueueHead l) ++ []) h = L h).
  { intros h. subst L1. unfold updl.
    destruct (node_eqb_spec h (QueueHead l)) as [->|]; [|reflexivity].
    apply app_nil_r. }
  split; [exact (mlfq_ok_layout_ext _ _ _ _ Hext Hok2)|].
  split; [exact (pins_valid_layout_ext _ _ _ Hext Hpins2)|].
  split; [exact Hoff|]. split; [|exact Hprocs2].
  intros k. destruct (Z.eq_dec k l) as [->|Hk].
  - subst s'. fold s1. rewrite Hpinl, Hpin1.
    destruct (node_eqb_spec (pin s l) (PQueue p)) as [E|_]; [|reflexivity].
    exfalso. destruct (Hpins l Hl) as [Hp|Hp].
    + rewrite E in Hp. discriminate Hp.
    + rewrite E in Hp. destruct Hoff as [_ Hn].
      apply (Hn (QueueHead l)); [apply Hok; exact Hl|exact Hp].
  - subst s'. fold s1. rewrite (Hpino k Hk), Hpin1. reflexivity.
Qed.

End RoundTripTheorems.

(* ================================================================= *)
(** ** The scheduler loop *)

Section SchedProofs.
Context {T : Tunables}.

Lemma mlfqselect_none fuel s hs L :
  mlfq_ok s hs L -> pins_valid s L ->
  (forall l, 0 <= l < QSIZE -> (length (L (QueueHead l)) < fuel)%nat) ->
  (forall l, 0 <= l < QSIZE -> no_runnable s L l) ->
  mlfqselect fuel s = Done (None, s).
Proof.
  intros Hok Hpins Hfuel Hno.
  unfold mlfqselect.
  rewrite (mlfqselect_levels_ok s hs L fuel (zrange 0 QSIZE) Hok Hpins).
  - pose proof (select_levels_range s hs L QSIZE Hok Hpins (Z.le_refl _)
                  (Z.to_nat (QSIZE - 0)) 0 eq_refl (Z.le_refl 0)) as H.
    destruct (select_levels s L (zrange 0 QSIZE)) as [[p|] s'].
    + exfalso. destruct H as (l & before & after & Hl & Hrot & Hrun & _).
      apply (Hno l Hl p); [|exact Hrun].
      assert (Hin : In (PQueue p) (QueueHead l :: L (QueueHead l))).
      { apply (Permutation_in (l := rotate_from (QueueHead l :: L (QueueHead l))
                                                (pin s l))).
        - apply rotate_from_perm. apply pin_in_cycle. auto.
        - rewrite Hrot. apply in_or_app. right. now left. }
      destruct Hin as [E|Hin]; [discriminate E|exact Hin].
    + destruct H as [-> _]. reflexivity.
  - intros l Hl. now apply In_zrange in Hl.
  - intros l Hl. apply In_zrange in Hl. auto.
Qed.

Lemma stridelogic_mlfq_side fuel p s :
  stride_minpass p s = mlfq_pass s -> mlfq_pass s <= BARRIER ->
  (p = None \/ exists i, p = Some i /\ ptype s i = MLFQ) ->
  stridelogic fuel p s =
  Done (with_mlfq_pass (add32 (mlfq_pass s) (STRD (mlfq_tickets s))) s).
Proof.
  intros Hm Hb Hp. unfold stridelogic, stridelogic_rebase. rewrite Hm.
  destruct (Z.gtb_spec (mlfq_pass s) BARRIER); [lia|]. cbn [bind].
  unfold stridelogic_advance.
  destruct Hp as [->|(i & -> & Hty)]; [reflexivity|].
  rewrite Hty. reflexivity.
Qed.

End SchedProofs.

Section SchedTheorems.
Context {T : Tunables}.

(** X13: the scheduler takes the stride side exactly when some process
    in the heap has a pass below [mlfq.pass], and it then pops a process
    of least pass; on a tie, and on an empty heap with [mlfq.pass] at
    most MAXINT, the choice is left to [mlfqselect]. *)
Theorem sched_pick_choice fuel s :
  heap_property s -> 0 <= stride_size s < 2 ^ 30 ->
  (stride_size s = 0 -> getminpass s = MAXINT) /\
  (1 <= stride_size s ->
   In (minheap s 1) (heap_elems s) /\
   getminpass s = ppass s (minheap s 1) /\
   forall i, In i (heap_elems s) -> getminpass s <= ppass s i) /\
  ((exists i, In i (heap_elems s) /\ ppass s i < mlfq_pass s) ->
   exists s',
     sched_pick fuel s = Done (Some (minheap s 1), s') /\
     (forall i, In i (heap_elems s) -> ppass s (minheap s 1) <= ppass s i) /\
     Permutation (minheap s 1 :: heap_elems s') (heap_elems s) /\
     heap_property s' /\ procs s' = procs s) /\
  ((forall i, In i (heap_elems s) -> mlfq_pass s <= ppass s i) ->
   (stride_size s = 0 -> mlfq_pass s <= MAXINT) ->
   sched_pick fuel s = mlfqselect fuel s).
Proof.
  intros Hheap Hsize.
  assert (Hmin : 1 <= stride_size s ->
                 In (minheap s 1) (heap_elems s) /\
                 getminpass s = ppass s (minheap s 1) /\
                 forall i, In i (heap_elems s) -> getminpass s <= ppass s i).
  { intros H1. split; [|split].
    - unfold heap_elems. apply in_map. apply In_zrange. lia.
    - unfold getminpass. destruct (Z.ltb_spec 0 (stride_size s)); [reflexivity|lia].
    - intros i Hi. unfold getminpass.
      destruct (Z.ltb_spec 0 (stride_size s)); [|lia].
      unfold heap_elems in Hi. apply in_map_iff in Hi.
      destruct Hi as (j & <- & Hj). apply In_zrange in Hj.
      apply (heap_root_min (ppass s) (minheap s) (stride_size s));
        [now apply heap_property_upto|lia]. }
  split; [|split; [exact Hmin|split]].
  - intros H0. unfold getminpass. rewrite H0. reflexivity.
  - intros (i & Hi & Hlt).
    assert (H1 : 1 <= stride_size s).
    { unfold heap_elems in Hi. apply in_map_iff in Hi.
      destruct Hi as (j & _ & Hj). apply In_zrange in Hj. lia. }
    destruct (Hmin H1) as (_ & Hg & Hle).
    destruct (popheap_perm s) as (s' & Hpop & _ & Hprocs & Hperm & Hkeep & _);
      [lia|].
    destruct (Hkeep Hheap) as [Hheap' _].
    exists s'. unfold sched_pick.
    specialize (Hle i Hi).
    destruct (Z.ltb_spec (getminpass s) (mlfq_pass s)); [|lia].
    rewrite Hpop. cbn [bind fst snd].
    split; [reflexivity|]. split.
    { intros j Hj. rewrite <- Hg. destruct (Hmin H1) as (_ & _ & Hle'). auto. }
    split; [exact Hperm|]. split; [exact Hheap'|exact Hprocs].
  - intros Hall H0. unfold sched_pick.
    destruct (Z.ltb_spec (getminpass s) (mlfq_pass s)) as [Hlt|]; [|reflexivity].
    exfalso. destruct (Z.eq_dec (stride_size s) 0) as [E|E].
    + unfold getminpass in Hlt. rewrite E in Hlt. cbn in Hlt.
      specialize (H0 E). lia.
    + destruct (Hmin ltac:(lia)) as (Hin & Hg & _).
      specialize (Hall _ Hin). lia.
Qed.

(** X14: an idle round of the scheduler.  When no MLFQ process is
    RUNNABLE and the stride side is not due, no process is switched to,
    whatever [swtch] would do, and the round still charges the MLFQ
    side one stride.  With [mlfq.pass] at most BARRIER it goes up by
    [STRD(mlfq.tickets)] and nothing else changes.  With [mlfq.pass]
    above BARRIER the round rebases first: [mlfq.pass] is subtracted, in
    32-bit arithmetic, from the pass of every process in the heap and on
    the run list, and [mlfq.pass] ends at [STRD(mlfq.tickets)]; the
    lists, the pins, the heap and all other fields stay. *)
Theorem scheduler_idle_round fuel swtch s hs L :
  mlfq_ok s hs L -> pins_valid s L -> In RunHead hs ->
  (forall n, In n (L RunHead) -> is_pqueue n) ->
  NoDup (rebase_set s L) ->
  (forall l, 0 <= l < QSIZE -> (length (L (QueueHead l)) < fuel)%nat) ->
  (length (L RunHead) < fuel)%nat ->
  (forall l, 0 <= l < QSIZE -> no_runnable s L l) ->
  mlfq_pass s <= getminpass s ->
  in_int (STRD (mlfq_tickets s)) ->
  in_int (mlfq_pass s + STRD (mlfq_tickets s)) ->
  exists s',
    scheduler_round fuel swtch s = Done s' /\
    same_frame s s' /\
    (forall i, same_but_pass (procs s' i) (procs s i)) /\
    (mlfq_pass s <= BARRIER ->
     s' = with_mlfq_pass (mlfq_pass s + STRD (mlfq_tickets s)) s) /\
    (mlfq_pass s > BARRIER ->
     mlfq_pass s' = STRD (mlfq_tickets s) /\
     (forall i, In i (rebase_set s L) ->
        ppass s' i = sub32 (ppass s i) (mlfq_pass s)) /\
     (forall i, ~ In i (rebase_set s L) -> procs s' i = procs s i)).
Proof.
  intros Hok Hpins Hrun Hpq Hnd Hfuel Hfr Hno Hnot Hstrd Hint.
  unfold scheduler_round, sched_pick.
  destruct (Z.ltb_spec (getminpass s) (mlfq_pass s)); [lia|].
  rewrite (mlfqselect_none fuel s hs L Hok Hpins Hfuel Hno).
  cbn [bind fst snd]. unfold sched_run. cbn [bind].
  destruct (stridelogic_rebase_ok fuel None s hs L (proj1 Hok) Hrun Hpq Hfr Hnd)
    as (s1 & Hrb & Hcase & Hframe).
  unfold stridelogic. rewrite Hrb. cbn [bind stridelogic_advance].
  change (stride_minpass None s) with (mlfq_pass s) in Hcase.
  set (s' := with_mlfq_pass (add32 (mlfq_pass s1) (STRD (mlfq_tickets s1))) s1).
  assert (Hfr' : same_frame s s').
  { unfold same_frame in *. subst s'. cbn. exact Hframe. }
  assert (Htk : mlfq_tickets s1 = mlfq_tickets s).
  { destruct Hframe as (_ & _ & _ & _ & Ht & _). exact Ht. }
  exists s'. split; [reflexivity|]. split; [exact Hfr'|].
  destruct (Z.gtb_spec (mlfq_pass s) BARRIER) as [Hgt|Hle].
  - destruct Hcase as (Hmp & Hin & Hout).
    split.
    { intros i. change (procs s' i) with (procs s1 i).
      destruct (in_dec Nat.eq_dec i (rebase_set s L)) as [Hi|Hi].
      - rewrite (Hin i Hi). apply same_but_pass_set.
      - rewrite (Hout i Hi). apply same_but_pass_refl. }
    split; [intros Hle; lia|]. intros _.
    split.
    { subst s'. cbn [mlfq_pass with_mlfq_pass]. rewrite Hmp, sub32_self, Htk.
      unfold add32. rewrite Z.add_0_l. apply wrap_small. exact Hstrd. }
    split.
    { intros i Hi. unfold ppass. change (procs s' i) with (procs s1 i).
      rewrite (Hin i Hi). reflexivity. }
    intros i Hi. change (procs s' i) with (procs s1 i). apply Hout. exact Hi.
  - subst s1. split; [intros i; apply same_but_pass_refl|].
    split; [|intros Hgt; lia]. intros _.
    subst s'. unfold add32. rewrite wrap_small by exact Hint. reflexivity.
Qed.

(** X15: no path into [sched] trips its check of the state: [yield]
    leaves the caller RUNNABLE, [sleep] leaves it SLEEPING, and [exit]
    returns and leaves it a ZOMBIE, so "sched running" is never raised;
    it is raised for a caller that is still RUNNING. *)
Theorem sched_state_check fuel cur c i0 s hs L :
  lists_ok s hs L -> In SleepHead hs -> In (PChildren cur) hs ->
  sleepers_ok s hs L -> sleepers_sleeping s L -> children_ok L cur ->
  initproc s = Some i0 -> cur <> i0 ->
  (length (L SleepHead) < fuel)%nat ->
  (length (L (PChildren cur)) < fuel)%nat ->
  sched cur (yield cur s) = Done (yield cur s) /\
  sched cur (sleep cur c s) = Done (sleep cur c s) /\
  (exists s', exit fuel cur s = Done s' /\ sched cur s' = Done s') /\
  (pstate s cur = RUNNING -> sched cur s = Fail EPanic).
Proof.
  intros Hok Hsl Hch Hso Hss Hco Hinit Hne Hf1 Hf2.
  split; [|split; [|split]].
  - unfold sched.
    assert (E : pstate (yield cur s) cur = RUNNABLE).
    { unfold yield, pstate. now rewrite procs_upd_proc_eq. }
    now rewrite E.
  - unfold sched.
    assert (E : pstate (sleep cur c s) cur = SLEEPING).
    { unfold sleep, pstate.
      cbn [procs list_add list_insert_between set_next set_prev with_nxt with_prv].
      now rewrite procs_upd_proc_eq. }
    now rewrite E.
  - destruct (exit_ok fuel cur i0 s hs L Hok Hsl Hch Hso Hss Hco Hinit Hne Hf1 Hf2)
      as (s' & Hrun & Hz & _).
    exists s'. split; [exact Hrun|]. unfold sched. now rewrite Hz.
  - intros H. unfold sched. now rewrite H.
Qed.

End SchedTheorems.

Section MoreSchedTheorems.
Context {T : Tunables}.

(** X16: a successful [set_cpu_share] by an MLFQ process moves the
    caller from the queue of its level to the stride run list, with the
    pins still valid; it gets the smaller of the least pass in the heap
    and [mlfq.pass] as its pass, and it is not put into the heap. *)
Theorem set_cpu_share_moves_caller cur share s hs L a b :
  mlfq_ok s hs L -> pins_valid s L -> In RunHead hs ->
  ptype s cur = MLFQ -> 0 <= privlevel (procs s cur) < QSIZE ->
  L (QueueHead (privlevel (procs s cur))) = a ++ PQueue cur :: b ->
  snd (set_cpu_share cur share s) = 0 ->
  let s' := fst (set_cpu_share cur share s) in
  let L' := updl (updl L (QueueHead (privlevel (procs s cur))) (a ++ b))
                 RunHead (PQueue cur :: L RunHead) in
  mlfq_ok s' hs L' /\ pins_valid s' L' /\
  ptype s' cur = STRIDE /\ tickets (procs s' cur) = share /\
  ppass s' cur = Z.min (getminpass s) (mlfq_pass s) /\
  pstate s' cur = pstate s cur /\
  heap_elems s' = heap_elems s /\ mlfq_pass s' = mlfq_pass s.
Proof.
  intros Hok Hpins Hrun Hty Hl HL Hr s' L'.
  subst s'. unfold set_cpu_share in *.
  destruct ((share <? 1) || (share >? sub32 100 RESERVE)); [discriminate Hr|].
  rewrite Hty in *.
  destruct (sub32 (mlfq_tickets s) share >=? RESERVE); [|discriminate Hr].
  cbn [fst].
  pose proof (dequeue_ok s hs L cur a b Hok Hpins Hl HL) as Hd.
  cbv zeta in Hd. destruct Hd as (Hok1 & Hpins1 & Hoff1 & _ & _ & Hprocs1).
  set (l := privlevel (procs s cur)) in *.
  set (s1 := dequeue cur s) in *.
  set (L1 := updl L (QueueHead l) (a ++ b)) in *.
  assert (Hheap1 : minheap s1 = minheap s /\ stride_size s1 = stride_size s /\
                   mlfq_pass s1 = mlfq_pass s).
  { subst s1. unfold dequeue. destruct (node_eqb _ _); cbn; auto. }
  destruct Hheap1 as (Hm1 & Hz1 & Hmp1).
  assert (Hg1 : getminpass s1 = getminpass s).
  { unfold getminpass, ppass. now rewrite Hm1, Hz1, Hprocs1. }
  rewrite Hg1, Hmp1.
  set (v := if getminpass s <? mlfq_pass s then getminpass s else mlfq_pass s).
  assert (Hv : v = Z.min (getminpass s) (mlfq_pass s)).
  { subst v. destruct (Z.ltb_spec (getminpass s) (mlfq_pass s)); lia. }
  set (s2 := upd_proc cur (set_type STRIDE) (upd_proc cur (set_pass v) s1)).
  assert (Hok2 : lists_ok (list_add (PQueue cur) RunHead s2) hs
                          (updl L1 RunHead (PQueue cur :: L1 RunHead))).
  { apply lists_ok_add; [|exact Hrun|exact Hoff1].
    subst s2. repeat apply lists_ok_upd_proc. apply Hok1. }
  assert (HLr : L1 RunHead = L RunHead).
  { subst L1. apply updl_neq. discriminate. }
  rewrite HLr in Hok2. fold L' in Hok2.
  assert (HLq : forall k, L' (QueueHead k) = L1 (QueueHead k)).
  { intros k. subst L'. apply updl_neq. discriminate. }
  split; [|split].
  - split.
    + eapply lists_ok_same_links; [| |exact Hok2]; reflexivity.
    + split; [apply Hok|]. intros k n Hk Hn. rewrite HLq in Hn.
      destruct Hok1 as (_ & _ & Hpq). exact (Hpq k n Hk Hn).
  - intros k Hk. specialize (Hpins1 k Hk). unfold pin_valid in *.
    rewrite HLq. exact Hpins1.
  - unfold ptype, ppass, pstate, heap_elems.
    cbn [procs mlfq_pass minheap stride_size with_mlfq_tickets list_add
         list_insert_between set_next set_prev with_nxt with_prv].
    rewrite procs_upd_proc_eq.
    cbn [procs with_mlfq_tickets list_add list_insert_between set_next set_prev
         with_nxt with_prv].
    subst s2. rewrite !procs_upd_proc_eq. rewrite Hprocs1.
    cbn [type tickets pass state set_tickets set_type set_pass
         minheap stride_size mlfq_pass upd_proc with_procs].
    split; [reflexivity|]. split; [reflexivity|]. split; [exact Hv|].
    split; [reflexivity|]. split.
    + change (map (minheap s1) (zrange 1 (stride_size s1 + 1)) =
              map (minheap s) (zrange 1 (stride_size s + 1))).
      now rewrite Hm1, Hz1.
    + exact Hmp1.
Qed.

(** X17: the first process.  On a table with at least one slot,
    [userinit] after [pinit] returns when [kalloc] and [setupkvm]
    succeed: slot 0 is RUNNABLE with the first pid and is recorded as
    [initproc]; it is the only process on the queue of the privlevel
    its slot carries; the free list holds the other slots, and its
    child list is empty.  When [setupkvm] fails it panics.  When
    [kalloc] fails, and on a table without slots, [allocproc] returns
    no slot and [userinit] runs into the null pointer. *)
Theorem boot_first_process k v s :
  (NPROC = 0%nat -> userinit k v (pinit s) = Fail EWild) /\
  ((0 < NPROC)%nat -> in_int (nextpid s + 1) ->
   userinit false v (pinit s) = Fail EWild /\
   userinit true false (pinit s) = Fail EPanic /\
   (0 <= privlevel (procs s 0) < QSIZE ->
    exists s',
      userinit true true (pinit s) = Done s' /\ initproc s' = Some 0%nat /\
      procs s' 0 =
        set_state RUNNABLE (set_pid (nextpid s) (set_state EMBRYO (procs s 0))) /\
      (forall i, i <> 0%nat -> procs s' i = procs s i) /\
      nextpid s' = nextpid s + 1 /\ mlfq_tickets s' = 100 /\
      lists_ok s' (PChildren 0 :: pinit_heads)
        (updl (updl (updl pinit_layout FreeHead (map PQueue (seq 1 (NPROC - 1))))
                    (PChildren 0) [])
              (QueueHead (privlevel (procs s 0))) [PQueue 0]))).
Proof.
  destruct (pinit_ok s) as (Hok & Hmok & _ & _ & _ & _ & _ & Hprocs & Htk & _ & _
                            & Hnp & _).
  assert (Hfree : In FreeHead pinit_heads).
  { unfold pinit_heads. apply in_or_app. right. right. right. now left. }
  split.
  - intros H0. unfold userinit.
    rewrite (allocproc_none k (pinit s) pinit_heads pinit_layout Hok Hfree).
    + reflexivity.
    + cbn [pinit_layout]. now rewrite H0.
  - intros Hn Hint.
    assert (HL : pinit_layout FreeHead = PQueue 0 :: map PQueue (seq 1 (NPROC - 1))).
    { cbn [pinit_layout]. destruct NPROC as [|n]; [lia|].
      replace (S n - 1)%nat with n by lia. reflexivity. }
    destruct (allocproc_ok (pinit s) pinit_heads pinit_layout 0 _ Hok Hfree HL)
      as (sa & Hrun & Hp & Hrest & Hnp' & _ & Hcnt & _ & Hlists).
    { now rewrite Hnp. }
    split.
    { unfold userinit. rewrite (allocproc_fail_eq _ _ _ Hrun). reflexivity. }
    split.
    { unfold userinit. rewrite Hrun. reflexivity. }
    intros Hl.
    destruct Hlists as [Hoka Hoffa].
    { left. split.
      - unfold pinit_heads. intros Hin. apply in_app_or in Hin.
        destruct Hin as [Hin|[E|[E|[E|[]]]]]; try discriminate E.
        apply in_map_iff in Hin. destruct Hin as (l & E & _). discriminate E.
      - intros h _ Hin. destruct h; cbn [pinit_layout] in Hin; try contradiction.
        apply in_map_iff in Hin. destruct Hin as (i & E & _). discriminate E. }
    unfold userinit. rewrite Hrun. cbn [bind fst snd].
    set (s1 := with_initproc (Some 0%nat) sa).
    set (s2 := upd_proc 0 (set_state RUNNABLE) s1).
    assert (Hp2 : procs s2 0 =
                  set_state RUNNABLE
                    (set_pid (nextpid s) (set_state EMBRYO (procs s 0)))).
    { subst s2 s1. rewrite procs_upd_proc_eq.
      cbn [procs with_initproc]. rewrite Hp, Hnp, Hprocs. reflexivity. }
    assert (Hlvl : privlevel (procs s2 0) = privlevel (procs s 0)).
    { rewrite Hp2. reflexivity. }
    rewrite Hlvl.
    set (L1 := updl (updl pinit_layout FreeHead (map PQueue (seq 1 (NPROC - 1))))
                    (PChildren 0) []) in *.
    eexists. split; [reflexivity|]. split; [reflexivity|].
    split; [exact Hp2|]. split.
    { intros i Hi. cbn. unfold updp. rewrite (proj2 (Nat.eqb_neq i 0) Hi).
      rewrite (Hrest i Hi), Hprocs. reflexivity. }
    split; [cbn; rewrite Hnp', Hnp; reflexivity|].
    split.
    { cbn. destruct Hcnt as (_ & _ & -> & _). exact Htk. }
    unfold enqueue.
    apply lists_ok_layout_ext with
      (L := updl L1 (QueueHead (privlevel (procs s 0)))
                 (L1 (QueueHead (privlevel (procs s 0))) ++ [PQueue 0])).
    + assert (HQ : L1 (QueueHead (privlevel (procs s 0))) = []).
      { subst L1. rewrite !updl_neq by discriminate. reflexivity. }
      intros h. now rewrite HQ.
    + apply lists_ok_add_tail; [|right; apply Hmok; exact Hl|exact Hoffa].
      subst s2 s1. apply lists_ok_upd_proc.
      eapply lists_ok_same_links; [| |exact Hoka]; reflexivity.
Qed.

(** X18: a round of the scheduler on the stride side.  When the least
    pass in the heap is below [mlfq.pass] and its process is RUNNABLE,
    that process runs; if it yields, the round ends with the process
    RUNNABLE and back in the heap, its pass advanced by
    [STRD(tickets)]; the heap holds the same processes, the lists are
    as they were and the tickets are untouched. *)
Theorem stride_round_yield fuel s hs L :
  lists_ok s hs L -> In RunHead hs ->
  (forall n, In n (L RunHead) -> is_pqueue n) ->
  (length (L RunHead) < fuel)%nat ->
  NoDup (rebase_set s L) ->
  getminpass s < mlfq_pass s -> 1 <= stride_size s < 2 ^ 30 ->
  ptype s (minheap s 1) = STRIDE -> pstate s (minheap s 1) = RUNNABLE ->
  off_lists hs L (PQueue (minheap s 1)) ->
  in_int (ppass s (minheap s 1) + STRD (tickets (procs s (minheap s 1)))) ->
  exists s',
    scheduler_round fuel (fun i a => Done (yield i a)) s = Done s' /\
    lists_ok s' hs L /\
    pstate s' (minheap s 1) = RUNNABLE /\
    ppass s' (minheap s 1) =
      ppass s (minheap s 1) + STRD (tickets (procs s (minheap s 1))) /\
    Permutation (heap_elems s') (heap_elems s) /\
    stride_size s' = stride_size s /\
    (forall i, i <> minheap s 1 -> same_but_pass (procs s' i) (procs s i)) /\
    mlfq_tickets s' = mlfq_tickets s.
Proof.
  intros Hok Hrun Hpq Hfuel Hnd Hlt Hsize Hty Hst Hoff Hint.
  set (p := minheap s 1) in *.
  unfold scheduler_round, sched_pick.
  rewrite (proj2 (Z.ltb_lt _ _) Hlt).
  destruct (popheap_perm s Hsize)
    as (s1 & Hpop & Hsz1 & Hpr1 & Hperm1 & _ & Hn1 & Hv1 & _ & _ & _ & Hmt1 & _).
  fold p in Hpop, Hperm1.
  rewrite Hpop. cbn [bind fst snd]. unfold sched_run.
  assert (Hst1 : pstate s1 p = RUNNABLE) by (unfold pstate; now rewrite Hpr1).
  assert (Hty1 : ptype s1 p = STRIDE) by (unfold ptype; now rewrite Hpr1).
  rewrite Hst1. cbn [bind]. unfold sched_dispatch. rewrite Hty1.
  assert (Hok1 : lists_ok s1 hs L) by (eapply lists_ok_same_links; eauto).
  pose proof (lists_ok_add s1 hs L RunHead (PQueue p) Hok1 Hrun Hoff) as Hok2.
  set (s2 := list_add (PQueue p) RunHead s1) in *.
  set (L2 := updl L RunHead (PQueue p :: L RunHead)) in *.
  set (s3 := upd_proc p (set_state RUNNING) s2).
  unfold yield.
  assert (Hty3 : ptype s3 p = STRIDE).
  { unfold ptype. subst s3. rewrite procs_upd_proc_eq. exact Hty1. }
  rewrite Hty3.
  assert (Hok3 : lists_ok s3 hs L2) by (eapply lists_ok_same_links; eauto).
  destruct (lists_ok_del s3 hs L2 RunHead [] (PQueue p) (L RunHead) Hok3 Hrun)
    as [Hok4 _].
  { subst L2. now rewrite updl_eq. }
  set (s4 := list_del (PQueue p) s3) in *.
  set (s5 := upd_proc p (set_state RUNNABLE) s4).
  assert (Hok5 : lists_ok s5 hs L).
  { apply lists_ok_layout_ext with (L := updl L2 RunHead ([] ++ L RunHead)).
    - intros h. subst L2. unfold updl.
      destruct (node_eqb_spec h RunHead) as [->|]; reflexivity.
    - eapply lists_ok_same_links; [| |exact Hok4]; reflexivity. }
  assert (Hp5 : procs s5 p = set_state RUNNABLE (set_state RUNNING (procs s p))).
  { subst s5 s4 s3 s2. rewrite procs_upd_proc_eq.
    change (procs (list_del (PQueue p) ?a) p) with (procs a p).
    rewrite procs_upd_proc_eq.
    change (procs (list_add (PQueue p) RunHead ?a) p) with (procs a p).
    now rewrite Hpr1. }
  assert (Ho5 : forall i, i <> p -> procs s5 i = procs s i).
  { intros i Hi. subst s5 s4 s3 s2. rewrite procs_upd_proc_neq by auto.
    change (procs (list_del (PQueue p) ?a) i) with (procs a i).
    rewrite procs_upd_proc_neq by auto.
    change (procs (list_add (PQueue p) RunHead ?a) i) with (procs a i).
    now rewrite Hpr1. }
  assert (Hty5 : ptype s5 p = STRIDE).
  { unfold ptype. rewrite Hp5. exact Hty. }
  rewrite Hty5.
  assert (Hheap5 : heap_elems s5 = heap_elems s1) by reflexivity.
  assert (Hnd1 : NoDup (p :: rebase_set s1 L)).
  { apply Permutation_NoDup with (l := rebase_set s L); auto.
    unfold rebase_set. apply Permutation_sym.
    change (p :: heap_elems s1 ++ queue_procs (L RunHead))
      with ((p :: heap_elems s1) ++ queue_procs (L RunHead)).
    apply Permutation_app_tail. exact Hperm1. }
  inversion Hnd1 as [|? ? Hp1 Hnd1']; subst.
  assert (Hrs5 : rebase_set s5 L = rebase_set s1 L).
  { unfold rebase_set. now rewrite Hheap5. }
  destruct (stridelogic_stride_ok fuel p s5 hs L)
    as (s' & Hrun' & Hcase & Hall & Hn' & Hv' & _ & Hmt').
  { exact Hok5. }
  { exact Hrun. }
  { exact Hpq. }
  { exact Hfuel. }
  { now rewrite Hrs5. }
  { now rewrite Hrs5. }
  { exact Hty5. }
  { change (stride_size s5) with (stride_size s1). lia. }
  { unfold ppass. rewrite Hp5. exact Hint. }
  assert (Hst5 : pstate s5 p = RUNNABLE) by (unfold pstate; now rewrite Hp5).
  rewrite Hst5 in Hcase. cbn [requeued] in Hcase.
  destruct Hcase as (Hpass & Hperm & Hsz').
  exists s'. split; [exact Hrun'|].
  split; [eapply lists_ok_same_links; eauto|].
  destruct (same_but_pass_fields _ _ (Hall p)) as (Es & _).
  split; [unfold pstate; rewrite Es; exact Hst5|].
  split; [rewrite Hpass; unfold ppass; rewrite Hp5; reflexivity|].
  split.
  { rewrite Hheap5 in Hperm. eapply Permutation_trans; [exact Hperm|exact Hperm1]. }
  split; [change (stride_size s5) with (stride_size s1) in Hsz'; lia|].
  split.
  { intros i Hi. rewrite <- (Ho5 i Hi). apply Hall. }
  rewrite Hmt'. change (mlfq_tickets s5) with (mlfq_tickets s1). exact Hmt1.
Qed.

End MoreSchedTheorems.

Section ExitTheorems.
Context {T : Tunables}.

Lemma wakeup1_more fuel c s hs L :
  lists_ok s hs L -> In SleepHead hs -> sleepers_ok s hs L ->
  sleepers_sleeping s L -> (length (L SleepHead) < fuel)%nat ->
  exists s' L',
    wakeup1 fuel c s = Done s' /\
    lists_ok s' hs L' /\ sleepers_ok s' hs L' /\ sleepers_sleeping s' L' /\
    (length (L' SleepHead) <= length (L SleepHead))%nat /\
    (forall i, L' (PChildren i) = L (PChildren i)) /\
    same_sched s s' /\
    (forall h x, h <> SleepHead -> In x (L h) -> In x (L' h)) /\
    (forall i, parent (procs s' i) = parent (procs s i) /\
               pid (procs s' i) = pid (procs s i) /\
               type (procs s' i) = type (procs s i) /\
               privlevel (procs s' i) = privlevel (procs s i) /\
               tickets (procs s' i) = tickets (procs s i)).
Proof.
  intros Hok Hsl Hso Hss Hfuel.
  destruct (wakeup1_ok fuel c s hs L Hok Hsl Hso Hfuel)
    as (s' & L' & Hrun & Hok' & HL' & Hp' & Hsame).
  exists s', L'. split; [exact Hrun|]. split; [exact Hok'|].
  assert (HLs : L' SleepHead = filter (fun n => negb (wakes s c n)) (L SleepHead))
    by (rewrite HL'; reflexivity).
  assert (Hfields : forall i, parent (procs s' i) = parent (procs s i) /\
                              pid (procs s' i) = pid (procs s i) /\
                              type (procs s' i) = type (procs s i) /\
                              privlevel (procs s' i) = privlevel (procs s i) /\
                              tickets (procs s' i) = tickets (procs s i)).
  { intros i. rewrite Hp'. unfold woken_procs.
    destruct (_ && _); repeat split; reflexivity. }
  split; [|split; [|split; [|split; [|split; [|split]]]]].
  - intros n Hn. rewrite HLs in Hn. apply filter_In in Hn. destruct Hn as [Hn _].
    destruct (Hso n Hn) as (i & -> & Hi). exists i. split; auto.
    unfold ptype. destruct (Hfields i) as (_ & _ & -> & -> & _). exact Hi.
  - intros i Hi. rewrite HLs in Hi. apply filter_In in Hi. destruct Hi as [Hi Hw].
    unfold pstate. rewrite Hp'. unfold woken_procs.
    cbn [wakes] in Hw. apply negb_true_iff in Hw. rewrite Hw, andb_false_r.
    apply Hss. exact Hi.
  - rewrite HLs. apply filter_length_le.
  - intros i. rewrite HL'. reflexivity.
  - exact Hsame.
  - intros h x Hh Hx. rewrite HL'. unfold woken_layout.
    destruct h; try exact Hx.
    + apply in_or_app. now left.
    + now elim Hh.
  - exact Hfields.
Qed.

(** X19: [exit] hands the children over.  When [exit] returns, the
    caller is a ZOMBIE and is off its queue; its child list is empty,
    its children stand in their order at the tail of the child list of
    [initproc], and [initproc] is their parent.  No other process gets
    another parent, no other child list changes and no pid changes. *)
Theorem exit_reparents fuel cur i0 s hs L h :
  lists_ok s hs L -> In SleepHead hs ->
  In (PChildren cur) hs -> In (PChildren i0) hs ->
  sleepers_ok s hs L -> sleepers_sleeping s L -> children_ok L cur ->
  initproc s = Some i0 -> cur <> i0 ->
  In h hs -> h <> SleepHead -> (forall i, h <> PChildren i) ->
  In (PQueue cur) (L h) ->
  (length (L SleepHead) < fuel)%nat ->
  (length (L (PChildren cur)) < fuel)%nat ->
  exists s' L',
    exit fuel cur s = Done s' /\ lists_ok s' hs L' /\
    pstate s' cur = ZOMBIE /\ off_lists hs L' (PQueue cur) /\
    L' (PChildren cur) = [] /\
    L' (PChildren i0) = L (PChildren i0) ++ L (PChildren cur) /\
    (forall i, i <> cur -> i <> i0 -> L' (PChildren i) = L (PChildren i)) /\
    (forall p, In (PSibling p) (L (PChildren cur)) ->
               parent (procs s' p) = Some i0) /\
    (forall p, ~ In (PSibling p) (L (PChildren cur)) ->
               parent (procs s' p) = parent (procs s p)) /\
    (forall i, pid (procs s' i) = pid (procs s i)).
Proof.
  intros Hok Hsl Hch Hci Hso Hss Hco Hinit Hne Hh Hhs Hhc Hcur Hf1 Hf2.
  unfold exit. rewrite Hinit. rewrite (proj2 (Nat.eqb_neq cur i0) Hne).
  destruct (wakeup1_more fuel (chan_of_ptr (parent (procs s cur))) s hs L
              Hok Hsl Hso Hss Hf1)
    as (s1 & L1 & Hrun1 & Hok1 & Hso1 & Hss1 & Hlen1 & Hch1 & Hsame1 & Hin1 & Hfl1).
  rewrite Hrun1. cbn [bind].
  set (xs := L (PChildren cur)) in *.
  set (body := fun itr a =>
                 p <- sibling_entry itr ;;
                 let b := upd_proc p (set_parent (initproc a)) a in
                 match pstate b p with
                 | ZOMBIE => wakeup1 fuel (chan_of_ptr (initproc b)) b
                 | _ => Done b
                 end).
  set (I := fun (done : list node) a =>
              exists La, lists_ok a hs La /\
                         (forall i, La (PChildren i) = L (PChildren i)) /\
                         sleepers_ok a hs La /\ sleepers_sleeping a La /\
                         (length (La SleepHead) <= length (L SleepHead))%nat /\
                         initproc a = Some i0 /\ In (PQueue cur) (La h) /\
                         (forall p, In (PSibling p) done ->
                                    parent (procs a p) = Some i0) /\
                         (forall p, ~ In (PSibling p) done ->
                                    parent (procs a p) = parent (procs s p)) /\
                         (forall i, pid (procs a i) = pid (procs s i))).
  destruct (list_for_each_ok I body (PChildren cur) xs) with (s := s1) (fuel := fuel)
    as (s2 & Hrun2 &
        (L2 & Hok2 & Hx2 & Hso2 & Hss2 & Hlen2 & Hi2 & Hcur2 & Hpar2 & Hoth2 & Hpid2)).
  { intros done a (La & HokA & HxA & _). subst xs. rewrite <- HxA.
    apply HokA. exact Hch. }
  { intros done x rest a E
           (La & HokA & HxA & HsoA & HssA & HlenA & HiA & HcurA & HparA & HothA & HpidA).
    destruct (Hco x) as (p & ->).
    { fold xs. rewrite E, in_app_iff. right. now left. }
    subst body. cbn [sibling_entry bind].
    set (b := upd_proc p (set_parent (initproc a)) a).
    assert (Hpb : forall i, procs b i =
                    if Nat.eqb i p then set_parent (initproc a) (procs a i)
                    else procs a i).
    { intros i. subst b. destruct (Nat.eqb_spec i p) as [->|Hn].
      - now rewrite procs_upd_proc_eq.
      - now rewrite procs_upd_proc_neq. }
    assert (Hfb : forall i, type (procs b i) = type (procs a i) /\
                            privlevel (procs b i) = privlevel (procs a i) /\
                            pid (procs b i) = pid (procs a i) /\
                            state (procs b i) = state (procs a i)).
    { intros i. rewrite Hpb. destruct (Nat.eqb i p); repeat split; reflexivity. }
    assert (HokB : lists_ok b hs La) by (eapply lists_ok_same_links; eauto).
    assert (HsoB : sleepers_ok b hs La).
    { intros n Hn. destruct (HsoA n Hn) as (i & -> & Hi). exists i. split; auto.
      unfold ptype. destruct (Hfb i) as (-> & -> & _). exact Hi. }
    assert (HssB : sleepers_sleeping b La).
    { intros i Hi. unfold pstate. destruct (Hfb i) as (_ & _ & _ & ->).
      apply HssA. exact Hi. }
    assert (HparB : forall q, In (PSibling q) (done ++ [PSibling p]) ->
                              parent (procs b q) = Some i0).
    { intros q Hq. rewrite Hpb. destruct (Nat.eqb_spec q p) as [->|Hn].
      - cbn. exact HiA.
      - apply HparA. apply in_app_or in Hq. destruct Hq as [Hq|[Hq|[]]]; [exact Hq|].
        inversion Hq. congruence. }
    assert (HothB : forall q, ~ In (PSibling q) (done ++ [PSibling p]) ->
                              parent (procs b q) = parent (procs s q)).
    { intros q Hq. rewrite Hpb. destruct (Nat.eqb_spec q p) as [->|Hn].
      - elim Hq. apply in_or_app. right. now left.
      - apply HothA. intros Hin. apply Hq. apply in_or_app. now left. }
    assert (HpidB : forall i, pid (procs b i) = pid (procs s i)).
    { intros i. destruct (Hfb i) as (_ & _ & -> & _). apply HpidA. }
    assert (Hstay : I (done ++ [PSibling p]) b).
    { exists La. split; [exact HokB|]. split; [exact HxA|].
      split; [exact HsoB|]. split; [exact HssB|]. split; [exact HlenA|].
      split; [exact HiA|]. split; [exact HcurA|].
      split; [exact HparB|]. split; [exact HothB|exact HpidB]. }
    destruct (pstate b p); try (exists b; split; [reflexivity|exact Hstay]).
    destruct (wakeup1_more fuel (chan_of_ptr (initproc b)) b hs La HokB Hsl HsoB HssB)
      as (a' & La' & HrunA & HokA' & HsoA' & HssA' & HlenA' & HchA' & HsameA'
          & HinA' & HflA').
    { lia. }
    exists a'. split; [exact HrunA|].
    exists La'. split; [exact HokA'|].
    split; [intros i; rewrite HchA'; apply HxA|].
    split; [exact HsoA'|]. split; [exact HssA'|]. split; [lia|].
    split.
    { destruct HsameA' as (_ & _ & _ & _ & _ & _ & -> & _). exact HiA. }
    split; [apply HinA'; [exact Hhs|exact HcurA]|].
    split; [|split].
    - intros q Hq. rewrite (proj1 (HflA' q)). apply HparB. exact Hq.
    - intros q Hq. rewrite (proj1 (HflA' q)). apply HothB. exact Hq.
    - intros i. destruct (HflA' i) as (_ & -> & _). apply HpidB. }
  { exists L1. split; [exact Hok1|]. split; [exact Hch1|].
    split; [exact Hso1|]. split; [exact Hss1|]. split; [exact Hlen1|].
    split.
    { destruct Hsame1 as (_ & _ & _ & _ & _ & _ & -> & _). exact Hinit. }
    split; [apply Hin1; [exact Hhs|exact Hcur]|].
    split; [intros p []|].
    split; [intros p _; apply Hfl1|intros i; apply Hfl1]. }
  { exact Hf2. }
  fold body. rewrite Hrun2. cbn [bind].
  assert (Hcne : PChildren cur <> PChildren i0) by congruence.
  pose proof (lists_ok_bulk s2 hs L2 (PChildren cur) (PChildren i0) Hok2 Hch Hci Hcne)
    as Hok3.
  set (s3 := list_bulk_move_tail (PChildren cur) (PChildren i0) s2) in *.
  set (L3 := updl (updl L2 (PChildren i0)
                        (L2 (PChildren i0) ++ L2 (PChildren cur)))
                  (PChildren cur) []) in *.
  assert (Hp3 : procs s3 = procs s2).
  { subst s3. unfold list_bulk_move_tail. destruct (list_empty _ _); reflexivity. }
  assert (HL3h : L3 h = L2 h).
  { subst L3. rewrite !updl_neq by apply Hhc. reflexivity. }
  assert (Hcur3 : In (PQueue cur) (L3 h)) by (rewrite HL3h; exact Hcur2).
  destruct (in_split _ _ Hcur3) as (a & b & Hab).
  set (s4 := match ptype s3 cur with
             | MLFQ => dequeue cur s3
             | STRIDE =>
                 list_del (PQueue cur)
                   (with_mlfq_tickets
                      (add32 (mlfq_tickets s3) (tickets (procs s3 cur))) s3)
             end).
  assert (H4 : lists_ok s4 hs (updl L3 h (a ++ b)) /\
               off_lists hs (updl L3 h (a ++ b)) (PQueue cur) /\
               procs s4 = procs s3).
  { subst s4. destruct (ptype s3 cur).
    - unfold dequeue.
      set (s3' := if node_eqb (pin s3 (privlevel (procs s3 cur))) (PQueue cur)
                  then set_pin (privlevel (procs s3 cur)) (nxt s3 (PQueue cur)) s3
                  else s3).
      assert (Hok3' : lists_ok s3' hs L3).
      { subst s3'. destruct (node_eqb _ _); [|exact Hok3].
        eapply lists_ok_same_links; [| |exact Hok3]; reflexivity. }
      destruct (lists_ok_del s3' hs L3 h a (PQueue cur) b Hok3' Hh Hab) as [A B].
      split; [exact A|]. split; [exact B|].
      subst s3'. destruct (node_eqb _ _); reflexivity.
    - set (s3' := with_mlfq_tickets
                    (add32 (mlfq_tickets s3) (tickets (procs s3 cur))) s3).
      assert (Hok3' : lists_ok s3' hs L3).
      { eapply lists_ok_same_links; [| |exact Hok3]; reflexivity. }
      destruct (lists_ok_del s3' hs L3 h a (PQueue cur) b Hok3' Hh Hab) as [A B].
      split; [exact A|]. split; [exact B|]. reflexivity. }
  destruct H4 as (Hok4 & Hoff4 & Hp4).
  fold s4.
  exists (upd_proc cur (set_state ZOMBIE) s4), (updl L3 h (a ++ b)).
  split; [reflexivity|].
  split; [apply lists_ok_upd_proc; exact Hok4|].
  split; [unfold pstate; now rewrite procs_upd_proc_eq|].
  split; [exact Hoff4|].
  assert (Hpar : forall i, parent (procs (upd_proc cur (set_state ZOMBIE) s4) i) =
                           parent (procs s2 i) /\
                           pid (procs (upd_proc cur (set_state ZOMBIE) s4) i) =
                           pid (procs s2 i)).
  { intros i. destruct (Nat.eq_dec i cur) as [->|Hn].
    - rewrite procs_upd_proc_eq, Hp4, Hp3. split; reflexivity.
    - rewrite procs_upd_proc_neq by exact Hn. rewrite Hp4, Hp3. split; reflexivity. }
  split.
  { rewrite updl_neq by (intros E; exact (Hhc cur (eq_sym E))).
    subst L3. apply updl_eq. }
  split.
  { rewrite updl_neq by (intros E; exact (Hhc i0 (eq_sym E))).
    subst L3. rewrite updl_neq by congruence. rewrite updl_eq.
    rewrite !Hx2. reflexivity. }
  split.
  { intros i Hic Hi0.
    rewrite updl_neq by (intros E; exact (Hhc i (eq_sym E))).
    subst L3. rewrite !updl_neq by congruence. apply Hx2. }
  split; [|split].
  - intros p Hp. rewrite (proj1 (Hpar p)). apply Hpar2. exact Hp.
  - intros p Hp. rewrite (proj1 (Hpar p)). apply Hoth2. exact Hp.
  - intros i. rewrite (proj2 (Hpar i)). apply Hpid2.
Qed.

End ExitTheorems.

(* ================================================================= *)
(** ** A process that sleeps through its tick *)

Section SleeperProofs.
Context {T : Tunables}.

Lemma mlfqlogic_account_sleeping p s :
  pstate s p = SLEEPING -> in_int (QSIZE - 1) ->
  0 <= ticks (procs s p) -> in_int (ticks (procs s p)) ->
  in_int (privlevel (procs s p)) ->
  0 < TQ (privlevel (procs s p)) ->
  exists s',
    mlfqlogic_account p s = Done s' /\
    same_frame s s' /\ mlfq_pass s' = mlfq_pass s /\
    (forall i, i <> p -> procs s' i = procs s i) /\
    procs s' p = sleeper_account (procs s p).
Proof.
  intros Hst Hq Ht Hti Hli Htq.
  set (l := privlevel (procs s p)) in *. set (t := ticks (procs s p)) in *.
  assert (Hbase : sub32 QSIZE 1 = QSIZE - 1) by (apply wrap_small; exact Hq).
  unfold mlfqlogic_account, sleeper_account. rewrite Hst. cbv zeta.
  rewrite Hbase. fold l t.
  destruct ((l <? QSIZE - 1) && (t >=? TA l)) eqn:Ed.
  - apply andb_prop in Ed. destruct Ed as [Ed _]. apply Z.ltb_lt in Ed.
    assert (Hl1 : in_int (l + 1)).
    { unfold in_int in *. lia. }
    eexists. split; [reflexivity|].
    split; [unfold same_frame; cbn; tauto|]. split; [reflexivity|]. split.
    { intros i Hi. rewrite !procs_upd_proc_neq by exact Hi. reflexivity. }
    rewrite !procs_upd_proc_eq. fold l.
    unfold add32. rewrite (wrap_small (l + 1)) by exact Hl1. reflexivity.
  - eexists. split; [reflexivity|].
    split; [unfold same_frame; cbn; tauto|]. split; [reflexivity|]. split.
    { intros i Hi. rewrite procs_upd_proc_neq by exact Hi. reflexivity. }
    rewrite procs_upd_proc_eq. fold l t.
    assert (Hquot : Z.quot t (TQ l) = t / TQ l).
    { apply Z.quot_div_nonneg; lia. }
    rewrite Hquot.
    pose proof (Z.mul_div_le t (TQ l) Htq) as Hle.
    assert (Hnn : 0 <= t / TQ l) by (apply Z.div_pos; lia).
    assert (Hw : mul32 (t / TQ l) (TQ l) = TQ l * (t / TQ l)).
    { unfold mul32. rewrite wrap_small; [lia|].
      unfold in_int in *. nia. }
    rewrite Hw. reflexivity.
Qed.

(** [mlfqlogic] on a process that is on the sleep list. *)
Lemma mlfqlogic_sleeper_ok fuel p s hs L :
  mlfq_ok s hs L -> pins_valid s L -> In SleepHead hs ->
  (forall n, In n (L SleepHead) -> is_pqueue n) ->
  In (PQueue p) (L SleepHead) -> pstate s p = SLEEPING ->
  0 < QSIZE -> in_int (QSIZE - 1) -> in_int (mlfq_ticks s + 1) ->
  0 <= ticks (procs s p) -> in_int (ticks (procs s p)) ->
  in_int (privlevel (procs s p)) -> 0 < TQ (privlevel (procs s p)) ->
  (forall l, 1 <= l < QSIZE -> (length (L (QueueHead l)) < fuel)%nat) ->
  (length (L SleepHead) < fuel)%nat ->
  exists s',
    mlfqlogic fuel p s = Done s' /\
    mlfq_ticks s' = mlfq_ticks s + 1 /\
    mlfq_ok s' hs (tick_layout s L) /\ pins_valid s' (tick_layout s L) /\
    procs s' p = sleeper_tick s (procs s p) /\
    (forall i, i <> p ->
       procs s' i = procs s i \/ procs s' i = boost_proc (procs s i)) /\
    (boost_tick s = false ->
     nxt s' = nxt s /\ prv s' = prv s /\ pin s' = pin s /\
     forall i, i <> p -> procs s' i = procs s i) /\
    mlfq_pass s' = mlfq_pass s /\ mlfq_tickets s' = mlfq_tickets s /\
    minheap s' = minheap s /\ stride_size s' = stride_size s.
Proof.
  intros Hok Hpins Hsl Hspq Hin Hst Hq Hqi Hti Ht Htt Hli Htq Hfuel Hfs.
  unfold mlfqlogic.
  set (s0 := with_mlfq_ticks (add32 (mlfq_ticks s) 1) s).
  assert (Hw : add32 (mlfq_ticks s) 1 = mlfq_ticks s + 1).
  { apply wrap_small. exact Hti. }
  destruct (mlfqlogic_account_sleeping p s0) as (s1 & Hrun1 & Hfr1 & Hmp1 & Ho1 & Hp1);
    try assumption.
  cbv zeta. rewrite Hrun1. cbn [bind].
  destruct Hfr1 as (Fn & Fp & Fpin & Ftk & Ftic & Fm & Fs & _).
  assert (Htk1 : mlfq_ticks s1 = mlfq_ticks s + 1).
  { rewrite Ftk. subst s0. cbn. exact Hw. }
  assert (Hok1 : mlfq_ok s1 hs L) by (apply (mlfq_ok_same_links s); auto).
  assert (Hpins1 : pins_valid s1 L) by (apply (pins_valid_same s); auto).
  rewrite Htk1. unfold tick_layout, sleeper_tick, boost_tick.
  change (procs s0 p) with (procs s p) in Hp1.
  destruct (Z.rem (mlfq_ticks s + 1) BOOSTINTERVAL =? 0) eqn:Eb.
  - destruct (mlfqlogic_boost_ok fuel s1 hs L Hok1 Hpins1 Hsl Hspq Hq Hqi Hfuel Hfs)
      as (s2 & Hrun2 & Hok2 & Hpins2 & Hlev & Hslp & Hout & Hsame).
    destruct Hsame as (Stk & Smp & Stic & Sm & Ss & _).
    exists s2. split; [exact Hrun2|]. split; [rewrite Stk; exact Htk1|].
    split; [exact Hok2|]. split; [exact Hpins2|].
    split; [rewrite (Hslp p Hin), Hp1; reflexivity|].
    split.
    { intros i Hi.
      assert (E1 : procs s1 i = procs s i) by (rewrite (Ho1 i Hi); reflexivity).
      destruct (existsb (fun l => existsb (node_eqb (PQueue i)) (L (QueueHead l)))
                        (zrange 1 QSIZE)) eqn:Ex.
      - apply existsb_exists in Ex. destruct Ex as (l & Hl & Hx).
        apply In_zrange in Hl. apply existsb_node_true in Hx.
        right. rewrite (Hlev i l Hl Hx), E1. reflexivity.
      - destruct (existsb (node_eqb (PQueue i)) (L SleepHead)) eqn:Ey.
        + apply existsb_node_true in Ey.
          right. rewrite (Hslp i Ey), E1. reflexivity.
        + left. rewrite Hout, E1; [reflexivity| |].
          * intros l Hl Hx.
            assert (Et : existsb (fun l => existsb (node_eqb (PQueue i))
                                              (L (QueueHead l)))
                                 (zrange 1 QSIZE) = true).
            { apply existsb_exists. exists l. split; [now apply In_zrange|].
              now apply existsb_node_in. }
            rewrite Et in Ex. discriminate Ex.
          * now apply existsb_node_false. }
    split; [intros E; discriminate E|].
    split; [rewrite Smp; exact Hmp1|].
    split; [rewrite Stic; exact Ftic|].
    split; [rewrite Sm; exact Fm|rewrite Ss; exact Fs].
  - exists s1. split; [reflexivity|]. split; [exact Htk1|].
    split; [exact Hok1|]. split; [exact Hpins1|]. split; [exact Hp1|].
    split; [intros i Hi; left; rewrite (Ho1 i Hi); reflexivity|].
    split.
    { intros _. split; [exact Fn|]. split; [exact Fp|]. split; [exact Fpin|].
      intros i Hi. rewrite (Ho1 i Hi). reflexivity. }
    split; [exact Hmp1|]. split; [exact Ftic|]. split; [exact Fm|exact Fs].
Qed.

Lemma sleeper_account_fields x :
  state (sleeper_account x) = state x /\ type (sleeper_account x) = type x /\
  chan (sleeper_account x) = chan x /\ pass (sleeper_account x) = pass x /\
  tickets (sleeper_account x) = tickets x /\ pid (sleeper_account x) = pid x /\
  killed (sleeper_account x) = killed x /\ parent (sleeper_account x) = parent x.
Proof.
  unfold sleeper_account. destruct (_ && _); repeat split; reflexivity.
Qed.

Lemma sleeper_account_level x :
  0 <= privlevel x < QSIZE -> 0 <= privlevel (sleeper_account x) < QSIZE.
Proof.
  intros H. unfold sleeper_account.
  destruct ((privlevel x <? QSIZE - 1) && (ticks x >=? TA (privlevel x))) eqn:E.
  - apply andb_prop in E. destruct E as [E _]. apply Z.ltb_lt in E. cbn. lia.
  - cbn. exact H.
Qed.

(** The splice of the boost looks at the queues only. *)
Lemma boost_layout_ext_queues : forall ls L L',
  (forall l, L (QueueHead l) = L' (QueueHead l)) ->
  forall l, boost_layout L ls (QueueHead l) = boost_layout L' ls (QueueHead l).
Proof.
  induction ls as [|k ls IH]; intros L L' E l; [apply E|].
  cbn [boost_layout]. apply IH. intros l0. unfold updl.
  destruct (node_eqb (QueueHead l0) (QueueHead k)); [reflexivity|].
  destruct (node_eqb (QueueHead l0) (QueueHead 0)); [|apply E].
  now rewrite !E.
Qed.

Lemma tick_layout_queue s L L' l :
  (forall k, L (QueueHead k) = L' (QueueHead k)) ->
  tick_layout s L (QueueHead l) = tick_layout s L' (QueueHead l).
Proof.
  intros E. unfold tick_layout. destruct (boost_tick s); [|apply E].
  now apply boost_layout_ext_queues.
Qed.

Lemma tick_layout_other s L h :
  (forall l, h <> QueueHead l) -> tick_layout s L h = L h.
Proof.
  intros Hh. unfold tick_layout. destruct (boost_tick s); [|reflexivity].
  now apply boost_layout_other.
Qed.

Lemma sleeper_tick_fields s x :
  state (sleeper_tick s x) = state x /\ type (sleeper_tick s x) = type x /\
  chan (sleeper_tick s x) = chan x.
Proof.
  unfold sleeper_tick.
  destruct (sleeper_account_fields x) as (E1 & E2 & E3 & _).
  destruct (boost_tick s); cbn; auto.
Qed.

Lemma sleeper_tick_sched s x y :
  privlevel x = privlevel y -> ticks x = ticks y ->
  privlevel (sleeper_tick s x) = privlevel (sleeper_tick s y) /\
  ticks (sleeper_tick s x) = ticks (sleeper_tick s y).
Proof.
  intros E1 E2. unfold sleeper_tick, sleeper_account. rewrite E1, E2.
  destruct (boost_tick s); destruct (_ && _); cbn; auto.
Qed.

Lemma sleeper_tick_level s x :
  0 <= privlevel x < QSIZE -> 0 <= privlevel (sleeper_tick s x) < QSIZE.
Proof.
  intros H. unfold sleeper_tick. destruct (boost_tick s).
  - cbn. lia.
  - now apply sleeper_account_level.
Qed.

(** [stridelogic] after an MLFQ process has run: only passes change. *)
Lemma stridelogic_mlfq_ok fuel cur s hs L :
  lists_ok s hs L -> In RunHead hs ->
  (forall n, In n (L RunHead) -> is_pqueue n) ->
  (length (L RunHead) < fuel)%nat ->
  NoDup (rebase_set s L) -> ptype s cur = MLFQ ->
  exists s', stridelogic fuel (Some cur) s = Done s' /\
             same_frame s s' /\
             forall i, same_but_pass (procs s' i) (procs s i).
Proof.
  intros Hok Hrun Hpq Hfuel Hnd Hty.
  destruct (stridelogic_rebase_ok fuel (Some cur) s hs L Hok Hrun Hpq Hfuel Hnd)
    as (s1 & Hrb & Hcase & Hfr).
  unfold stridelogic. rewrite Hrb. cbn [bind].
  assert (Hall : forall i, same_but_pass (procs s1 i) (procs s i)).
  { intros i. destruct (stride_minpass (Some cur) s >? BARRIER).
    - destruct Hcase as (_ & Hin & Hout).
      destruct (in_dec Nat.eq_dec i (rebase_set s L)) as [Hi|Hi].
      + rewrite (Hin i Hi). apply same_but_pass_set.
      + rewrite (Hout i Hi). apply same_but_pass_refl.
    - subst s1. apply same_but_pass_refl. }
  assert (Hty1 : ptype s1 cur = MLFQ).
  { unfold ptype.
    destruct (same_but_pass_fields _ _ (Hall cur)) as (_ & -> & _). exact Hty. }
  unfold stridelogic_advance. rewrite Hty1.
  eexists. split; [reflexivity|]. split; [|exact Hall].
  unfold same_frame in *. cbn. exact Hfr.
Qed.

End SleeperProofs.

Section SleeperTheorems.
Context {T : Tunables}.

(** X12: [mlfqlogic] for a process that went to sleep during its turn,
    and so is on the sleep list.  [mlfqlogic] returns and counts the
    tick in [mlfq.ticks] but not in the ticks of the process.  Below
    the last level, a process that has used up its allotment moves one
    level down in its privlevel, with ticks 0; otherwise its ticks are
    rounded down to the start of the current quantum.  On a tick that
    is not a boost tick no list, no pin and no other process changes.
    On a boost tick the boost follows: the levels from 1 on are spliced
    onto level 0 and the sleeper ends at level 0 with ticks 0, whatever
    the accounting did.  In both cases the process stays SLEEPING and
    the queues and pins stay valid. *)
Theorem mlfqlogic_sleeping_accounting fuel p s hs L :
  mlfq_ok s hs L -> pins_valid s L -> In SleepHead hs ->
  (forall n, In n (L SleepHead) -> is_pqueue n) ->
  In (PQueue p) (L SleepHead) -> pstate s p = SLEEPING ->
  0 <= privlevel (procs s p) < QSIZE -> in_int (QSIZE - 1) ->
  in_int (mlfq_ticks s + 1) ->
  0 <= ticks (procs s p) -> in_int (ticks (procs s p)) ->
  0 < TQ (privlevel (procs s p)) ->
  (forall l, 1 <= l < QSIZE -> (length (L (QueueHead l)) < fuel)%nat) ->
  (length (L SleepHead) < fuel)%nat ->
  let l := privlevel (procs s p) in
  let t := ticks (procs s p) in
  exists s',
    mlfqlogic fuel p s = Done s' /\
    mlfq_ticks s' = mlfq_ticks s + 1 /\ pstate s' p = SLEEPING /\
    (Z.rem (mlfq_ticks s + 1) BOOSTINTERVAL <> 0 ->
     nxt s' = nxt s /\ prv s' = prv s /\ pin s' = pin s /\
     (forall i, i <> p -> procs s' i = procs s i) /\
     (if (l <? QSIZE - 1) && (t >=? TA l)
      then procs s' p = set_ticks 0 (set_privlevel (l + 1) (procs s p))
      else procs s' p = set_ticks (TQ l * (t / TQ l)) (procs s p) /\
           t - TQ l < ticks (procs s' p) <= t /\
           ticks (procs s' p) mod TQ l = 0)) /\
    (Z.rem (mlfq_ticks s + 1) BOOSTINTERVAL = 0 ->
     privlevel (procs s' p) = 0 /\ ticks (procs s' p) = 0 /\
     mlfq_ok s' hs (boost_layout L (zrange 1 QSIZE)) /\
     pins_valid s' (boost_layout L (zrange 1 QSIZE)) /\
     (forall l', 1 <= l' < QSIZE -> boost_layout L (zrange 1 QSIZE) (QueueHead l') = [])).
Proof.
  intros Hok Hpins Hsl Hspq Hin Hst Hl Hqi Hti Ht Htt Htq Hfuel Hfs l t.
  assert (Hq : 0 < QSIZE) by lia.
  assert (Hli : in_int (privlevel (procs s p))).
  { unfold in_int in *. lia. }
  destruct (mlfqlogic_sleeper_ok fuel p s hs L) as
    (s' & Hrun & Htk & Hok' & Hpins' & Hp & _ & Hnb & _); try assumption.
  unfold tick_layout, sleeper_tick, boost_tick in *.
  exists s'. split; [exact Hrun|]. split; [exact Htk|].
  split.
  { unfold pstate. rewrite Hp.
    destruct (Z.rem (mlfq_ticks s + 1) BOOSTINTERVAL =? 0);
      cbn; rewrite (proj1 (sleeper_account_fields _)); exact Hst. }
  split.
  - intros Hne. apply Z.eqb_neq in Hne. rewrite Hne in *.
    destruct (Hnb eq_refl) as (Hn & Hpv & Hpn & Ho).
    split; [exact Hn|]. split; [exact Hpv|]. split; [exact Hpn|].
    split; [exact Ho|].
    rewrite Hp. unfold sleeper_account. fold l t.
    destruct ((l <? QSIZE - 1) && (t >=? TA l)); [reflexivity|].
    split; [reflexivity|]. cbn [ticks set_ticks].
    fold t in Ht. fold l in Htq.
    pose proof (Z.mul_div_le t (TQ l) Htq) as Hle.
    pose proof (Z.mod_pos_bound t (TQ l) Htq) as Hmod.
    pose proof (Z.div_mod t (TQ l) ltac:(lia)) as Hdm.
    split; [lia|]. rewrite Z.mul_comm. apply Z.mod_mul. lia.
  - intros He. apply Z.eqb_eq in He. rewrite He in *.
    split; [rewrite Hp; reflexivity|]. split; [rewrite Hp; reflexivity|].
    split; [exact Hok'|]. split; [exact Hpins'|].
    intros l' Hl'. apply boost_layout_level; [apply In_zrange; exact Hl'|lia].
Qed.

(** X11: sleep, then wakeup.  An MLFQ process that is switched to and
    goes to sleep on a channel nobody else sleeps on is put on the sleep
    list, and the scheduler finishes the round with [mlfqlogic] and
    [stridelogic] before a wakeup can run.  A wakeup on the channel
    then makes the process RUNNABLE, with the channel still recorded;
    it has lost its place and stands at the tail of the queue of the
    level the tick has left it at, with the ticks the tick has left it:
    one level down with ticks 0 if it had used up its allotment, at its
    level with its ticks rounded down to the start of the quantum
    otherwise, and at level 0 with ticks 0 on a boost tick, which also
    splices the levels from 1 on onto level 0.  No other process
    changes its state. *)
Theorem sleep_then_wakeup fuel cur c s hs L a b :
  mlfq_ok s hs L -> pins_valid s L -> In SleepHead hs -> In RunHead hs ->
  sleepers_ok s hs L ->
  (forall n, In n (L RunHead) -> is_pqueue n) -> NoDup (rebase_set s L) ->
  ptype s cur = MLFQ -> pstate s cur = RUNNABLE ->
  0 <= privlevel (procs s cur) < QSIZE ->
  L (QueueHead (privlevel (procs s cur))) = a ++ PQueue cur :: b ->
  (forall i, In (PQueue i) (L SleepHead) -> chan (procs s i) <> c) ->
  in_int (QSIZE - 1) -> in_int (mlfq_ticks s + 1) ->
  0 <= ticks (procs s cur) -> in_int (ticks (procs s cur)) ->
  0 < TQ (privlevel (procs s cur)) ->
  (forall l, 0 <= l < QSIZE -> (length (L (QueueHead l)) < fuel)%nat) ->
  (S (length (L SleepHead)) < fuel)%nat -> (length (L RunHead) < fuel)%nat ->
  let x := sleeper_tick s (procs s cur) in
  let Lm := tick_layout s (updl L (QueueHead (privlevel (procs s cur))) (a ++ b)) in
  exists s1 s',
    sched_run fuel (fun i y => Done (sleep i c y)) (Some cur) s = Done s1 /\
    pstate s1 cur = SLEEPING /\ mlfq_ticks s1 = mlfq_ticks s + 1 /\
    wakeup1 fuel c s1 = Done s' /\
    lists_ok s' hs
      (updl Lm (QueueHead (privlevel x))
            (Lm (QueueHead (privlevel x)) ++ [PQueue cur])) /\
    pstate s' cur = RUNNABLE /\ chan (procs s' cur) = c /\
    privlevel (procs s' cur) = privlevel x /\ ticks (procs s' cur) = ticks x /\
    (forall i, i <> cur -> pstate s' i = pstate s i).
Proof.
  intros Hok Hpins Hsl Hrun Hso Hrpq Hnd Hty Hst Hl HL Hno Hqi Hti Ht Htt Htq
         Hfuel Hfs Hfr x Lm.
  set (l := privlevel (procs s cur)) in *.
  assert (Hq : 0 < QSIZE) by lia.
  pose proof Hok as (Hlok & Hheads & Hqpq).
  (* the switch to [cur] *)
  unfold sched_run. rewrite Hst. cbn [bind].
  assert (Hsd : sched_dispatch cur s = upd_proc cur (set_state RUNNING) s).
  { unfold sched_dispatch. now rewrite Hty. }
  rewrite Hsd. set (sd := upd_proc cur (set_state RUNNING) s).
  assert (Hpd : procs sd cur = set_state RUNNING (procs s cur)).
  { subst sd. apply procs_upd_proc_eq. }
  assert (Hod : forall i, i <> cur -> procs sd i = procs s i).
  { intros i Hi. subst sd. now apply procs_upd_proc_neq. }
  assert (Hokd : mlfq_ok sd hs L) by (apply (mlfq_ok_same_links s); auto).
  assert (Hpinsd : pins_valid sd L) by (apply (pins_valid_same s); auto).
  assert (Htyd : ptype sd cur = MLFQ).
  { unfold ptype. rewrite Hpd. exact Hty. }
  assert (Hld : privlevel (procs sd cur) = l) by (rewrite Hpd; reflexivity).
  (* [sleep] *)
  pose proof (sleep_mlfq_ok cur c sd hs L a b Hokd Hpinsd Hsl Htyd) as Hs.
  rewrite Hld in Hs. specialize (Hs Hl HL). cbv zeta in Hs.
  destruct Hs as (Hoks & Hpinss & Hps & Hos & Hsames).
  set (ss := sleep cur c sd) in *.
  set (Lq := updl L (QueueHead l) (a ++ b)) in *.
  set (Ls := updl Lq SleepHead (PQueue cur :: L SleepHead)) in *.
  destruct Hsames as (Stk & Smp & Stic & Sm & Ssz & _).
  assert (Hpss : procs ss cur =
                 set_state SLEEPING (set_chan c (set_state RUNNING (procs s cur)))).
  { rewrite Hps, Hpd. reflexivity. }
  assert (Htys : ptype ss cur = MLFQ).
  { unfold ptype. rewrite Hpss. exact Hty. }
  rewrite Htys.
  assert (HLss : Ls SleepHead = PQueue cur :: L SleepHead) by apply updl_eq.
  assert (Hcur_not_sleeper : ~ In (PQueue cur) (L SleepHead)).
  { destruct Hlok as (_ & _ & Hdj).
    apply (Hdj (QueueHead l) SleepHead); auto; [discriminate|].
    rewrite HL. apply in_or_app. right. now left. }
  assert (Hbt : boost_tick ss = boost_tick s).
  { unfold boost_tick. rewrite Stk. reflexivity. }
  (* [mlfqlogic] *)
  destruct (mlfqlogic_sleeper_ok fuel cur ss hs Ls)
    as (sm & Hrunm & Htkm & Hokm & Hpinsm & Hpm & Hom & _ & Hmpm & Hticm & Hmm & Hszm).
  { exact Hoks. }
  { exact Hpinss. }
  { exact Hsl. }
  { intros n Hn. rewrite HLss in Hn. destruct Hn as [<-|Hn]; [now exists cur|].
    exact (sleepers_ok_pqueue s hs L Hso n Hn). }
  { rewrite HLss. now left. }
  { unfold pstate. rewrite Hpss. reflexivity. }
  { exact Hq. }
  { exact Hqi. }
  { rewrite Stk. exact Hti. }
  { rewrite Hpss. exact Ht. }
  { rewrite Hpss. exact Htt. }
  { rewrite Hpss. cbn. fold l. unfold in_int in *. lia. }
  { rewrite Hpss. exact Htq. }
  { intros k Hk. assert (Hk0 : 0 <= k < QSIZE) by lia.
    specialize (Hfuel k Hk0).
    subst Ls. rewrite updl_neq by discriminate. subst Lq.
    destruct (Z.eq_dec k l) as [->|Hne].
    - rewrite updl_eq. rewrite HL in Hfuel.
      rewrite length_app in *. cbn [length] in Hfuel. lia.
    - rewrite updl_neq by congruence. exact Hfuel. }
  { rewrite HLss. cbn [length]. exact Hfs. }
  unfold tick_layout in Hokm, Hpinsm. unfold sleeper_tick in Hpm.
  rewrite Hbt in Hokm, Hpinsm, Hpm.
  fold (tick_layout s Ls) in Hokm, Hpinsm. fold (sleeper_tick s (procs ss cur)) in Hpm.
  set (Lsm := tick_layout s Ls) in *.
  assert (Htym : ptype sm cur = MLFQ).
  { unfold ptype. rewrite Hpm.
    destruct (sleeper_tick_fields s (procs ss cur)) as (_ & -> & _). exact Htys. }
  assert (HLsm_other : forall h, (forall k, h <> QueueHead k) -> Lsm h = Ls h).
  { intros h Hh. subst Lsm. now apply tick_layout_other. }
  assert (HLrun : Lsm RunHead = L RunHead).
  { rewrite HLsm_other by (intros; discriminate).
    subst Ls Lq. rewrite !updl_neq by discriminate. reflexivity. }
  assert (HLsm_sleep : Lsm SleepHead = PQueue cur :: L SleepHead).
  { rewrite HLsm_other by (intros; discriminate). exact HLss. }
  assert (Hheap : heap_elems sm = heap_elems s).
  { unfold heap_elems. rewrite Hmm, Hszm, Sm, Ssz. reflexivity. }
  (* [stridelogic] *)
  destruct (stridelogic_mlfq_ok fuel cur sm hs Lsm) as (s1 & Hrun1 & Hfr1 & Hall1).
  { apply Hokm. }
  { exact Hrun. }
  { rewrite HLrun. exact Hrpq. }
  { rewrite HLrun. exact Hfr. }
  { unfold rebase_set. rewrite Hheap, HLrun. exact Hnd. }
  { exact Htym. }
  rewrite Hrunm. cbn [bind].
  exists s1.
  destruct (sleeper_tick_fields s (procs ss cur)) as (Fst & Fty & Fch).
  destruct (sleeper_tick_sched s (procs ss cur) (procs s cur)) as (Fpl & Ftk);
    [rewrite Hpss; reflexivity|rewrite Hpss; reflexivity|].
  destruct (same_but_pass_fields _ _ (Hall1 cur))
    as (E1st & E1ty & _ & E1pl & E1tk & E1ch).
  rewrite Hpm in E1st, E1ty, E1pl, E1tk, E1ch.
  rewrite Fst in E1st. rewrite Fty in E1ty. rewrite Fch in E1ch.
  rewrite Fpl in E1pl. rewrite Ftk in E1tk.
  rewrite Hpss in E1st, E1ty, E1ch.
  cbn [state type chan set_state set_chan] in E1st, E1ty, E1ch.
  fold x in E1pl, E1tk.
  assert (Hother : forall i, i <> cur ->
            state (procs s1 i) = state (procs s i) /\
            chan (procs s1 i) = chan (procs s i) /\
            type (procs s1 i) = type (procs s i) /\
            (privlevel (procs s1 i) = privlevel (procs s i) \/
             privlevel (procs s1 i) = 0)).
  { intros i Hi.
    destruct (same_but_pass_fields _ _ (Hall1 i)) as (-> & -> & _ & -> & _ & ->).
    destruct (Hom i Hi) as [E|E]; rewrite E, (Hos i Hi), (Hod i Hi); cbn; auto. }
  assert (Hlx : 0 <= privlevel x < QSIZE).
  { subst x. now apply sleeper_tick_level. }
  assert (Hok1 : lists_ok s1 hs Lsm).
  { destruct Hfr1 as (Fn & Fp & _).
    apply lists_ok_same_links with (s := sm); [exact Fn|exact Fp|apply Hokm]. }
  assert (Hso1 : sleepers_ok s1 hs Lsm).
  { intros n Hn. rewrite HLsm_sleep in Hn. destruct Hn as [<-|Hn].
    - exists cur. split; [reflexivity|]. intros _. rewrite E1pl.
      apply Hheads. exact Hlx.
    - destruct (Hso n Hn) as (i & -> & Hi). exists i. split; [reflexivity|].
      assert (Hne : i <> cur) by (intros ->; contradiction).
      destruct (Hother i Hne) as (_ & _ & Ety & [Epl|Epl]).
      + unfold ptype. rewrite Ety, Epl. exact Hi.
      + intros _. rewrite Epl. apply Hheads. lia. }
  destruct (wakeup1_ok fuel c s1 hs Lsm Hok1 Hsl Hso1)
    as (s' & L' & Hrunw & Hok' & HL' & Hp' & _).
  { rewrite HLsm_sleep. cbn [length]. exact Hfs. }
  exists s'.
  split; [exact Hrun1|].
  split; [exact E1st|].
  split.
  { destruct Hfr1 as (_ & _ & _ & -> & _). rewrite Htkm, Stk. reflexivity. }
  split; [exact Hrunw|].
  assert (Hchan : forall i, In (PQueue i) (L SleepHead) ->
                            chanid_eqb (chan (procs s1 i)) c = false).
  { intros i Hi. assert (Hne : i <> cur) by (intros ->; contradiction).
    destruct (Hother i Hne) as (_ & -> & _).
    destruct (chanid_eqb_spec (chan (procs s i)) c) as [E|_]; [|reflexivity].
    exfalso. exact (Hno i Hi E). }
  assert (Hchan_cur : chanid_eqb (chan (procs s1 cur)) c = true).
  { rewrite E1ch. destruct (chanid_eqb_spec c c); congruence. }
  assert (Hold : forall f, (forall n, f n = true -> wakes s1 c n = true) ->
                           filter f (L SleepHead) = []).
  { intros f Hf. apply filter_none. intros n Hn.
    destruct (f n) eqn:E; [|reflexivity].
    apply Hf in E. destruct (Hso n Hn) as (i & -> & _).
    cbn [wakes] in E. rewrite (Hchan i Hn) in E. discriminate E. }
  assert (HLmq : forall k, Lsm (QueueHead k) = Lm (QueueHead k)).
  { intros k. subst Lsm Lm. apply tick_layout_queue.
    intros k0. subst Ls. apply updl_neq. discriminate. }
  assert (HLm_other : forall h, (forall k, h <> QueueHead k) -> Lm h = L h).
  { intros h Hh. subst Lm. rewrite tick_layout_other by exact Hh.
    fold l. fold Lq. subst Lq. apply updl_neq. apply Hh. }
  split.
  { apply lists_ok_layout_ext with (L := L'); [|exact Hok'].
    intros h. rewrite HL'. unfold woken_layout. rewrite HLsm_sleep.
    assert (Hrest : forall h0, (forall k, h0 <> QueueHead k) -> h0 <> SleepHead ->
                               Lsm h0 =
                               updl Lm (QueueHead (privlevel x))
                                    (Lm (QueueHead (privlevel x)) ++ [PQueue cur]) h0).
    { intros h0 Hh Hs. rewrite updl_neq by apply Hh.
      rewrite HLm_other by exact Hh. rewrite HLsm_other by exact Hh.
      subst Ls. rewrite updl_neq by exact Hs.
      subst Lq. apply updl_neq. apply Hh. }
    destruct h; try (apply Hrest; intros; discriminate).
    - cbn [filter wakes_mlfq_at]. rewrite Hchan_cur.
      assert (Ety : schedtype_eqb (ptype s1 cur) MLFQ = true).
      { unfold ptype. rewrite E1ty. fold (ptype s cur). now rewrite Hty. }
      rewrite Ety, E1pl. cbn [andb].
      rewrite (Hold (wakes_mlfq_at s1 c l0)).
      2:{ intros n Hn. destruct n; cbn [wakes_mlfq_at wakes] in *; try discriminate Hn.
          apply andb_prop in Hn. destruct Hn as [Hn _].
          apply andb_prop in Hn. apply Hn. }
      rewrite HLmq. unfold updl. cbn [node_eqb].
      destruct (Z.eqb_spec (privlevel x) l0) as [<-|Hne].
      + rewrite Z.eqb_refl. reflexivity.
      + rewrite (proj2 (Z.eqb_neq l0 (privlevel x))) by congruence.
        now rewrite app_nil_r.
    - cbn [filter wakes]. rewrite Hchan_cur. cbn [negb].
      rewrite updl_neq by discriminate.
      rewrite HLm_other by (intros; discriminate).
      apply filter_all. intros n Hn. destruct (Hso n Hn) as (i & -> & _).
      cbn [wakes]. now rewrite (Hchan i Hn). }
  assert (Hpc : procs s' cur = set_state RUNNABLE (procs s1 cur)).
  { rewrite Hp'. unfold woken_procs. rewrite HLsm_sleep.
    cbn [existsb]. rewrite node_eqb_refl, Hchan_cur. reflexivity. }
  unfold pstate. rewrite Hpc. cbn [state chan privlevel ticks set_state].
  split; [reflexivity|]. split; [exact E1ch|]. split; [exact E1pl|].
  split; [exact E1tk|].
  intros i Hi. rewrite Hp'. unfold woken_procs. rewrite HLsm_sleep.
  cbn [existsb node_eqb]. rewrite (proj2 (Nat.eqb_neq i cur) Hi). cbn [orb].
  destruct (Hother i Hi) as (Est & _).
  destruct (existsb (node_eqb (PQueue i)) (L SleepHead)) eqn:Ex.
  - apply existsb_pqueue in Ex. rewrite (Hchan i Ex). cbn [andb]. exact Est.
  - cbn [andb]. exact Est.
Qed.

End SleeperTheorems.

(* ================================================================= *)
(** ** The further properties on the small machine *)

Module RunsMore.
Import Demo DemoMore.

(** *** The states, read off *)

(** Slots 3 to 7 are free after the second fork. *)
Lemma st_three_free :
  layout_of 16 st_three FreeHead =
    [PQueue 3; PQueue 4; PQueue 5; PQueue 6; PQueue 7] /\
  layout_of 16 st_three (PChildren 0) = [PSibling 1; PSibling 2] /\
  layout_of 16 st_three SleepHead = [] /\
  map (fun i => pid (procs st_three i)) [0; 1; 2; 3]%nat = [1; 2; 3; 0] /\
  pstate st_three 3 = UNUSED /\ nextpid st_three = 4.
Proof. repeat split; vm_compute; reflexivity. Qed.

(** Slot 1 is a ZOMBIE with pid 2, still among the children of init. *)
Lemma st_exited_shape :
  layout_of 16 st_exited (PChildren 0) = [PSibling 1; PSibling 2] /\
  layout_of 16 st_exited (QueueHead 0) = [PQueue 2; PQueue 0] /\
  pstate st_exited 1 = ZOMBIE /\ pid (procs st_exited 1) = 2 /\
  first_zombie st_exited (layout_of 16 st_exited (PChildren 0)) = Some 1%nat.
Proof. repeat split; vm_compute; reflexivity. Qed.

(** Slot 1 runs and has slot 3 as its child. *)
Lemma st_parent_shape :
  layout_of 16 st_parent (PChildren 0) = [PSibling 1; PSibling 2] /\
  layout_of 16 st_parent (PChildren 1) = [PSibling 3] /\
  layout_of 16 st_parent (QueueHead 0) = [PQueue 0; PQueue 1; PQueue 2; PQueue 3] /\
  pstate st_parent 1 = RUNNING /\ parent (procs st_parent 3) = Some 1%nat /\
  initproc st_parent = Some 0%nat.
Proof. repeat split; vm_compute; reflexivity. Qed.

(** Slot 1 has been woken: RUNNABLE, on no list, at the root of the heap
    with a pass below that of the MLFQ side. *)
Lemma st_woken_shape :
  heap_elems st_woken = [1%nat] /\ pstate st_woken 1 = RUNNABLE /\
  ptype st_woken 1 = STRIDE /\ ppass st_woken 1 = 45437 /\
  tickets (procs st_woken 1) = 30 /\ mlfq_pass st_woken = 55422 /\
  layout_of 16 st_woken RunHead = [] /\ layout_of 16 st_woken SleepHead = [PQueue 0].
Proof. repeat split; vm_compute; reflexivity. Qed.

(** *** The properties at these states *)

(** The next slot is slot 3, with pid 4: it is handed out when [kalloc]
    succeeds, and put back, with the pid, when it fails. *)
Lemma allocproc_takes_first_free_run :
  (exists s', allocproc true st_three = Done (Some 3%nat, s') /\
              procs s' 3 = set_pid (nextpid st_three)
                             (set_state EMBRYO (procs st_three 3)) /\
              nextpid s' = nextpid st_three + 1) /\
  (exists s', allocproc false st_three = Done (None, s') /\
              procs s' 3 = set_state UNUSED
                             (set_pid (nextpid st_three)
                                (set_state EMBRYO (procs st_three 3))) /\
              nextpid s' = nextpid st_three + 1).
Proof.
  assert (E : layout_of 16 st_three FreeHead =
              [PQueue 3; PQueue 4; PQueue 5; PQueue 6; PQueue 7]).
  { vm_compute. reflexivity. }
  assert (H1 : lists_ok st_three heads (layout_of 16 st_three)).
  { apply lists_okb_sound. vm_compute. reflexivity. }
  assert (H2 : In FreeHead heads).
  { apply existsb_node_true. vm_compute. reflexivity. }
  assert (H3 : forall n, In n (layout_of 16 st_three FreeHead) -> is_pqueue n).
  { apply forallb_pqueue_sound. vm_compute. reflexivity. }
  assert (H4 : in_int (nextpid st_three + 1)).
  { apply in_int_b. vm_compute. reflexivity. }
  pose proof (allocproc_takes_first_free true st_three heads
                (layout_of 16 st_three) H1 H2 H3 H4) as Ht.
  pose proof (allocproc_takes_first_free false st_three heads
                (layout_of 16 st_three) H1 H2 H3 H4) as Hf.
  rewrite E in Ht, Hf.
  destruct Ht as (p & s' & Hp & Hrun & Hproc & _ & Hn & _).
  destruct Hf as (q & sf & Hq & Hrunf & Hprocf & _ & Hnf & _).
  injection Hp as Hp. subst p. injection Hq as Hq. subst q.
  split.
  - exists s'. split; [exact Hrun|]. split; [exact Hproc|exact Hn].
  - exists sf. split; [exact Hrunf|]. split; [exact Hprocf|exact Hnf].
Defined.

(** init forks a third child: it gets slot 3 and pid 4.  When [copyuvm]
    fails the fork returns -1 and pid 4 is lost on the free slot 3. *)
Lemma fork_outcome_run :
  (exists s', fork true true 0 st_three = Done (nextpid st_three, s') /\
              parent (procs s' 3) = Some 0%nat /\
              nextpid s' = nextpid st_three + 1) /\
  (exists s', fork true false 0 st_three = Done (-1, s') /\
              pstate s' 3 = UNUSED /\ pid (procs s' 3) = nextpid st_three /\
              nextpid s' = nextpid st_three + 1).
Proof.
  assert (E : layout_of 16 st_three FreeHead =
              [PQueue 3; PQueue 4; PQueue 5; PQueue 6; PQueue 7]).
  { vm_compute. reflexivity. }
  assert (H1 : lists_ok st_three heads (layout_of 16 st_three)).
  { apply lists_okb_sound. vm_compute. reflexivity. }
  assert (H2 : In FreeHead heads).
  { apply existsb_node_true. vm_compute. reflexivity. }
  assert (H2' : In (PChildren 0) heads).
  { apply existsb_node_true. vm_compute. reflexivity. }
  assert (H3 : forall n, In n (layout_of 16 st_three FreeHead) -> is_pqueue n).
  { apply forallb_pqueue_sound. vm_compute. reflexivity. }
  assert (H4 : in_int (nextpid st_three + 1)).
  { apply in_int_b. vm_compute. reflexivity. }
  assert (H5 : fresh_or_empty heads (layout_of 16 st_three) (PChildren 3)).
  { left. apply off_listsb_sound. vm_compute. reflexivity. }
  assert (H6 : off_lists heads (layout_of 16 st_three) (PSibling 3)).
  { apply off_listsb_sound. vm_compute. reflexivity. }
  assert (H7 : In (QueueHead (privlevel (procs st_three 3))) heads).
  { apply existsb_node_true. vm_compute. reflexivity. }
  pose proof (fork_outcome true true 0 st_three heads (layout_of 16 st_three)
                H1 H2 H2' H3 H4) as Ht.
  pose proof (fork_outcome true false 0 st_three heads (layout_of 16 st_three)
                H1 H2 H2' H3 H4) as Hf.
  rewrite E in Ht, Hf.
  destruct Ht as (p & Hp & Ht). injection Hp as Hp. subst p.
  destruct Hf as (q & Hq & Hf). injection Hq as Hq. subst q.
  destruct (Ht H5 H6 H7) as (s' & Hrun & _ & Hn & _ & Hproc & _).
  destruct (Hf H5 H6 H7) as (sf & Hrunf & _ & Hnf & _ & Hprocf & _).
  split.
  - exists s'. split; [exact Hrun|]. split; [|exact Hn].
    exact (f_equal parent Hproc).
  - exists sf. split; [exact Hrunf|].
    split; [exact (f_equal state Hprocf)|].
    split; [exact (f_equal pid Hprocf)|exact Hnf].
Defined.

(** Slot 1, off its queue, is freed and taken again at once: handed out
    when [kalloc] succeeds, left at the front of the free list when it
    fails. *)
Lemma freeproc_then_allocproc_run :
  cleared (procs (freeproc 1 st_detached) 1) /\
  (exists s', allocproc true (freeproc 1 st_detached) = Done (Some 1%nat, s') /\
              pstate s' 1 = EMBRYO /\ pid (procs s' 1) = nextpid st_detached) /\
  (exists s', allocproc false (freeproc 1 st_detached) = Done (None, s') /\
              pstate s' 1 = UNUSED /\ pid (procs s' 1) = nextpid st_detached).
Proof.
  assert (H1 : lists_ok st_detached heads (layout_of 16 st_detached)).
  { apply lists_okb_sound. vm_compute. reflexivity. }
  assert (H2 : In FreeHead heads).
  { apply existsb_node_true. vm_compute. reflexivity. }
  assert (H3 : off_lists heads (layout_of 16 st_detached) (PQueue 1)).
  { apply off_listsb_sound. vm_compute. reflexivity. }
  assert (H4 : in_int (nextpid st_detached + 1)).
  { apply in_int_b. vm_compute. reflexivity. }
  destruct (freeproc_then_allocproc true 1 st_detached heads
              (layout_of 16 st_detached) H1 H2 H3 H4)
    as (_ & Hc & _ & _ & s' & Hrun & Hst & Hpid & _).
  destruct (freeproc_then_allocproc false 1 st_detached heads
              (layout_of 16 st_detached) H1 H2 H3 H4)
    as (_ & _ & _ & _ & sf & Hrunf & Hstf & Hpidf & _).
  split; [exact Hc|]. split.
  - exists s'. split; [exact Hrun|]. split; [exact Hst|exact Hpid].
  - exists sf. split; [exact Hrunf|]. split; [exact Hstf|exact Hpidf].
Defined.

(** Pids 1, 2 and 3 are in use: a kill of pid 2 finds slot 1, which is
    RUNNABLE, and a kill of pid 9 finds nothing. *)
Lemma kill_outcome_run :
  kill 2 st_three = (upd_proc 1 (set_killed 1) st_three, 0) /\
  snd (kill 9 st_three) = -1 /\ fst (kill 9 st_three) = st_three.
Proof.
  destruct (kill_outcome 2 st_three) as (_ & _ & _ & Hhit).
  destruct (kill_outcome 9 st_three) as (Hiff & Hsame & _ & _).
  assert (M : snd (kill 9 st_three) = -1).
  { vm_compute. reflexivity. }
  split; [|split; [exact M|exact (Hsame M)]].
  apply (Hhit 1%nat).
  - apply Nat.ltb_lt. vm_compute. reflexivity.
  - vm_compute. reflexivity.
  - intros j Hj. assert (E : j = 0%nat) by lia. rewrite E.
    apply Z.eqb_neq. vm_compute. reflexivity.
  - intros E. assert (N : pstate st_three 1 = RUNNABLE).
    { vm_compute. reflexivity. }
    rewrite N in E. discriminate E.
Defined.

(** A kill of pid 0 hits the free slot 3, and the process that gets the
    slot next is born killed; the flag also stays when [kalloc] fails. *)
Lemma kill_marks_free_slot_run :
  (exists s1 s2,
     kill 0 st_three = (s1, 0) /\ allocproc true s1 = Done (Some 3%nat, s2) /\
     pstate s2 3 = EMBRYO /\ killed (procs s2 3) = 1) /\
  (exists s1 s2,
     kill 0 st_three = (s1, 0) /\ allocproc false s1 = Done (None, s2) /\
     pstate s2 3 = UNUSED /\ killed (procs s2 3) = 1).
Proof.
  assert (H1 : lists_ok st_three heads (layout_of 16 st_three)).
  { apply lists_okb_sound. vm_compute. reflexivity. }
  assert (H2 : In FreeHead heads).
  { apply existsb_node_true. vm_compute. reflexivity. }
  assert (H3 : layout_of 16 st_three FreeHead =
               PQueue 3 :: [PQueue 4; PQueue 5; PQueue 6; PQueue 7]).
  { vm_compute. reflexivity. }
  assert (H4 : in_int (nextpid st_three + 1)).
  { apply in_int_b. vm_compute. reflexivity. }
  assert (H5 : (3 < NPROC)%nat).
  { apply Nat.ltb_lt. vm_compute. reflexivity. }
  assert (H6 : pid (procs st_three 3) = 0).
  { vm_compute. reflexivity. }
  assert (H7 : forall j, (j < 3)%nat -> pid (procs st_three j) <> 0).
  { intros j Hj.
    assert (F : forallb (fun j => negb (pid (procs st_three j) =? 0)) [0; 1; 2]%nat
                = true).
    { vm_compute. reflexivity. }
    assert (I : In j [0; 1; 2]%nat) by (simpl; lia).
    pose proof (proj1 (forallb_forall _ _) F j I) as N.
    apply negb_true_iff in N. apply Z.eqb_neq. exact N. }
  assert (H8 : pstate st_three 3 = UNUSED).
  { vm_compute. reflexivity. }
  destruct (kill_marks_free_slot true 0 st_three heads (layout_of 16 st_three) 3
              [PQueue 4; PQueue 5; PQueue 6; PQueue 7] H1 H2 H3 H4 H5 H6 H7 H8)
    as (s1 & s2 & Hk & _ & _ & Ha & Hst & _ & Hkd).
  destruct (kill_marks_free_slot false 0 st_three heads (layout_of 16 st_three) 3
              [PQueue 4; PQueue 5; PQueue 6; PQueue 7] H1 H2 H3 H4 H5 H6 H7 H8)
    as (f1 & f2 & Hkf & _ & _ & Haf & Hstf & _ & Hkdf).
  split.
  - exists s1, s2. split; [exact Hk|]. split; [exact Ha|].
    split; [exact Hst|exact Hkd].
  - exists f1, f2. split; [exact Hkf|]. split; [exact Haf|].
    split; [exact Hstf|exact Hkdf].
Defined.

(** init waits after slot 1 has exited: it reaps slot 1 and gets pid 2. *)
Lemma wait_round_outcome_run :
  wait_round 16 0 st_exited =
    Done (Some (pid (procs st_exited 1)),
          freeproc 1 (list_del (PSibling 1) st_exited)) /\
  pid (procs st_exited 1) = 2 /\
  cleared (procs (freeproc 1 (list_del (PSibling 1) st_exited)) 1).
Proof.
  pose proof (wait_round_outcome 16 0 st_exited heads (layout_of 16 st_exited)) as H.
  assert (E : first_zombie st_exited (layout_of 16 st_exited (PChildren 0)) =
              Some 1%nat).
  { vm_compute. reflexivity. }
  rewrite E in H.
  destruct H as (a & b & _ & _ & _ & Hrun & Hrest).
  - apply lists_okb_sound. vm_compute. reflexivity.
  - apply existsb_node_true. vm_compute. reflexivity.
  - apply existsb_node_true. vm_compute. reflexivity.
  - unfold children_ok. apply forallb_psibling_sound. vm_compute. reflexivity.
  - apply Nat.ltb_lt. vm_compute. reflexivity.
  - split; [exact Hrun|]. split; [vm_compute; reflexivity|].
    apply Hrest. apply off_listsb_sound. vm_compute. reflexivity.
Defined.

(** Slot 1 sleeps on channel 7: a second wakeup on it changes nothing. *)
Lemma wakeup1_idempotent_run :
  exists s', wakeup1 16 (AddrChan 7) st_blocked = Done s' /\
             wakeup1 16 (AddrChan 7) s' = Done s'.
Proof.
  destruct (wakeup1_idempotent 16 (AddrChan 7) st_blocked heads
              (layout_of 16 st_blocked)) as (_ & H).
  - apply lists_okb_sound. vm_compute. reflexivity.
  - apply existsb_node_true. vm_compute. reflexivity.
  - apply sleepers_okb_sound. vm_compute. reflexivity.
  - apply Nat.ltb_lt. vm_compute. reflexivity.
  - exact H.
Defined.

(** Slot 0, of pass 0, is pushed on the heap of passes 10, 20 and 30 and
    comes back with the next pop. *)
Lemma pushheap_then_popheap_run :
  exists s1 s2,
    pushheap 0 st_heap = Done s1 /\ popheap s1 = Done (0%nat, s2) /\
    heap_property s2 /\ stride_size s2 = stride_size st_heap.
Proof.
  destruct (pushheap_then_popheap st_heap 0)
    as (s1 & q & s2 & Hpush & Hpop & _ & _ & _ & Hh & Hs & _ & Hq).
  - apply heap_propertyb_sound. vm_compute. reflexivity.
  - apply between_b. vm_compute. reflexivity.
  - assert (F : forallb (fun i => ppass st_heap 0 <? ppass st_heap i)
                        (heap_elems st_heap) = true).
    { vm_compute. reflexivity. }
    destruct Hq as [Hq _].
    { intros i Hi. apply Z.ltb_lt. exact (proj1 (forallb_forall _ _) F i Hi). }
    exists s1, s2. split; [exact Hpush|].
    split; [rewrite <- Hq; exact Hpop|]. split; [exact Hh|exact Hs].
Defined.

(** Slot 1, off its queue, is enqueued at level 0 and dequeued again. *)
Lemma enqueue_then_dequeue_run :
  procs (dequeue 1 (enqueue (privlevel (procs st_detached 1)) 1 st_detached)) =
    procs st_detached /\
  pins_valid (dequeue 1 (enqueue (privlevel (procs st_detached 1)) 1 st_detached))
             (layout_of 16 st_detached).
Proof.
  pose proof (enqueue_then_dequeue st_detached heads (layout_of 16 st_detached) 1)
    as H.
  cbv zeta in H.
  destruct H as (_ & Hp & _ & _ & He).
  - apply mlfq_okb_sound. vm_compute. reflexivity.
  - apply pins_validb_sound. vm_compute. reflexivity.
  - apply between_b. vm_compute. reflexivity.
  - apply off_listsb_sound. vm_compute. reflexivity.
  - split; [exact He|exact Hp].
Defined.

(** Slot 0 has 4 ticks when it is switched to and blocks on channel 7:
    the tick takes its ticks back to 0, and the wakeup puts it behind
    slots 1 and 2, as reached from [st_tick4] by the scheduler. *)
Lemma sleep_then_wakeup_run :
  sched_pick 16 st_tick4 = Done (Some 0%nat, st_tick4_picked) /\
  ticks (procs st_tick4_picked 0) = 4 /\
  exists s1 s',
    sched_run 16 (swtch_sleep (AddrChan 7)) (Some 0%nat) st_tick4_picked = Done s1 /\
    pstate s1 0 = SLEEPING /\ mlfq_ticks s1 = mlfq_ticks st_tick4_picked + 1 /\
    wakeup1 16 (AddrChan 7) s1 = Done s' /\
    pstate s' 0 = RUNNABLE /\ chan (procs s' 0) = AddrChan 7 /\
    privlevel (procs s' 0) = 0 /\ ticks (procs s' 0) = 0 /\
    layout_of 16 s' (QueueHead 0) = [PQueue 1; PQueue 2; PQueue 0].
Proof.
  split; [vm_compute; reflexivity|]. split; [vm_compute; reflexivity|].
  pose proof (sleep_then_wakeup 16 0 (AddrChan 7) st_tick4_picked heads
                (layout_of 16 st_tick4_picked) [] [PQueue 1; PQueue 2]) as H.
  cbv zeta in H.
  destruct H as (s1 & s' & Hrun & Hst1 & Htk & Hw & _ & Hst & Hch & Hpl & Hti & _).
  - apply mlfq_okb_sound. vm_compute. reflexivity.
  - apply pins_validb_sound. vm_compute. reflexivity.
  - apply existsb_node_true. vm_compute. reflexivity.
  - apply existsb_node_true. vm_compute. reflexivity.
  - apply sleepers_okb_sound. vm_compute. reflexivity.
  - apply forallb_pqueue_sound. vm_compute. reflexivity.
  - apply nodupb_nat_sound. vm_compute. reflexivity.
  - vm_compute. reflexivity.
  - vm_compute. reflexivity.
  - apply between_b. vm_compute. reflexivity.
  - vm_compute. reflexivity.
  - intros i Hi.
    assert (E : layout_of 16 st_tick4_picked SleepHead = []).
    { vm_compute. reflexivity. }
    rewrite E in Hi. destruct Hi.
  - apply in_int_b. vm_compute. reflexivity.
  - apply in_int_b. vm_compute. reflexivity.
  - apply Z.leb_le. vm_compute. reflexivity.
  - apply in_int_b. vm_compute. reflexivity.
  - apply Z.ltb_lt. vm_compute. reflexivity.
  - intros l Hl. apply Nat.ltb_lt.
    assert (E : forallb (fun l => Nat.ltb (length (layout_of 16 st_tick4_picked
                                                     (QueueHead l))) 16)
                        (zrange 0 QSIZE) = true).
    { vm_compute. reflexivity. }
    exact (forallb_zrange _ _ _ E l Hl).
  - apply Nat.ltb_lt. vm_compute. reflexivity.
  - apply Nat.ltb_lt. vm_compute. reflexivity.
  - assert (Ex : sleeper_tick st_tick4_picked (procs st_tick4_picked 0) =
                 set_ticks 0 (procs st_tick4_picked 0)).
    { vm_compute. reflexivity. }
    rewrite Ex in Hpl, Hti.
    assert (D : is_done (wakeup1 16 (AddrChan 7)
                  (value st_tick4_picked
                     (sched_run 16 (swtch_sleep (AddrChan 7)) (Some 0%nat)
                        st_tick4_picked))) = true).
    { vm_compute. reflexivity. }
    exists s1, s'. split; [exact Hrun|]. split; [exact Hst1|].
    split; [exact Htk|]. split; [exact Hw|]. split; [exact Hst|].
    split; [exact Hch|].
    split; [exact (eq_trans Hpl ltac:(vm_compute; reflexivity))|].
    split; [exact Hti|].
    assert (E1 : s1 = value st_tick4_picked
                        (sched_run 16 (swtch_sleep (AddrChan 7)) (Some 0%nat)
                           st_tick4_picked)).
    { change (sched_run 16 (swtch_sleep (AddrChan 7)) (Some 0%nat) st_tick4_picked
              = Done s1) in Hrun.
      rewrite Hrun. reflexivity. }
    assert (E2 : s' = value s1 (wakeup1 16 (AddrChan 7) s1)).
    { rewrite Hw. reflexivity. }
    rewrite E2, E1. vm_compute. reflexivity.
Defined.

(** [mlfqlogic] on the blocked slot 0.  With 4 ticks at the fifth tick
    its ticks go back to 0.  init, which has reached 20 ticks through
    [inctick], moves to level 1.  At the 50th tick the boost follows
    and slot 0 ends at level 0 with ticks 0. *)
Lemma mlfqlogic_sleeping_accounting_run :
  (ticks (procs st_nap_in 0) = 4 /\
   exists s', mlfqlogic 16 0 st_nap_in = Done s' /\
              pstate s' 0 = SLEEPING /\ nxt s' = nxt st_nap_in /\
              procs s' 0 = set_ticks 0 (procs st_nap_in 0)) /\
  (ticks (procs st_nap20_in 0) = 20 /\ privlevel (procs st_nap20_in 0) = 0 /\
   exists s', mlfqlogic 16 0 st_nap20_in = Done s' /\
              pstate s' 0 = SLEEPING /\
              procs s' 0 = set_ticks 0 (set_privlevel 1 (procs st_nap20_in 0))) /\
  (ticks (procs st_nap50_in 0) = 19 /\ mlfq_ticks st_nap50_in = 49 /\
   exists s', mlfqlogic 16 0 st_nap50_in = Done s' /\
              pstate s' 0 = SLEEPING /\
              privlevel (procs s' 0) = 0 /\ ticks (procs s' 0) = 0).
Proof.
  split; [|split].
  - split; [vm_compute; reflexivity|].
    pose proof (mlfqlogic_sleeping_accounting 16 0 st_nap_in heads
                  (layout_of 16 st_nap_in)) as H.
    cbv zeta in H.
    destruct H as (s' & Hrun & _ & Hst & Hnb & _).
    + apply mlfq_okb_sound. vm_compute. reflexivity.
    + apply pins_validb_sound. vm_compute. reflexivity.
    + apply existsb_node_true. vm_compute. reflexivity.
    + apply forallb_pqueue_sound. vm_compute. reflexivity.
    + apply existsb_node_true. vm_compute. reflexivity.
    + vm_compute. reflexivity.
    + apply between_b. vm_compute. reflexivity.
    + apply in_int_b. vm_compute. reflexivity.
    + apply in_int_b. vm_compute. reflexivity.
    + apply Z.leb_le. vm_compute. reflexivity.
    + apply in_int_b. vm_compute. reflexivity.
    + apply Z.ltb_lt. vm_compute. reflexivity.
    + intros l Hl. apply Nat.ltb_lt.
      assert (E : forallb (fun l => Nat.ltb (length (layout_of 16 st_nap_in
                                                       (QueueHead l))) 16)
                          (zrange 1 QSIZE) = true).
      { vm_compute. reflexivity. }
      exact (forallb_zrange _ _ _ E l Hl).
    + apply Nat.ltb_lt. vm_compute. reflexivity.
    + destruct Hnb as (Hn & _ & _ & _ & Hacc).
      { apply Z.eqb_neq. vm_compute. reflexivity. }
      assert (Ec : (privlevel (procs st_nap_in 0) <? QSIZE - 1) &&
                   (ticks (procs st_nap_in 0) >=? TA (privlevel (procs st_nap_in 0)))
                   = false).
      { vm_compute. reflexivity. }
      rewrite Ec in Hacc. destruct Hacc as (Hp & _).
      exists s'. split; [exact Hrun|]. split; [exact Hst|]. split; [exact Hn|].
      apply (eq_trans Hp). vm_compute. reflexivity.
  - split; [vm_compute; reflexivity|]. split; [vm_compute; reflexivity|].
    pose proof (mlfqlogic_sleeping_accounting 16 0 st_nap20_in
                  [QueueHead 0; QueueHead 1; QueueHead 2; RunHead; SleepHead;
                   FreeHead; PChildren 0]
                  (layout_of 16 st_nap20_in)) as H.
    cbv zeta in H.
    destruct H as (s' & Hrun & _ & Hst & Hnb & _).
    + apply mlfq_okb_sound. vm_compute. reflexivity.
    + apply pins_validb_sound. vm_compute. reflexivity.
    + apply existsb_node_true. vm_compute. reflexivity.
    + apply forallb_pqueue_sound. vm_compute. reflexivity.
    + apply existsb_node_true. vm_compute. reflexivity.
    + vm_compute. reflexivity.
    + apply between_b. vm_compute. reflexivity.
    + apply in_int_b. vm_compute. reflexivity.
    + apply in_int_b. vm_compute. reflexivity.
    + apply Z.leb_le. vm_compute. reflexivity.
    + apply in_int_b. vm_compute. reflexivity.
    + apply Z.ltb_lt. vm_compute. reflexivity.
    + intros l Hl. apply Nat.ltb_lt.
      assert (E : forallb (fun l => Nat.ltb (length (layout_of 16 st_nap20_in
                                                       (QueueHead l))) 16)
                          (zrange 1 QSIZE) = true).
      { vm_compute. reflexivity. }
      exact (forallb_zrange _ _ _ E l Hl).
    + apply Nat.ltb_lt. vm_compute. reflexivity.
    + destruct Hnb as (_ & _ & _ & _ & Hacc).
      { apply Z.eqb_neq. vm_compute. reflexivity. }
      assert (Ec : (privlevel (procs st_nap20_in 0) <? QSIZE - 1) &&
                   (ticks (procs st_nap20_in 0) >=?
                    TA (privlevel (procs st_nap20_in 0))) = true).
      { vm_compute. reflexivity. }
      rewrite Ec in Hacc.
      exists s'. split; [exact Hrun|]. split; [exact Hst|].
      apply (eq_trans Hacc). vm_compute. reflexivity.
  - split; [vm_compute; reflexivity|]. split; [vm_compute; reflexivity|].
    pose proof (mlfqlogic_sleeping_accounting 16 0 st_nap50_in heads
                  (layout_of 16 st_nap50_in)) as H.
    cbv zeta in H.
    destruct H as (s' & Hrun & _ & Hst & _ & Hb).
    + apply mlfq_okb_sound. vm_compute. reflexivity.
    + apply pins_validb_sound. vm_compute. reflexivity.
    + apply existsb_node_true. vm_compute. reflexivity.
    + apply forallb_pqueue_sound. vm_compute. reflexivity.
    + apply existsb_node_true. vm_compute. reflexivity.
    + vm_compute. reflexivity.
    + apply between_b. vm_compute. reflexivity.
    + apply in_int_b. vm_compute. reflexivity.
    + apply in_int_b. vm_compute. reflexivity.
    + apply Z.leb_le. vm_compute. reflexivity.
    + apply in_int_b. vm_compute. reflexivity.
    + apply Z.ltb_lt. vm_compute. reflexivity.
    + intros l Hl. apply Nat.ltb_lt.
      assert (E : forallb (fun l => Nat.ltb (length (layout_of 16 st_nap50_in
                                                       (QueueHead l))) 16)
                          (zrange 1 QSIZE) = true).
      { vm_compute. reflexivity. }
      exact (forallb_zrange _ _ _ E l Hl).
    + apply Nat.ltb_lt. vm_compute. reflexivity.
    + destruct Hb as (Hpl & Hti & _).
      { vm_compute. reflexivity. }
      exists s'. split; [exact Hrun|]. split; [exact Hst|].
      split; [exact Hpl|exact Hti].
Defined.

(** The pass of slot 1, the root of the heap, is below [mlfq.pass]: the
    scheduler pops slot 1. *)
Lemma sched_pick_choice_run :
  minheap st_overtaken 1 = 1%nat /\
  exists s', sched_pick 16 st_overtaken = Done (Some (minheap st_overtaken 1), s') /\
             procs s' = procs st_overtaken.
Proof.
  destruct (sched_pick_choice 16 st_overtaken) as (_ & _ & H & _).
  - apply heap_propertyb_sound. vm_compute. reflexivity.
  - apply between_b. vm_compute. reflexivity.
  - split; [vm_compute; reflexivity|].
    destruct H as (s' & Hrun & _ & _ & _ & Hp).
    + exists 1%nat. split.
      * apply existsb_nat_true. vm_compute. reflexivity.
      * apply Z.ltb_lt. vm_compute. reflexivity.
    + exists s'. split; [exact Hrun|exact Hp].
Defined.

(** All three processes are asleep and slot 1, in the heap, is not due:
    the round runs nothing and [mlfq.pass] goes up by [STRD(70)].  Late
    in the run, with [mlfq.pass] over the barrier, the idle round
    rebases: the pass of slot 1 loses [mlfq.pass], and [mlfq.pass] is
    [STRD(70)] afterwards. *)
Lemma scheduler_idle_round_run :
  scheduler_round 16 swtch_yield st_asleep =
    Done (with_mlfq_pass (mlfq_pass st_asleep + STRD (mlfq_tickets st_asleep))
                         st_asleep) /\
  heap_elems st_idle_over = [1%nat] /\
  exists s',
    scheduler_round 16 swtch_yield st_idle_over = Done s' /\
    mlfq_pass s' = STRD (mlfq_tickets st_idle_over) /\
    ppass s' 1 = sub32 (ppass st_idle_over 1) (mlfq_pass st_idle_over).
Proof.
  assert (Hempty : forall s l,
            forallb (fun l => match layout_of 16 s (QueueHead l) with
                              | [] => true
                              | _ => false
                              end) (zrange 0 QSIZE) = true ->
            0 <= l < QSIZE -> no_runnable s (layout_of 16 s) l).
  { intros s l E Hl p Hp.
    pose proof (forallb_zrange _ _ _ E l Hl) as E'. cbv beta in E'.
    destruct (layout_of 16 s (QueueHead l)); [destruct Hp|discriminate E']. }
  split; [|split; [vm_compute; reflexivity|]].
  - destruct (scheduler_idle_round 16 swtch_yield st_asleep heads
                (layout_of 16 st_asleep))
      as (s' & Hrun & _ & _ & Hle & _).
    + apply mlfq_okb_sound. vm_compute. reflexivity.
    + apply pins_validb_sound. vm_compute. reflexivity.
    + apply existsb_node_true. vm_compute. reflexivity.
    + apply forallb_pqueue_sound. vm_compute. reflexivity.
    + apply nodupb_nat_sound. vm_compute. reflexivity.
    + intros l Hl. apply Nat.ltb_lt.
      assert (E : forallb (fun l => Nat.ltb (length (layout_of 16 st_asleep
                                                       (QueueHead l))) 16)
                          (zrange 0 QSIZE) = true).
      { vm_compute. reflexivity. }
      exact (forallb_zrange _ _ _ E l Hl).
    + apply Nat.ltb_lt. vm_compute. reflexivity.
    + intros l Hl. apply Hempty; [|exact Hl]. vm_compute. reflexivity.
    + apply Z.leb_le. vm_compute. reflexivity.
    + apply in_int_b. vm_compute. reflexivity.
    + apply in_int_b. vm_compute. reflexivity.
    + rewrite Hrun. f_equal. apply Hle. apply Z.leb_le. vm_compute. reflexivity.
  - destruct (scheduler_idle_round 16 swtch_yield st_idle_over heads
                (layout_of 16 st_idle_over))
      as (s' & Hrun & _ & _ & _ & Hgt).
    + apply mlfq_okb_sound. vm_compute. reflexivity.
    + apply pins_validb_sound. vm_compute. reflexivity.
    + apply existsb_node_true. vm_compute. reflexivity.
    + apply forallb_pqueue_sound. vm_compute. reflexivity.
    + apply nodupb_nat_sound. vm_compute. reflexivity.
    + intros l Hl. apply Nat.ltb_lt.
      assert (E : forallb (fun l => Nat.ltb (length (layout_of 16 st_idle_over
                                                       (QueueHead l))) 16)
                          (zrange 0 QSIZE) = true).
      { vm_compute. reflexivity. }
      exact (forallb_zrange _ _ _ E l Hl).
    + apply Nat.ltb_lt. vm_compute. reflexivity.
    + intros l Hl. apply Hempty; [|exact Hl]. vm_compute. reflexivity.
    + apply Z.leb_le. vm_compute. reflexivity.
    + apply in_int_b. vm_compute. reflexivity.
    + apply in_int_b. vm_compute. reflexivity.
    + destruct Hgt as (Hmp & Hin & _).
      { apply Z.lt_gt. apply Z.ltb_lt. vm_compute. reflexivity. }
      exists s'. split; [exact Hrun|]. split; [exact Hmp|].
      apply Hin. apply existsb_nat_true. vm_compute. reflexivity.
Defined.

(** Slot 1 exits as a stride process: [exit] returns and [sched] finds
    a ZOMBIE. *)
Lemma sched_state_check_run :
  exists s', exit 16 1 st_share = Done s' /\ sched 1 s' = Done s'.
Proof.
  destruct (sched_state_check 16 1 NoChan 0 st_share heads (layout_of 16 st_share))
    as (_ & _ & H & _).
  - apply lists_okb_sound. vm_compute. reflexivity.
  - apply existsb_node_true. vm_compute. reflexivity.
  - apply existsb_node_true. vm_compute. reflexivity.
  - apply sleepers_okb_sound. vm_compute. reflexivity.
  - apply sleepers_sleepingb_sound. vm_compute. reflexivity.
  - unfold children_ok. apply forallb_psibling_sound. vm_compute. reflexivity.
  - vm_compute. reflexivity.
  - intros E. discriminate E.
  - apply Nat.ltb_lt. vm_compute. reflexivity.
  - apply Nat.ltb_lt. vm_compute. reflexivity.
  - exact H.
Defined.

(** The running slot 1 asks for a share of 30: it becomes a stride
    process with pass 10485, the pass of the MLFQ side. *)
Lemma set_cpu_share_moves_caller_run :
  ptype (fst (set_cpu_share 1 30 st_running)) 1 = STRIDE /\
  tickets (procs (fst (set_cpu_share 1 30 st_running)) 1) = 30 /\
  ppass (fst (set_cpu_share 1 30 st_running)) 1 =
    Z.min (getminpass st_running) (mlfq_pass st_running) /\
  heap_elems (fst (set_cpu_share 1 30 st_running)) = heap_elems st_running.
Proof.
  pose proof (set_cpu_share_moves_caller 1 30 st_running heads
                (layout_of 16 st_running) [] [PQueue 2]) as H.
  cbv zeta in H.
  destruct H as (_ & _ & Hty & Htk & Hpass & _ & Hheap & _).
  - apply mlfq_okb_sound. vm_compute. reflexivity.
  - apply pins_validb_sound. vm_compute. reflexivity.
  - apply existsb_node_true. vm_compute. reflexivity.
  - vm_compute. reflexivity.
  - apply between_b. vm_compute. reflexivity.
  - vm_compute. reflexivity.
  - vm_compute. reflexivity.
  - split; [exact Hty|]. split; [exact Htk|]. split; [exact Hpass|exact Hheap].
Defined.

(** The zeroed kernel image: the first process is slot 0 with pid 1;
    without a kernel stack [userinit] faults, and without a page table
    it panics. *)
Lemma boot_first_process_run :
  userinit false true (pinit boot) = Fail EWild /\
  userinit true false (pinit boot) = Fail EPanic /\
  exists s', userinit true true (pinit boot) = Done s' /\
             initproc s' = Some 0%nat /\ nextpid s' = nextpid boot + 1.
Proof.
  destruct (boot_first_process true true boot) as (_ & H).
  destruct H as (Hk & Hv & H).
  - apply Nat.ltb_lt. vm_compute. reflexivity.
  - apply in_int_b. vm_compute. reflexivity.
  - split; [exact Hk|]. split; [exact Hv|].
    destruct H as (s' & Hrun & Hi & _ & _ & Hn & _).
    + apply between_b. vm_compute. reflexivity.
    + exists s'. split; [exact Hrun|]. split; [exact Hi|exact Hn].
Defined.

(** The woken slot 1 is run and yields: its pass goes up by
    [STRD(30)] and it is back in the heap. *)
Lemma stride_round_yield_run :
  exists s',
    scheduler_round 16 swtch_yield st_woken = Done s' /\
    pstate s' (minheap st_woken 1) = RUNNABLE /\
    ppass s' (minheap st_woken 1) =
      ppass st_woken (minheap st_woken 1) +
      STRD (tickets (procs st_woken (minheap st_woken 1))) /\
    Permutation (heap_elems s') (heap_elems st_woken).
Proof.
  destruct (stride_round_yield 16 st_woken heads (layout_of 16 st_woken))
    as (s' & Hrun & _ & Hst & Hpass & Hperm & _).
  - apply lists_okb_sound. vm_compute. reflexivity.
  - apply existsb_node_true. vm_compute. reflexivity.
  - apply forallb_pqueue_sound. vm_compute. reflexivity.
  - apply Nat.ltb_lt. vm_compute. reflexivity.
  - apply nodupb_nat_sound. vm_compute. reflexivity.
  - apply Z.ltb_lt. vm_compute. reflexivity.
  - apply between_b. vm_compute. reflexivity.
  - vm_compute. reflexivity.
  - vm_compute. reflexivity.
  - apply off_listsb_sound. vm_compute. reflexivity.
  - apply in_int_b. vm_compute. reflexivity.
  - exists s'. split; [exact Hrun|]. split; [exact Hst|].
    split; [exact Hpass|exact Hperm].
Defined.

(** Slot 1 exits with its child in slot 3: the child goes to init,
    behind slots 1 and 2. *)
Lemma exit_reparents_run :
  exists s' L',
    exit 16 1 st_parent = Done s' /\ pstate s' 1 = ZOMBIE /\
    parent (procs s' 3) = Some 0%nat /\
    L' (PChildren 1) = [] /\
    L' (PChildren 0) =
      layout_of 16 st_parent (PChildren 0) ++ layout_of 16 st_parent (PChildren 1).
Proof.
  destruct (exit_reparents 16 1 0 st_parent heads (layout_of 16 st_parent)
              (QueueHead 0))
    as (s' & L' & Hrun & _ & Hz & _ & Hc & H0 & _ & Hpar & _).
  - apply lists_okb_sound. vm_compute. reflexivity.
  - apply existsb_node_true. vm_compute. reflexivity.
  - apply existsb_node_true. vm_compute. reflexivity.
  - apply existsb_node_true. vm_compute. reflexivity.
  - apply sleepers_okb_sound. vm_compute. reflexivity.
  - apply sleepers_sleepingb_sound. vm_compute. reflexivity.
  - unfold children_ok. apply forallb_psibling_sound. vm_compute. reflexivity.
  - vm_compute. reflexivity.
  - intros E. discriminate E.
  - apply existsb_node_true. vm_compute. reflexivity.
  - intros E. discriminate E.
  - intros i E. discriminate E.
  - apply existsb_node_true. vm_compute. reflexivity.
  - apply Nat.ltb_lt. vm_compute. reflexivity.
  - apply Nat.ltb_lt. vm_compute. reflexivity.
  - exists s', L'. split; [exact Hrun|]. split; [exact Hz|].
    split; [|split; [exact Hc|exact H0]].
    apply Hpar. apply existsb_node_true. vm_compute. reflexivity.
Defined.

End RunsMore.
